(* ===== verification/_CoqProject ===== *)
-Q . S2P
Prelude.v
Errors.v
Framing.v
Utf8.v
Runtime.v
Json.v
Identifiers.v
Message.v
Profile.v
ProfileYaml.v
Config.v
Transport.v
Sockets.v
Metrics.v
TlsContext.v
Capabilities.v
JsonLaws.v
LineWriter.v
Gate.v
Server.v
ServerLoop.v
ServerSpec.v
ServerPool.v
Service.v
Client.v
ClientSpec.v
Session.v
Bounds.v
Benchmark.v
Output.v
Cli.v
Main.v
MainSpec.v
Usage.v
Console.v
Startup.v
Objects.v
Load.v
