(* ===== verification/Prelude.v ===== *)
(** * pqtls-lab: a verification of the protocol library, the server and the client

    pqtls-lab is a laboratory for hybrid post-quantum TLS 1.3: a C++ library
    ([src/common], [include/pqtls]), a server and a client built on it, and a
    benchmark driver.  Messages are JSON documents in length-prefixed frames
    over TLS; a security profile says which TLS groups may be negotiated, and
    both peers check the group and the peer's certificate after the handshake
    and before any application data.

    ** How the program is modelled

    Pure functions are functions.  Code that throws returns a [result] (an
    exception is a value of [exn]); code with effects is a state monad with
    exceptions, [M] of [Errors], over the runtime state [St] of [Runtime]: an
    abstract world, the thread's OpenSSL error queue, and a log of events that
    no code reads and the theorems speak about (what was opened, closed, sent,
    set on a context, given to the metrics stream, logged and printed, with
    the return codes that matter).  Library and system calls
    (OpenSSL, sockets, clocks, files, the JSON and YAML libraries) are members
    of type classes over that world, so every theorem holds for every
    behaviour of theirs; what a theorem needs of a library is a law class
    ([SslLaws], [JsonLaws]) or a hypothesis.  Each such class has a small concrete
    instance that the witnesses evaluate.  Machine integers are [Z] with their
    wrap-around written out ([to_u32], [to_u64], [to_i32]); bytes are [byte]; doubles
    are IEEE binary64 values.  Strings are passed to library functions whole;
    what such a function does with an embedded NUL is its own behaviour.
    Threads are step relations over shared state.

    ** Files

    - [Prelude]: integers, strings, decimal printing, tactics, hint database.
    - [Errors]: [error.cpp]; exceptions, exit codes, the monad and its rules.
    - [Framing]: [framing::encode], [decode_length] and [Decoder] of
      [application_protocol.cpp]; module [Stream] is their specification.
    - [Utf8]: [is_valid_utf8] against the encoding of scalar values.
    - [Runtime]: state, events (those of the logger among them), external calls,
      [drain_openssl_errors].
    - [Json], [Identifiers], [Message]: JSON values, [generate_uuid_v4],
      [iso8601_now], [Message::parse], [to_json] and the constructors.
    - [Profile], [ProfileYaml]: [security_profile.cpp], the policy, the
      registry and its YAML reader.
    - [Config]: [config.cpp], loading and validation.
    - [Transport]: [transport.cpp], sockets and TLS reads and writes.
    - [Sockets]: the [Socket] class of [transport.hpp] under any sequence of
      moves, releases and destructions.
    - [Metrics]: [metrics.cpp], the record, the writer, the stopwatch.
    - [JsonLaws]: what is relied on from the JSON library, with an instance.
    - [LineWriter]: [MetricsWriter] and [keylog_callback] between threads, with
      the mutex, the stream buffer and its failures.
    - [TlsContext]: [tls_context.cpp], contexts, the ALPN callback and the
      post-handshake checks.
    - [Gate]: sending and receiving messages, and the vocabulary of the
      property that application data follows the checks; used by both peers.
    - [Server], [ServerLoop], [ServerSpec]: [handle_connection] of
      [server.cpp], its loop and its theorems.
    - [ServerPool]: [run], [stop], [worker_loop] and the destructor of
      [server.cpp].
    - [Service]: the pool with the handlers its workers run, and the signal
      handler of the server's [main.cpp].
    - [Client], [ClientSpec]: [connect_and_exchange] and [run_once] of
      [client.cpp].
    - [Session]: a client connection and a server connection joined by a
      channel.
    - [Bounds]: the sizes and timeouts of both connections.
    - [Benchmark]: the worker function of [run_benchmark] of [client.cpp] on
      its shared variables.
    - [Capabilities]: [capabilities.cpp], what the OpenSSL build offers.
    - [Output]: what the programs print: usage texts, reports, the banner, and
      the format of numbers.
    - [Cli], [Main], [MainSpec]: [cli_support.hpp] and the two [main.cpp].
    - [Usage], [Console]: the usage texts against the programs; stdout, stderr
      and the exit status as a caller sees them.
    - [Startup]: what the commands start the running parts with.
    - [Objects]: the lifetimes of the OpenSSL objects, over connections and over
      whole runs of the programs.
    - [Load]: the benchmark threads with the clients they own, and the thread
      that creates and joins them.

    ** What the theorems show

    - Framing and messages: frames cut into arbitrary chunks are reassembled
      exactly, on any input the decoder terminates within bounded memory and
      refines an abstract stream; parsing accepts exactly what passes the
      documented checks (for versions that fit an [int], which the code narrows
      to) and inverts serialisation; UTF-8 and the depth guard
      are exact.
    - Policy and configuration: profile creation, group policy, registry, YAML
      loading and validation are characterised exactly; a TLS context is
      returned only with the settings of its profile in place; production
      environments refuse the development options.
    - Peers: on both sides application data moves only after the handshake
      and the checks; the server loop answers frames in order and the client
      pairs requests with responses; both terminate and close what they open
      and, when the random generator works and the record can be serialised,
      give one record to the metrics stream that agrees with what was
      negotiated.  Joined by a
      channel that delivers prefixes of what was written, the two give every
      request of a successful run exactly the reply the protocol prescribes.
      With a validated configuration all sizes passed to libssl fit, and every
      blocking call, [::connect] included, is made with a timeout in force.
    - Files, descriptors, objects: the threads that share a metrics file or a
      key log append whole lines, from which the records can be read back;
      [Socket] objects close what they own exactly once; every OpenSSL object
      is freed exactly once, on every path of a connection (at the server
      before its descriptor is closed) and of a run of the programs that starts
      no threads.
    - Concurrency: the pool keeps its queue bounded and in order, loses no
      connection and no wake-up for one, and shuts down when its workers have
      been notified; a stop notification can nevertheless be lost, in [run] and
      in the destructor.  With the handlers as its workers' work, the pool
      handles every connection it takes exactly once, with the properties of
      a single connection.  The benchmark accounts for every requested
      connection, its summary has the results of the measured connections and
      no other, and its threads free what they create; if a thread cannot be
      created after another was, the process is terminated.
    - Programs: the command line is read as written, and its values override
      whatever lies below them, each its own setting; a report of the
      capabilities lists what was probed.  Every command but [benchmark] and
      [serve], which hand over to threads, ends with a documented exit status
      and frees what it created; status 0 of [connect] means a successful
      exchange; and with [--json] stdout has one document or nothing, and no log
      line, errors go to stderr, and document and status agree.  The banner of
      the insecure mode comes before any connection of [connect] and [serve];
      the usage texts agree with what is accepted.  The server, the benchmark
      and the connections are started only with configurations that are within
      their types and were validated, which are the hypotheses of the theorems
      above.  What [benchmark] and [serve] hand over to is an argument of these
      definitions, of which the theorems on them assume nothing: it is the
      subject of [Load], [ServerPool] and [Service].

    ** Bounds and fuel

    Three loops are not structural.  [write_loop] has the length of the buffer
    as fuel, since each successful write takes at least a byte; [app_loop] and
    [await_response] have [loop_fuel] and [await_fuel], derived from the
    message and frame limits, since a read adds at least a byte to a buffer
    that holds less than a frame.  [OutOfFuel] is an exception that no handler
    of the program catches, and the theorems show that it is never raised.
    A number that is printed is scaled with [scale_fuel], which is more than the
    decimal exponent of any double: by [print_double_digits] the six digits are
    those of the number, correctly rounded.

    ** Not modelled

    The log messages of [run] and of its workers (those of connections,
    contexts, commands and benchmark threads are events) and the text the logger makes of a message,
    the Windows branches and those for OpenSSL before 3.2, the
    references that OpenSSL objects hold to each other, a second [run] on one
    server object, failures of stdout and stderr, and allocation failure.
    [initialize_openssl] is modelled as making its calls each time; the
    [std::call_once] around them makes fewer.
    The tests, the Python and shell tooling and the deployment files are not
    part of the program. *)

From Stdlib Require Export ZArith Lia String Ascii.
From Stdlib Require Import Strings.Byte DecimalString DecimalZ DecimalN.
From stdpp Require Export base tactics list option strings numbers.
Open Scope Z_scope.

(** ** Scope and hint databases of the development *)

Declare Scope pqtls_scope.
Delimit Scope pqtls_scope with pqtls.
Open Scope pqtls_scope.

Create HintDb pqtls.
Create Rewrite HintDb pqtls.

(** ** Machine integers

    A w-bit unsigned C++ integer is a [Z]; the conversions written in the
    source as [static_cast] reduce modulo the width. *)

Definition u8_max : Z := 255.
Definition u16_max : Z := 65535.
Definition u32_max : Z := 4294967295.
Definition u64_max : Z := 18446744073709551615.
Definition int_max : Z := 2147483647.
Definition int_min : Z := -2147483648.

Definition to_u8 (z : Z) : Z := z mod 256.
Definition to_u16 (z : Z) : Z := z mod 65536.
Definition to_u32 (z : Z) : Z := z mod 4294967296.
Definition to_u64 (z : Z) : Z := z mod 18446744073709551616.

(** [static_cast<int>]: two's complement. *)
Definition to_i32 (z : Z) : Z := (z + 2147483648) mod 4294967296 - 2147483648.

Definition is_u16 (z : Z) : Prop := 0 <= z <= u16_max.
Definition is_u32 (z : Z) : Prop := 0 <= z <= u32_max.
Definition is_u64 (z : Z) : Prop := 0 <= z <= u64_max.
Definition is_i32 (z : Z) : Prop := int_min <= z <= int_max.

(** ** Bytes

    [std::uint8_t] in a buffer is [Byte.byte]; arithmetic goes through [Z]. *)

Abbreviation byte := Byte.byte.

Definition byte_to_Z (b : byte) : Z := Z.of_N (Byte.to_N b).

Definition byte_of_Z (z : Z) : byte :=
  match Byte.of_N (Z.to_N (to_u8 z)) with
  | Some b => b
  | None => Byte.x00
  end.

(** ** Strings

    [std::string] and [std::string_view] are [string], a sequence of bytes. *)

Definition str_size (s : string) : Z := Z.of_nat (String.length s).
Definition str_empty (s : string) : bool := String.eqb s "".
Definition bytes_of_string (s : string) : list byte := String.list_byte_of_string s.
Definition string_of_bytes (l : list byte) : string := String.string_of_list_byte l.
Definition starts_with (s p : string) : bool := String.prefix p s.

(** [std::to_string] on an integer. *)
Definition std_to_string (z : Z) : string := NilZero.string_of_int (Z.to_int z).

(** [std::string::find(needle) != npos]. *)
Fixpoint str_contains (s needle : string) : bool :=
  String.prefix needle s ||
  match s with
  | EmptyString => false
  | String _ s' => str_contains s' needle
  end.

(** [join]: the elements separated by [sep], no leading or trailing one. *)
Fixpoint str_join (sep : string) (l : list string) : string :=
  match l with
  | [] => ""
  | [s] => s
  | s :: l' => s +:+ sep +:+ str_join sep l'
  end.

Lemma append_assoc (a b c : string) : (a +:+ b) +:+ c = a +:+ (b +:+ c).
Proof. induction a as [|x a IH]; [done|]. exact (f_equal (String x) IH). Qed.

(** [std::any_of] and [std::find_if] over a vector. *)
Definition any_of {A} (l : list A) (p : A -> bool) : bool := existsb p l.
Definition find_if {A} (l : list A) (p : A -> bool) : option A := List.find p l.

(** ** Tactics *)

(** Split every [if] and [match] of the goal, keeping the equations. *)
Ltac split_cases :=
  repeat match goal with
  | |- context [match ?x with _ => _ end] => destruct x eqn:?
  end.

(** The same in the hypotheses. *)
Ltac split_cases_in H :=
  repeat match type of H with
  | context [match ?x with _ => _ end] => destruct x eqn:?
  end.

(** [lia] with division and remainder by constants. *)
Ltac dlia := Z.to_euclidean_division_equations; lia.

(** Split conjunctions, and nothing else (records stay whole). *)
Ltac splits := repeat match goal with |- _ /\ _ => split end.

(** Boolean facts to propositions. *)
Ltac bool_props :=
  repeat match goal with
  | H : (_ && _)%bool = true |- _ => apply andb_true_iff in H; destruct H
  | H : (_ || _)%bool = false |- _ => apply orb_false_iff in H; destruct H
  | H : negb _ = true |- _ => apply negb_true_iff in H
  | H : negb _ = false |- _ => apply negb_false_iff in H
  | H : String.eqb _ _ = true |- _ => apply String.eqb_eq in H
  | H : String.eqb _ _ = false |- _ => apply String.eqb_neq in H
  | H : str_empty _ = true |- _ => apply String.eqb_eq in H
  | H : str_empty _ = false |- _ => apply String.eqb_neq in H
  | H : (_ <? _) = true |- _ => apply Z.ltb_lt in H
  | H : (_ <? _) = false |- _ => apply Z.ltb_ge in H
  | H : (_ <=? _) = true |- _ => apply Z.leb_le in H
  | H : (_ <=? _) = false |- _ => apply Z.leb_gt in H
  | H : (_ >? _) = true |- _ => apply Z.gtb_lt in H
  | H : (_ >? _) = false |- _ => rewrite Z.gtb_ltb in H; apply Z.ltb_ge in H
  | H : (_ =? _) = true |- _ => apply Z.eqb_eq in H
  | H : (_ =? _) = false |- _ => apply Z.eqb_neq in H
  end.

(** ** Lemmas on integers and bytes *)

Lemma to_u32_small z : is_u32 z -> to_u32 z = z.
Proof. unfold is_u32, u32_max, to_u32. intros; apply Z.mod_small; lia. Qed.

Lemma to_u64_small z : is_u64 z -> to_u64 z = z.
Proof. unfold is_u64, u64_max, to_u64. intros; apply Z.mod_small; lia. Qed.

Lemma to_i32_small z : is_i32 z -> to_i32 z = z.
Proof. unfold is_i32, int_min, int_max, to_i32. intros. rewrite Z.mod_small; lia. Qed.

Lemma to_u8_range z : 0 <= to_u8 z < 256.
Proof. unfold to_u8. apply Z.mod_pos_bound. lia. Qed.

Lemma byte_to_Z_range b : 0 <= byte_to_Z b < 256.
Proof.
  unfold byte_to_Z. pose proof (Byte.to_N_bounded b). lia.
Qed.

Lemma byte_to_of_Z z : byte_to_Z (byte_of_Z z) = to_u8 z.
Proof.
  unfold byte_of_Z, byte_to_Z. pose proof (to_u8_range z).
  destruct (Byte.of_N (Z.to_N (to_u8 z))) eqn:E.
  - apply Byte.to_of_N in E. rewrite E, Z2N.id by lia. done.
  - apply Byte.of_N_None_iff in E. lia.
Qed.

Lemma byte_of_to_Z b : byte_of_Z (byte_to_Z b) = b.
Proof.
  unfold byte_of_Z, byte_to_Z. pose proof (Byte.to_N_bounded b).
  unfold to_u8. rewrite Z.mod_small, N2Z.id by lia. by rewrite Byte.of_to_N.
Qed.

(** A property of every byte can be decided by running through all of them. *)
Definition all_bytes : list byte :=
  List.map (fun n => byte_of_Z (Z.of_nat n)) (List.seq 0 256).

Lemma all_bytes_complete b : In b all_bytes.
Proof.
  unfold all_bytes. apply in_map_iff. exists (Z.to_nat (byte_to_Z b)).
  pose proof (byte_to_Z_range b).
  rewrite Z2Nat.id by lia. split; [apply byte_of_to_Z|].
  apply in_seq. lia.
Qed.

Lemma byte_forall (p : byte -> bool) :
  forallb p all_bytes = true -> forall b, p b = true.
Proof. intros H b. rewrite forallb_forall in H. apply H, all_bytes_complete. Qed.

(** Or-ing a shifted word with bits below the shift is an addition. *)
Lemma lor_shiftl_add a b n :
  0 <= n -> 0 <= a -> 0 <= b < 2 ^ n -> Z.lor (Z.shiftl a n) b = a * 2 ^ n + b.
Proof.
  intros Hn Ha Hb. rewrite Z.shiftl_mul_pow2 by lia.
  rewrite Z.add_nocarry_lxor, Z.lxor_lor; try done.
  all: apply Z.bits_inj'; intros i Hi; rewrite Z.land_spec, Z.bits_0.
  all: destruct (Z.lt_ge_cases i n) as [Hin|Hin];
    [rewrite Z.mul_pow2_bits_low by lia; done|].
  all: destruct (Z.eq_dec b 0) as [->|]; [by rewrite Z.bits_0, andb_false_r|].
  all: rewrite (Z.bits_above_log2 b i), andb_false_r; [done|lia|].
  all: apply Z.log2_lt_pow2; [lia|]; apply Z.lt_le_trans with (2 ^ n); [lia|];
    apply Z.pow_le_mono_r; lia.
Qed.

Lemma land_255 z : Z.land z 255 = z mod 256.
Proof. change 255 with (Z.ones 8). rewrite Z.land_ones by lia. done. Qed.

(** ** Lemmas on strings *)

Lemma str_size_nonneg s : 0 <= str_size s.
Proof. unfold str_size. lia. Qed.

Lemma str_size_0 s : str_size s = 0 <-> s = "".
Proof. unfold str_size. destruct s; simpl; split; intros; (done || lia). Qed.

Lemma str_empty_true s : str_empty s = true <-> s = "".
Proof. apply String.eqb_eq. Qed.

Lemma str_empty_false s : str_empty s = false <-> s <> "".
Proof. apply String.eqb_neq. Qed.

Lemma bytes_of_string_of_bytes l : bytes_of_string (string_of_bytes l) = l.
Proof. apply String.list_byte_of_string_of_list_byte. Qed.

Lemma string_of_bytes_of_string s : string_of_bytes (bytes_of_string s) = s.
Proof. apply String.string_of_list_byte_of_string. Qed.

Lemma bytes_of_string_length s : length (bytes_of_string s) = String.length s.
Proof.
  unfold bytes_of_string, String.list_byte_of_string. rewrite List.length_map.
  induction s; simpl; auto.
Qed.

#[export] Hint Rewrite bytes_of_string_of_bytes string_of_bytes_of_string : pqtls.

(** ** Lemmas on lists *)

Lemma take_drop_app {A} (l : list A) n m :
  take n (drop m l) ++ drop (m + n) l = drop m l.
Proof. rewrite <- drop_drop. apply take_drop. Qed.

Lemma any_of_true {A} (l : list A) p :
  any_of l p = true <-> exists x, In x l /\ p x = true.
Proof. apply existsb_exists. Qed.

Lemma any_of_false {A} (l : list A) p :
  any_of l p = false <-> forall x, In x l -> p x = false.
Proof.
  unfold any_of. rewrite <- not_true_iff_false, existsb_exists. split.
  - intros H x Hx. apply not_true_iff_false. naive_solver.
  - intros H (x & Hx & Hp). specialize (H x Hx). congruence.
Qed.

Lemma find_if_app {A} (l k : list A) p :
  find_if (l ++ k) p = match find_if l p with Some x => Some x | None => find_if k p end.
Proof. unfold find_if. induction l as [|x l IH]; simpl; [done|]. by destruct (p x). Qed.

(** Two decisions that agree on every element agree on the list. *)
Lemma any_of_ext {A} (l : list A) p q :
  (forall x, In x l -> p x = q x) -> any_of l p = any_of l q.
Proof.
  unfold any_of. induction l as [|x l IH]; intros H; simpl; [done|].
  rewrite (H x (or_introl eq_refl)), IH; [done|].
  intros y Hy. apply H. by right.
Qed.

(** Replacing an element changes what is selected by that element. *)
Lemma omap_insert_perm {A B} (f : A -> option B) (l : list A) (i : nat) (x y : A) :
  l !! i = Some x ->
  option_list (f y) ++ omap f l ≡ₚ option_list (f x) ++ omap f (<[i := y]> l).
Proof.
  revert i. induction l as [|z l IH]; intros [|i] H; simplify_eq/=.
  - destruct (f x), (f y); simpl; auto using Permutation_swap.
  - specialize (IH i H). destruct (f z) as [p|]; simpl; [|done].
    rewrite <- !Permutation_middle. by constructor.
Qed.

(** Or-ing bits below the lowest bit of a multiple of a power of two. *)
Lemma lor_low k b n :
  0 <= n -> 0 <= k -> 0 <= b < 2 ^ n -> Z.lor (k * 2 ^ n) b = k * 2 ^ n + b.
Proof.
  intros. rewrite <- (Z.shiftl_mul_pow2 k n) at 1 by lia. by apply lor_shiftl_add.
Qed.
