(* ===== verification/Errors.v ===== *)
(** The error taxonomy of [include/pqtls/error.hpp] and [src/common/error.cpp]:
    categories, exit codes, the [Error] object, the exceptions a computation
    can end with, and the two monads the other files are written in:
    [result] (a value or an exception) and [M S] (the same, threading a
    mutable state [S] that survives an exception). *)

From S2P Require Import Prelude.

(** ** Data *)

Inductive ErrorCategory :=
  | CatNone
  | CatConfiguration
  | CatCapability
  | CatCertificate
  | CatTlsPolicy
  | CatHandshake
  | CatNetwork
  | CatProtocol
  | CatTimeout
  | CatInternal.

#[export] Instance ErrorCategory_eq_dec : EqDecision ErrorCategory.
Proof. solve_decision. Defined.

Definition all_error_categories : list ErrorCategory :=
  [CatNone; CatConfiguration; CatCapability; CatCertificate; CatTlsPolicy;
   CatHandshake; CatNetwork; CatProtocol; CatTimeout; CatInternal].

Inductive ExitCode :=
  | ExitSuccess
  | ExitConfigurationError
  | ExitCapabilityError
  | ExitCertificateError
  | ExitTlsPolicyError
  | ExitHandshakeError
  | ExitNetworkError
  | ExitProtocolError
  | ExitTimeoutError
  | ExitInternalError.

(** [static_cast<int>] of an [ExitCode]. *)
Definition exit_code_int (c : ExitCode) : Z :=
  match c with
  | ExitSuccess => 0
  | ExitConfigurationError => 2
  | ExitCapabilityError => 3
  | ExitCertificateError => 4
  | ExitTlsPolicyError => 5
  | ExitHandshakeError => 6
  | ExitNetworkError => 7
  | ExitProtocolError => 8
  | ExitTimeoutError => 9
  | ExitInternalError => 70
  end.

Definition ErrorCategory_to_string (category : ErrorCategory) : string :=
  match category with
  | CatNone => "none"
  | CatConfiguration => "configuration"
  | CatCapability => "capability"
  | CatCertificate => "certificate"
  | CatTlsPolicy => "tls-policy"
  | CatHandshake => "handshake"
  | CatNetwork => "network"
  | CatProtocol => "protocol"
  | CatTimeout => "timeout"
  | CatInternal => "internal"
  end.

Definition error_category_from_string (name : string) : ErrorCategory :=
  if String.eqb name "none" then CatNone
  else if String.eqb name "configuration" then CatConfiguration
  else if String.eqb name "capability" then CatCapability
  else if String.eqb name "certificate" then CatCertificate
  else if String.eqb name "tls-policy" then CatTlsPolicy
  else if String.eqb name "handshake" then CatHandshake
  else if String.eqb name "network" then CatNetwork
  else if String.eqb name "protocol" then CatProtocol
  else if String.eqb name "timeout" then CatTimeout
  else CatInternal.

Definition exit_code_for (category : ErrorCategory) : ExitCode :=
  match category with
  | CatNone => ExitSuccess
  | CatConfiguration => ExitConfigurationError
  | CatCapability => ExitCapabilityError
  | CatCertificate => ExitCertificateError
  | CatTlsPolicy => ExitTlsPolicyError
  | CatHandshake => ExitHandshakeError
  | CatNetwork => ExitNetworkError
  | CatProtocol => ExitProtocolError
  | CatTimeout => ExitTimeoutError
  | CatInternal => ExitInternalError
  end.

(** The [Error] object: what its constructor stores. *)
Record Error := mkError {
  err_category : ErrorCategory;
  err_message : string;
  err_details : list string;
  err_what : string
}.

Definition Error_make (category : ErrorCategory) (message : string)
    (details : list string) : Error :=
  mkError category message details
    ("[" +:+ ErrorCategory_to_string category +:+ "] " +:+ message).

Definition Error_format (e : Error) : string :=
  fold_left (fun out detail => out +:+ String "010" "  - " +:+ detail)
    (err_details e)
    ("error(" +:+ ErrorCategory_to_string (err_category e) +:+ "): " +:+ err_message e).

(** Build information generated by the build; [version_banner] prints it. *)
Record BuildInfo := mkBuildInfo {
  kVersion : string;
  kGitCommit : string;
  kBuildType : string;
  kCompilerId : string;
  kCompilerVersion : string
}.

Definition version_banner (info : BuildInfo) : string :=
  "pqtls-lab " +:+ kVersion info +:+ " (commit " +:+ kGitCommit info +:+ ", "
    +:+ kBuildType info +:+ ", " +:+ kCompilerId info +:+ " "
    +:+ kCompilerVersion info +:+ ")".

(** ** Exceptions

    [Raise true e] is one of the final classes of [PQTLS_DEFINE_ERROR]
    (its category names the class), [Raise false e] the base class [Error]
    itself, as [openssl_error] produces it, and [RaiseStd w] any other
    [std::exception], of which only [what()] is observable.  [OutOfFuel] is
    not an exception of the program: it marks a loop of the model that used up
    its bound, no handler catches it, and the theorems about a loop show that
    it does not occur. *)
Inductive exn :=
  | Raise (final : bool) (e : Error)
  | RaiseStd (what : string)
  | OutOfFuel.

Definition throw_class (category : ErrorCategory) (message : string)
    (details : list string) : exn :=
  Raise true (Error_make category message details).

Definition ConfigurationError (m : string) : exn := throw_class CatConfiguration m [].
Definition CapabilityError (m : string) (d : list string) : exn := throw_class CatCapability m d.
Definition CertificateError (m : string) (d : list string) : exn := throw_class CatCertificate m d.
Definition TlsPolicyError (m : string) (d : list string) : exn := throw_class CatTlsPolicy m d.
Definition HandshakeError (m : string) (d : list string) : exn := throw_class CatHandshake m d.
Definition NetworkError (m : string) (d : list string) : exn := throw_class CatNetwork m d.
Definition ProtocolError (m : string) : exn := throw_class CatProtocol m [].
Definition TimeoutError (m : string) (d : list string) : exn := throw_class CatTimeout m d.
Definition InternalError (m : string) (d : list string) : exn := throw_class CatInternal m d.

(** What the handlers [catch (const Error&)] / [catch (const std::exception&)]
    at the top of both binaries and of every connection record: the category
    of a project error, [Internal] for anything else. *)
Definition exn_category (x : exn) : ErrorCategory :=
  match x with
  | Raise _ e => err_category e
  | _ => CatInternal
  end.

(** [e.message()] for a project error, [e.what()] otherwise. *)
Definition exn_message (x : exn) : string :=
  match x with
  | Raise _ e => err_message e
  | RaiseStd w => w
  | OutOfFuel => ""
  end.

(** [e.what()] on any [std::exception]. *)
Definition exn_what (x : exn) : string :=
  match x with
  | Raise _ e => err_what e
  | RaiseStd w => w
  | OutOfFuel => ""
  end.

(** [catch (const ProtocolError&)]: exactly the final class. *)
Definition is_ProtocolError (x : exn) : bool :=
  match x with
  | Raise true e => bool_decide (err_category e = CatProtocol)
  | _ => false
  end.

(** [catch (const Error&)]: every project error. *)
Definition is_Error (x : exn) : bool :=
  match x with Raise _ _ => true | _ => false end.

(** [catch (const std::exception&)]: every exception. *)
Definition is_exception (x : exn) : bool :=
  match x with OutOfFuel => false | _ => true end.

(** ** The result monad *)

Inductive result (A : Type) :=
  | Ok (a : A)
  | Throw (x : exn).
Arguments Ok {A} a.
Arguments Throw {A} x.

#[export] Instance result_ret : MRet result := @Ok.
#[export] Instance result_bind : MBind result := fun A B k m =>
  match m with Ok a => k a | Throw x => Throw x end.

Definition is_ok {A} (r : result A) : bool :=
  match r with Ok _ => true | Throw _ => false end.

(** [if (cond) throw x;] *)
Definition throw_if (cond : bool) (x : exn) : result unit :=
  if cond then Throw x else Ok tt.

(** [for (x : l) body(x);] over a fallible body. *)
Fixpoint for_each {A} (l : list A) (body : A -> result unit) : result unit :=
  match l with
  | [] => Ok tt
  | x :: l' => body x ;; for_each l' body
  end.

Fixpoint map_result {A B} (f : A -> result B) (l : list A) : result (list B) :=
  match l with
  | [] => Ok []
  | x :: l' => y ← f x; ys ← map_result f l'; Ok (y :: ys)
  end.

(** ** The state and exception monad *)

Definition M (S A : Type) : Type := S -> result A * S.

Section monad.
Context {S : Type}.

#[global] Instance M_ret : MRet (M S) := fun A a s => (Ok a, s).
#[global] Instance M_bind : MBind (M S) := fun A B k m s =>
  match m s with
  | (Ok a, s') => k a s'
  | (Throw x, s') => (Throw x, s')
  end.

Definition throwM {A} (x : exn) : M S A := fun s => (Throw x, s).
Definition liftM {A} (r : result A) : M S A := fun s => (r, s).
Definition getM : M S S := fun s => (Ok s, s).
Definition putM (s' : S) : M S unit := fun _ => (Ok tt, s').

(** [try m catch (x matching p) h(x)]. *)
Definition try_catch {A} (m : M S A) (p : exn -> bool) (h : exn -> M S A) : M S A :=
  fun s => match m s with
           | (Ok a, s') => (Ok a, s')
           | (Throw x, s') => if p x then h x s' else (Throw x, s')
           end.

(** A scope with a destructor that runs however the scope is left. *)
Definition scoped {A} (dtor : M S unit) (m : M S A) : M S A :=
  fun s => match m s with
           | (r, s') => (r, (dtor s').2)
           end.

(** A local owner that is handed on when the scope returns, and destroyed when
    an exception leaves it. *)
Definition guarded {A} (dtor : M S unit) (m : M S A) : M S A :=
  fun s => match m s with
           | (Ok a, s') => (Ok a, s')
           | (Throw x, s') => (Throw x, (dtor s').2)
           end.

(** Partial correctness of a computation from a state: [Q] on a normal
    return, [E] on an exception. *)
Definition wp {A} (m : M S A) (Q : A -> S -> Prop) (E : exn -> S -> Prop) (s : S) : Prop :=
  match m s with
  | (Ok a, s') => Q a s'
  | (Throw x, s') => E x s'
  end.

End monad.

(** ** Rules *)

Section rules.
Context {S : Type}.
Implicit Types s : S.

Lemma wp_ret {A} (a : A) (Q : A -> S -> Prop) E s :
  Q a s -> wp (mret a) Q E s.
Proof. done. Qed.

Lemma wp_throw {A} x (Q : A -> S -> Prop) E s :
  E x s -> wp (throwM x) Q E s.
Proof. done. Qed.

Lemma wp_lift {A} (r : result A) (Q : A -> S -> Prop) E s :
  (forall a, r = Ok a -> Q a s) -> (forall x, r = Throw x -> E x s) ->
  wp (liftM r) Q E s.
Proof. unfold wp, liftM. destruct r; naive_solver. Qed.

Lemma wp_bind {A B} (m : M S A) (k : A -> M S B) Q E s :
  wp m (fun a s' => wp (k a) Q E s') E s -> wp (m ≫= k) Q E s.
Proof. unfold wp, mbind, M_bind. destruct (m s) as [[a|x] s']; done. Qed.

Lemma wp_mono {A} (m : M S A) (Q Q' : A -> S -> Prop) (E E' : exn -> S -> Prop) s :
  (forall a s', Q a s' -> Q' a s') -> (forall x s', E x s' -> E' x s') ->
  wp m Q E s -> wp m Q' E' s.
Proof. unfold wp. destruct (m s) as [[a|x] s']; auto. Qed.

Lemma wp_catch {A} (m : M S A) (p : exn -> bool) h Q E s :
  wp m Q (fun x s' => if p x then wp (h x) Q E s' else E x s') s ->
  wp (try_catch m p h) Q E s.
Proof.
  unfold wp, try_catch. destruct (m s) as [[a|x] s']; [done|].
  by destruct (p x).
Qed.

Lemma wp_scoped {A} (d : M S unit) (m : M S A) (Q : A -> S -> Prop) (E : exn -> S -> Prop) s :
  wp m (fun a s' => Q a (d s').2) (fun x s' => E x (d s').2) s ->
  wp (scoped d m) Q E s.
Proof. unfold wp, scoped. destruct (m s) as [[a|x] s']; done. Qed.

Lemma wp_guarded {A} (d : M S unit) (m : M S A) (Q : A -> S -> Prop) (E : exn -> S -> Prop) s :
  wp m Q (fun x s' => E x (d s').2) s -> wp (guarded d m) Q E s.
Proof. unfold wp, guarded. destruct (m s) as [[a|x] s']; done. Qed.

End rules.

(** ** Lemmas on the taxonomy *)

Lemma exit_code_for_inj c1 c2 : exit_code_for c1 = exit_code_for c2 -> c1 = c2.
Proof. destruct c1, c2; done. Qed.

Lemma exit_code_int_inj c1 c2 : exit_code_int c1 = exit_code_int c2 -> c1 = c2.
Proof. destruct c1, c2; done. Qed.

Lemma error_category_roundtrip c :
  error_category_from_string (ErrorCategory_to_string c) = c.
Proof. destruct c; reflexivity. Qed.

Lemma for_each_ok {A} (l : list A) body :
  for_each l body = Ok tt <-> (forall x, In x l -> body x = Ok tt).
Proof.
  induction l as [|x l IH]; simpl; [naive_solver|].
  unfold mbind, result_bind. destruct (body x) as [[]|] eqn:E.
  - rewrite IH. split; [intros H y [->|Hy]; auto | auto].
  - split; [done|]. intros H. specialize (H x (or_introl eq_refl)). congruence.
Qed.

Lemma throw_if_ok b x : throw_if b x = Ok tt <-> b = false.
Proof. destruct b; simpl; split; done. Qed.

(** A bind that returned: both halves did. *)
Lemma result_bind_ok {A B} (m : result A) (k : A -> result B) b :
  m ≫= k = Ok b -> exists a, m = Ok a /\ k a = Ok b.
Proof. destruct m; simpl; [eauto|done]. Qed.

Lemma map_result_ok {A B} (f : A -> result B) l ys :
  map_result f l = Ok ys -> Forall2 (fun x y => f x = Ok y) l ys.
Proof.
  revert ys. induction l as [|x l IH]; intros ys; simpl; [intros [= <-]; constructor|].
  intros (y & Hy & (ys' & Hys & [= <-])%result_bind_ok)%result_bind_ok. constructor; auto.
Qed.

Lemma Forall2_In_r {A B} (P : A -> B -> Prop) l k y :
  Forall2 P l k -> In y k -> exists x, In x l /\ P x y.
Proof.
  induction 1 as [|a b l k Hab Hlk IH]; simpl; [done|]. intros [->|Hin]; [eauto|].
  apply IH in Hin as (x & Hx & HP). eauto.
Qed.

(** Take apart a chain of binds in the result monad that returned. *)
Ltac ok_inv :=
  repeat match goal with
  | H : mbind _ _ = Ok _ |- _ => apply result_bind_ok in H; destruct H as (? & ? & H)
  | H : throw_if _ _ = Ok ?u |- _ => destruct u; apply throw_if_ok in H
  | H : Throw _ = Ok _ |- _ => discriminate H
  | H : Ok _ = Ok _ |- _ => injection H; clear H; intros
  | H : (if ?b then _ else _) = Ok _ |- _ => destruct b eqn:?
  | H : (match ?b with _ => _ end) = Ok _ |- _ => destruct b eqn:?
  end.

(** The same for the state monad, on a return and on an exception. *)
Lemma liftM_bind_inv {S A B} (r : result A) (k : A -> M S B) s b s' :
  (liftM r ≫= k) s = (Ok b, s') -> exists a, r = Ok a /\ k a s = (Ok b, s').
Proof. unfold liftM, mbind, M_bind. destruct r; [eauto|done]. Qed.

Lemma bind_ext {S A B} (m : M S A) (k k' : A -> M S B) s :
  (forall a s', m s = (Ok a, s') -> k a s' = k' a s') -> (m ≫= k) s = (m ≫= k') s.
Proof. intros H. unfold mbind, M_bind. destruct (m s) as [[a|x] s']; auto. Qed.

Lemma bind_inv {S A B} (m : M S A) (k : A -> M S B) s b s' :
  (m ≫= k) s = (Ok b, s') -> exists a s1, m s = (Ok a, s1) /\ k a s1 = (Ok b, s').
Proof. unfold mbind, M_bind. destruct (m s) as [[a|x] s1]; [eauto|done]. Qed.

Lemma guarded_inv {S A} (d : M S unit) (m : M S A) s a s' :
  guarded d m s = (Ok a, s') -> m s = (Ok a, s').
Proof. unfold guarded. by destruct (m s) as [[b|x] s1]. Qed.

Lemma scoped_inv {S A} (d : M S unit) (m : M S A) s r s' :
  scoped d m s = (r, s') -> exists s1, m s = (r, s1) /\ s' = (d s1).2.
Proof. unfold scoped. destruct (m s) as [b s1]. intros [= -> <-]. eauto. Qed.

Lemma bind_throw {S A B} (m : M S A) (k : A -> M S B) s x s' :
  (m ≫= k) s = (Throw x, s') ->
  m s = (Throw x, s') \/ exists a s1, m s = (Ok a, s1) /\ k a s1 = (Throw x, s').
Proof. unfold mbind, M_bind. destruct (m s) as [[a|y] s1]; [eauto|]. intros [= -> ->]. by left. Qed.

Lemma lift_throw {S A B} (r : result A) (k : A -> M S B) s x s' :
  (liftM r ≫= k) s = (Throw x, s') ->
  r = Throw x \/ exists a, r = Ok a /\ k a s = (Throw x, s').
Proof. unfold liftM, mbind, M_bind. destruct r; [eauto|]. intros [= -> _]. by left. Qed.

Lemma bind_eq {S A B} (m : M S A) (k : A -> M S B) s a s' :
  m s = (Ok a, s') -> (m ≫= k) s = k a s'.
Proof. unfold mbind, M_bind. by intros ->. Qed.

(** ** Exceptions a computation can end with *)

Definition throws {S A} (P : exn -> Prop) (m : M S A) : Prop :=
  forall s x s', m s = (Throw x, s') -> P x.

Section throws.
Context {S : Type}.

Lemma throws_ret {A} P (a : A) : throws (S := S) P (mret a).
Proof. by intros s x s' [=]. Qed.

Lemma throws_throw {A} (P : exn -> Prop) x : P x -> throws (S := S) (A := A) P (throwM x).
Proof. intros HP s y s' H. by injection H as <- _. Qed.

Lemma throws_lift {A} (P : exn -> Prop) (r : result A) :
  (forall x, r = Throw x -> P x) -> throws (S := S) P (liftM r).
Proof. intros HP s y s' H. injection H as H _. by apply HP. Qed.

Lemma throws_bind {A B} P (m : M S A) (k : A -> M S B) :
  throws P m -> (forall a, throws P (k a)) -> throws P (m ≫= k).
Proof. intros Hm Hk s x s' [H|(a & s1 & _ & H)]%bind_throw; [by eapply Hm|by eapply Hk]. Qed.

Lemma throws_catch {A} (P Q : exn -> Prop) (m : M S A) p h :
  throws Q m -> (forall x, Q x -> p x = false -> P x) -> (forall x, throws P (h x)) ->
  throws P (try_catch m p h).
Proof.
  intros Hm HQ Hh s x s'. unfold try_catch. specialize (Hm s).
  destruct (m s) as [[a|y] s1]; [done|]. destruct (p y) eqn:E; [apply Hh|].
  intros [= -> ->]. eapply HQ; eauto.
Qed.

Lemma throws_scoped {A} P (d : M S unit) (m : M S A) : throws P m -> throws P (scoped d m).
Proof.
  intros Hm s x s'. unfold scoped. specialize (Hm s). destruct (m s) as [[a|y] s1]; [done|].
  intros [= <- _]. by eapply Hm.
Qed.

Lemma throws_guarded {A} P (d : M S unit) (m : M S A) : throws P m -> throws P (guarded d m).
Proof.
  intros Hm s x s'. unfold guarded. specialize (Hm s). destruct (m s) as [[a|y] s1]; [done|].
  intros [= -> _]. by eapply Hm.
Qed.

Lemma wp_throws {A} (m : M S A) P Q (E : exn -> S -> Prop) s :
  throws P m -> wp m Q E s -> wp m Q (fun x s' => P x /\ E x s') s.
Proof.
  intros Ht. unfold wp. specialize (Ht s). destruct (m s) as [[a|x] s']; [done|].
  intros HE. split; [by eapply Ht|done].
Qed.

Lemma throws_mono {A} (P Q : exn -> Prop) (m : M S A) :
  (forall x, P x -> Q x) -> throws P m -> throws Q m.
Proof. intros HPQ Hm s x s' H. by eapply HPQ, Hm. Qed.

End throws.

#[export] Hint Resolve throws_ret throws_throw throws_bind throws_scoped throws_guarded : pqtls.
