(* ===== verification/Framing.v ===== *)
(** Length-prefixed framing: namespace [framing] of
    [include/pqtls/application_protocol.hpp] and
    [src/common/application_protocol.cpp].

    [Decoder] is the mutable reassembly buffer; its operations are
    computations in [M Decoder], because an exception leaves the bytes that
    were appended in place.  [Stream] is the abstract specification: the bytes
    received and not yet handed out, with no read position and no buffer
    management. *)

From S2P Require Import Prelude Errors.

(** ** Constants *)

Definition kHeaderSize : Z := 4.
Definition kDefaultMaxFrameSize : Z := 1024 * 1024.
Definition kAbsoluteMaxFrameSize : Z := 64 * 1024 * 1024.

(** ** Encoding and header decoding *)

Definition vec_size (v : list byte) : Z := Z.of_nat (length v).

Definition encode (payload : string) (max_frame_size : Z) : result (list byte) :=
  throw_if (max_frame_size >? kAbsoluteMaxFrameSize)
    (ProtocolError ("configured maximum frame size exceeds the absolute ceiling of " +:+
       std_to_string kAbsoluteMaxFrameSize +:+ " bytes")) ;;
  throw_if (str_empty payload)
    (ProtocolError "refusing to encode a zero-length frame") ;;
  throw_if (str_size payload >? max_frame_size)
    (ProtocolError ("payload of " +:+ std_to_string (str_size payload) +:+
       " bytes exceeds the maximum frame size of " +:+
       std_to_string max_frame_size +:+ " bytes")) ;;
  let length := to_u32 (str_size payload) in
  Ok ([byte_of_Z (Z.land (Z.shiftr length 24) 255);
       byte_of_Z (Z.land (Z.shiftr length 16) 255);
       byte_of_Z (Z.land (Z.shiftr length 8) 255);
       byte_of_Z (Z.land length 255)] ++ bytes_of_string payload).

Definition header_value (b0 b1 b2 b3 : byte) : Z :=
  Z.lor (Z.lor (Z.lor (to_u32 (Z.shiftl (byte_to_Z b0) 24))
                      (to_u32 (Z.shiftl (byte_to_Z b1) 16)))
               (to_u32 (Z.shiftl (byte_to_Z b2) 8)))
        (byte_to_Z b3).

Definition decode_length (header : list byte) (max_frame_size : Z) : result Z :=
  match header with
  | [b0; b1; b2; b3] =>
      let length := header_value b0 b1 b2 b3 in
      throw_if (length =? 0)
        (ProtocolError "frame announces a zero-length payload, which is never valid") ;;
      throw_if (length >? max_frame_size)
        (ProtocolError ("frame announces " +:+ std_to_string length +:+
           " bytes, exceeding the maximum frame size of " +:+
           std_to_string max_frame_size +:+ " bytes")) ;;
      Ok length
  | _ =>
      Throw (ProtocolError ("frame header must be exactly " +:+ std_to_string kHeaderSize +:+
        " bytes, got " +:+ std_to_string (vec_size header)))
  end.

(** ** The incremental decoder *)

Record Decoder := mkDecoder {
  max_frame_size_ : Z;
  buffer_ : list byte;
  consumed_ : Z
}.

Definition Decoder_new (max_frame_size : Z) : result Decoder :=
  throw_if ((max_frame_size =? 0) || (max_frame_size >? kAbsoluteMaxFrameSize))
    (ProtocolError ("invalid maximum frame size " +:+ std_to_string max_frame_size +:+
       "; must be in [1, " +:+ std_to_string kAbsoluteMaxFrameSize +:+ "]")) ;;
  Ok (mkDecoder max_frame_size [] 0).

Definition buffered_bytes (d : Decoder) : Z := vec_size (buffer_ d).

Definition set_buffer (d : Decoder) (b : list byte) (c : Z) : Decoder :=
  mkDecoder (max_frame_size_ d) b c.

(** [buffer_.size() - consumed_], a [size_t] subtraction. *)
Definition available (d : Decoder) : Z := to_u64 (vec_size (buffer_ d) - consumed_ d).

(** The [kHeaderSize] bytes at the read position. *)
Definition header_span (d : Decoder) : list byte :=
  take (Z.to_nat kHeaderSize) (drop (Z.to_nat (consumed_ d)) (buffer_ d)).

(** The space reclaimed at the start of [feed]. *)
Definition reclaim (d : Decoder) : Decoder :=
  if (consumed_ d >? 0) && (consumed_ d =? vec_size (buffer_ d)) then set_buffer d [] 0
  else if consumed_ d >? kHeaderSize + max_frame_size_ d
  then set_buffer d (drop (Z.to_nat (consumed_ d)) (buffer_ d)) 0
  else d.

Definition feed (data : list byte) : M Decoder unit :=
  d ← getM;
  let d := reclaim d in
  let d := set_buffer d (buffer_ d ++ data) (consumed_ d) in
  putM d ;;
  if available d >=? kHeaderSize
  then liftM (decode_length (header_span d) (max_frame_size_ d)) ;; mret tt
  else mret tt.

Definition next_frame : M Decoder (option string) :=
  d ← getM;
  if available d <? kHeaderSize then mret None
  else
    length ← liftM (decode_length (header_span d) (max_frame_size_ d));
    if available d <? kHeaderSize + length then mret None
    else
      let payload := string_of_bytes
        (take (Z.to_nat length) (drop (Z.to_nat (consumed_ d + kHeaderSize)) (buffer_ d))) in
      let consumed := to_u64 (consumed_ d + (kHeaderSize + length)) in
      putM (if consumed =? vec_size (buffer_ d)
            then set_buffer d [] 0
            else set_buffer d (buffer_ d) consumed) ;;
      mret (Some payload).

Definition Decoder_reset (d : Decoder) : Decoder := set_buffer d [] 0.

(** The loop both peers drive the decoder with: hand out frames until
    [next_frame] asks for more bytes.  Every frame handed out takes at least
    five bytes from the buffer, so one call per buffered byte is enough. *)
Fixpoint drain_frames (fuel : nat) : M Decoder (list string) :=
  match fuel with
  | O => mret []
  | S fuel' =>
      f ← next_frame;
      match f with
      | None => mret []
      | Some p => ps ← drain_frames fuel'; mret (p :: ps)
      end
  end.

Definition drain_all : M Decoder (list string) :=
  d ← getM; drain_frames (S (length (buffer_ d))).

(** Feeding the chunks one by one, draining after each. *)
Fixpoint receive (chunks : list (list byte)) : M Decoder (list string) :=
  match chunks with
  | [] => mret []
  | c :: cs =>
      feed c ;;
      ps ← drain_all;
      qs ← receive cs;
      mret (ps ++ qs)
  end.

(** ** The abstract specification *)

Module Stream.

(** Accept bytes: append them, refusing an illegal header as soon as it is
    complete. *)
Definition feed (max : Z) (pending data : list byte) : result unit * list byte :=
  let pending := pending ++ data in
  if (4 <=? length pending)%nat
  then (decode_length (take 4 pending) max ;; Ok tt, pending)
  else (Ok tt, pending).

(** Hand out the first frame when all of it has arrived. *)
Definition next (max : Z) (pending : list byte) : result (option string) * list byte :=
  if (length pending <? 4)%nat then (Ok None, pending)
  else match decode_length (take 4 pending) max with
       | Throw x => (Throw x, pending)
       | Ok n =>
           if (length pending <? 4 + Z.to_nat n)%nat then (Ok None, pending)
           else (Ok (Some (string_of_bytes (take (Z.to_nat n) (drop 4 pending)))),
                 drop (4 + Z.to_nat n) pending)
       end.

End Stream.

(** The bytes a decoder still holds, and its invariant: the read position is
    inside the buffer, the configured limit is legal, and the buffer is
    smaller than the address space. *)
Definition pending (d : Decoder) : list byte := drop (Z.to_nat (consumed_ d)) (buffer_ d).

Record decoder_inv (d : Decoder) : Prop := {
  inv_consumed : 0 <= consumed_ d <= vec_size (buffer_ d);
  inv_max : 1 <= max_frame_size_ d <= kAbsoluteMaxFrameSize;
  inv_size : vec_size (buffer_ d) < 2 ^ 62
}.

(** ** Lemmas on the header *)

Lemma header_value_eq b0 b1 b2 b3 :
  header_value b0 b1 b2 b3 =
  byte_to_Z b0 * 2 ^ 24 + byte_to_Z b1 * 2 ^ 16 + byte_to_Z b2 * 2 ^ 8 + byte_to_Z b3.
Proof.
  unfold header_value, to_u32.
  pose proof (byte_to_Z_range b0); pose proof (byte_to_Z_range b1).
  pose proof (byte_to_Z_range b2); pose proof (byte_to_Z_range b3).
  rewrite !Z.shiftl_mul_pow2 by lia.
  rewrite !Z.mod_small by lia.
  rewrite lor_low by lia.
  replace (byte_to_Z b0 * 2 ^ 24 + byte_to_Z b1 * 2 ^ 16)
    with ((byte_to_Z b0 * 2 ^ 8 + byte_to_Z b1) * 2 ^ 16) by lia.
  rewrite lor_low by lia.
  replace ((byte_to_Z b0 * 2 ^ 8 + byte_to_Z b1) * 2 ^ 16 + byte_to_Z b2 * 2 ^ 8)
    with ((byte_to_Z b0 * 2 ^ 16 + byte_to_Z b1 * 2 ^ 8 + byte_to_Z b2) * 2 ^ 8) by lia.
  rewrite lor_low by lia. lia.
Qed.

Lemma header_value_range b0 b1 b2 b3 : is_u32 (header_value b0 b1 b2 b3).
Proof.
  rewrite header_value_eq. unfold is_u32, u32_max.
  pose proof (byte_to_Z_range b0); pose proof (byte_to_Z_range b1).
  pose proof (byte_to_Z_range b2); pose proof (byte_to_Z_range b3). lia.
Qed.

(** The four bytes [encode] writes for a length. *)
Definition header_bytes (length : Z) : list byte :=
  [byte_of_Z (Z.land (Z.shiftr length 24) 255);
   byte_of_Z (Z.land (Z.shiftr length 16) 255);
   byte_of_Z (Z.land (Z.shiftr length 8) 255);
   byte_of_Z (Z.land length 255)].

Lemma header_value_bytes n :
  is_u32 n ->
  header_value (byte_of_Z (Z.land (Z.shiftr n 24) 255))
    (byte_of_Z (Z.land (Z.shiftr n 16) 255))
    (byte_of_Z (Z.land (Z.shiftr n 8) 255)) (byte_of_Z (Z.land n 255)) = n.
Proof.
  unfold is_u32, u32_max. intros Hn. rewrite header_value_eq, !byte_to_of_Z.
  unfold to_u8. rewrite !land_255, !Z.shiftr_div_pow2, !Z.mod_mod by lia.
  change (2 ^ 24) with 16777216. change (2 ^ 16) with 65536. change (2 ^ 8) with 256.
  replace 65536 with (256 * 256) by lia. replace 16777216 with (256 * (256 * 256)) by lia.
  rewrite <- !Z.div_div by lia.
  pose proof (Z.div_mod n 256 ltac:(lia)).
  pose proof (Z.div_mod (n / 256) 256 ltac:(lia)).
  pose proof (Z.div_mod (n / 256 / 256) 256 ltac:(lia)).
  assert (n / 256 / 256 / 256 < 256).
  { rewrite !Z.div_div by lia. apply Z.div_lt_upper_bound; lia. }
  rewrite (Z.mod_small (n / 256 / 256 / 256)); [lia|].
  split; [|lia]. repeat apply Z.div_pos; lia.
Qed.

(** The other direction: writing a header's value gives the header back. *)
Lemma header_bytes_value b0 b1 b2 b3 :
  header_bytes (header_value b0 b1 b2 b3) = [b0; b1; b2; b3].
Proof.
  rewrite header_value_eq. unfold header_bytes.
  pose proof (byte_to_Z_range b0) as H0; pose proof (byte_to_Z_range b1) as H1.
  pose proof (byte_to_Z_range b2) as H2; pose proof (byte_to_Z_range b3) as H3.
  rewrite !land_255, !Z.shiftr_div_pow2 by lia.
  rewrite <- (byte_of_to_Z b0) at 5. rewrite <- (byte_of_to_Z b1) at 5.
  rewrite <- (byte_of_to_Z b2) at 5. rewrite <- (byte_of_to_Z b3) at 5.
  set (x0 := byte_to_Z b0) in *; set (x1 := byte_to_Z b1) in *.
  set (x2 := byte_to_Z b2) in *; set (x3 := byte_to_Z b3) in *.
  change (2 ^ 24) with 16777216. change (2 ^ 16) with 65536. change (2 ^ 8) with 256.
  repeat f_equal; symmetry.
  - apply Z.mod_unique_pos with 0; [lia|]. symmetry. rewrite Z.mul_0_r.
    apply Z.div_unique_pos with (x1 * 65536 + x2 * 256 + x3); lia.
  - apply Z.mod_unique_pos with x0; [lia|].
    symmetry. apply Z.div_unique_pos with (x2 * 256 + x3); lia.
  - apply Z.mod_unique_pos with (x0 * 256 + x1); [lia|].
    symmetry. apply Z.div_unique_pos with x3; lia.
  - apply Z.mod_unique_pos with (x0 * 65536 + x1 * 256 + x2); lia.
Qed.

Lemma encode_ok payload max frame :
  encode payload max = Ok frame <->
  max <= kAbsoluteMaxFrameSize /\ 1 <= str_size payload <= max /\
  frame = header_bytes (str_size payload) ++ bytes_of_string payload.
Proof.
  unfold encode, throw_if, mbind, result_bind.
  pose proof (str_size_nonneg payload). pose proof (str_size_0 payload).
  destruct (max >? kAbsoluteMaxFrameSize) eqn:E1; bool_props; [split; [done|lia]|].
  destruct (str_empty payload) eqn:E2; bool_props; [split; [done|naive_solver lia]|].
  destruct (str_size payload >? max) eqn:E3; bool_props; [split; [done|lia]|].
  assert (is_u32 (str_size payload)) as Hu.
  { unfold is_u32, u32_max, kAbsoluteMaxFrameSize in *. lia. }
  rewrite to_u32_small by done. unfold header_bytes. split.
  - intros [= <-]. split; [lia|]. split; [|done].
    destruct (Z.eq_dec (str_size payload) 0); [naive_solver|lia].
  - intros (_ & _ & ->). done.
Qed.

Lemma decode_length_ok header max n :
  decode_length header max = Ok n <->
  exists b0 b1 b2 b3, header = [b0; b1; b2; b3] /\
    n = header_value b0 b1 b2 b3 /\ 1 <= n <= max.
Proof.
  unfold decode_length, throw_if, mbind, result_bind.
  destruct header as [|b0 [|b1 [|b2 [|b3 [|]]]]];
    try (split; [done|]; by intros (?&?&?&?&?&?)).
  pose proof (header_value_range b0 b1 b2 b3) as Hr. unfold is_u32 in Hr.
  destruct (header_value b0 b1 b2 b3 =? 0) eqn:E1; bool_props.
  { split; [done|]. intros (?&?&?&?&[= <- <- <- <-]&->&?). lia. }
  destruct (header_value b0 b1 b2 b3 >? max) eqn:E2; bool_props.
  { split; [done|]. intros (?&?&?&?&[= <- <- <- <-]&->&?). lia. }
  split.
  - intros [= <-]. exists b0, b1, b2, b3. splits; auto; lia.
  - intros (?&?&?&?&[= <- <- <- <-]&->&?). done.
Qed.

Lemma decode_length_range header max n :
  decode_length header max = Ok n -> 1 <= n <= max.
Proof. rewrite decode_length_ok. naive_solver. Qed.

(** The header of an encoded frame decodes to the payload's size. *)
Lemma decode_length_header n max :
  1 <= n <= max -> max <= kAbsoluteMaxFrameSize ->
  decode_length (header_bytes n) max = Ok n.
Proof.
  intros Hn Hm. apply decode_length_ok.
  do 4 eexists. split; [reflexivity|]. rewrite header_value_bytes; [done|].
  unfold is_u32, u32_max, kAbsoluteMaxFrameSize in *. lia.
Qed.

#[export] Hint Resolve decode_length_range decode_length_header : pqtls.

(** ** The decoder implements the stream specification *)

Lemma vec_size_app a b : vec_size (a ++ b) = vec_size a + vec_size b.
Proof. unfold vec_size. rewrite length_app. lia. Qed.

Lemma vec_size_nonneg v : 0 <= vec_size v.
Proof. unfold vec_size. lia. Qed.

Lemma pending_length d :
  decoder_inv d -> Z.of_nat (length (pending d)) = vec_size (buffer_ d) - consumed_ d.
Proof.
  intros [Hc _ _]. unfold pending, vec_size in *. rewrite length_drop. lia.
Qed.

Lemma available_eq d : decoder_inv d -> available d = Z.of_nat (length (pending d)).
Proof.
  intros Hi. rewrite pending_length by done. destruct Hi.
  unfold available. apply to_u64_small. unfold is_u64, u64_max. lia.
Qed.

Lemma header_span_eq d : header_span d = take 4 (pending d).
Proof. reflexivity. Qed.

Lemma reclaim_spec d :
  decoder_inv d ->
  decoder_inv (reclaim d) /\ pending (reclaim d) = pending d /\
  max_frame_size_ (reclaim d) = max_frame_size_ d /\
  consumed_ (reclaim d) <= kHeaderSize + max_frame_size_ d.
Proof.
  intros [Hc Hm Hs]. unfold reclaim, kHeaderSize in *.
  destruct ((consumed_ d >? 0) && (consumed_ d =? vec_size (buffer_ d))) eqn:E1.
  - bool_props. split; [constructor; simpl; unfold vec_size; simpl; lia|].
    splits; simpl; [|done|lia].
    unfold pending; simpl. rewrite drop_ge; [done|]. unfold vec_size in *. lia.
  - destruct (consumed_ d >? 4 + max_frame_size_ d) eqn:E2; bool_props.
    + split; [constructor; simpl; unfold vec_size in *; rewrite ?length_drop; lia|].
      splits; simpl; done || lia.
    + split; [by constructor|]. splits; done || lia.
Qed.

Lemma set_buffer_append d data :
  decoder_inv d -> vec_size (buffer_ d) + vec_size data < 2 ^ 62 ->
  let d' := set_buffer d (buffer_ d ++ data) (consumed_ d) in
  decoder_inv d' /\ pending d' = pending d ++ data.
Proof.
  intros [Hc Hm Hs] Hb. simpl. split.
  - constructor; simpl; rewrite ?vec_size_app; pose proof (vec_size_nonneg data); lia.
  - unfold pending; simpl. rewrite drop_app_le; [done|]. unfold vec_size in *. lia.
Qed.

Lemma reclaim_size d : decoder_inv d -> vec_size (buffer_ (reclaim d)) <= vec_size (buffer_ d).
Proof.
  intros [Hc _ _]. unfold reclaim, vec_size in *.
  repeat case_match; simpl; rewrite ?length_drop; lia.
Qed.

(** [feed] appends to the pending bytes and checks the header at their front;
    the space kept for bytes already handed out is at most one frame. *)
Lemma feed_refines d data :
  decoder_inv d -> vec_size (buffer_ d) + vec_size data < 2 ^ 62 ->
  exists d', feed data d = ((Stream.feed (max_frame_size_ d) (pending d) data).1, d') /\
    decoder_inv d' /\ max_frame_size_ d' = max_frame_size_ d /\
    pending d' = (Stream.feed (max_frame_size_ d) (pending d) data).2 /\
    buffered_bytes d' <= kHeaderSize + max_frame_size_ d + vec_size (pending d) + vec_size data.
Proof.
  intros Hi Hb. destruct (reclaim_spec d Hi) as (Hi' & Hp & Hm & Hc).
  pose proof (reclaim_size d Hi).
  destruct (set_buffer_append (reclaim d) data Hi' ltac:(lia)) as [Hi2 Hp2].
  set (d2 := set_buffer (reclaim d) (buffer_ (reclaim d) ++ data) (consumed_ (reclaim d))) in *.
  exists d2. unfold feed, mbind, M_bind, getM, putM. cbn -[d2 Z.geb].
  fold d2. rewrite available_eq, header_span_eq by done.
  assert (max_frame_size_ d2 = max_frame_size_ d) as Hmd by done.
  rewrite Hp2, Hp. cbn [max_frame_size_ set_buffer]. rewrite ?Hmd, ?Hm.
  unfold Stream.feed, kHeaderSize. split.
  - destruct (Nat.leb_spec 4 (length (pending d ++ data))) as [Hl|Hl];
      destruct (Z.of_nat (length (pending d ++ data)) >=? 4) eqn:E; try lia; [|done].
    unfold liftM, mbind, result_bind.
    by destruct (decode_length (take 4 (pending d ++ data)) (max_frame_size_ d)).
  - split; [done|]. split; [done|]. split; [by destruct (4 <=? _)%nat|].
    pose proof (pending_length (reclaim d) Hi') as Hl. rewrite Hp in Hl.
    unfold buffered_bytes, d2. cbn [buffer_ set_buffer]. rewrite vec_size_app.
    unfold vec_size in *. unfold kHeaderSize in *. lia.
Qed.

(** [next_frame] hands out what the specification hands out. *)
Lemma next_frame_refines d :
  decoder_inv d ->
  exists d', next_frame d = ((Stream.next (max_frame_size_ d) (pending d)).1, d') /\
    decoder_inv d' /\ max_frame_size_ d' = max_frame_size_ d /\
    pending d' = (Stream.next (max_frame_size_ d) (pending d)).2 /\
    buffered_bytes d' <= buffered_bytes d.
Proof.
  intros Hi. unfold next_frame, mbind, M_bind, getM, Stream.next.
  rewrite available_eq, header_span_eq by done. unfold kHeaderSize.
  destruct (Nat.ltb_spec (length (pending d)) 4) as [Hl|Hl];
    destruct (Z.of_nat (length (pending d)) <? 4) eqn:E; try lia.
  { exists d. naive_solver. }
  unfold liftM. destruct (decode_length (take 4 (pending d)) (max_frame_size_ d)) as [n|x] eqn:Ed;
    [|exists d; naive_solver].
  pose proof (decode_length_range _ _ _ Ed) as Hn.
  destruct (Nat.ltb_spec (length (pending d)) (4 + Z.to_nat n)) as [Hl2|Hl2];
    destruct (Z.of_nat (length (pending d)) <? 4 + n) eqn:E2; try lia.
  { exists d. naive_solver. }
  pose proof (pending_length d Hi) as Hpl. destruct Hi as [Hc Hm Hs].
  rewrite (to_u64_small (consumed_ d + (4 + n))) by (unfold is_u64, u64_max; lia).
  eexists. split; [|].
  { unfold putM, mret, M_ret. simpl. do 4 f_equal. unfold pending.
    rewrite drop_drop. do 2 f_equal. lia. }
  destruct (consumed_ d + (4 + n) =? vec_size (buffer_ d)) eqn:E3; bool_props.
  - split; [constructor; simpl; unfold vec_size; simpl; lia|].
    split; [done|]. simpl. split; [|unfold buffered_bytes, vec_size; simpl; lia].
    unfold pending at 1; simpl. symmetry. apply drop_ge. lia.
  - split; [constructor; simpl; lia|]. split; [done|]. simpl. split; [|done].
    unfold pending; simpl. rewrite drop_drop. f_equal. lia.
Qed.

(** ** Frames on a byte stream *)

(** The bytes [encode] produces for a payload, and a stream of frames. *)
Definition frame_of (p : string) : list byte := header_bytes (str_size p) ++ bytes_of_string p.
Definition frames (ps : list string) : list byte := concat (map frame_of ps).
Definition legal (max : Z) (p : string) : Prop := 1 <= str_size p <= max.

#[global] Arguments frame_of : simpl never.

Lemma frames_cons p ps : frames (p :: ps) = frame_of p ++ frames ps.
Proof. reflexivity. Qed.

Lemma frame_of_length p : Z.of_nat (length (frame_of p)) = kHeaderSize + str_size p.
Proof.
  unfold frame_of, kHeaderSize, str_size. rewrite length_app, bytes_of_string_length.
  simpl. lia.
Qed.

Lemma take_header p rest : take 4 (frame_of p ++ rest) = header_bytes (str_size p).
Proof. reflexivity. Qed.

Lemma drop_header p rest : drop 4 (frame_of p ++ rest) = bytes_of_string p ++ rest.
Proof. reflexivity. Qed.

(** A complete frame at the front is handed out and removed. *)
Lemma next_complete max p rest :
  legal max p -> max <= kAbsoluteMaxFrameSize ->
  Stream.next max (frame_of p ++ rest) = (Ok (Some p), rest).
Proof.
  intros Hp Hm. unfold Stream.next.
  pose proof (frame_of_length p) as Hl. unfold kHeaderSize in Hl.
  rewrite length_app, take_header, decode_length_header by done.
  unfold legal in Hp.
  destruct (Nat.ltb_spec (length (frame_of p) + length rest) 4); [lia|].
  destruct (Nat.ltb_spec (length (frame_of p) + length rest) (4 + Z.to_nat (str_size p))); [lia|].
  f_equal; [do 2 f_equal|].
  - rewrite drop_header, take_app_le, take_ge by (rewrite bytes_of_string_length;
      unfold str_size; lia).
    apply string_of_bytes_of_string.
  - rewrite drop_app_ge by lia.
    replace (4 + Z.to_nat (str_size p) - length (frame_of p))%nat with 0%nat by lia. done.
Qed.

(** A proper prefix of a frame waits for more bytes, and its header, once
    complete, is accepted. *)
Lemma prefix_header max p pre more :
  legal max p -> max <= kAbsoluteMaxFrameSize -> pre ++ more = frame_of p ->
  (4 <= length pre)%nat -> decode_length (take 4 pre) max = Ok (str_size p).
Proof.
  intros Hp Hm Hpre Hl.
  rewrite <- (take_app_le pre more 4) by lia. rewrite Hpre.
  rewrite <- (app_nil_r (frame_of p)), take_header. by apply decode_length_header.
Qed.

Lemma next_incomplete max p pre more :
  legal max p -> max <= kAbsoluteMaxFrameSize -> pre ++ more = frame_of p -> more <> [] ->
  Stream.next max pre = (Ok None, pre).
Proof.
  intros Hp Hm Hpre Hne. unfold Stream.next.
  destruct (Nat.ltb_spec (length pre) 4) as [|Hl]; [done|].
  rewrite (prefix_header max p pre more) by done.
  pose proof (frame_of_length p) as Hf. unfold kHeaderSize in Hf.
  rewrite <- Hpre, length_app in Hf. destruct more as [|b more]; [done|]. simpl in Hf.
  destruct (Nat.ltb_spec (length pre) (4 + Z.to_nat (str_size p))); [done|]. lia.
Qed.

(** Either the first frame is all there, or what is there is a proper prefix
    of it. *)
Lemma stream_head pre rest q qs :
  pre ++ rest = frames (q :: qs) ->
  (exists pre', pre = frame_of q ++ pre' /\ pre' ++ rest = frames qs) \/
  (exists more, more <> [] /\ pre ++ more = frame_of q).
Proof.
  rewrite frames_cons. intros H.
  destruct (decide (length (frame_of q) <= length pre)%nat) as [Hl|Hl].
  - left. exists (drop (length (frame_of q)) pre).
    assert (take (length (frame_of q)) pre = frame_of q) as Ht.
    { rewrite <- (take_app_le pre rest) by done. rewrite H. apply take_app_length. }
    rewrite <- Ht at 1. rewrite take_drop. split; [done|].
    apply (app_inv_head (frame_of q)). rewrite <- H.
    rewrite <- Ht at 1. rewrite app_assoc, take_drop. done.
  - right. exists (drop (length pre) (frame_of q)). split.
    + intros E. apply (f_equal length) in E. rewrite length_drop in E. cbn [length] in E. lia.
    + assert (take (length pre) (frame_of q) = pre) as Ht.
      { rewrite <- (take_app_le (frame_of q) (frames qs)) by lia.
        rewrite <- H. apply take_app_length. }
      rewrite <- Ht at 1. apply take_drop.
Qed.

(** The state between two reads: what is pending is a proper prefix of the
    next frame, or nothing. *)
Definition waiting (pre rest : list byte) (qs : list string) : Prop :=
  pre ++ rest = frames qs /\
  match qs with
  | [] => pre = []
  | q :: _ => exists more, more <> [] /\ pre ++ more = frame_of q
  end.

Lemma waiting_short max pre rest qs :
  Forall (legal max) qs -> 1 <= max -> waiting pre rest qs -> vec_size pre < kHeaderSize + max.
Proof.
  intros Hq Hm [_ Hw]. destruct qs as [|q qs].
  - subst. unfold vec_size, kHeaderSize. simpl. lia.
  - destruct Hw as (more & Hne & Hpre). inversion Hq as [|? ? Hlq _]; subst.
    pose proof (frame_of_length q) as Hf. rewrite <- Hpre, length_app in Hf.
    unfold vec_size, legal in *. destruct more; [done|]. simpl in Hf. lia.
Qed.

(** ** Draining and receiving a legal stream *)

Lemma drain_frames_stream fuel d qs rest :
  decoder_inv d -> Forall (legal (max_frame_size_ d)) qs ->
  pending d ++ rest = frames qs -> (length (pending d) < fuel)%nat ->
  exists qs1 qs2 d', drain_frames fuel d = (Ok qs1, d') /\ qs = qs1 ++ qs2 /\
    decoder_inv d' /\ max_frame_size_ d' = max_frame_size_ d /\
    waiting (pending d') rest qs2 /\ buffered_bytes d' <= buffered_bytes d.
Proof.
  revert d qs. induction fuel as [|fuel IH]; intros d qs Hi Hq Hp Hf; [lia|].
  destruct (next_frame_refines d Hi) as (d1 & Hn & Hi1 & Hm1 & Hp1 & Hb1).
  cbn [drain_frames]. unfold mbind at 1, M_bind at 1. rewrite Hn.
  destruct Hi as [Hc Hmx Hs].
  destruct qs as [|q qs].
  { apply app_eq_nil in Hp as [Hp ->]. rewrite Hp in *.
    exists [], [], d1. simpl in *. rewrite Hp1. splits; done. }
  inversion Hq as [|? ? Hq1 Hq2]; subst.
  destruct (stream_head _ _ _ _ Hp) as [(pre' & Hpre & Hrest)|(more & Hne & Hpre)].
  - rewrite Hpre, next_complete in Hp1 by (done || lia).
    rewrite Hpre, next_complete by (done || lia). cbn [fst snd] in *. subst pre'.
    pose proof (frame_of_length q) as Hfl. unfold legal, kHeaderSize in *.
    destruct (IH d1 qs) as (qs1 & qs2 & d' & Hd & -> & Hrest'); [done|by rewrite Hm1|done| |].
    { rewrite Hpre, length_app in Hf. lia. }
    exists (q :: qs1), qs2, d'. unfold mbind, M_bind. rewrite Hd.
    destruct Hrest' as (? & ? & ? & ?). splits; try done; lia || congruence.
  - rewrite (next_incomplete _ q _ more) in Hp1 by (done || lia).
    rewrite (next_incomplete _ q _ more) by (done || lia). cbn [fst snd] in *.
    exists [], (q :: qs), d1. rewrite Hp1. splits; try done.
    split; [done|]. by exists more.
Qed.

Lemma feed_stream d c rest qs :
  decoder_inv d -> Forall (legal (max_frame_size_ d)) qs ->
  (pending d ++ c) ++ rest = frames qs ->
  (Stream.feed (max_frame_size_ d) (pending d) c).1 = Ok tt.
Proof.
  intros [_ Hm _] Hq Hp. unfold Stream.feed.
  destruct (Nat.leb_spec 4 (length (pending d ++ c))) as [Hl|]; [|done]. simpl.
  destruct qs as [|q qs].
  { apply app_eq_nil in Hp as [Hp _]. rewrite Hp in Hl. simpl in Hl. lia. }
  inversion Hq; subst.
  destruct (stream_head _ _ _ _ Hp) as [(pre' & Hpre & Hrest)|(more & Hne & Hpre)].
  - by rewrite Hpre, take_header, decode_length_header by (done || lia).
  - by rewrite (prefix_header _ q _ more) by (done || lia).
Qed.

(** The most a decoder ever buffers when reads bring at most [chunk] bytes. *)
Definition buffer_bound (max chunk : Z) : Z := 2 * (kHeaderSize + max) + chunk.

Lemma receive_stream chunk cs d rest qs :
  decoder_inv d -> Forall (legal (max_frame_size_ d)) qs ->
  0 <= chunk <= 2 ^ 40 -> Forall (fun c => vec_size c <= chunk) cs ->
  buffered_bytes d <= buffer_bound (max_frame_size_ d) chunk ->
  waiting (pending d) (concat cs ++ rest) qs ->
  exists qs1 qs2 d', receive cs d = (Ok qs1, d') /\ qs = qs1 ++ qs2 /\
    decoder_inv d' /\ max_frame_size_ d' = max_frame_size_ d /\
    waiting (pending d') rest qs2 /\
    buffered_bytes d' <= buffer_bound (max_frame_size_ d) chunk.
Proof.
  revert d qs. induction cs as [|c cs IH]; intros d qs Hi Hq Hch Hcs Hb Hw.
  { exists [], qs, d. done. }
  inversion Hcs as [|? ? Hc Hcs']; subst.
  pose proof Hi as [Hic Him His]. pose proof (vec_size_nonneg c).
  unfold buffer_bound, buffered_bytes, kHeaderSize, kAbsoluteMaxFrameSize in *.
  pose proof (waiting_short _ _ _ _ Hq ltac:(lia) Hw) as Hshort. unfold kHeaderSize in Hshort.
  destruct Hw as [Hw _]. simpl in Hw. rewrite <- (app_assoc c), app_assoc in Hw.
  destruct (feed_refines d c Hi ltac:(lia)) as (d1 & Hf & Hi1 & Hm1 & Hp1 & Hb1).
  rewrite (feed_stream d c (concat cs ++ rest) qs) in Hf by done.
  assert (pending d1 = pending d ++ c) as Hp1'.
  { rewrite Hp1. unfold Stream.feed. by destruct (4 <=? _)%nat. }
  unfold buffered_bytes, kHeaderSize in Hb1.
  destruct (drain_frames_stream (S (length (buffer_ d1))) d1 qs (concat cs ++ rest))
    as (qs1 & qs2 & d2 & Hd & -> & Hi2 & Hm2 & Hw2 & Hb2);
    [done|by rewrite Hm1|by rewrite Hp1'| |].
  { unfold pending. rewrite length_drop. lia. }
  unfold buffered_bytes in Hb2.
  destruct (IH d2 qs2) as (qs3 & qs4 & d3 & Hr & -> & Hi3 & Hm3 & Hw3 & Hb3); try done.
  { rewrite Hm2, Hm1. by apply Forall_app in Hq as [_ ?]. }
  { rewrite Hm2, Hm1. lia. }
  exists (qs1 ++ qs3), qs4, d3. splits; try done.
  - cbn [receive]. unfold mbind, M_bind. rewrite Hf. unfold drain_all, mbind, M_bind, getM.
    by rewrite Hd, Hr.
  - by rewrite app_assoc.
  - congruence.
  - by rewrite Hm2, Hm1 in Hb3.
Qed.

(** ** Whatever the peer sends *)

(** A frame handed out is exactly the bytes removed from the front. *)
Lemma next_sound max pre p pre' :
  Stream.next max pre = (Ok (Some p), pre') -> legal max p /\ pre = frame_of p ++ pre'.
Proof.
  unfold Stream.next. destruct (Nat.ltb_spec (length pre) 4) as [|Hl]; [done|].
  destruct (decode_length (take 4 pre) max) as [n|] eqn:Ed; [|done].
  destruct (Nat.ltb_spec (length pre) (4 + Z.to_nat n)) as [|Hl2]; [done|].
  intros [= <- <-]. pose proof (decode_length_range _ _ _ Ed) as Hn.
  apply decode_length_ok in Ed as (b0 & b1 & b2 & b3 & Ht & -> & _).
  set (n := header_value b0 b1 b2 b3) in *.
  set (body := take (Z.to_nat n) (drop 4 pre)).
  assert (str_size (string_of_bytes body) = n) as Hsz.
  { unfold str_size. rewrite <- bytes_of_string_length, bytes_of_string_of_bytes.
    unfold body. rewrite length_take, length_drop. lia. }
  split; [unfold legal; lia|]. unfold frame_of. rewrite Hsz, bytes_of_string_of_bytes.
  assert (header_bytes n = [b0; b1; b2; b3]) as ->.
  { apply header_bytes_value. }
  rewrite <- Ht. rewrite <- (take_drop 4 pre) at 1. rewrite <- app_assoc. f_equal.
  unfold body. change (S (S (S (S (Z.to_nat n))))) with (4 + Z.to_nat n)%nat.
  rewrite <- (drop_drop pre (Z.to_nat n) 4). by rewrite take_drop.
Qed.

Lemma next_none max pre pre' : Stream.next max pre = (Ok None, pre') -> pre' = pre.
Proof. unfold Stream.next. repeat case_match; congruence. Qed.

(** Draining arbitrary bytes: the frames handed out are legal, re-encode to
    the bytes taken from the front, and an exception is a [ProtocolError]. *)
Lemma next_error max pre x pre' :
  Stream.next max pre = (Throw x, pre') -> is_ProtocolError x = true.
Proof.
  unfold Stream.next, decode_length, throw_if, mbind, result_bind.
  intros H. repeat case_match; simplify_eq; done.
Qed.

Lemma feed_error max pre c x :
  (Stream.feed max pre c).1 = Throw x -> is_ProtocolError x = true.
Proof.
  unfold Stream.feed, decode_length, throw_if, mbind, result_bind.
  intros H. repeat (case_match; simpl in *); simplify_eq; done.
Qed.

Lemma drain_frames_sound fuel d :
  decoder_inv d ->
  match drain_frames fuel d with
  | (Ok ps, d') => decoder_inv d' /\ max_frame_size_ d' = max_frame_size_ d /\
      Forall (legal (max_frame_size_ d)) ps /\ pending d = frames ps ++ pending d' /\
      buffered_bytes d' <= buffered_bytes d
  | (Throw x, d') => decoder_inv d' /\ max_frame_size_ d' = max_frame_size_ d /\
      is_ProtocolError x = true /\ buffered_bytes d' <= buffered_bytes d
  end.
Proof.
  revert d. induction fuel as [|fuel IH]; intros d Hi; cbn [drain_frames]; [done|].
  destruct (next_frame_refines d Hi) as (d1 & Hn & Hi1 & Hm1 & Hp1 & Hb1).
  unfold mbind at 1, M_bind at 1. rewrite Hn.
  destruct (Stream.next (max_frame_size_ d) (pending d)) as [[[p|]|x] pre'] eqn:En;
    cbn [fst snd] in *.
  - apply next_sound in En as [Hlp Hpre]. specialize (IH d1 Hi1).
    unfold mbind, M_bind. destruct (drain_frames fuel d1) as [[ps|x] d2].
    + destruct IH as (? & ? & Hps & Hpre1 & ?). rewrite Hm1 in Hps.
      cbn [mret M_ret]. splits; try done; [congruence|by constructor| |lia].
      rewrite frames_cons, <- app_assoc, <- Hpre1, Hp1. done.
    + destruct IH as (? & ? & ? & ?). splits; try done; [congruence|lia].
  - cbn. splits; try done. rewrite Hp1. by apply next_none in En.
  - splits; try done. by apply next_error in En.
Qed.

(** After a drain that returns, no complete frame is left. *)
Lemma drain_frames_complete fuel d ps d' :
  decoder_inv d -> (length (pending d) < fuel)%nat ->
  drain_frames fuel d = (Ok ps, d') ->
  Stream.next (max_frame_size_ d) (pending d') = (Ok None, pending d').
Proof.
  revert d ps. induction fuel as [|fuel IH]; intros d ps Hi Hf; [lia|]. cbn [drain_frames].
  destruct (next_frame_refines d Hi) as (d1 & Hn & Hi1 & Hm1 & Hp1 & Hb1).
  unfold mbind at 1, M_bind at 1. rewrite Hn.
  destruct (Stream.next (max_frame_size_ d) (pending d)) as [[[p|]|x] pre'] eqn:En;
    cbn [fst snd] in *; [| |done].
  - apply next_sound in En as [Hlp Hpre]. unfold mbind, M_bind.
    destruct (drain_frames fuel d1) as [[qs|x] d2] eqn:Ed; [|done].
    intros [= <- <-]. rewrite <- Hm1. apply (IH d1 qs); [done| |done].
    pose proof (frame_of_length p) as Hl. rewrite Hp1. rewrite Hpre, length_app in Hf.
    unfold legal, kHeaderSize in *. lia.
  - intros [= <- <-]. rewrite Hp1.
    pose proof (next_none _ _ _ En). congruence.
Qed.

Lemma next_none_short max pre pre' :
  1 <= max -> Stream.next max pre = (Ok None, pre') -> vec_size pre' < 4 + max.
Proof.
  intros Hm Hn. pose proof (next_none _ _ _ Hn). subst pre'. revert Hn.
  unfold Stream.next, vec_size. destruct (Nat.ltb_spec (length pre) 4); [lia|].
  destruct (decode_length (take 4 pre) max) as [n|] eqn:Ed; [|done].
  apply decode_length_range in Ed.
  destruct (Nat.ltb_spec (length pre) (4 + Z.to_nat n)); [lia|done].
Qed.

Lemma decoder_inv_new max :
  1 <= max <= kAbsoluteMaxFrameSize -> decoder_inv (mkDecoder max [] 0).
Proof. intros. constructor; unfold vec_size; simpl; lia. Qed.

Lemma Decoder_new_ok max :
  1 <= max <= kAbsoluteMaxFrameSize -> Decoder_new max = Ok (mkDecoder max [] 0).
Proof.
  intros. unfold Decoder_new. replace (max =? 0) with false by lia.
  by replace (max >? kAbsoluteMaxFrameSize) with false by lia.
Qed.

Lemma waiting_empty (qs : list string) :
  match qs with
  | [] => @nil byte = []
  | q :: _ => exists more, more <> [] /\ [] ++ more = frame_of q
  end.
Proof. destruct qs as [|q qs]; [done|]. exists (frame_of q). done. Qed.

Lemma receive_sound chunk cs d :
  decoder_inv d -> 0 <= chunk <= 2 ^ 40 -> Forall (fun c => vec_size c <= chunk) cs ->
  vec_size (pending d) < kHeaderSize + max_frame_size_ d ->
  buffered_bytes d <= buffer_bound (max_frame_size_ d) chunk ->
  match receive cs d with
  | (Ok ps, d') => Forall (legal (max_frame_size_ d)) ps /\
      pending d ++ concat cs = frames ps ++ pending d' /\
      buffered_bytes d' <= buffer_bound (max_frame_size_ d) chunk
  | (Throw x, d') => is_ProtocolError x = true /\
      buffered_bytes d' <= buffer_bound (max_frame_size_ d) chunk
  end.
Proof.
  revert d. induction cs as [|c cs IH]; intros d Hi Hch Hcs Hpd Hb; cbn [receive].
  { cbn. by rewrite app_nil_r. }
  inversion Hcs as [|? ? Hc Hcs']; subst. pose proof (vec_size_nonneg c).
  pose proof Hi as [Hic Him His].
  unfold buffer_bound, kHeaderSize, kAbsoluteMaxFrameSize in *.
  destruct (feed_refines d c Hi ltac:(unfold buffered_bytes in *; lia))
    as (d1 & Hf & Hi1 & Hm1 & Hp1 & Hb1). unfold kHeaderSize in Hb1.
  unfold mbind at 1, M_bind at 1. rewrite Hf.
  destruct (Stream.feed (max_frame_size_ d) (pending d) c).1 as [[]|x] eqn:Ef;
    [|split; [by apply feed_error in Ef|lia]].
  assert (pending d1 = pending d ++ c) as Hp1'.
  { rewrite Hp1. unfold Stream.feed. by destruct (4 <=? _)%nat. }
  unfold drain_all, mbind, M_bind, getM.
  pose proof (drain_frames_sound (S (length (buffer_ d1))) d1 Hi1) as Hds.
  destruct (drain_frames (S (length (buffer_ d1))) d1) as [[ps|x] d2] eqn:Ed;
    [|destruct Hds as (? & ? & ? & ?); split; [done|lia]].
  destruct Hds as (Hi2 & Hm2 & Hps & Hpre & Hb2). rewrite Hm1 in Hps, Hm2.
  assert (vec_size (pending d2) < 4 + max_frame_size_ d) as Hp2.
  { apply (drain_frames_complete _ d1) in Ed as Hn; [|done|
      unfold pending; rewrite length_drop; lia].
    rewrite Hm1 in Hn. apply next_none_short in Hn; lia. }
  specialize (IH d2 Hi2 Hch Hcs'). rewrite Hm2 in IH.
  specialize (IH Hp2 ltac:(lia)).
  destruct (receive cs d2) as [[qs|x] d3].
  - destruct IH as (Hqs & Hcc & Hb3). cbn. splits; [by apply Forall_app| |done].
    unfold frames in *. rewrite map_app, concat_app, app_assoc, <- Hp1', Hpre.
    by rewrite <- !app_assoc, Hcc.
  - done.
Qed.

(** ** Properties *)

(** C4: Stream reassembly.  However the transport splits the bytes of a
    sequence of encoded frames into reads, feeding the reads to a fresh
    [Decoder] and draining it after each hands out exactly the payloads that
    were encoded, in order, raises nothing, and ends with nothing pending. *)
Theorem reassembly_exact (max chunk : Z) (ps : list string) (fs cs : list (list byte)) :
  1 <= max <= kAbsoluteMaxFrameSize -> 0 <= chunk <= 2 ^ 40 ->
  Forall2 (fun p f => encode p max = Ok f) ps fs ->
  concat cs = concat fs -> Forall (fun c => vec_size c <= chunk) cs ->
  exists d d', Decoder_new max = Ok d /\ receive cs d = (Ok ps, d') /\ pending d' = [].
Proof.
  intros Hm Hch Hfs Hcs Hsz.
  assert (concat fs = frames ps /\ Forall (legal max) ps) as [Hfr Hleg].
  { clear Hcs. induction Hfs as [|p f ps fs He _ [IH1 IH2]]; [done|].
    apply encode_ok in He as (_ & ? & ->). simpl. rewrite IH1. split; [done|].
    by constructor. }
  exists (mkDecoder max [] 0). rewrite Decoder_new_ok by done.
  destruct (receive_stream chunk cs (mkDecoder max [] 0) [] ps)
    as (qs1 & qs2 & d' & Hr & -> & Hi & Hmx & [Hw1 Hw2] & Hb);
    try first [done | by apply decoder_inv_new].
  - unfold buffered_bytes, buffer_bound, vec_size, kHeaderSize. simpl. lia.
  - split; [by rewrite app_nil_r, Hcs, Hfr|]. apply waiting_empty.
  - exists d'. rewrite app_nil_r in Hw1. destruct qs2 as [|q qs2].
    + by rewrite app_nil_r.
    + destruct Hw2 as (more & Hne & Hpre). rewrite frames_cons in Hw1.
      rewrite Hw1 in Hpre. apply (f_equal length) in Hpre.
      rewrite !length_app in Hpre. destruct more; [done|]. simpl in Hpre. lia.
Qed.

Lemma reassembly_exact_witness :
  exists d d', Decoder_new 8 = Ok d /\
    receive [[Byte.x00; Byte.x00]; [Byte.x00; Byte.x02; Byte.x68; Byte.x69; Byte.x00];
             [Byte.x00; Byte.x00; Byte.x01; Byte.x78]] d
    = (Ok ["hi"; "x"], d') /\ pending d' = [].
Proof.
  apply (reassembly_exact 8 16 ["hi"; "x"]
    [[Byte.x00; Byte.x00; Byte.x00; Byte.x02; Byte.x68; Byte.x69];
     [Byte.x00; Byte.x00; Byte.x00; Byte.x01; Byte.x78]]).
  - vm_compute; split; discriminate.
  - vm_compute; split; discriminate.
  - repeat constructor.
  - reflexivity.
  - repeat constructor; vm_compute; discriminate.
Defined.

(** C23: Hostile input.  For every sequence of reads whatever, the decoder
    either hands out frames of legal size (1 to the configured maximum) whose
    encodings followed by the undecided rest are exactly the bytes received,
    or stops with a [ProtocolError]; and it never holds more than two maximal
    frames and one read. *)
Theorem receive_any_input (max chunk : Z) (cs : list (list byte)) (d : Decoder) :
  Decoder_new max = Ok d -> 1 <= max -> 0 <= chunk <= 2 ^ 40 ->
  Forall (fun c => vec_size c <= chunk) cs ->
  match receive cs d with
  | (Ok ps, d') => Forall (legal max) ps /\ concat cs = frames ps ++ pending d' /\
      buffered_bytes d' <= buffer_bound max chunk
  | (Throw x, d') => is_ProtocolError x = true /\
      buffered_bytes d' <= buffer_bound max chunk
  end.
Proof.
  intros Hd Hm Hch Hcs.
  assert (max <= kAbsoluteMaxFrameSize /\ d = mkDecoder max [] 0) as [Hmx ->].
  { unfold Decoder_new, throw_if, mbind, result_bind in Hd.
    destruct (_ || _)%bool eqn:E; simplify_eq. bool_props. split; [lia|congruence]. }
  apply (receive_sound chunk cs (mkDecoder max [] 0));
    try first [done | by apply decoder_inv_new].
  - unfold vec_size, kHeaderSize. simpl. lia.
  - unfold buffered_bytes, buffer_bound, vec_size, kHeaderSize. simpl. lia.
Qed.

Lemma receive_any_input_witness :
  match receive [[Byte.x00; Byte.x00; Byte.x00]; [Byte.xff; Byte.x41]] (mkDecoder 8 [] 0) with
  | (Ok ps, d') => Forall (legal 8) ps /\
      concat [[Byte.x00; Byte.x00; Byte.x00]; [Byte.xff; Byte.x41]] = frames ps ++ pending d' /\
      buffered_bytes d' <= buffer_bound 8 16
  | (Throw x, d') => is_ProtocolError x = true /\
      buffered_bytes d' <= buffer_bound 8 16
  end.
Proof.
  apply (receive_any_input 8 16).
  - reflexivity.
  - lia.
  - vm_compute; split; discriminate.
  - repeat constructor; vm_compute; discriminate.
Defined.

(** ** Refinement: any sequence of calls *)

(** The public operations and what a caller observes of each. *)
Inductive op := OpFeed (data : list byte) | OpNext | OpReset.
Inductive obs := ObsUnit (r : result unit) | ObsFrame (r : result (option string)).

Fixpoint run_decoder (ops : list op) (d : Decoder) : list obs :=
  match ops with
  | [] => []
  | OpFeed data :: ops' => let '(r, d') := feed data d in ObsUnit r :: run_decoder ops' d'
  | OpNext :: ops' => let '(r, d') := next_frame d in ObsFrame r :: run_decoder ops' d'
  | OpReset :: ops' => ObsUnit (Ok tt) :: run_decoder ops' (Decoder_reset d)
  end.

Fixpoint run_stream (ops : list op) (max : Z) (pre : list byte) : list obs :=
  match ops with
  | [] => []
  | OpFeed data :: ops' =>
      let '(r, pre') := Stream.feed max pre data in ObsUnit r :: run_stream ops' max pre'
  | OpNext :: ops' =>
      let '(r, pre') := Stream.next max pre in ObsFrame r :: run_stream ops' max pre'
  | OpReset :: ops' => ObsUnit (Ok tt) :: run_stream ops' max []
  end.

Definition bytes_fed (ops : list op) : Z :=
  fold_right (fun o n => match o with OpFeed c => vec_size c + n | _ => n end) 0 ops.

Lemma bytes_fed_nonneg ops : 0 <= bytes_fed ops.
Proof.
  induction ops as [|[c| |] ops IH]; simpl; try lia. pose proof (vec_size_nonneg c). lia.
Qed.

Lemma feed_growth data d :
  decoder_inv d -> buffered_bytes (feed data d).2 <= buffered_bytes d + vec_size data.
Proof.
  intros Hi. pose proof (reclaim_size d Hi). unfold feed, mbind, M_bind, getM, putM.
  unfold buffered_bytes. case_match; simpl;
    [unfold liftM; destruct (decode_length _ _)|]; simpl; rewrite vec_size_app; lia.
Qed.

Lemma run_refines ops d :
  decoder_inv d -> buffered_bytes d + bytes_fed ops < 2 ^ 62 ->
  run_decoder ops d = run_stream ops (max_frame_size_ d) (pending d).
Proof.
  revert d. induction ops as [|[c| |] ops IH]; intros d Hi Hb; simpl in *; [done| | |].
  - pose proof (bytes_fed_nonneg ops). pose proof (feed_growth c d Hi) as Hg.
    destruct (feed_refines d c Hi ltac:(unfold buffered_bytes in *; lia))
      as (d1 & Hf & Hi1 & Hm & Hp & _). rewrite Hf in *. simpl in Hg.
    destruct (Stream.feed (max_frame_size_ d) (pending d) c) as [r pre'].
    cbn [fst snd] in *. f_equal. rewrite IH by (done || lia). congruence.
  - destruct (next_frame_refines d Hi) as (d1 & Hf & Hi1 & Hm & Hp & Hb1). rewrite Hf.
    destruct (Stream.next (max_frame_size_ d) (pending d)) as [r pre'].
    cbn [fst snd] in *. f_equal. rewrite IH by (done || lia). congruence.
  - f_equal. destruct Hi as [? Hmx ?]. rewrite IH; [done|by apply decoder_inv_new|].
    pose proof (bytes_fed_nonneg ops). unfold buffered_bytes, vec_size in *. simpl. lia.
Qed.

(** C10: Refinement.  For every sequence of [feed], [next_frame] and [reset]
    calls, exceptions included, a [Decoder] is observed to behave as the
    abstract stream, which keeps only the bytes not yet handed out: the read
    position, the lazily reclaimed prefix and the in-place clearing are
    invisible to callers. *)
Theorem decoder_refines_stream (max : Z) (ops : list op) (d : Decoder) :
  Decoder_new max = Ok d -> 1 <= max -> bytes_fed ops < 2 ^ 62 ->
  run_decoder ops d = run_stream ops max [].
Proof.
  intros Hd Hm Hb. unfold Decoder_new, throw_if, mbind, result_bind in Hd.
  destruct (_ || _)%bool eqn:E; simplify_eq. bool_props.
  apply run_refines; [by apply decoder_inv_new|].
  unfold buffered_bytes, vec_size. simpl. lia.
Qed.

Lemma decoder_refines_stream_witness :
  run_decoder [OpFeed [Byte.x00; Byte.x00; Byte.x00; Byte.x01; Byte.x41; Byte.x00]; OpNext; OpNext;
               OpFeed [Byte.x00; Byte.x00; Byte.x00]; OpReset; OpNext] (mkDecoder 8 [] 0)
  = run_stream [OpFeed [Byte.x00; Byte.x00; Byte.x00; Byte.x01; Byte.x41; Byte.x00]; OpNext; OpNext;
                OpFeed [Byte.x00; Byte.x00; Byte.x00]; OpReset; OpNext] 8 [].
Proof. apply decoder_refines_stream; [reflexivity | lia | vm_compute; reflexivity]. Defined.
