(* ===== verification/Utf8.v ===== *)
(** [is_valid_utf8] of [src/common/application_protocol.cpp], the gate every
    application message passes before it reaches the JSON parser, and its
    specification: a byte string is accepted exactly when it is the UTF-8
    encoding (RFC 3629) of a sequence of Unicode scalar values. *)

From S2P Require Import Prelude.

(** ** The code *)

(** Leading byte of a multi-byte sequence: how many continuation bytes follow
    and the bits it contributes. *)
Definition utf8_lead (first : Z) : option (nat * Z) :=
  if Z.land first 0xE0 =? 0xC0 then Some (1%nat, Z.land first 0x1F)
  else if Z.land first 0xF0 =? 0xE0 then Some (2%nat, Z.land first 0x0F)
  else if Z.land first 0xF8 =? 0xF0 then Some (3%nat, Z.land first 0x07)
  else None.

(** [for (int i = 1; i <= extra; ++i)]: the continuation bytes. *)
Fixpoint utf8_continue (extra : nat) (rest : list Z) (code_point : Z) : option Z :=
  match extra, rest with
  | O, _ => Some code_point
  | S _, [] => None
  | S extra', cont :: rest' =>
      if negb (Z.land cont 0xC0 =? 0x80) then None
      else utf8_continue extra' rest'
             (Z.lor (to_u32 (Z.shiftl code_point 6)) (Z.land cont 0x3F))
  end.

(** Overlong forms, out-of-range values and surrogates. *)
Definition utf8_rejected (extra : nat) (code_point : Z) : bool :=
  ((extra =? 1)%nat && (code_point <? 0x80)) ||
  ((extra =? 2)%nat && (code_point <? 0x800)) ||
  ((extra =? 3)%nat && (code_point <? 0x10000)) ||
  (code_point >? 0x10FFFF) ||
  ((code_point >=? 0xD800) && (code_point <=? 0xDFFF)).

(** [while (p < end)]; the read position is the rest of the list.  Every turn
    consumes at least one byte, so one unit of fuel per byte is enough
    ([utf8_scan_fuel]). *)
Fixpoint utf8_scan (fuel : nat) (p : list Z) : bool :=
  match p with
  | [] => true
  | first :: rest =>
      match fuel with
      | O => false
      | S fuel' =>
          if first <? 0x80 then utf8_scan fuel' rest
          else match utf8_lead first with
               | None => false
               | Some (extra, bits) =>
                   if (length p <=? extra)%nat then false
                   else match utf8_continue extra rest bits with
                        | None => false
                        | Some code_point =>
                            if utf8_rejected extra code_point then false
                            else utf8_scan fuel' (drop extra rest)
                        end
               end
      end
  end.

Definition string_octets (s : string) : list Z := map byte_to_Z (bytes_of_string s).

Definition is_valid_utf8 (bytes : string) : bool :=
  utf8_scan (String.length bytes) (string_octets bytes).

(** ** The specification *)

Definition scalar_value (cp : Z) : Prop :=
  0 <= cp <= 0x10FFFF /\ ~ (0xD800 <= cp <= 0xDFFF).

(** RFC 3629, section 3. *)
Definition utf8_encode (cp : Z) : list Z :=
  if cp <? 0x80 then [cp]
  else if cp <? 0x800 then [0xC0 + cp / 64; 0x80 + cp mod 64]
  else if cp <? 0x10000 then
    [0xE0 + cp / 4096; 0x80 + cp / 64 mod 64; 0x80 + cp mod 64]
  else
    [0xF0 + cp / 262144; 0x80 + cp / 4096 mod 64; 0x80 + cp / 64 mod 64; 0x80 + cp mod 64].

(** ** Lemmas *)

Definition octet (z : Z) : Prop := 0 <= z < 256.

(** Checking every octet decides a statement about all of them. *)
Lemma octet_forall (p : Z -> bool) :
  forallb p (map Z.of_nat (seq 0 256)) = true -> forall z, octet z -> p z = true.
Proof.
  intros H z Hz. rewrite forallb_forall in H. apply H, in_map_iff.
  exists (Z.to_nat z). unfold octet in Hz. split; [lia|]. apply in_seq. lia.
Qed.

Lemma octets_of_string s : Forall octet (string_octets s).
Proof.
  unfold string_octets. apply List.Forall_forall. intros z Hz.
  apply in_map_iff in Hz as (b & <- & _). apply byte_to_Z_range.
Qed.

(** What [utf8_lead] computes with masks, as ranges. *)
Definition lead_ranges (first : Z) : option (nat * Z) :=
  if (0xC0 <=? first) && (first <=? 0xDF) then Some (1%nat, first - 0xC0)
  else if (0xE0 <=? first) && (first <=? 0xEF) then Some (2%nat, first - 0xE0)
  else if (0xF0 <=? first) && (first <=? 0xF7) then Some (3%nat, first - 0xF0)
  else None.

Lemma utf8_lead_ranges first : octet first -> utf8_lead first = lead_ranges first.
Proof.
  intros H. apply (bool_decide_eq_true (utf8_lead first = lead_ranges first)).
  revert first H.
  apply (octet_forall (fun z => bool_decide (utf8_lead z = lead_ranges z))).
  vm_compute. reflexivity.
Qed.

(** A continuation byte as a range, with the six bits it carries. *)
Lemma continuation_bits cont :
  octet cont ->
  (Z.land cont 0xC0 =? 0x80) = ((0x80 <=? cont) && (cont <? 0xC0)) /\
  Z.land cont 0x3F = cont mod 64.
Proof.
  intros H. split.
  - apply eqb_prop. revert cont H.
    apply (octet_forall (fun c => eqb (Z.land c 0xC0 =? 0x80) ((0x80 <=? c) && (c <? 0xC0)))).
    vm_compute. reflexivity.
  - change 0x3F with (Z.ones 6). by rewrite Z.land_ones by lia.
Qed.

(** One turn of the continuation loop. *)
Lemma utf8_continue_step extra cont rest cp :
  octet cont -> 0 <= cp < 2 ^ 20 ->
  utf8_continue (S extra) (cont :: rest) cp =
  if (0x80 <=? cont) && (cont <? 0xC0)
  then utf8_continue extra rest (cp * 64 + (cont - 0x80)) else None.
Proof.
  intros Hc Hcp. cbn [utf8_continue]. destruct (continuation_bits cont Hc) as [-> ->].
  destruct ((0x80 <=? cont) && (cont <? 0xC0)) eqn:E; [|done]. simpl. bool_props.
  f_equal. rewrite to_u32_small.
  - rewrite lor_shiftl_add by (change (2 ^ 6) with 64; dlia). change (2 ^ 6) with 64.
    dlia.
  - unfold is_u32, u32_max. rewrite Z.shiftl_mul_pow2 by lia. change (2 ^ 6) with 64. lia.
Qed.

(** The loop, one sequence at a time: with enough fuel the scan of a byte
    string follows its leading sequence. *)
Lemma utf8_scan_cons fuel first rest :
  utf8_scan (S fuel) (first :: rest) =
  if first <? 0x80 then utf8_scan fuel rest
  else match utf8_lead first with
       | None => false
       | Some (extra, bits) =>
           if (S (length rest) <=? extra)%nat then false
           else match utf8_continue extra rest bits with
                | None => false
                | Some cp => if utf8_rejected extra cp then false
                             else utf8_scan fuel (drop extra rest)
                end
       end.
Proof. reflexivity. Qed.

Lemma utf8_scan_fuel fuel p :
  (length p <= fuel)%nat -> utf8_scan fuel p = utf8_scan (length p) p.
Proof.
  enough (forall n fuel p, (length p <= n)%nat -> (length p <= fuel)%nat ->
    utf8_scan fuel p = utf8_scan (length p) p) as H by (intros; by apply (H (length p))).
  clear. induction n as [|n IH]; intros fuel p Hn Hf; destruct p as [|first rest].
  1,3: by destruct fuel. { simpl in Hn. lia. }
  destruct fuel as [|fuel]; simpl in Hf, Hn; [lia|]. cbn [length].
  rewrite !utf8_scan_cons. destruct (first <? 0x80).
  - apply IH; lia.
  - destruct (utf8_lead first) as [[extra bits]|]; [|done].
    destruct (S (length rest) <=? extra)%nat; [done|].
    destruct (utf8_continue extra rest bits) as [cp|]; [|done].
    destruct (utf8_rejected extra cp); [done|].
    rewrite (IH fuel), (IH (length rest)); try done; rewrite length_drop; lia.
Qed.

(** A scalar value in the range of its sequence length passes the checks. *)
Lemma scalar_not_rejected extra cp :
  scalar_value cp -> (extra = 1%nat -> 0x80 <= cp) -> (extra = 2%nat -> 0x800 <= cp) ->
  (extra = 3%nat -> 0x10000 <= cp) -> utf8_rejected extra cp = false.
Proof.
  intros [Hr Hs] H1 H2 H3. unfold utf8_rejected.
  destruct extra as [|[|[|[|extra]]]]; cbn [Nat.eqb andb orb]; lia.
Qed.

(** Scanning an encoded scalar value consumes exactly its encoding. *)
Lemma utf8_scan_encode fuel cp rest :
  scalar_value cp -> (length (utf8_encode cp ++ rest) <= fuel)%nat ->
  utf8_scan fuel (utf8_encode cp ++ rest) = utf8_scan (length rest) rest.
Proof.
  intros Hsv Hf. pose proof Hsv as [Hr Hs]. rewrite utf8_scan_fuel by done. rewrite length_app.
  unfold utf8_encode in *.
  destruct (cp <? 0x80) eqn:E1; [|destruct (cp <? 0x800) eqn:E2;
    [|destruct (cp <? 0x10000) eqn:E3]]; bool_props; cbn [app length Nat.add];
    rewrite utf8_scan_cons.
  - by replace (cp <? 0x80) with true by dlia.
  - replace (0xC0 + cp / 64 <? 0x80) with false by dlia.
    rewrite utf8_lead_ranges by (unfold octet; dlia). unfold lead_ranges.
    replace (_ && _)%bool with true by dlia.
    cbn [length Nat.leb]. rewrite utf8_continue_step by (unfold octet; dlia).
    replace (_ && _)%bool with true by dlia. cbn [utf8_continue].
    match goal with |- context [utf8_rejected _ ?e] => replace e with cp by dlia end.
    rewrite scalar_not_rejected by (done || lia).
    cbn [drop]. apply utf8_scan_fuel. lia.
  - replace (0xE0 + cp / 4096 <? 0x80) with false by dlia.
    rewrite utf8_lead_ranges by (unfold octet; dlia). unfold lead_ranges.
    replace ((_ && _)%bool) with false by dlia.
    replace ((_ && _)%bool) with true by dlia.
    cbn [length Nat.leb].
    do 2 (rewrite utf8_continue_step by (unfold octet; dlia);
          replace (_ && _)%bool with true by dlia). cbn [utf8_continue].
    match goal with |- context [utf8_rejected _ ?e] => replace e with cp by dlia end.
    rewrite scalar_not_rejected by (done || lia).
    cbn [drop]. apply utf8_scan_fuel. lia.
  - replace (0xF0 + cp / 262144 <? 0x80) with false by dlia.
    rewrite utf8_lead_ranges by (unfold octet; dlia). unfold lead_ranges.
    do 2 replace ((_ && _)%bool) with false by dlia.
    replace ((_ && _)%bool) with true by dlia.
    cbn [length Nat.leb].
    do 3 (rewrite utf8_continue_step by (unfold octet; dlia);
          replace (_ && _)%bool with true by dlia). cbn [utf8_continue].
    match goal with |- context [utf8_rejected _ ?e] => replace e with cp by dlia end.
    rewrite scalar_not_rejected by (done || lia).
    cbn [drop]. apply utf8_scan_fuel. lia.
Qed.

Lemma not_rejected_scalar extra cp :
  0 <= cp -> utf8_rejected extra cp = false ->
  scalar_value cp /\ (extra = 1%nat -> 0x80 <= cp) /\ (extra = 2%nat -> 0x800 <= cp) /\
  (extra = 3%nat -> 0x10000 <= cp).
Proof.
  intros Hp H. unfold utf8_rejected in H. unfold scalar_value.
  destruct extra as [|[|[|[|extra]]]]; cbn [Nat.eqb andb orb] in H; lia.
Qed.

(** One continuation byte taken by a loop that succeeds. *)
Lemma utf8_continue_inv extra rest bits cp :
  Forall octet rest -> 0 <= bits < 2 ^ 20 -> utf8_continue (S extra) rest bits = Some cp ->
  exists c rest', rest = c :: rest' /\ 0x80 <= c < 0xC0 /\ Forall octet rest' /\
    utf8_continue extra rest' (bits * 64 + (c - 0x80)) = Some cp.
Proof.
  intros Ho Hb. destruct rest as [|c rest']; [done|]. inversion Ho; subst.
  rewrite utf8_continue_step by done.
  destruct ((0x80 <=? c) && (c <? 0xC0)) eqn:E; [|done]. bool_props.
  intros Hc. by exists c, rest'.
Qed.

(** A string the scan accepts starts with the encoding of a scalar value. *)
Lemma utf8_scan_decode first rest :
  Forall octet (first :: rest) -> utf8_scan (length (first :: rest)) (first :: rest) = true ->
  exists cp rest', scalar_value cp /\ first :: rest = utf8_encode cp ++ rest' /\
    utf8_scan (length rest') rest' = true /\ Forall octet rest' /\
    (length rest' <= length rest)%nat.
Proof.
  intros Ho. inversion Ho as [|? ? H1 Hr]; subst. cbn [length]. rewrite utf8_scan_cons.
  destruct (first <? 0x80) eqn:E; bool_props.
  { intros Hs. exists first, rest. unfold scalar_value, utf8_encode, octet in *.
    replace (first <? 0x80) with true by lia. splits; try done; lia. }
  rewrite utf8_lead_ranges by done. unfold lead_ranges, octet in *.
  destruct ((0xC0 <=? first) && (first <=? 0xDF)) eqn:E1;
  [|destruct ((0xE0 <=? first) && (first <=? 0xEF)) eqn:E2;
   [|destruct ((0xF0 <=? first) && (first <=? 0xF7)) eqn:E3; [|done]]];
  (destruct (_ <=? _)%nat eqn:El; [done|]);
  (destruct (utf8_continue _ rest _) as [cp|] eqn:Ec; [|done]);
  (destruct (utf8_rejected _ cp) eqn:Er; [done|]); intros Hs; bool_props;
  apply utf8_continue_inv in Ec as (c1 & r1 & -> & Hc1 & Hr1 & Ec); try done; try lia.
  2,3: apply utf8_continue_inv in Ec as (c2 & r2 & -> & Hc2 & Hr2 & Ec); try done; try lia.
  3: apply utf8_continue_inv in Ec as (c3 & r3 & -> & Hc3 & Hr3 & Ec); try done; try lia.
  all: injection Ec as Ec; apply not_rejected_scalar in Er as (Hsv & Hl1 & Hl2 & Hl3); [|lia].
  all: cbn [drop length] in *; rewrite drop_0, utf8_scan_fuel in Hs by lia.
  1: exists cp, r1; specialize (Hl1 eq_refl).
  2: exists cp, r2; specialize (Hl2 eq_refl).
  3: exists cp, r3; specialize (Hl3 eq_refl).
  all: splits; try done; [|lia]; unfold utf8_encode, scalar_value in *.
  - replace (cp <? 0x80) with false by lia. replace (cp <? 0x800) with true by lia.
    cbn [app]. repeat f_equal; dlia.
  - replace (cp <? 0x80) with false by lia. replace (cp <? 0x800) with false by lia.
    replace (cp <? 0x10000) with true by lia. cbn [app]. repeat f_equal; dlia.
  - replace (cp <? 0x80) with false by lia. replace (cp <? 0x800) with false by lia.
    replace (cp <? 0x10000) with false by lia. cbn [app]. repeat f_equal; dlia.
Qed.

(** ** Property *)

(** C22: [is_valid_utf8] accepts exactly well-formed UTF-8: a byte string
    passes if and only if it is the concatenation of the RFC 3629 encodings of
    Unicode scalar values, so overlong forms, surrogates, values above
    U+10FFFF, truncated and misplaced bytes are all refused and nothing valid
    is. *)
Theorem is_valid_utf8_spec (s : string) :
  is_valid_utf8 s = true <->
  exists cps, Forall scalar_value cps /\ string_octets s = concat (map utf8_encode cps).
Proof.
  unfold is_valid_utf8.
  replace (String.length s) with (length (string_octets s))
    by (unfold string_octets; by rewrite length_map, bytes_of_string_length).
  pose proof (octets_of_string s) as Ho. revert Ho. generalize (string_octets s). clear s.
  intros p Ho. split.
  - remember (length p) as n eqn:Hn. assert (length p <= n)%nat as Hle by lia.
    rewrite Hn. clear Hn. revert p Ho Hle. induction n as [|n IH]; intros p Ho Hle Hs.
    { destruct p; [by exists []|simpl in Hle; lia]. }
    destruct p as [|first rest]; [by exists []|].
    apply utf8_scan_decode in Hs as (cp & rest' & Hsv & -> & Hs & Ho' & Hl); [|done].
    simpl in Hle. destruct (IH rest') as (cps & Hcps & ->); [done|lia|done|].
    exists (cp :: cps). split; [by constructor|done].
  - intros (cps & Hcps & ->). clear Ho. induction Hcps as [|cp cps Hcp _ IH]; [done|].
    cbn [map concat]. by rewrite utf8_scan_encode.
Qed.
