(* ===== verification/Runtime.v ===== *)
(** The world a pqtls process runs in, as far as the sources touch it.

    OpenSSL, the socket API, the clocks and the random generator are outside
    [src/]: they are parameters, functions on an abstract world type [W] that
    the type classes of this and the later files collect.  A call may also
    push entries on the thread's OpenSSL error queue, which is explicit state
    because [drain_openssl_errors] ([src/common/error.cpp]) empties it.
    Calls that matter to a property leave an [Event] in the log, a ghost
    component no code reads, newest event first. *)

From S2P Require Import Prelude Errors.

(** ** Events, state, calls *)

(** What is set on an [SSL_CTX]. *)
Inductive CtxSetting :=
  | CtxMinVersion (v : Z)
  | CtxMaxVersion (v : Z)
  | CtxOptions (bits : Z)
  | CtxMode (bits : Z)
  | CtxGroups (groups : string)
  | CtxCiphersuites (suites : string)
  | CtxSigalgs (names : string)
  | CtxCipherList (ciphers : string)
  | CtxAlpn (wire : list byte)
  | CtxAlpnSelect
  | CtxKeylog
  | CtxCertificate (path : string)
  | CtxPrivateKey (path : string)
  | CtxCheckKey
  | CtxTrustFile (path : string)
  | CtxTrustDefault
  | CtxVerify (mode : Z)
  | CtxVerifyDepth (depth : Z)
  | CtxClientCA (path : string)
  | CtxSessionCache (mode : Z)
  | CtxTickets (n : Z).

(** The OpenSSL objects the program creates and must free.  All but the last are
    owned by a [unique_ptr]. *)
Inductive Object :=
  | ObjCtx
  | ObjSsl
  | ObjX509
  | ObjBio
  | ObjSession
  | ObjPkeyCtx.

#[export] Instance Object_eq_dec : EqDecision Object.
Proof. solve_decision. Defined.

(** [spdlog::level]. *)
Inductive LogLevel := LevelTrace | LevelDebug | LevelInfo | LevelWarn | LevelErr | LevelOff.

(** [struct timeval]: seconds and microseconds. *)
Definition timeval : Type := Z * Z.

Inductive Event :=
  | EvOpen (fd : Z)                        (* a descriptor was created *)
  | EvClose (fd : Z)                       (* ::close *)
  | EvTimeouts (fd : Z) (recv send : timeval)  (* SO_RCVTIMEO, SO_SNDTIMEO applied *)
  | EvConnect (fd rc : Z)                  (* ::connect *)
  | EvSetFd (ssl fd rc : Z)                (* SSL_set_fd *)
  | EvSni (name : string) (rc : Z)         (* SSL_set_tlsext_host_name *)
  | EvHostCheck (name : string) (rc : Z)   (* SSL_set1_host *)
  | EvHandshake (rc : Z)                   (* SSL_connect / SSL_accept returned *)
  | EvGroup (group : option string)        (* SSL_get0_group_name *)
  | EvVerifyResult (code : Z)              (* SSL_get_verify_result *)
  | EvPeerCertificate (present : bool)     (* SSL_get1_peer_certificate *)
  | EvSslWrite (data : list byte) (rc : Z) (* SSL_write on an established connection *)
  | EvSslRead (rc : Z) (data : list byte)  (* SSL_read *)
  | EvSslShutdown (rc : Z)                 (* SSL_shutdown *)
  | EvCtx (ctx : Z) (setting : CtxSetting) (rc : Z)  (* a setting of that SSL_CTX, with the result *)
  | EvPkeyCtx (algorithm : string) (h : Z)       (* EVP_PKEY_CTX_new_from_name *)
  | EvKeygenInit (algorithm : string) (rc : Z)   (* EVP_PKEY_keygen_init on a context for it *)
  | EvNew (o : Object) (h : Z)             (* an object was created, or a reference taken *)
  | EvFree (o : Object) (h : Z)            (* its free function *)
  | EvMetrics (line : string) (good : bool)  (* a line given to the metrics stream; its state after the flush *)
  | EvIgnoreSigpipe                        (* signal(SIGPIPE, SIG_IGN) *)
  | EvOut (text : string)                  (* written to stdout *)
  | EvErr (text : string)                  (* written to stderr *)
  | EvLogStderr                            (* the default logger now writes to stderr *)
  | EvLogLevel (level : LogLevel)          (* spdlog::set_level *)
  | EvLog (level : LogLevel) (text : string).  (* a message handed to the default logger *)

(** A line for the logger. *)
Definition logging (e : Event) : Prop := match e with EvLog _ _ => True | _ => False end.

(** An external function: world and OpenSSL error queue in, result, world and
    queue out. *)
Definition ext (W R : Type) : Type := W -> list Z -> R * (W * list Z).

Record St (W : Type) := mkSt {
  st_world : W;
  st_errq : list Z;
  st_log : list Event
}.
Arguments mkSt {W} _ _ _.
Arguments st_world {W} _.
Arguments st_errq {W} _.
Arguments st_log {W} _.

Definition io (W A : Type) : Type := M (St W) A.

(** The random generator, the error strings and the clocks. *)
Class RuntimeApi (W : Type) := {
  RAND_bytes : Z -> ext W (Z * list byte);
  ERR_error_string_n : Z -> string;
  system_clock_now : ext W Z;   (* nanoseconds since the epoch, int64 *)
  steady_clock_now : ext W Z    (* nanoseconds of the monotonic clock *)
}.

(** The random generator never fails. *)
Definition generator_works (W : Type) {RA : RuntimeApi W} : Prop :=
  forall n w q, (RAND_bytes n w q).1.1 = 1.

Section io.
Context {W : Type}.

(** Call an external function. *)
Definition call {R} (f : ext W R) : io W R := fun s =>
  let '(r, (w, q)) := f (st_world s) (st_errq s) in
  (Ok r, mkSt w q (st_log s)).

(** Record an event. *)
Definition emit (e : Event) : io W unit := fun s =>
  (Ok tt, mkSt (st_world s) (st_errq s) (e :: st_log s)).

(** Call and record what was called and returned. *)
Definition call_ev {R} (f : ext W R) (ev : R -> Event) : io W R :=
  r ← call f; emit (ev r) ;; mret r.

(** A [unique_ptr] to an OpenSSL object: it takes over a pointer, and its deleter
    runs unless that is null. *)
Definition adopt (o : Object) (h : Z) : io W unit := if h =? 0 then mret tt else emit (EvNew o h).
Definition dispose (o : Object) (h : Z) : io W unit := if h =? 0 then mret tt else emit (EvFree o h).

(** [spdlog::debug], [info], [warn] and [error]: the logger decides by its level
    whether the message is written, and where. *)
Definition log_at (level : LogLevel) (text : string) : io W unit := emit (EvLog level text).

(** ** [src/common/error.cpp] *)

Context `{RuntimeApi W}.

(** [while (code = ERR_get_error())]: pops entries until none is left. *)
Fixpoint drain_queue (q : list Z) : list string * list Z :=
  match q with
  | [] => ([], [])
  | code :: q' =>
      if code =? 0 then ([], q')
      else let '(msgs, rest) := drain_queue q' in (ERR_error_string_n code :: msgs, rest)
  end.

Definition drain_openssl_errors : io W (list string) := fun s =>
  let '(msgs, q) := drain_queue (st_errq s) in
  (Ok msgs, mkSt (st_world s) q (st_log s)).

(** [openssl_error]: an [Error] of the base class, with the drained queue. *)
Definition openssl_error (category : ErrorCategory) (message : string) : io W exn :=
  details ← drain_openssl_errors;
  mret (Raise false (Error_make category message details)).

Definition throw_openssl {A} (category : ErrorCategory) (message : string) : io W A :=
  x ← openssl_error category message; throwM x.

(** ** Rules for the log *)

Lemma call_wp {R} (f : ext W R) (Q : R -> St W -> Prop) E s :
  (forall r w q, f (st_world s) (st_errq s) = (r, (w, q)) -> Q r (mkSt w q (st_log s))) ->
  wp (call f) Q E s.
Proof.
  intros HQ. unfold wp, call. destruct (f (st_world s) (st_errq s)) as [r [w q]] eqn:E1.
  by apply HQ.
Qed.

Lemma call_ev_wp {R} (f : ext W R) ev (Q : R -> St W -> Prop) E s :
  (forall r w q, f (st_world s) (st_errq s) = (r, (w, q)) ->
     Q r (mkSt w q (ev r :: st_log s))) ->
  wp (call_ev f ev) Q E s.
Proof.
  intros HQ. apply wp_bind, call_wp. intros r w q Hf. by apply HQ.
Qed.

(** The same as equations. *)
Lemma call_eq {R} (f : ext W R) s r w q :
  f (st_world s) (st_errq s) = (r, (w, q)) -> call f s = (Ok r, mkSt w q (st_log s)).
Proof. unfold call. by intros ->. Qed.

Lemma call_ev_eq {R} (f : ext W R) ev s r w q :
  f (st_world s) (st_errq s) = (r, (w, q)) ->
  call_ev f ev s = (Ok r, mkSt w q (ev r :: st_log s)).
Proof. intros Hf. unfold call_ev, mbind, M_bind, call. by rewrite Hf. Qed.

Lemma drain_wp (Q : list string -> St W -> Prop) E s :
  (forall msgs q, drain_queue (st_errq s) = (msgs, q) ->
     Q msgs (mkSt (st_world s) q (st_log s))) ->
  wp drain_openssl_errors Q E s.
Proof.
  intros HQ. unfold wp, drain_openssl_errors.
  destruct (drain_queue (st_errq s)) as [msgs q]. by apply HQ.
Qed.

(** Error codes are non-zero, so after a drain the queue is empty. *)
Lemma drain_queue_empties q :
  Forall (fun c => c <> 0) q ->
  drain_queue q = (map ERR_error_string_n q, []).
Proof.
  induction 1 as [|c q Hc _ IH]; simpl; [done|].
  replace (c =? 0) with false by lia. by rewrite IH.
Qed.

End io.

(** The runtime itself throws nothing. *)
Section io_throws.
Context {W : Type}.

Lemma throws_call {R} P (f : ext W R) : throws P (call f).
Proof. intros s x s'. unfold call. by destruct (f _ _) as [? [? ?]]. Qed.

Lemma throws_emit P e : throws (S := St W) P (emit e).
Proof. by intros s x s' [=]. Qed.

Lemma throws_call_ev {R} P (f : ext W R) ev : throws P (call_ev f ev).
Proof.
  apply throws_bind; [apply throws_call|intros r].
  apply throws_bind; [apply throws_emit|intros; apply throws_ret].
Qed.

Lemma throws_log P l t : throws (S := St W) P (log_at l t).
Proof. apply throws_emit. Qed.

Lemma throws_adopt P o h : throws (S := St W) P (adopt o h).
Proof. unfold adopt. case_match; [apply throws_ret|apply throws_emit]. Qed.

Lemma throws_dispose P o h : throws (S := St W) P (dispose o h).
Proof. unfold dispose. case_match; [apply throws_ret|apply throws_emit]. Qed.

Lemma throws_drain `{RuntimeApi W} P : throws P drain_openssl_errors.
Proof. intros s x s'. unfold drain_openssl_errors. by destruct (drain_queue _). Qed.

Lemma throws_openssl `{RuntimeApi W} {A} (P : exn -> Prop) c m :
  (forall d, P (Raise false (Error_make c m d))) -> throws (A := A) P (throw_openssl c m).
Proof.
  intros HP s x s'. unfold throw_openssl, openssl_error, drain_openssl_errors, mbind, M_bind, throwM.
  destruct (drain_queue _) as [d q]. simpl. intros Heq. injection Heq as <- _. apply HP.
Qed.

End io_throws.

#[export] Hint Resolve throws_call throws_emit throws_call_ev throws_adopt throws_dispose
  throws_log throws_drain : pqtls.

(** A computation that leaves the log alone, whatever it returns. *)
Definition silent {W A} (m : io W A) : Prop := forall s, st_log (m s).2 = st_log s.

Section silent.
Context {W : Type}.

Lemma silent_ret {A} (a : A) : silent (W := W) (mret a).
Proof. done. Qed.

Lemma silent_throw {A} x : silent (W := W) (A := A) (throwM x).
Proof. done. Qed.

Lemma silent_lift {A} (r : result A) : silent (W := W) (liftM r).
Proof. done. Qed.

Lemma silent_bind {A B} (m : io W A) (k : A -> io W B) :
  silent m -> (forall a, silent (k a)) -> silent (m ≫= k).
Proof.
  intros Hm Hk s. unfold mbind, M_bind. specialize (Hm s).
  destruct (m s) as [[a|x] s']; simpl in *; [|done]. by rewrite Hk.
Qed.

Lemma silent_call {R} (f : ext W R) : silent (call f).
Proof. intros s. unfold call. by destruct (f _ _) as [? [? ?]]. Qed.

Lemma silent_drain `{RuntimeApi W} : silent drain_openssl_errors.
Proof. intros s. unfold drain_openssl_errors. by destruct (drain_queue _). Qed.

Lemma silent_throw_openssl `{RuntimeApi W} {A} c m : silent (A := A) (throw_openssl c m).
Proof.
  unfold throw_openssl, openssl_error.
  repeat (apply silent_bind; intros); auto using silent_ret, silent_throw, silent_drain.
Qed.

(** A silent computation in a postcondition proof: only the log is known
    afterwards. *)
Lemma silent_wp {A} (m : io W A) (Q : A -> St W -> Prop) (E : exn -> St W -> Prop) s :
  silent m ->
  (forall a s', st_log s' = st_log s -> Q a s') ->
  (forall x s', st_log s' = st_log s -> E x s') ->
  wp m Q E s.
Proof.
  intros Hm HQ HE. specialize (Hm s). unfold wp.
  destruct (m s) as [[a|x] s']; simpl in Hm; auto.
Qed.

End silent.

#[export] Hint Resolve silent_ret silent_throw silent_lift silent_bind silent_call
  silent_drain silent_throw_openssl : pqtls.

(** ** Events a computation can leave *)

(** Whatever it returns, it appended only events that satisfy [P]. *)
Definition emits {W A} (P : Event -> Prop) (m : io W A) : Prop :=
  forall s, exists new, st_log (m s).2 = new ++ st_log s /\ Forall P new.

Section emits.
Context {W : Type}.

Lemma emits_silent {A} P (m : io W A) : silent m -> emits P m.
Proof. intros Hm s. exists []. split; [apply Hm|constructor]. Qed.

Lemma emits_call_ev {R} (P : Event -> Prop) (f : ext W R) ev :
  (forall r, P (ev r)) -> emits P (call_ev f ev).
Proof.
  intros HP s. destruct (f (st_world s) (st_errq s)) as [r [w q]] eqn:E.
  rewrite (call_ev_eq _ _ _ _ _ _ E). exists [ev r]. split; [done|by apply Forall_singleton].
Qed.

Lemma emits_emit (P : Event -> Prop) e : P e -> emits (W := W) P (emit e).
Proof. intros HP s. exists [e]. split; [done|by apply Forall_singleton]. Qed.

(** A message to the logger. *)
Lemma log_wp level text (Q : unit -> St W -> Prop) E s :
  Q tt (mkSt (st_world s) (st_errq s) (EvLog level text :: st_log s)) -> wp (log_at level text) Q E s.
Proof. done. Qed.

Lemma emits_bind {A B} P (m : io W A) (k : A -> io W B) :
  emits P m -> (forall a, emits P (k a)) -> emits P (m ≫= k).
Proof.
  intros Hm Hk s. destruct (Hm s) as (n1 & L1 & F1). unfold mbind, M_bind.
  destruct (m s) as [[a|x] s1]; simpl in *; [|eauto].
  destruct (Hk a s1) as (n2 & L2 & F2). exists (n2 ++ n1).
  rewrite L2, L1, app_assoc. split; [done|by apply Forall_app].
Qed.

Lemma emits_catch {A} P (m : io W A) p h :
  emits P m -> (forall x, emits P (h x)) -> emits P (try_catch m p h).
Proof.
  intros Hm Hh s. destruct (Hm s) as (n1 & L1 & F1). unfold try_catch.
  destruct (m s) as [[a|x] s1]; simpl in *; [eauto|]. destruct (p x); [|eauto].
  destruct (Hh x s1) as (n2 & L2 & F2). exists (n2 ++ n1).
  rewrite L2, L1, app_assoc. split; [done|by apply Forall_app].
Qed.

Lemma emits_mono {A} (P Q : Event -> Prop) (m : io W A) :
  (forall e, P e -> Q e) -> emits P m -> emits Q m.
Proof.
  intros HPQ Hm s. destruct (Hm s) as (n & L & F). exists n. split; [done|].
  eapply Forall_impl; eauto.
Qed.

Lemma emits_adopt (P : Event -> Prop) o h : P (EvNew o h) -> emits (W := W) P (adopt o h).
Proof. intros HP. unfold adopt. case_match; [by apply emits_silent|by apply emits_emit]. Qed.

Lemma emits_dispose (P : Event -> Prop) o h : P (EvFree o h) -> emits (W := W) P (dispose o h).
Proof. intros HP. unfold dispose. case_match; [by apply emits_silent|by apply emits_emit]. Qed.

Lemma emits_scoped {A} P (d : io W unit) (m : io W A) : emits P d -> emits P m -> emits P (scoped d m).
Proof.
  intros Hd Hm s. destruct (Hm s) as (n1 & L1 & F1). unfold scoped. destruct (m s) as [r s1]. simpl in *.
  destruct (Hd s1) as (n2 & L2 & F2). exists (n2 ++ n1).
  rewrite L2, L1, app_assoc. split; [done|by apply Forall_app].
Qed.

Lemma emits_guarded {A} P (d : io W unit) (m : io W A) : emits P d -> emits P m -> emits P (guarded d m).
Proof.
  intros Hd Hm s. destruct (Hm s) as (n1 & L1 & F1). unfold guarded.
  destruct (m s) as [[a|x] s1]; simpl in *; [eauto|]. destruct (Hd s1) as (n2 & L2 & F2).
  exists (n2 ++ n1). rewrite L2, L1, app_assoc. split; [done|by apply Forall_app].
Qed.

Lemma dispose_log o h (s : St W) :
  st_log (dispose o h s).2 = (if h =? 0 then [] else [EvFree o h]) ++ st_log s.
Proof. unfold dispose. by case_match. Qed.

(** In a postcondition proof. *)
Lemma emits_wp {A} P (m : io W A) (Q : A -> St W -> Prop) (E : exn -> St W -> Prop) s :
  emits P m ->
  (forall a s' new, st_log s' = new ++ st_log s -> Forall P new -> Q a s') ->
  (forall x s' new, st_log s' = new ++ st_log s -> Forall P new -> E x s') ->
  wp m Q E s.
Proof.
  intros Hm HQ HE. destruct (Hm s) as (n & L & F). unfold wp.
  destruct (m s) as [[a|x] s1]; simpl in *; eauto.
Qed.

(** The same for a computation that cannot throw. *)
Lemma emits_wp_total {A} P (m : io W A) (Q : A -> St W -> Prop) (E : exn -> St W -> Prop) s :
  emits P m -> throws (fun _ => False) m ->
  (forall a s' new, st_log s' = new ++ st_log s -> Forall P new -> Q a s') -> wp m Q E s.
Proof.
  intros Hm Ht HQ. destruct (Hm s) as (n & L & F). specialize (Ht s). unfold wp.
  destruct (m s) as [[a|x] s1]; simpl in *; [eauto|]. by destruct (Ht x s1).
Qed.

End emits.

#[export] Hint Resolve emits_silent emits_bind : pqtls.
#[export] Hint Extern 1 (emits _ (log_at _ _)) => by apply emits_emit : pqtls.

(** ** Handlers with a local variable

    A function whose local [L] is still read by its exception handlers runs
    over the runtime state and that local. *)

Definition local (W L A : Type) : Type := M (St W * L) A.

Definition lift_io {W L A} (m : io W A) : local W L A :=
  fun '(s, c) => let '(r, s') := m s in (r, (s', c)).

Definition modify {W L} (f : L -> L) : local W L unit := fun '(s, c) => (Ok tt, (s, f c)).

Section local.
Context {W L : Type}.
Implicit Types (s : St W) (c : L).

Lemma wp_lift_io {A} (m : io W A) (Q : A -> St W * L -> Prop) E s c :
  wp m (fun a s' => Q a (s', c)) (fun x s' => E x (s', c)) s -> wp (lift_io m) Q E (s, c).
Proof. unfold wp, lift_io. destruct (m s) as [[a|x] s']; done. Qed.

Lemma lift_io_state {A} (m : io W A) s c : (lift_io m (s, c)).2 = ((m s).2, c).
Proof. unfold lift_io. by destruct (m s). Qed.

(** A scope whose destructor leaves the local alone. *)
Lemma wp_scoped_io {A} (d : io W unit) (m : local W L A) (Q : A -> St W * L -> Prop) E st :
  wp m (fun a st' => Q a ((d st'.1).2, st'.2)) (fun x st' => E x ((d st'.1).2, st'.2)) st ->
  wp (scoped (lift_io d) m) Q E st.
Proof.
  intros H. apply wp_scoped. revert H. apply wp_mono; intros ? [s c] H; rewrite lift_io_state; exact H.
Qed.

Lemma wp_guarded_io {A} (d : io W unit) (m : local W L A) (Q : A -> St W * L -> Prop) E st :
  wp m Q (fun x st' => E x ((d st'.1).2, st'.2)) st -> wp (guarded (lift_io d) m) Q E st.
Proof.
  intros H. apply wp_guarded. revert H. apply wp_mono; [done|]. intros ? [s c] H. rewrite lift_io_state. exact H.
Qed.

Lemma wp_modify f (Q : unit -> St W * L -> Prop) E s c :
  Q tt (s, f c) -> wp (modify f) Q E (s, c).
Proof. done. Qed.

Lemma throws_lift_io {A} P (m : io W A) : throws P m -> throws (S := St W * L) P (lift_io m).
Proof.
  intros Hm [s c] x s'. unfold lift_io. specialize (Hm s). destruct (m s) as [[a|y] s1]; [done|].
  intros [= <- _]. by eapply Hm.
Qed.

Lemma throws_modify P f : throws (S := St W * L) P (modify f).
Proof. by intros [s c] x s' [=]. Qed.

(** Events. *)
Definition local_emits {A} (P : Event -> Prop) (m : local W L A) : Prop :=
  forall s c, exists new, st_log (m (s, c)).2.1 = new ++ st_log s /\ Forall P new.

Lemma local_emits_lift {A} P (m : io W A) : emits P m -> local_emits P (lift_io m).
Proof.
  intros Hm s c. destruct (Hm s) as (n & Hl & F). exists n. unfold lift_io.
  by destruct (m s) as [r s'].
Qed.

Lemma local_emits_pure {A} P (m : local W L A) :
  (forall s c, st_log (m (s, c)).2.1 = st_log s) -> local_emits P m.
Proof. intros Hm s c. exists []. split; [apply Hm|constructor]. Qed.

Lemma local_emits_bind {A B} P (m : local W L A) (k : A -> local W L B) :
  local_emits P m -> (forall a, local_emits P (k a)) -> local_emits P (m ≫= k).
Proof.
  intros Hm Hk s c. destruct (Hm s c) as (n1 & L1 & F1). unfold mbind, M_bind.
  destruct (m (s, c)) as [[a|x] [s1 c1]]; simpl in *; [|eauto].
  destruct (Hk a s1 c1) as (n2 & L2 & F2). exists (n2 ++ n1).
  rewrite L2, L1, app_assoc. split; [done|by apply Forall_app].
Qed.

Lemma local_emits_scoped {A} P (d : local W L unit) (m : local W L A) :
  local_emits P d -> local_emits P m -> local_emits P (scoped d m).
Proof.
  intros Hd Hm s c. destruct (Hm s c) as (n1 & L1 & F1). unfold scoped.
  destruct (m (s, c)) as [r [s1 c1]]. simpl in *. destruct (Hd s1 c1) as (n2 & L2 & F2).
  exists (n2 ++ n1). rewrite L2, L1, app_assoc. split; [done|by apply Forall_app].
Qed.

Lemma local_emits_guarded {A} P (d : local W L unit) (m : local W L A) :
  local_emits P d -> local_emits P m -> local_emits P (guarded d m).
Proof.
  intros Hd Hm s c. destruct (Hm s c) as (n1 & L1 & F1). unfold guarded.
  destruct (m (s, c)) as [[a|x] [s1 c1]]; simpl in *; [eauto|]. destruct (Hd s1 c1) as (n2 & L2 & F2).
  exists (n2 ++ n1). rewrite L2, L1, app_assoc. split; [done|by apply Forall_app].
Qed.

Lemma local_emits_mono {A} (P Q : Event -> Prop) (m : local W L A) :
  (forall e, P e -> Q e) -> local_emits P m -> local_emits Q m.
Proof.
  intros HPQ Hm s c. destruct (Hm s c) as (n & Hl & F). exists n. split; [done|].
  eapply Forall_impl; eauto.
Qed.

Lemma local_emits_wp {A} P (m : local W L A) Q E s c :
  local_emits P m ->
  (forall a s' c' new, st_log s' = new ++ st_log s -> Forall P new -> Q a (s', c')) ->
  (forall x s' c' new, st_log s' = new ++ st_log s -> Forall P new -> E x (s', c')) ->
  wp m Q E (s, c).
Proof.
  intros Hm HQ HE. destruct (Hm s c) as (n & Hl & F). unfold wp.
  destruct (m (s, c)) as [[a|x] [s1 c1]]; simpl in *; eauto.
Qed.

(** A message that is logged under a condition. *)
Lemma log_if_wp (b : bool) level text (Q : unit -> St W * L -> Prop) E s c :
  (forall s' new, st_log s' = new ++ st_log s -> Forall logging new -> Q tt (s', c)) ->
  wp (if b then lift_io (log_at level text) else mret tt) Q E (s, c).
Proof. intros HQ. destruct b; [apply (HQ _ [EvLog level text])|apply (HQ _ [])]; by repeat constructor. Qed.

Lemma local_emits_log_if (P : Event -> Prop) (b : bool) level text :
  P (EvLog level text) -> local_emits P (if b then lift_io (log_at level text) else mret tt).
Proof. intros HP. destruct b; [by apply local_emits_lift, emits_emit|by apply local_emits_pure]. Qed.

(** A property of the local that a handler preserves. *)
Definition keeps {A} (P : L -> Prop) (m : local W L A) : Prop :=
  forall s c, P c -> P (m (s, c)).2.2.

Lemma keeps_lift {A} P (m : io W A) : keeps P (lift_io m).
Proof. intros s c Hc. unfold lift_io. by destruct (m s). Qed.

Lemma keeps_liftM {A} P (r : result A) : keeps P (liftM r).
Proof. by intros s c Hc. Qed.

Lemma keeps_ret {A} P (a : A) : keeps P (mret a).
Proof. by intros s c Hc. Qed.

Lemma keeps_throw {A} P x : keeps (A := A) P (throwM x).
Proof. by intros s c Hc. Qed.

Lemma keeps_modify (P : L -> Prop) f : (forall c, P c -> P (f c)) -> keeps P (modify f).
Proof. intros Hf s c Hc. by apply Hf. Qed.

Lemma keeps_bind {A B} P (m : local W L A) (k : A -> local W L B) :
  keeps P m -> (forall a, keeps P (k a)) -> keeps P (m ≫= k).
Proof.
  intros Hm Hk s c Hc. unfold mbind, M_bind. specialize (Hm s c Hc).
  destruct (m (s, c)) as [[a|x] [s' c']]; simpl in *; [by apply Hk|done].
Qed.

Lemma keeps_scoped {A} P (d : local W L unit) (m : local W L A) :
  keeps P d -> keeps P m -> keeps P (scoped d m).
Proof.
  intros Hd Hm s c Hc. unfold scoped. specialize (Hm s c Hc). destruct (m (s, c)) as [r [s1 c1]].
  by apply Hd.
Qed.

Lemma keeps_guarded {A} P (d : local W L unit) (m : local W L A) :
  keeps P d -> keeps P m -> keeps P (guarded d m).
Proof.
  intros Hd Hm s c Hc. unfold guarded. specialize (Hm s c Hc).
  destruct (m (s, c)) as [[a|x] [s1 c1]]; [done|]. by apply Hd.
Qed.

End local.

#[export] Hint Resolve keeps_lift keeps_liftM keeps_ret keeps_throw keeps_bind : pqtls.
