(* ===== verification/Json.v ===== *)
(** JSON documents as the sources use them.

    The library ([nlohmann::json]) is outside [src/].  Its documented value
    type is the inductive [json] (the alternatives of [value_t]; objects are a
    [std::map], so an ordered association list; arrays a [std::vector]), with
    the accessors the sources call.  The parser and the
    serialiser are parameters, collected in [JsonLib]; [get<int>()] is a
    [static_cast], here [to_i32];
    a theorem that needs something of them states it for the documents at
    hand. *)

From Stdlib Require Import Floats.SpecFloat.
From S2P Require Import Prelude Errors.

(** IEEE binary64. *)
Abbreviation double := spec_float.

Inductive json :=
  | JNull
  | JBool (b : bool)
  | JInt (z : Z)                          (* number_integer, int64 *)
  | JUInt (z : Z)                         (* number_unsigned, uint64 *)
  | JFloat (f : double)
  | JString (s : string)
  | JArray (l : list json)
  | JObject (o : list (string * json)).

Definition is_object (j : json) : bool := match j with JObject _ => true | _ => false end.
Definition is_null (j : json) : bool := match j with JNull => true | _ => false end.
Definition is_string (j : json) : bool := match j with JString _ => true | _ => false end.
Definition is_structured (j : json) : bool :=
  match j with JArray _ | JObject _ => true | _ => false end.
Definition is_number_integer (j : json) : bool :=
  match j with JInt _ | JUInt _ => true | _ => false end.

(** [empty()]: null and containers without elements. *)
Definition json_empty (j : json) : bool :=
  match j with
  | JNull | JArray [] | JObject [] => true
  | _ => false
  end.

Fixpoint obj_find {A} (o : list (string * A)) (key : string) : option A :=
  match o with
  | [] => None
  | (k, v) :: o' => if String.eqb k key then Some v else obj_find o' key
  end.

(** Insertion into the ordered map. *)
Fixpoint obj_set {A} (o : list (string * A)) (key : string) (value : A) : list (string * A) :=
  match o with
  | [] => [(key, value)]
  | (k, v) :: o' =>
      match String.compare key k with
      | Eq => (k, value) :: o'
      | Lt => (key, value) :: o
      | Gt => (k, v) :: obj_set o' key value
      end
  end.

(** [doc.contains(key)]; false on anything but an object. *)
Definition json_contains (j : json) (key : string) : bool :=
  match j with
  | JObject o => match obj_find o key with Some _ => true | None => false end
  | _ => false
  end.

(** [doc[key]] where the key is present; the sources test [contains] first. *)
Definition json_at (j : json) (key : string) : json :=
  match j with
  | JObject o => default JNull (obj_find o key)
  | _ => JNull
  end.

(** [doc[key] = value] on an object, or on the null a document starts as. *)
Definition json_set (j : json) (key : string) (value : json) : json :=
  match j with
  | JObject o => JObject (obj_set o key value)
  | _ => JObject [(key, value)]
  end.

(** [get<std::string>()] where [is_string()] holds. *)
Definition get_string (j : json) : string := match j with JString s => s | _ => "" end.

(** The integer a number holds. *)
Definition get_number (j : json) : Z := match j with JInt z | JUInt z => z | _ => 0 end.

Definition json_of_option {A} (f : A -> json) (o : option A) : json :=
  match o with Some a => f a | None => JNull end.

(** [nlohmann::json::parse] returns, throws [parse_error], or throws another
    of the library's exceptions (a number that does not fit a double is
    [out_of_range.406]). *)
Inductive parse_outcome :=
  | Parsed (doc : json)
  | ParseError (what : string)
  | ParseException (what : string).

(** [dump()] returns text or throws [type_error] (invalid UTF-8 in a string), and
    so does [dump(2)], which indents. *)
Class JsonLib := {
  json_parse : string -> parse_outcome;
  json_text : json -> string + string;
  json_pretty_text : json -> string + string
}.

Definition json_dump `{JsonLib} (j : json) : result string :=
  match json_text j with
  | inl what => Throw (RaiseStd what)
  | inr text => Ok text
  end.

Definition json_pretty `{JsonLib} (j : json) : result string :=
  match json_pretty_text j with
  | inl what => Throw (RaiseStd what)
  | inr text => Ok text
  end.

(** What a document reads back as: the parser stores a non-negative integer
    as [number_unsigned]. *)
Fixpoint json_normalize (j : json) : json :=
  match j with
  | JInt z => if z <? 0 then JInt z else JUInt z
  | JArray l => JArray (map json_normalize l)
  | JObject o => JObject (map (fun kv => (kv.1, json_normalize kv.2)) o)
  | _ => j
  end.

(** ** Lemmas *)

(** Induction through the nested lists. *)
Section json_induction.
Variable P : json -> Prop.
Hypothesis HNull : P JNull.
Hypothesis HBool : forall b, P (JBool b).
Hypothesis HInt : forall z, P (JInt z).
Hypothesis HUInt : forall z, P (JUInt z).
Hypothesis HFloat : forall f, P (JFloat f).
Hypothesis HString : forall s, P (JString s).
Hypothesis HArray : forall l, Forall P l -> P (JArray l).
Hypothesis HObject : forall o, Forall (fun kv => P kv.2) o -> P (JObject o).

Fixpoint json_nested_ind (j : json) : P j :=
  match j with
  | JNull => HNull
  | JBool b => HBool b
  | JInt z => HInt z
  | JUInt z => HUInt z
  | JFloat f => HFloat f
  | JString s => HString s
  | JArray l => HArray l
      ((fix go (l : list json) : Forall P l :=
          match l with
          | [] => Forall_nil_2 P
          | x :: l' => Forall_cons_2 P x l' (json_nested_ind x) (go l')
          end) l)
  | JObject o => HObject o
      ((fix go (o : list (string * json)) : Forall (fun kv => P kv.2) o :=
          match o with
          | [] => Forall_nil_2 _
          | kv :: o' => Forall_cons_2 _ kv o' (json_nested_ind kv.2) (go o')
          end) o)
  end.
End json_induction.

Lemma string_compare_refl s : String.compare s s = Eq.
Proof.
  induction s as [|a s IH]; simpl; [done|].
  unfold Ascii.compare. by rewrite N.compare_refl.
Qed.

Lemma obj_find_set {A} (o : list (string * A)) k v k' :
  obj_find (obj_set o k v) k' = if String.eqb k k' then Some v else obj_find o k'.
Proof.
  induction o as [|[k0 v0] o IH]; simpl; [done|].
  destruct (String.compare k k0) eqn:E; simpl.
  - apply String.compare_eq_iff in E as ->. by destruct (String.eqb k0 k').
  - done.
  - rewrite IH. destruct (String.eqb_spec k k') as [->|], (String.eqb_spec k0 k') as [->|]; try done.
    by rewrite string_compare_refl in E.
Qed.

Lemma json_at_set j k v k' :
  is_object j = true ->
  json_at (json_set j k v) k' = if String.eqb k k' then v else json_at j k'.
Proof.
  destruct j; try done. intros _. simpl. rewrite obj_find_set.
  by destruct (String.eqb k k').
Qed.

Lemma json_contains_set j k v k' :
  is_object j = true ->
  json_contains (json_set j k v) k' = String.eqb k k' || json_contains j k'.
Proof.
  destruct j; try done. intros _. simpl. rewrite obj_find_set.
  by destruct (String.eqb k k').
Qed.

Lemma json_set_object j k v : is_object (json_set j k v) = true.
Proof. by destruct j. Qed.

Lemma obj_find_normalize o k :
  obj_find (map (fun kv => (kv.1, json_normalize kv.2)) o) k = json_normalize <$> obj_find o k.
Proof. induction o as [|[k0 v0] o IH]; simpl; [done|]. by destruct (String.eqb k0 k). Qed.

Lemma json_at_normalize j k : json_at (json_normalize j) k = json_normalize (json_at j k).
Proof.
  destruct j; simpl; try done; [by destruct (z <? 0)|].
  rewrite obj_find_normalize. by destruct (obj_find o k).
Qed.

Lemma json_contains_normalize j k : json_contains (json_normalize j) k = json_contains j k.
Proof.
  destruct j; simpl; try done; [by destruct (z <? 0)|].
  rewrite obj_find_normalize. by destruct (obj_find o k).
Qed.

#[export] Hint Rewrite json_at_normalize json_contains_normalize : pqtls.
