(* ===== verification/Identifiers.v ===== *)
(** [generate_uuid_v4] and [iso8601_now] of
    [src/common/application_protocol.cpp].

    The random bytes and the clock are parameters ([RuntimeApi]); [gmtime_r],
    [strftime] and [snprintf] are the C standard library, written out for the
    format the source uses. *)

From S2P Require Import Prelude Errors Runtime.

(** ** UUID *)

Definition kHex : string := "0123456789abcdef".

Definition hex_digit (n : Z) : ascii := default "0"%char (String.get (Z.to_nat n) kHex).

(** The array [std::array<unsigned char, 16>] after [RAND_bytes] wrote to it. *)
Definition fill_array (n : nat) (written : list byte) : list byte :=
  take n (written ++ replicate n Byte.x00).

(** [bytes[6]] and [bytes[8]] get the version and the variant. *)
Definition uuid_stamp (i : nat) (b : Z) : Z :=
  if (i =? 6)%nat then to_u8 (Z.lor (Z.land b 0x0F) 0x40)
  else if (i =? 8)%nat then to_u8 (Z.lor (Z.land b 0x3F) 0x80)
  else b.

Definition uuid_hyphen (i : nat) : string :=
  if (i =? 4)%nat || (i =? 6)%nat || (i =? 8)%nat || (i =? 10)%nat then "-" else "".

(** [for (i = 0; i < 16; ++i)]: two digits per byte. *)
Fixpoint uuid_digits (i : nat) (bytes : list Z) : string :=
  match bytes with
  | [] => ""
  | b :: bytes' =>
      uuid_hyphen i +:+ String (hex_digit (Z.land (Z.shiftr b 4) 0x0F))
        (String (hex_digit (Z.land b 0x0F)) (uuid_digits (S i) bytes'))
  end.

Definition uuid_format (bytes : list byte) : string :=
  uuid_digits 0 (imap uuid_stamp (map byte_to_Z bytes)).

Section uuid.
Context {W : Type} `{RuntimeApi W}.

Definition generate_uuid_v4 : io W string :=
  r ← call (RAND_bytes 16);
  let '(rc, written) := r in
  if negb (rc =? 1) then
    details ← drain_openssl_errors;
    throwM (InternalError "the OpenSSL CSPRNG failed to produce random bytes for a UUID" details)
  else mret (uuid_format (fill_array 16 written)).

End uuid.

(** ** Timestamps *)

Record tm := mkTm {
  tm_year : Z; tm_mon : Z; tm_mday : Z;
  tm_hour : Z; tm_min : Z; tm_sec : Z
}.

(** The Gregorian calendar. *)
Definition leap_year (y : Z) : bool :=
  (y mod 4 =? 0) && (negb (y mod 100 =? 0) || (y mod 400 =? 0)).

Definition year_length (y : Z) : Z := if leap_year y then 366 else 365.

Definition month_length (y m : Z) : Z :=
  if m =? 2 then (if leap_year y then 29 else 28)
  else if (m =? 4) || (m =? 6) || (m =? 9) || (m =? 11) then 30 else 31.

(** The year a day number falls in, counting years up (or down) from [y],
    with the day within that year. *)
Fixpoint year_of_days (fuel : nat) (y days : Z) : Z * Z :=
  match fuel with
  | O => (y, days)
  | S fuel' =>
      if days <? 0 then year_of_days fuel' (y - 1) (days + year_length (y - 1))
      else if days <? year_length y then (y, days)
      else year_of_days fuel' (y + 1) (days - year_length y)
  end.

(** The same for the months of a year. *)
Fixpoint month_of_days (fuel : nat) (y m days : Z) : Z * Z :=
  match fuel with
  | O => (m, days)
  | S fuel' =>
      if days <? month_length y m then (m, days)
      else month_of_days fuel' y (m + 1) (days - month_length y m)
  end.

(** Date of a day number since 1970-01-01. *)
Definition civil_from_days (days : Z) : Z * Z * Z :=
  let '(y, rest) := year_of_days (Z.to_nat (Z.abs days / 365 + 2)) 1970 days in
  let '(m, rest) := month_of_days 11 y 1 rest in
  (y, m, rest + 1).

Definition gmtime (t : Z) : tm :=
  let '(y, m, d) := civil_from_days (t / 86400) in
  let s := t mod 86400 in
  mkTm y m d (s / 3600) (s / 60 mod 60) (s mod 60).

Definition digit_char (n : Z) : ascii := ascii_of_N (Z.to_N (48 + n)).

Definition pad2 (n : Z) : string :=
  String (digit_char (n / 10)) (String (digit_char (n mod 10)) "").

(** ["%03d"]: the sign counts towards the width. *)
Definition pad3 (n : Z) : string :=
  if n <? 0 then
    (let a := std_to_string (- n) in
     "-" +:+ (if (String.length a <? 2)%nat then "0" else "") +:+ a)
  else
    (let a := std_to_string n in
     (if (String.length a <? 2)%nat then "00"
      else if (String.length a <? 3)%nat then "0" else "") +:+ a).

(** [strftime("%Y-%m-%dT%H:%M:%S")] into a buffer of [size] bytes: the text,
    or nothing when it does not fit with its terminator. *)
Definition strftime (size : nat) (t : tm) : option string :=
  let text := std_to_string (tm_year t) +:+ "-" +:+ pad2 (tm_mon t) +:+ "-" +:+ pad2 (tm_mday t)
    +:+ "T" +:+ pad2 (tm_hour t) +:+ ":" +:+ pad2 (tm_min t) +:+ ":" +:+ pad2 (tm_sec t) in
  if (String.length text <? size)%nat then Some text else None.

(** The text for a clock reading in nanoseconds; [time_point_cast] and
    [duration_cast] truncate towards zero. *)
Definition iso8601_format (now : Z) : string :=
  let seconds_part := Z.quot now 1000000000 in
  let millis := Z.quot (now - seconds_part * 1000000000) 1000000 in
  match strftime 32 (gmtime seconds_part) with
  | None => "1970-01-01T00:00:00.000Z"
  | Some buffer => String.substring 0 39 (buffer +:+ "." +:+ pad3 millis +:+ "Z")
  end.

Definition iso8601_now {W} `{RuntimeApi W} : io W string :=
  now ← call system_clock_now; mret (iso8601_format now).

(** ** Lemmas: UUID *)

(** What [hex_digit] wrote. *)
Definition hex_value (c : ascii) : Z :=
  let n := Z.of_N (N_of_ascii c) in if n <? 58 then n - 48 else n - 87.

Definition octet_of_digits (a b : ascii) : Z := hex_value a * 16 + hex_value b.

#[global] Arguments hex_digit : simpl never.
#[global] Arguments octet_of_digits : simpl never.

Lemma octet_digits z :
  0 <= z < 256 ->
  octet_of_digits (hex_digit (Z.land (Z.shiftr z 4) 0x0F)) (hex_digit (Z.land z 0x0F)) = z.
Proof.
  intros Hz. rewrite <- (Z2Nat.id z) by lia. assert (Z.to_nat z < 256)%nat as Hn by lia.
  revert Hn. generalize (Z.to_nat z). clear.
  assert (forallb (fun n => octet_of_digits (hex_digit (Z.land (Z.shiftr (Z.of_nat n) 4) 0x0F))
            (hex_digit (Z.land (Z.of_nat n) 0x0F)) =? Z.of_nat n) (seq 0 256) = true) as H
    by (vm_compute; reflexivity).
  rewrite forallb_forall in H. intros n Hn. apply Z.eqb_eq, H, in_seq. lia.
Qed.

(** Reading a UUID back: hyphens dropped, two digits per octet. *)
Fixpoint uuid_octets (s : string) : list Z :=
  match s with
  | String a ((String b s'') as s') =>
      if Ascii.eqb a "-" then uuid_octets s'
      else octet_of_digits a b :: uuid_octets s''
  | _ => []
  end.

Definition is_hex (c : ascii) : bool :=
  let n := Z.of_N (N_of_ascii c) in
  ((48 <=? n) && (n <=? 57)) || ((97 <=? n) && (n <=? 102)).

#[global] Arguments is_hex : simpl never.

(** The canonical 8-4-4-4-12 shape. *)
Fixpoint uuid_shape (i : nat) (s : string) : bool :=
  match s with
  | EmptyString => (i =? 36)%nat
  | String c s' =>
      (if (i =? 8)%nat || (i =? 13)%nat || (i =? 18)%nat || (i =? 23)%nat
       then Ascii.eqb c "-" else is_hex c) && uuid_shape (S i) s'
  end.

Lemma hex_digit_is_hex n : 0 <= n < 16 -> is_hex (hex_digit n) = true /\ hex_digit n <> "-"%char.
Proof.
  intros Hn. assert (forallb (fun k => is_hex (hex_digit (Z.of_nat k)) &&
    negb (Ascii.eqb (hex_digit (Z.of_nat k)) "-")) (seq 0 16) = true) as H by reflexivity.
  rewrite forallb_forall in H. specialize (H (Z.to_nat n)). rewrite Z2Nat.id in H by lia.
  destruct (is_hex (hex_digit n) && negb (Ascii.eqb (hex_digit n) "-")) eqn:E.
  - apply andb_true_iff in E as [E1 E2]. split; [done|]. intros Hc. by rewrite Hc in E2.
  - assert (false = true) by (apply H, in_seq; lia). done.
Qed.

Lemma nibbles z : 0 <= Z.land (Z.shiftr z 4) 0x0F < 16 /\ 0 <= Z.land z 0x0F < 16.
Proof.
  change 0x0F with (Z.ones 4). rewrite !Z.land_ones by lia.
  split; apply Z.mod_pos_bound; lia.
Qed.

Lemma uuid_stamp_range i z : 0 <= z < 256 -> 0 <= uuid_stamp i z < 256.
Proof.
  intros. unfold uuid_stamp. repeat case_match; try done; apply to_u8_range.
Qed.

Lemma uuid_digits_cons i b bs :
  uuid_digits i (b :: bs) =
  uuid_hyphen i +:+ String (hex_digit (Z.land (Z.shiftr b 4) 0x0F))
    (String (hex_digit (Z.land b 0x0F)) (uuid_digits (S i) bs)).
Proof. reflexivity. Qed.

(** Reading the digits back gives the octets that were printed. *)
Lemma uuid_octets_digits i bs :
  Forall (fun b => 0 <= b < 256) bs -> uuid_octets (uuid_digits i bs) = bs.
Proof.
  intros Hbs. revert i. induction Hbs as [|b bs Hb _ IH]; intros i; [done|].
  rewrite uuid_digits_cons. destruct (nibbles b) as [N1 N2].
  destruct (hex_digit_is_hex _ N1) as [_ D1]. apply Ascii.eqb_neq in D1.
  unfold uuid_hyphen. destruct ((_ || _)%bool); simpl; rewrite D1, octet_digits, IH by done; done.
Qed.

(** The shape of the digits of the bytes from [i] on, starting at column [c]. *)
Definition uuid_column (i : nat) : nat :=
  (2 * i + (if 4 <? i then 1 else 0) + (if 6 <? i then 1 else 0)
   + (if 8 <? i then 1 else 0) + (if 10 <? i then 1 else 0))%nat.

Lemma uuid_shape_digits i bs :
  (i + length bs = 16)%nat -> Forall (fun b => 0 <= b < 256) bs ->
  uuid_shape (uuid_column i) (uuid_digits i bs) = true.
Proof.
  intros Hl Hbs. revert i Hl. induction Hbs as [|b bs Hb _ IH]; intros i Hl.
  { simpl in Hl. by replace i with 16%nat by lia. }
  rewrite uuid_digits_cons. destruct (nibbles b) as [N1 N2]. simpl in Hl.
  destruct (hex_digit_is_hex _ N1) as [D1 _]. destruct (hex_digit_is_hex _ N2) as [D2 _].
  specialize (IH (S i) ltac:(lia)).
  do 16 (destruct i as [|i]; [simpl in *; by rewrite ?D1, ?D2, ?IH|]). lia.
Qed.

Lemma fill_array_length n written : length (fill_array n written) = n.
Proof.
  unfold fill_array. rewrite length_take, length_app, length_replicate. lia.
Qed.

Lemma stamped_octets bytes :
  Forall (fun b => 0 <= b < 256) (imap uuid_stamp (map byte_to_Z bytes)).
Proof.
  apply Forall_lookup. intros i z Hz. rewrite list_lookup_imap in Hz.
  destruct (map byte_to_Z bytes !! i) as [y|] eqn:E; simplify_eq/=.
  apply uuid_stamp_range.
  assert (In y (map byte_to_Z bytes)) as Hy by (apply list_elem_of_In; by eapply list_elem_of_lookup_2).
  apply in_map_iff in Hy as (b & <- & _). apply byte_to_Z_range.
Qed.

Lemma stamp_version b : 0x40 <= uuid_stamp 6 b <= 0x4F.
Proof.
  unfold uuid_stamp. simpl. rewrite Z.lor_comm.
  assert (0 <= Z.land b 0x0F < 16) as Hb by apply (nibbles b).
  change 0x40 with (4 * 2 ^ 4). rewrite lor_low by lia.
  unfold to_u8. rewrite Z.mod_small; lia.
Qed.

Lemma stamp_variant b : 0x80 <= uuid_stamp 8 b <= 0xBF.
Proof.
  unfold uuid_stamp. simpl. rewrite Z.lor_comm.
  assert (0 <= Z.land b 0x3F < 64) as Hb.
  { change 0x3F with (Z.ones 6). rewrite Z.land_ones by lia. apply Z.mod_pos_bound. lia. }
  change 0x80 with (2 * 2 ^ 6). rewrite lor_low by lia.
  unfold to_u8. rewrite Z.mod_small; lia.
Qed.

(** ** Lemmas: timestamps *)

Definition digit_value (c : ascii) : Z := Z.of_N (N_of_ascii c) - 48.

(** The calendar in closed form: days before a year and before a month. *)
Definition days_before_year (y : Z) : Z :=
  365 * (y - 1970) + ((y - 1) / 4 - 1969 / 4) - ((y - 1) / 100 - 1969 / 100)
  + ((y - 1) / 400 - 1969 / 400).

Definition days_before_month (y m : Z) : Z :=
  fold_right (fun k acc => month_length y (Z.of_nat k) + acc) 0 (seq 1 (Z.to_nat (m - 1))).

Definition days_from_civil (y m d : Z) : Z := days_before_year y + days_before_month y m + (d - 1).

Lemma days_before_year_succ y : days_before_year (y + 1) = days_before_year y + year_length y.
Proof.
  unfold days_before_year, year_length, leap_year. replace (y + 1 - 1) with y by lia.
  destruct ((y mod 4 =? 0) && (negb (y mod 100 =? 0) || (y mod 400 =? 0))) eqn:E; dlia.
Qed.

Lemma year_of_days_spec fuel y days :
  0 <= days < 365 * Z.of_nat fuel ->
  let '(y', rest) := year_of_days fuel y days in
  0 <= rest < year_length y' /\ y <= y' <= y + days / 365 /\
  days_before_year y + days = days_before_year y' + rest.
Proof.
  revert y days. induction fuel as [|fuel IH]; intros y days Hd; [lia|].
  cbn [year_of_days]. replace (days <? 0) with false by lia.
  destruct (days <? year_length y) eqn:E; bool_props.
  { split; [lia|]. split; [dlia|lia]. }
  assert (365 <= year_length y) by (unfold year_length; destruct (leap_year y); lia).
  specialize (IH (y + 1) (days - year_length y) ltac:(lia)).
  destruct (year_of_days fuel (y + 1) (days - year_length y)) as [y' rest].
  rewrite days_before_year_succ in IH. destruct IH as (? & ? & ?).
  split; [done|]. split; [dlia|lia].
Qed.

Lemma days_before_month_succ y m :
  1 <= m -> days_before_month y (m + 1) = days_before_month y m + month_length y m.
Proof.
  intros Hm. unfold days_before_month.
  replace (Z.to_nat (m + 1 - 1)) with (S (Z.to_nat (m - 1))) by lia.
  rewrite seq_S, fold_right_app. cbn [fold_right].
  replace (Z.of_nat (1 + Z.to_nat (m - 1))) with m by lia.
  generalize (seq 1 (Z.to_nat (m - 1))). intros l. induction l as [|k l IH]; simpl; lia.
Qed.

Lemma month_of_days_spec fuel y m days :
  1 <= m -> m + Z.of_nat fuel = 12 -> 0 <= days ->
  days_before_month y m + days < year_length y ->
  let '(m', rest) := month_of_days fuel y m days in
  1 <= m' <= 12 /\ 0 <= rest < month_length y m' /\
  days_before_month y m + days = days_before_month y m' + rest.
Proof.
  revert m days. induction fuel as [|fuel IH]; intros m days Hm Hf Hd Hy; cbn [month_of_days].
  - assert (m = 12) as -> by lia. unfold days_before_month in *. simpl in *.
    unfold month_length, year_length in *. destruct (leap_year y); simpl in *; lia.
  - destruct (days <? month_length y m) eqn:E; bool_props; [lia|].
    specialize (IH (m + 1) (days - month_length y m)).
    rewrite days_before_month_succ in IH by done.
    specialize (IH ltac:(lia) ltac:(lia) ltac:(lia) ltac:(lia)).
    destruct (month_of_days fuel y (m + 1) (days - month_length y m)) as [m' rest]. lia.
Qed.

Lemma civil_from_days_spec days :
  0 <= days ->
  let '(y, m, d) := civil_from_days days in
  1970 <= y <= 1970 + days / 365 /\ 1 <= m <= 12 /\ 1 <= d <= month_length y m /\
  days_from_civil y m d = days.
Proof.
  intros Hd. unfold civil_from_days, days_from_civil. rewrite Z.abs_eq by done.
  pose proof (year_of_days_spec (Z.to_nat (days / 365 + 2)) 1970 days) as Hy.
  destruct (year_of_days _ 1970 days) as [y rest].
  destruct Hy as (H1 & H2 & H3); [split; [done|]; rewrite Z2Nat.id; dlia|].
  change (days_before_year 1970) with 0 in H3.
  pose proof (month_of_days_spec 11 y 1 rest) as Hm.
  destruct (month_of_days 11 y 1 rest) as [m r].
  change (days_before_month y 1) with 0 in Hm.
  destruct Hm as (H4 & H5 & H6); [lia|lia|lia|lia|]. lia.
Qed.

(** Checking a range of integers decides a statement about all of it. *)
Lemma range_forall (p : Z -> bool) (n : nat) (start : Z) :
  forallb (fun k => p (start + Z.of_nat k)) (seq 0 n) = true ->
  forall z, start <= z < start + Z.of_nat n -> p z = true.
Proof.
  intros H z Hz. rewrite forallb_forall in H.
  specialize (H (Z.to_nat (z - start))). rewrite Z2Nat.id in H by lia.
  replace (start + (z - start)) with z in H by lia. apply H, in_seq. lia.
Qed.

Lemma digit_value_char n : 0 <= n < 10 -> digit_value (digit_char n) = n.
Proof.
  intros Hn. apply Z.eqb_eq. revert n Hn.
  apply (range_forall (fun n => digit_value (digit_char n) =? n) 10 0). reflexivity.
Qed.

(** Four-digit years and three-digit milliseconds. *)
Definition year_text (y : Z) : string :=
  String (digit_char (y / 1000)) (String (digit_char (y / 100 mod 10)) (pad2 (y mod 100))).

Definition millis_text (n : Z) : string := String (digit_char (n / 100)) (pad2 (n mod 100)).

Lemma year_text_eq y : 1970 <= y <= 2262 -> std_to_string y = year_text y.
Proof.
  intros Hy. apply String.eqb_eq. assert (1970 <= y < 1970 + Z.of_nat 293) as Hr by lia.
  clear Hy. revert y Hr.
  apply (range_forall (fun y => String.eqb (std_to_string y) (year_text y))).
  vm_compute. reflexivity.
Qed.

Lemma millis_text_eq n : 0 <= n < 1000 -> pad3 n = millis_text n.
Proof.
  intros Hn. apply String.eqb_eq. assert (0 <= n < 0 + Z.of_nat 1000) as Hr by lia.
  clear Hn. revert n Hr. apply (range_forall (fun n => String.eqb (pad3 n) (millis_text n))).
  vm_compute. reflexivity.
Qed.

(** Reading a timestamp in the fixed columns of
    [YYYY-MM-DDTHH:MM:SS.mmmZ]: milliseconds since the epoch. *)
Definition two (a b : ascii) : Z := digit_value a * 10 + digit_value b.

Definition iso8601_read (s : string) : option Z :=
  match String.list_ascii_of_string s with
  | [y1; y2; y3; y4; p1; m1; m2; p2; d1; d2; p3; h1; h2; p4; n1; n2; p5; s1; s2; p6;
     k1; k2; k3; p7] =>
      if bool_decide ([p1; p2; p3; p4; p5; p6; p7] = ["-"; "-"; "T"; ":"; ":"; "."; "Z"]%char)
      then
        let y := two y1 y2 * 100 + two y3 y4 in
        let days := days_from_civil y (two m1 m2) (two d1 d2) in
        Some (((days * 24 + two h1 h2) * 60 + two n1 n2) * 60000 + two s1 s2 * 1000
              + digit_value k1 * 100 + two k2 k3)
      else None
  | _ => None
  end.

#[global] Arguments digit_char : simpl never.
#[global] Arguments digit_value : simpl never.
#[global] Arguments two : simpl never.

Lemma two_pad n : 0 <= n < 100 -> two (digit_char (n / 10)) (digit_char (n mod 10)) = n.
Proof. intros. unfold two. rewrite !digit_value_char; dlia. Qed.

(** Reading the text of a broken-down time gives the time back. *)
Lemma iso8601_read_text y m d h n s k :
  1970 <= y <= 2262 -> 0 <= m < 100 -> 0 <= d < 100 -> 0 <= h < 100 -> 0 <= n < 100 ->
  0 <= s < 100 -> 0 <= k < 1000 ->
  iso8601_read (year_text y +:+ "-" +:+ pad2 m +:+ "-" +:+ pad2 d +:+ "T" +:+ pad2 h +:+ ":"
    +:+ pad2 n +:+ ":" +:+ pad2 s +:+ "." +:+ millis_text k +:+ "Z")
  = Some (((days_from_civil y m d * 24 + h) * 60 + n) * 60000 + s * 1000 + k).
Proof.
  intros. unfold iso8601_read, year_text, millis_text, pad2. 
  cbv [String.append String.list_ascii_of_string].
  rewrite bool_decide_true by done.
  rewrite !two_pad by dlia. rewrite digit_value_char by dlia.
  unfold two at 1. rewrite !digit_value_char by dlia.
  replace ((y / 1000 * 10 + y / 100 mod 10) * 100 + y mod 100) with y by dlia.
  f_equal. dlia.
Qed.

Lemma iso8601_format_text now :
  0 <= now < 2 ^ 63 ->
  exists y m d h n s,
    iso8601_format now = year_text y +:+ "-" +:+ pad2 m +:+ "-" +:+ pad2 d +:+ "T" +:+ pad2 h
      +:+ ":" +:+ pad2 n +:+ ":" +:+ pad2 s +:+ "." +:+ millis_text (now / 1000000 mod 1000)
      +:+ "Z" /\
    1970 <= y <= 2262 /\ 1 <= m <= 12 /\ 1 <= d <= 31 /\ 0 <= h < 24 /\ 0 <= n < 60 /\
    0 <= s < 60 /\
    days_from_civil y m d * 86400 + h * 3600 + n * 60 + s = now / 1000000000.
Proof.
  intros Hn. unfold iso8601_format. rewrite Z.quot_div_nonneg by lia.
  set (t := now / 1000000000). rewrite Z.quot_div_nonneg by (unfold t; dlia).
  replace ((now - t * 1000000000) / 1000000) with (now / 1000000 mod 1000) by (unfold t; dlia).
  assert (0 <= t < 9223372037) as Ht by (unfold t; dlia).
  unfold gmtime. pose proof (civil_from_days_spec (t / 86400) ltac:(dlia)) as Hc.
  destruct (civil_from_days (t / 86400)) as [[y m] d]. destruct Hc as (Hy & Hm & Hd & Hdays).
  assert (1970 <= y <= 2262) as Hy'.
  { split; [lia|]. destruct (Z.le_gt_cases y 2262) as [|Hgt]; [done|].
    assert (days_before_year 2263 <= days_before_year y) as Hb
      by (unfold days_before_year; dlia).
    change (days_before_year 2263) with 107016 in Hb.
    assert (0 <= days_before_month y m) as Hm0.
    { unfold days_before_month. generalize (seq 1 (Z.to_nat (m - 1))).
      intros l. induction l as [|k l IH]; simpl; [lia|].
      unfold month_length at 1. repeat case_match; lia. }
    unfold days_from_civil in Hdays. dlia. }
  unfold strftime. cbn [tm_year tm_mon tm_mday tm_hour tm_min tm_sec].
  rewrite year_text_eq by done.
  set (h := t mod 86400 / 3600). set (n := t mod 86400 / 60 mod 60).
  set (s := t mod 86400 mod 60).
  replace (String.length _ <? 32)%nat with true by reflexivity.
  rewrite millis_text_eq by dlia.
  exists y, m, d, h, n, s. split; [reflexivity|].
  assert (month_length y m <= 31) by (unfold month_length; repeat case_match; lia).
  unfold h, n, s. splits; try lia; dlia.
Qed.

(** ** Properties *)

(** The outcome of [generate_uuid_v4]. *)
Lemma generate_uuid_v4_spec {W : Type} `{RuntimeApi W} (s : St W) :
  match generate_uuid_v4 s with
  | (Ok u, _) =>
      exists written, u = uuid_format (fill_array 16 written) /\
        (RAND_bytes 16 (st_world s) (st_errq s)).1 = (1, written) /\
        uuid_shape 0 u = true /\
        uuid_octets u = imap uuid_stamp (map byte_to_Z (fill_array 16 written)) /\
        (exists v, uuid_octets u !! 6%nat = Some v /\ 0x40 <= v <= 0x4F) /\
        (exists v, uuid_octets u !! 8%nat = Some v /\ 0x80 <= v <= 0xBF)
  | (Throw x, _) =>
      (RAND_bytes 16 (st_world s) (st_errq s)).1.1 <> 1 /\ exn_category x = CatInternal
  end.
Proof.
  unfold generate_uuid_v4, mbind, M_bind, call.
  destruct (RAND_bytes 16 (st_world s) (st_errq s)) as [[rc written] [w q]] eqn:E.
  destruct (negb (rc =? 1)) eqn:Er; bool_props.
  { unfold drain_openssl_errors. destruct (drain_queue _) as [msgs q']. done. }
  subst rc. exists written. cbn [mret M_ret fst].
  set (bs := fill_array 16 written).
  assert (uuid_octets (uuid_format bs) = imap uuid_stamp (map byte_to_Z bs)) as Ho.
  { apply uuid_octets_digits, stamped_octets. }
  assert (length bs = 16%nat) as Hl by apply fill_array_length.
  splits; try done.
  - apply (uuid_shape_digits 0); [|apply stamped_octets].
    by rewrite length_imap, length_map, Hl.
  - destruct (lookup_lt_is_Some_2 bs 6 ltac:(lia)) as [b Hb].
    exists (uuid_stamp 6 (byte_to_Z b)). rewrite Ho, list_lookup_imap, list_lookup_fmap, Hb.
    split; [done|apply stamp_version].
  - destruct (lookup_lt_is_Some_2 bs 8 ltac:(lia)) as [b Hb].
    exists (uuid_stamp 8 (byte_to_Z b)). rewrite Ho, list_lookup_imap, list_lookup_fmap, Hb.
    split; [done|apply stamp_variant].
Qed.

(** The text of a clock reading reads back, to the millisecond. *)
Lemma iso8601_roundtrip (now : Z) :
  0 <= now < 2 ^ 63 -> iso8601_read (iso8601_format now) = Some (now / 1000000).
Proof.
  intros Hn. destruct (iso8601_format_text now Hn)
    as (y & m & d & h & n & s & -> & Hy & Hm & Hd & Hh & Hmi & Hs & Ht).
  rewrite iso8601_read_text by (lia || dlia). f_equal. dlia.
Qed.

(** C36: Identifiers and timestamps.  A UUID is a canonical lower-case
    8-4-4-4-12 string whose octets are the random ones with only the version
    (4) and the variant (binary 10) forced; when the generator fails no UUID is
    made up: the call ends with an [InternalError].  A timestamp reads back:
    for every clock reading an int64 nanosecond clock can give from the epoch
    on, the ISO-8601 text has the fixed columns [YYYY-MM-DDTHH:MM:SS.mmmZ] and
    reading it against the Gregorian calendar gives the reading's
    milliseconds. *)
Theorem identifiers_exact {W : Type} `{RuntimeApi W} (s : St W) (now : Z) :
  0 <= now < 2 ^ 63 ->
  match generate_uuid_v4 s with
  | (Ok u, _) =>
      exists written, u = uuid_format (fill_array 16 written) /\
        (RAND_bytes 16 (st_world s) (st_errq s)).1 = (1, written) /\
        uuid_shape 0 u = true /\
        uuid_octets u = imap uuid_stamp (map byte_to_Z (fill_array 16 written)) /\
        (exists v, uuid_octets u !! 6%nat = Some v /\ 0x40 <= v <= 0x4F) /\
        (exists v, uuid_octets u !! 8%nat = Some v /\ 0x80 <= v <= 0xBF)
  | (Throw x, _) =>
      (RAND_bytes 16 (st_world s) (st_errq s)).1.1 <> 1 /\ exn_category x = CatInternal
  end /\
  iso8601_read (iso8601_format now) = Some (now / 1000000).
Proof. intros Hn. split; [apply generate_uuid_v4_spec|by apply iso8601_roundtrip]. Qed.

(** A generator and clocks that always give the same. *)
Definition still_clock : RuntimeApi unit := {|
  RAND_bytes := fun n w q => ((1, repeat Byte.xff (Z.to_nat n)), (w, q));
  ERR_error_string_n := fun _ => "";
  system_clock_now := fun w q => (1722470399987654321, (w, q));
  steady_clock_now := fun w q => (0, (w, q))
|}.

Lemma identifiers_exact_witness :
  iso8601_format 1722470399987654321 = "2024-07-31T23:59:59.987Z" /\
  iso8601_read (iso8601_format 1722470399987654321) = Some (1722470399987654321 / 1000000).
Proof.
  split; [reflexivity|].
  apply (identifiers_exact (H := still_clock) (mkSt tt [] []) 1722470399987654321). lia.
Defined.
