(* ===== verification/Message.v ===== *)
(** Application messages: [MessageType], [Message], its parser, serialiser and
    constructors ([include/pqtls/application_protocol.hpp],
    [src/common/application_protocol.cpp]). *)

From S2P Require Import Prelude Errors Runtime Json Utf8 Identifiers.

(** ** Message types *)

Inductive MessageType :=
  | Ping
  | Echo
  | Telemetry
  | Capabilities_
  | Close
  | Acknowledgement
  | Pong
  | Error_.

#[export] Instance MessageType_eq_dec : EqDecision MessageType.
Proof. solve_decision. Defined.

Definition MessageType_to_string (type : MessageType) : string :=
  match type with
  | Ping => "ping"
  | Echo => "echo"
  | Telemetry => "telemetry"
  | Capabilities_ => "capabilities"
  | Close => "close"
  | Acknowledgement => "acknowledgement"
  | Pong => "pong"
  | Error_ => "error"
  end.

Definition message_type_from_string (name : string) : option MessageType :=
  if String.eqb name "ping" then Some Ping
  else if String.eqb name "echo" then Some Echo
  else if String.eqb name "telemetry" then Some Telemetry
  else if String.eqb name "capabilities" then Some Capabilities_
  else if String.eqb name "close" then Some Close
  else if String.eqb name "acknowledgement" then Some Acknowledgement
  else if String.eqb name "pong" then Some Pong
  else if String.eqb name "error" then Some Error_
  else None.

Definition kProtocolVersion : Z := 1.
Definition kMaxJsonDepth : Z := 16.

Record Message := mkMessage {
  protocol_version : Z;
  message_id : string;
  type : MessageType;
  timestamp : string;
  status : option string;
  payload : json
}.

(** ** Nesting depth *)

(** [json_depth]: stops descending past the limit and stops scanning the
    siblings once it is exceeded. *)
Fixpoint json_depth (value : json) (current : Z) : Z :=
  if current >? kMaxJsonDepth then current
  else match value with
       | JArray l =>
           (fix loop (l : list json) (deepest : Z) : Z :=
              match l with
              | [] => deepest
              | child :: l' =>
                  let deepest := Z.max deepest (json_depth child (current + 1)) in
                  if deepest >? kMaxJsonDepth then deepest else loop l' deepest
              end) l current
       | JObject o =>
           (fix loop (o : list (string * json)) (deepest : Z) : Z :=
              match o with
              | [] => deepest
              | kv :: o' =>
                  let deepest := Z.max deepest (json_depth kv.2 (current + 1)) in
                  if deepest >? kMaxJsonDepth then deepest else loop o' deepest
              end) o current
       | _ => current
       end.

(** ** Parsing *)

(** A field tested with [contains], then for its type. *)
Definition require_field (doc : json) (key : string) : result json :=
  throw_if (negb (json_contains doc key))
    (ProtocolError ("application message is missing the mandatory field '" +:+ key +:+ "'")) ;;
  Ok (json_at doc key).

Section message.
Context {W : Type} `{RuntimeApi W} `{JsonLib}.

(** The checks that need neither the clock nor the random generator: UTF-8,
    JSON, shape, depth, version and type. *)
Definition parse_document (json_text : string) : result json :=
  throw_if (str_empty json_text) (ProtocolError "empty application message") ;;
  throw_if (negb (is_valid_utf8 json_text))
    (ProtocolError "application message is not valid UTF-8") ;;
  doc ← match json_parse json_text with
        | Parsed doc => Ok doc
        | ParseError what =>
            Throw (ProtocolError ("application message is not valid JSON: " +:+ what))
        | ParseException what => Throw (RaiseStd what)
        end;
  throw_if (negb (is_object doc))
    (ProtocolError "application message must be a JSON object") ;;
  throw_if (json_depth doc 0 >? kMaxJsonDepth)
    (ProtocolError ("application message exceeds the maximum JSON nesting depth of " +:+
       std_to_string kMaxJsonDepth)) ;;
  Ok doc.

Definition parse_version (doc : json) : result Z :=
  v ← require_field doc "protocol_version";
  throw_if (negb (is_number_integer v)) (ProtocolError "'protocol_version' must be an integer") ;;
  let version := to_i32 (get_number v) in
  throw_if (negb (version =? kProtocolVersion))
    (ProtocolError ("unsupported protocol version " +:+ std_to_string version +:+
       "; this build speaks " +:+ std_to_string kProtocolVersion +:+ " only")) ;;
  Ok version.

Definition parse_type (doc : json) : result MessageType :=
  t ← require_field doc "type";
  throw_if (negb (is_string t)) (ProtocolError "'type' must be a string") ;;
  match message_type_from_string (get_string t) with
  | None => Throw (ProtocolError ("unknown message type '" +:+ get_string t +:+ "'"))
  | Some parsed => Ok parsed
  end.

Definition parse_message_id (doc : json) : io W string :=
  if json_contains doc "message_id" then
    liftM (throw_if (negb (is_string (json_at doc "message_id")))
             (ProtocolError "'message_id' must be a string")) ;;
    let id := get_string (json_at doc "message_id") in
    liftM (throw_if (str_size id >? 128)
             (ProtocolError "'message_id' is longer than the 128-character limit")) ;;
    mret id
  else generate_uuid_v4.

Definition parse_timestamp (doc : json) : io W string :=
  if json_contains doc "timestamp" then
    liftM (throw_if (negb (is_string (json_at doc "timestamp")))
             (ProtocolError "'timestamp' must be an ISO-8601 string")) ;;
    mret (get_string (json_at doc "timestamp"))
  else iso8601_now.

Definition parse_status (doc : json) : result (option string) :=
  if json_contains doc "status" then
    throw_if (negb (is_string (json_at doc "status"))) (ProtocolError "'status' must be a string") ;;
    Ok (Some (get_string (json_at doc "status")))
  else Ok None.

Definition parse_payload (doc : json) : result json :=
  if json_contains doc "payload" then
    throw_if (negb (is_object (json_at doc "payload")))
      (ProtocolError "'payload' must be a JSON object") ;;
    Ok (json_at doc "payload")
  else Ok (JObject []).

Definition telemetry_ok (payload : json) : bool :=
  json_contains payload "device_id" && is_string (json_at payload "device_id").

Definition Message_parse (json_text : string) : io W Message :=
  doc ← liftM (parse_document json_text);
  version ← liftM (parse_version doc);
  ty ← liftM (parse_type doc);
  id ← parse_message_id doc;
  ts ← parse_timestamp doc;
  st ← liftM (parse_status doc);
  pl ← liftM (parse_payload doc);
  liftM (throw_if (bool_decide (ty = Telemetry) && negb (telemetry_ok pl))
           (ProtocolError "telemetry message requires a string 'payload.device_id'")) ;;
  mret (mkMessage version id ty ts st pl).

(** ** Serialising *)

Definition Message_to_json (m : Message) : json :=
  let doc := JNull in
  let doc := json_set doc "protocol_version" (JInt (protocol_version m)) in
  let doc := json_set doc "message_id" (JString (message_id m)) in
  let doc := json_set doc "type" (JString (MessageType_to_string (type m))) in
  let doc := json_set doc "timestamp" (JString (timestamp m)) in
  let doc := match status m with
             | Some s => json_set doc "status" (JString s)
             | None => doc
             end in
  if negb (is_null (payload m)) && negb (json_empty (payload m))
  then json_set doc "payload" (payload m)
  else doc.

Definition Message_serialize (m : Message) : result string := json_dump (Message_to_json m).

(** ** Constructors *)

Definition make_request (ty : MessageType) (pl : json) : io W Message :=
  id ← generate_uuid_v4;
  ts ← iso8601_now;
  mret (mkMessage kProtocolVersion id ty ts None (if negb (is_null pl) then pl else JObject [])).

Definition make_acknowledgement (request : Message) (st : string) : io W Message :=
  ts ← iso8601_now;
  mret (mkMessage kProtocolVersion (message_id request) Acknowledgement ts (Some st) (JObject [])).

Definition make_error (request : option Message) (reason : string) : io W Message :=
  id ← match request with
       | Some r => mret (message_id r)
       | None => generate_uuid_v4
       end;
  ts ← iso8601_now;
  mret (mkMessage kProtocolVersion id Error_ ts (Some "rejected")
          (JObject [("reason", JString reason)])).

End message.

(** ** Lemmas: depth *)

(** Nesting depth of a document: scalars and empty containers at the root
    count 0, each level of containment one. *)
Fixpoint depth (j : json) : Z :=
  match j with
  | JArray l => fold_right (fun c acc => Z.max (1 + depth c) acc) 0 l
  | JObject o => fold_right (fun kv acc => Z.max (1 + depth kv.2) acc) 0 o
  | _ => 0
  end.

Lemma depth_nonneg j : 0 <= depth j.
Proof.
  destruct j; simpl; try lia.
  - induction l as [|c l IH]; simpl; lia.
  - induction o as [|kv o IH]; simpl; lia.
Qed.

(** [json_depth] agrees with the depth as long as it is within the limit, and
    exceeds the limit when the depth does. *)
Definition depth_agrees (j : json) : Prop := forall current,
  (current + depth j <= kMaxJsonDepth -> json_depth j current = current + depth j) /\
  (kMaxJsonDepth < current + depth j -> kMaxJsonDepth < json_depth j current).

(** The loop over the children, for lists and for object members alike. *)
Lemma depth_loop {A} (child : A -> json) (l : list A) current deepest :
  Forall (fun x => depth_agrees (child x)) l -> current <= deepest <= kMaxJsonDepth ->
  let total := Z.max deepest (current + fold_right (fun x acc => Z.max (1 + depth (child x)) acc) 0 l) in
  let r := (fix loop (l : list A) (deepest : Z) : Z :=
              match l with
              | [] => deepest
              | x :: l' =>
                  let deepest := Z.max deepest (json_depth (child x) (current + 1)) in
                  if deepest >? kMaxJsonDepth then deepest else loop l' deepest
              end) l deepest in
  (total <= kMaxJsonDepth -> r = total) /\ (kMaxJsonDepth < total -> kMaxJsonDepth < r).
Proof.
  intros Hl. revert deepest. induction Hl as [|x l Hx _ IH]; intros deepest Hd; simpl.
  { lia. }
  destruct (Hx (current + 1)) as [H1 H2].
  set (D := fold_right (fun x acc => Z.max (1 + depth (child x)) acc) 0 l) in *.
  destruct (Z.max deepest (json_depth (child x) (current + 1)) >? kMaxJsonDepth) eqn:E;
    bool_props.
  - split; [|lia]. intros Ht. rewrite H1 in E; lia.
  - assert (current + 1 + depth (child x) <= kMaxJsonDepth) as Hle by lia.
    rewrite H1 in * by done. specialize (IH (Z.max deepest (current + 1 + depth (child x)))).
    simpl in IH. destruct IH as [IH1 IH2]; [lia|]. fold D in IH1, IH2. lia.
Qed.

Lemma json_depth_agrees j : depth_agrees j.
Proof.
  induction j using json_nested_ind; intros current.
  1-6: simpl; destruct (current >? kMaxJsonDepth) eqn:E; bool_props; lia.
  - pose proof (depth_nonneg (JArray l)) as Hn. cbn [json_depth].
    destruct (current >? kMaxJsonDepth) eqn:E; bool_props; [split; lia|].
    destruct (depth_loop (fun x => x) l current current H ltac:(lia)) as [H1 H2].
    simpl in Hn |- *.
    set (D := fold_right (fun c acc => Z.max (1 + depth c) acc) 0 l) in *.
    replace (Z.max current (current + D)) with (current + D) in H1, H2 by lia. auto.
  - pose proof (depth_nonneg (JObject o)) as Hn. cbn [json_depth].
    destruct (current >? kMaxJsonDepth) eqn:E; bool_props; [split; lia|].
    destruct (depth_loop snd o current current H ltac:(lia)) as [H1 H2].
    simpl in Hn |- *.
    set (D := fold_right (fun kv acc => Z.max (1 + depth kv.2) acc) 0 o) in *.
    replace (Z.max current (current + D)) with (current + D) in H1, H2 by lia.
    auto.
Qed.

(** ** Lemmas: round trip *)

Definition has_payload (m : Message) : bool :=
  negb (is_null (payload m)) && negb (json_empty (payload m)).

(** Every member of the serialised document. *)
Lemma to_json_object m : is_object (Message_to_json m) = true.
Proof.
  unfold Message_to_json. destruct (status m), (_ && _)%bool; apply json_set_object.
Qed.

Lemma to_json_mandatory m :
  json_at (Message_to_json m) "protocol_version" = JInt (protocol_version m) /\
  json_at (Message_to_json m) "message_id" = JString (message_id m) /\
  json_at (Message_to_json m) "type" = JString (MessageType_to_string (type m)) /\
  json_at (Message_to_json m) "timestamp" = JString (timestamp m) /\
  json_contains (Message_to_json m) "protocol_version" = true /\
  json_contains (Message_to_json m) "message_id" = true /\
  json_contains (Message_to_json m) "type" = true /\
  json_contains (Message_to_json m) "timestamp" = true.
Proof.
  unfold Message_to_json. destruct (status m), (_ && _)%bool;
    rewrite ?json_at_set, ?json_contains_set by apply json_set_object; done.
Qed.

Lemma to_json_optional m :
  json_contains (Message_to_json m) "status" = bool_decide (is_Some (status m)) /\
  (forall s, status m = Some s -> json_at (Message_to_json m) "status" = JString s) /\
  json_contains (Message_to_json m) "payload" = has_payload m /\
  (has_payload m = true -> json_at (Message_to_json m) "payload" = payload m).
Proof.
  unfold has_payload, Message_to_json.
  destruct (status m) as [s|], (_ && _)%bool eqn:E;
    rewrite ?json_at_set, ?json_contains_set by apply json_set_object;
    simpl; naive_solver.
Qed.

Lemma message_type_roundtrip t : message_type_from_string (MessageType_to_string t) = Some t.
Proof. destruct t; reflexivity. Qed.

Lemma message_type_from_string_inv s t :
  message_type_from_string s = Some t -> s = MessageType_to_string t.
Proof.
  unfold message_type_from_string. intros Hs. repeat case_match; simplify_eq; bool_props; done.
Qed.

(** A message the sender may put on the wire. *)
Record message_ok (m : Message) : Prop := {
  ok_version : protocol_version m = kProtocolVersion;
  ok_id : str_size (message_id m) <= 128;
  ok_payload : is_object (payload m) = true;
  ok_telemetry : type m = Telemetry -> telemetry_ok (payload m) = true;
  ok_depth : depth (payload m) < kMaxJsonDepth
}.

Lemma depth_normalize j : depth (json_normalize j) = depth j.
Proof.
  induction j using json_nested_ind; simpl; try done; [by destruct (z <? 0)| |].
  - induction H as [|c l Hc _ IH]; simpl; [done|]. by rewrite Hc, IH.
  - induction H as [|c l Hc _ IH]; simpl; [done|]. by rewrite Hc, IH.
Qed.

Lemma obj_set_depth o k v :
  depth (JObject (obj_set o k v)) <= Z.max (1 + depth v) (depth (JObject o)).
Proof.
  induction o as [|[k0 v0] o IH]; simpl; [pose proof (depth_nonneg v); lia|].
  destruct (String.compare k k0); simpl in *; lia.
Qed.

Lemma json_set_depth j k v : depth (json_set j k v) <= Z.max (1 + depth v) (depth j).
Proof.
  pose proof (depth_nonneg v). destruct j; try apply obj_set_depth; simpl; lia.
Qed.

Lemma to_json_depth m : depth (Message_to_json m) <= 1 + depth (payload m).
Proof.
  pose proof (depth_nonneg (payload m)). unfold Message_to_json.
  repeat match goal with
  | |- context [match status m with _ => _ end] => destruct (status m)
  | |- context [if ?b then _ else _] => destruct b
  end;
  repeat (etransitivity; [apply json_set_depth|]; apply Z.max_lub; [simpl; lia|]);
  simpl; lia.
Qed.

Section roundtrip.
Context {W : Type} `{RuntimeApi W} `{JsonLib}.

Lemma parse_document_ok text doc :
  parse_document text = Ok doc <->
  text <> "" /\ is_valid_utf8 text = true /\ json_parse text = Parsed doc /\
  is_object doc = true /\ depth doc <= kMaxJsonDepth.
Proof.
  unfold parse_document, throw_if, mbind, result_bind.
  destruct (str_empty text) eqn:E1; bool_props; [split; [done|by intros (? & ?)]|].
  destruct (is_valid_utf8 text) eqn:E2; simpl; [|split; [done|by intros (? & ? & ?)]].
  destruct (json_parse text) as [d| |] eqn:E3; simpl;
    [|split; [done|by intros (? & ? & ? & ?)]|split; [done|by intros (? & ? & ? & ?)]].
  destruct (is_object d) eqn:E4; simpl;
    [|split; [done|intros (? & ? & [= ->] & ? & ?); congruence]].
  destruct (json_depth_agrees d 0) as [D1 D2]. rewrite Z.add_0_l in D1, D2.
  destruct (json_depth d 0 >? kMaxJsonDepth) eqn:E5; bool_props.
  - split; [done|]. intros (_ & _ & [= ->] & _ & Hd). rewrite D1 in E5; lia.
  - split; [|by intros (? & ? & [= ->] & ?)]. intros [= <-]. splits; try done.
    destruct (Z.le_gt_cases (depth d) kMaxJsonDepth); [done|]. lia.
Qed.

(** The tail of [Message_parse], field by field, on the document that was
    serialised. *)
Lemma parse_fields_roundtrip m s :
  message_ok m ->
  let doc := json_normalize (Message_to_json m) in
  parse_version doc = Ok (protocol_version m) /\ parse_type doc = Ok (type m) /\
  parse_message_id doc s = (Ok (message_id m), s) /\
  parse_timestamp doc s = (Ok (timestamp m), s) /\
  parse_status doc = Ok (status m) /\ parse_payload doc = Ok (json_normalize (payload m)).
Proof.
  intros [Hv Hid Hp Ht Hd] doc.
  destruct (to_json_mandatory m) as (A1 & A2 & A3 & A4 & C1 & C2 & C3 & C4).
  destruct (to_json_optional m) as (C5 & A5 & C6 & A6).
  unfold parse_version, parse_type, parse_message_id, parse_timestamp, parse_status,
    parse_payload, require_field, doc.
  rewrite !json_contains_normalize, !json_at_normalize, C1, C2, C3, C4, C5, C6, A1, A2, A3, A4, Hv.
  simpl. rewrite message_type_roundtrip.
  splits; try done.
  - unfold throw_if, liftM, mbind, M_bind.
    by replace (str_size (message_id m) >? 128) with false by lia.
  - destruct (status m) as [st|]; [|done]. simpl. by rewrite (A5 st).
  - destruct (has_payload m) eqn:E.
    + rewrite A6 by done. by destruct (payload m).
    + unfold has_payload in E. destruct (payload m) as [| | | | | | |[|]]; done.
Qed.

End roundtrip.

(** ** Lemmas: what a parsed message satisfies *)

Section soundness.
Context {W : Type} `{RuntimeApi W} `{JsonLib}.

Lemma generate_uuid_length s u s' :
  generate_uuid_v4 s = (Ok u, s') -> str_size u = 36.
Proof.
  intros Hu. unfold generate_uuid_v4, mbind, M_bind, call in Hu.
  destruct (RAND_bytes 16 _ _) as [[rc written] [w q]].
  destruct (negb (rc =? 1)).
  { unfold drain_openssl_errors in Hu. by destruct (drain_queue _). }
  injection Hu as <- _. unfold uuid_format.
  pose proof (fill_array_length 16 written) as Hl. revert Hl.
  generalize (fill_array 16 written). intros l Hl.
  do 16 (destruct l as [|? l]; [done|]). destruct l; [reflexivity|done].
Qed.

(** The exceptions of a computation: protocol violations, the failure of the
    random generator, or an exception of the JSON library. *)
Definition parse_exn (x : exn) : Prop :=
  is_ProtocolError x = true \/ exn_category x = CatInternal.

Lemma uuid_exn s x s' : generate_uuid_v4 s = (Throw x, s') -> exn_category x = CatInternal.
Proof.
  intros Hu. unfold generate_uuid_v4, mbind, M_bind, call in Hu.
  destruct (RAND_bytes 16 _ _) as [[rc written] [w q]].
  destruct (negb (rc =? 1)); [|done].
  unfold drain_openssl_errors in Hu. destruct (drain_queue _). by injection Hu as <- _.
Qed.

(** The field parsers throw protocol errors only. *)
Lemma throw_if_exn b m x : throw_if b (ProtocolError m) = Throw x -> is_ProtocolError x = true.
Proof. destruct b; simpl; [by intros [= <-]|done]. Qed.

Lemma pure_fields_exn doc x :
  parse_version doc = Throw x \/ parse_type doc = Throw x \/ parse_status doc = Throw x \/
  parse_payload doc = Throw x -> is_ProtocolError x = true.
Proof.
  unfold parse_version, parse_type, parse_status, parse_payload, require_field, throw_if,
    mbind, result_bind.
  intros [Hx|[Hx|[Hx|Hx]]]; repeat case_match; by simplify_eq.
Qed.

Lemma io_fields_exn doc s x s' :
  parse_message_id doc s = (Throw x, s') \/ parse_timestamp doc s = (Throw x, s') -> parse_exn x.
Proof.
  unfold parse_message_id, parse_timestamp, throw_if, liftM, mbind, M_bind, parse_exn.
  intros [Hx|Hx].
  - destruct (json_contains doc "message_id"); [|right; by eapply uuid_exn].
    left. repeat case_match; by simplify_eq.
  - destruct (json_contains doc "timestamp").
    + left. repeat case_match; by simplify_eq.
    + unfold iso8601_now, mbind, M_bind, call in Hx.
      destruct (system_clock_now _ _) as [? [? ?]]. done.
Qed.

Lemma parse_document_exn text x :
  parse_document text = Throw x ->
  is_ProtocolError x = true \/ exists what, x = RaiseStd what /\ json_parse text = ParseException what.
Proof.
  unfold parse_document, throw_if, mbind, result_bind. intros Hx.
  repeat case_match; simplify_eq; eauto.
Qed.

End soundness.

Lemma telemetry_ok_normalize j : telemetry_ok (json_normalize j) = telemetry_ok j.
Proof.
  unfold telemetry_ok. rewrite json_contains_normalize, json_at_normalize.
  destruct (json_at j "device_id"); simpl; try done. by destruct (z <? 0).
Qed.

Section inversion.
Context {W : Type} `{RuntimeApi W} `{JsonLib}.

Lemma parse_version_inv doc v : parse_version doc = Ok v -> v = kProtocolVersion.
Proof.
  unfold parse_version, require_field, throw_if, mbind, result_bind. intros Hv.
  repeat case_match; simplify_eq. bool_props. done.
Qed.

Lemma parse_type_inv doc t :
  parse_type doc = Ok t -> json_at doc "type" = JString (MessageType_to_string t).
Proof.
  unfold parse_type, require_field, throw_if, mbind, result_bind. intros Ht.
  destruct (negb (json_contains doc "type")); [done|].
  destruct (json_at doc "type"); try done. simpl in Ht.
  destruct (message_type_from_string s) eqn:E; simplify_eq.
  by apply message_type_from_string_inv in E as ->.
Qed.

Lemma parse_message_id_size doc s id s' :
  parse_message_id doc s = (Ok id, s') -> str_size id <= 128.
Proof.
  unfold parse_message_id. destruct (json_contains doc "message_id").
  - intros E. apply liftM_bind_inv in E as ([] & _ & E). apply liftM_bind_inv in E as ([] & E1 & E).
    apply throw_if_ok in E1. injection E as <- _. lia.
  - intros E. apply generate_uuid_length in E. lia.
Qed.

Lemma parse_payload_object doc pl : parse_payload doc = Ok pl -> is_object pl = true.
Proof.
  unfold parse_payload, throw_if, mbind, result_bind. intros Hp.
  repeat case_match; simplify_eq; bool_props; done.
Qed.

(** An exception comes from one of the steps. *)
Lemma parse_exn_spec text s x s' :
  Message_parse text s = (Throw x, s') -> parse_exn x.
Proof.
  unfold Message_parse, parse_exn. intros E.
  apply lift_throw in E as [E|(doc & _ & E)].
  { apply parse_document_exn in E as [E|(what & -> & _)]; auto. }
  apply lift_throw in E as [E|(v & _ & E)]; [left; by apply (pure_fields_exn doc); auto|].
  apply lift_throw in E as [E|(t & _ & E)]; [left; by apply (pure_fields_exn doc); auto|].
  apply bind_throw in E as [E|(id & s1 & _ & E)]; [by eapply io_fields_exn; eauto|].
  apply bind_throw in E as [E|(ts & s2 & _ & E)]; [by eapply io_fields_exn; eauto|].
  apply lift_throw in E as [E|(st & _ & E)]; [left; by apply (pure_fields_exn doc); auto|].
  apply lift_throw in E as [E|(pl & _ & E)]; [left; by apply (pure_fields_exn doc); auto|].
  apply lift_throw in E as [E|([] & _ & E)]; [left; by eapply throw_if_exn|done].
Qed.

End inversion.

(** ** Properties *)

(** The depth guard is exact: [json_depth], with its cut-offs, exceeds the limit
    exactly for documents nested deeper. *)
Lemma json_depth_guard (doc : json) :
  (json_depth doc 0 >? kMaxJsonDepth) = negb (depth doc <=? kMaxJsonDepth).
Proof.
  destruct (json_depth_agrees doc 0) as [H1 H2]. rewrite Z.add_0_l in *.
  destruct (Z.leb_spec (depth doc) kMaxJsonDepth) as [Hd|Hd]; simpl; [rewrite H1 by done|specialize (H2 Hd)]; lia.
Qed.

(** ** What the parser accepts

    The rules of the protocol, one by one. *)
Section rules.
Context {W : Type} `{RuntimeApi W} `{JsonLib}.
Implicit Types doc : json.

Definition version_rule doc : bool :=
  json_contains doc "protocol_version" && is_number_integer (json_at doc "protocol_version") &&
  (get_number (json_at doc "protocol_version") =? kProtocolVersion).

Definition type_rule doc : bool :=
  json_contains doc "type" && is_string (json_at doc "type") &&
  match message_type_from_string (get_string (json_at doc "type")) with Some _ => true | None => false end.

Definition string_rule (key : string) doc : bool := negb (json_contains doc key) || is_string (json_at doc key).

Definition id_rule doc : bool :=
  string_rule "message_id" doc &&
  (negb (json_contains doc "message_id") || (str_size (get_string (json_at doc "message_id")) <=? 128)).

Definition payload_of doc : json := if json_contains doc "payload" then json_at doc "payload" else JObject [].

Definition telemetry_rule doc : bool :=
  negb (String.eqb (get_string (json_at doc "type")) "telemetry") || telemetry_ok (payload_of doc).

Definition admissible doc : bool :=
  is_object doc && (depth doc <=? kMaxJsonDepth) && version_rule doc && type_rule doc && id_rule doc &&
  string_rule "timestamp" doc && string_rule "status" doc && is_object (payload_of doc) && telemetry_rule doc.

(** The message a document stands for; an identifier or a timestamp it does
    not give may be any. *)
Record carries doc (m : Message) : Prop := {
  ca_version : protocol_version m = kProtocolVersion;
  ca_type : json_at doc "type" = JString (MessageType_to_string (type m));
  ca_id : if json_contains doc "message_id" then json_at doc "message_id" = JString (message_id m)
          else str_size (message_id m) = 36;
  ca_timestamp : json_contains doc "timestamp" = true -> json_at doc "timestamp" = JString (timestamp m);
  ca_status : status m = if json_contains doc "status" then Some (get_string (json_at doc "status")) else None;
  ca_payload : payload m = payload_of doc
}.

(** [r] is decided by [b]. *)
Definition ruled {A} (b : bool) (r : result A) : Prop :=
  match r with Ok _ => b = true | Throw x => b = false /\ is_ProtocolError x = true end.

Lemma version_ruled doc :
  is_i32 (get_number (json_at doc "protocol_version")) -> ruled (version_rule doc) (parse_version doc).
Proof.
  intros Hz. unfold version_rule, parse_version, ruled, require_field, throw_if, mbind, result_bind.
  destruct (json_contains doc _); simpl; [|done]. destruct (is_number_integer _); simpl; [|done].
  rewrite to_i32_small by done. by destruct (get_number _ =? kProtocolVersion).
Qed.

Lemma type_ruled doc : ruled (type_rule doc) (parse_type doc).
Proof.
  unfold type_rule, parse_type, ruled, require_field, throw_if, mbind, result_bind.
  destruct (json_contains doc _); simpl; [|done]. destruct (is_string _); simpl; [|done].
  by destruct (message_type_from_string _).
Qed.

Lemma status_ruled doc : ruled (string_rule "status" doc) (parse_status doc).
Proof.
  unfold string_rule, parse_status, ruled, throw_if, mbind, result_bind.
  destruct (json_contains doc _); [|done]. by destruct (is_string _).
Qed.

Lemma payload_ruled doc : ruled (is_object (payload_of doc)) (parse_payload doc).
Proof.
  unfold payload_of, parse_payload, ruled, throw_if, mbind, result_bind.
  destruct (json_contains doc _); [|done]. by destruct (is_object _).
Qed.

End rules.

(** A message within the limits that the JSON library reads back as it was
    written is parsed field for field, using neither clock nor random bytes. *)
Lemma parse_serialised {W : Type} `{RuntimeApi W} `{JsonLib} (m : Message) (text : string) (s : St W) :
  message_ok m ->
  Message_serialize m = Ok text ->
  json_parse text = Parsed (json_normalize (Message_to_json m)) ->
  text <> "" -> is_valid_utf8 text = true ->
  Message_parse text s =
  (Ok (mkMessage (protocol_version m) (message_id m) (type m) (timestamp m) (status m)
         (json_normalize (payload m))), s).
Proof.
  intros Hok _ Hp Hne Hu. unfold Message_parse.
  assert (parse_document text = Ok (json_normalize (Message_to_json m))) as Hd.
  { apply parse_document_ok. splits; try done.
    - pose proof (to_json_object m). by destruct (Message_to_json m).
    - rewrite depth_normalize. pose proof (to_json_depth m). destruct Hok. lia. }
  destruct (parse_fields_roundtrip m s Hok) as (H1 & H2 & H3 & H4 & H5 & H6).
  unfold mbind, M_bind, liftM at 1. rewrite Hd. unfold liftM at 1. rewrite H1.
  unfold liftM at 1. rewrite H2, H3, H4. unfold liftM at 1. rewrite H5.
  unfold liftM at 1. rewrite H6. rewrite telemetry_ok_normalize.
  assert (bool_decide (type m = Telemetry) && negb (telemetry_ok (payload m)) = false) as ->.
  { destruct (decide (type m = Telemetry)) as [Ht|Ht].
    - by rewrite (ok_telemetry m Hok Ht), andb_false_r.
    - by rewrite bool_decide_false. }
  done.
Qed.

(** The steps that may ask the clock or the random generator. *)
Section parse_steps.
Context {W : Type} `{RuntimeApi W} `{JsonLib}.

Lemma message_id_ruled doc (s : St W) :
  match parse_message_id doc s with
  | (Ok i, _) => id_rule doc = true /\
      if json_contains doc "message_id" then json_at doc "message_id" = JString i else str_size i = 36
  | (Throw x, _) =>
      (id_rule doc = false /\ is_ProtocolError x = true) \/
      (json_contains doc "message_id" = false /\ (RAND_bytes 16 (st_world s) (st_errq s)).1.1 <> 1 /\
       exn_category x = CatInternal)
  end.
Proof.
  unfold parse_message_id, id_rule, string_rule. destruct (json_contains doc "message_id") eqn:Ec; simpl.
  - destruct (json_at doc "message_id"); try (by left). simpl. rewrite Z.gtb_ltb, Z.ltb_antisym.
    destruct (str_size s0 <=? 128); [done|by left].
  - destruct (generate_uuid_v4 s) as [[u|x] s'] eqn:Eu; [split; [done|by eapply generate_uuid_length]|right].
    splits; [done| |by eapply uuid_exn]. intros Hrc. unfold generate_uuid_v4, mbind, M_bind, call in Eu.
    destruct (RAND_bytes 16 _ _) as [[rc written] [w q]]. simpl in Hrc. by subst rc.
Qed.

Lemma timestamp_ruled doc (s : St W) :
  match parse_timestamp doc s with
  | (Ok t, _) => string_rule "timestamp" doc = true /\
      (json_contains doc "timestamp" = true -> json_at doc "timestamp" = JString t)
  | (Throw x, _) => string_rule "timestamp" doc = false /\ is_ProtocolError x = true
  end.
Proof.
  unfold parse_timestamp, string_rule. destruct (json_contains doc "timestamp"); simpl.
  - by destruct (json_at doc "timestamp").
  - unfold iso8601_now, mbind, M_bind, call. by destruct (system_clock_now _ _) as [t [w q]].
Qed.

(** The first checks. *)
Lemma parse_document_ruled text :
  match parse_document text with
  | Ok doc => text <> "" /\ is_valid_utf8 text = true /\ json_parse text = Parsed doc /\
      is_object doc = true /\ depth doc <=? kMaxJsonDepth = true
  | Throw x =>
      (is_ProtocolError x = true /\
       (text = "" \/ is_valid_utf8 text = false \/ (exists what, json_parse text = ParseError what) \/
        exists doc, json_parse text = Parsed doc /\ is_object doc && (depth doc <=? kMaxJsonDepth) = false)) \/
      (exn_category x = CatInternal /\ exists what, json_parse text = ParseException what)
  end.
Proof.
  unfold parse_document, throw_if, mbind, result_bind. destruct (str_empty text) eqn:Et; bool_props; simpl.
  { left. auto. }
  destruct (is_valid_utf8 text); simpl; [|left; auto].
  destruct (json_parse text) as [doc|what|what]; [| |right; split; [done|by exists what]].
  2: { left. split; [done|]. do 2 right. left. by exists what. }
  assert (Hbad : is_object doc && (depth doc <=? kMaxJsonDepth) = false -> exists doc0,
    Parsed doc = Parsed doc0 /\ is_object doc0 && (depth doc0 <=? kMaxJsonDepth) = false) by (by exists doc).
  destruct (is_object doc) eqn:Eo; simpl; [|left; split; [done|]; auto].
  rewrite json_depth_guard. destruct (depth doc <=? kMaxJsonDepth) eqn:Ed; simpl; [done|].
  left. split; [done|]. do 3 right. apply Hbad. by rewrite ?Ed, ?andb_false_r.
Qed.

(** From the document on. *)
Lemma fields_ruled doc (s : St W) :
  is_object doc = true -> depth doc <=? kMaxJsonDepth = true ->
  is_i32 (get_number (json_at doc "protocol_version")) ->
  match (version ← liftM (parse_version doc); ty ← liftM (parse_type doc);
         id ← parse_message_id doc; ts ← parse_timestamp doc;
         st ← liftM (parse_status doc); pl ← liftM (parse_payload doc);
         liftM (throw_if (bool_decide (ty = Telemetry) && negb (telemetry_ok pl))
                  (ProtocolError "telemetry message requires a string 'payload.device_id'")) ;;
         mret (mkMessage version id ty ts st pl)) s with
  | (Ok m, _) => admissible doc = true /\ carries doc m
  | (Throw x, _) =>
      (is_ProtocolError x = true /\ admissible doc = false) \/
      (json_contains doc "message_id" = false /\ (RAND_bytes 16 (st_world s) (st_errq s)).1.1 <> 1 /\
       exn_category x = CatInternal)
  end.
Proof.
  intros Ho Hd Hz. unfold admissible. rewrite Ho, Hd. cbn [andb].
  assert (Hneg : forall a b c d e f g, a = false \/ b = false \/ c = false \/ d = false \/ e = false \/
    f = false \/ g = false -> a && b && c && d && e && f && g = false)
    by (intros [] [] [] [] [] [] []; naive_solver).
  unfold liftM. unfold mbind at 1, M_bind at 1.
  pose proof (version_ruled doc Hz) as Hv. destruct (parse_version doc) as [v|x] eqn:Ev; simpl in Hv.
  2: { left. split; [apply Hv|apply Hneg; left; apply Hv]. }
  unfold mbind at 1, M_bind at 1.
  pose proof (type_ruled doc) as Ht. destruct (parse_type doc) as [t|x] eqn:Et; simpl in Ht.
  2: { left. split; [apply Ht|apply Hneg; right; left; apply Ht]. }
  unfold mbind at 1, M_bind at 1.
  pose proof (message_id_ruled doc s) as Hi. destruct (parse_message_id doc s) as [[i|x] s1].
  2: { destruct Hi as [[Hi Hx]|Hi]; [left|by right]. split; [done|apply Hneg; auto 6]. }
  unfold mbind at 1, M_bind at 1. destruct Hi as [Hi Hid].
  pose proof (timestamp_ruled doc s1) as Hs. destruct (parse_timestamp doc s1) as [[ts|x] s2].
  2: { left. split; [apply Hs|apply Hneg; do 3 right; left; apply Hs]. }
  unfold mbind at 1, M_bind at 1. destruct Hs as [Hs Hts].
  pose proof (status_ruled doc) as Hst. destruct (parse_status doc) as [st|x] eqn:Est; simpl in Hst.
  2: { left. split; [apply Hst|apply Hneg; do 4 right; left; apply Hst]. }
  unfold mbind at 1, M_bind at 1.
  pose proof (payload_ruled doc) as Hp. destruct (parse_payload doc) as [pl|x] eqn:Ep; simpl in Hp.
  2: { left. split; [apply Hp|apply Hneg; do 5 right; left; apply Hp]. }
  apply parse_type_inv in Et. assert (Hpl : pl = payload_of doc).
  { revert Ep. unfold parse_payload, payload_of, throw_if, mbind, result_bind. repeat case_match; naive_solver. }
  assert (Htel : telemetry_rule doc = negb (bool_decide (t = Telemetry) && negb (telemetry_ok pl))).
  { unfold telemetry_rule. rewrite Et, Hpl. simpl. by destruct t, (telemetry_ok _). }
  destruct (bool_decide (t = Telemetry) && negb (telemetry_ok pl)); simpl in Htel |- *.
  - left. split; [done|apply Hneg; do 6 right; done].
  - split; [by rewrite Hv, Ht, Hi, Hs, Hst, Hp, Htel|]. constructor; simpl; try done.
    + by apply parse_version_inv in Ev.
    + revert Est. unfold parse_status, throw_if, mbind, result_bind. repeat case_match; naive_solver.
Qed.

End parse_steps.

(** Which documents [Message::parse] accepts, and why it throws otherwise. *)
Lemma parse_ruled {W : Type} `{RuntimeApi W} `{JsonLib} (text : string) (s : St W) :
  (forall doc, json_parse text = Parsed doc -> is_i32 (get_number (json_at doc "protocol_version"))) ->
  match Message_parse text s with
  | (Ok m, _) =>
      text <> "" /\ is_valid_utf8 text = true /\
      exists doc, json_parse text = Parsed doc /\ admissible doc = true /\ carries doc m
  | (Throw x, _) =>
      (is_ProtocolError x = true /\
       (text = "" \/ is_valid_utf8 text = false \/ (exists what, json_parse text = ParseError what) \/
        exists doc, json_parse text = Parsed doc /\ admissible doc = false)) \/
      (exists what, json_parse text = ParseException what) \/
      (RAND_bytes 16 (st_world s) (st_errq s)).1.1 <> 1
  end.
Proof.
  intros Hz. unfold Message_parse. unfold mbind at 1, M_bind at 1, liftM at 1.
  pose proof (parse_document_ruled text) as Hd. destruct (parse_document text) as [doc|x].
  - destruct Hd as (Hne & Hu & Hp & Ho & Hdep). pose proof (fields_ruled doc s Ho Hdep (Hz doc Hp)) as Hf.
    match type of Hf with match ?e with _ => _ end => destruct e as [[m|x] s'] end.
    + splits; [done|done|]. by exists doc.
    + destruct Hf as [[Hx Ha]|(Hc & Hr & Hx)]; [left|right; by right]. eauto 10.
  - destruct Hd as [[Hx Hwhy]|Hd]; [left|right; left; naive_solver]. split; [done|].
    destruct Hwhy as [Hw|[Hw|[Hw|(doc & Hp & Ha)]]]; auto. do 3 right. exists doc. split; [done|].
    unfold admissible. by rewrite Ha.
Qed.

(** The conversion to [int] narrows: a number that does not fit one can pass for
    the protocol version. *)
Example version_narrowed :
  parse_version (JObject [("protocol_version", JUInt 4294967297)]) = Ok kProtocolVersion.
Proof. reflexivity. Qed.

(** C18: Validation.  When the JSON library reports bad text only by its
    [parse_error], the random generator works and the document's protocol
    version fits an [int], [Message::parse] decides by the rules of the
    protocol: it returns exactly when the text is UTF-8 and JSON and the
    document obeys every rule (an object nested at most 16 deep, protocol
    version 1, a known type, an identifier of at most 128 bytes, strings and an
    object where given, a string device id for telemetry), and the message then
    carries the document's fields, an identifier being made up when it has
    none.  Every violation is a [ProtocolError]. *)
Theorem parse_validates {W : Type} `{RuntimeApi W} `{JsonLib} (text : string) (s : St W) :
  (forall what, json_parse text <> ParseException what) ->
  (RAND_bytes 16 (st_world s) (st_errq s)).1.1 = 1 ->
  (forall doc, json_parse text = Parsed doc -> is_i32 (get_number (json_at doc "protocol_version"))) ->
  match Message_parse text s with
  | (Ok m, _) =>
      text <> "" /\ is_valid_utf8 text = true /\
      exists doc, json_parse text = Parsed doc /\ admissible doc = true /\ carries doc m
  | (Throw x, _) =>
      is_ProtocolError x = true /\
      (text = "" \/ is_valid_utf8 text = false \/ (exists what, json_parse text = ParseError what) \/
       exists doc, json_parse text = Parsed doc /\ admissible doc = false)
  end.
Proof.
  intros Hx Hr Hz. pose proof (parse_ruled text s Hz) as Hp.
  destruct (Message_parse text s) as [[m|x] s']; [done|].
  destruct Hp as [Hp|[[what Hp]|Hp]]; [done|by destruct (Hx what)|done].
Qed.

(** A ping whose document gives a version, a type and an identifier. *)
Definition parsed_ping : json :=
  JObject [("message_id", JString "m-1"); ("protocol_version", JUInt 1); ("type", JString "ping")].

Definition ping_reader : JsonLib := {|
  json_parse := fun t => if String.eqb t "ping" then Parsed parsed_ping else ParseError "syntax error";
  json_text := fun _ => inr "ping";
  json_pretty_text := fun _ => inr "ping"
|}.

Definition zero_runtime : RuntimeApi unit := {|
  RAND_bytes := fun n w q => ((1, repeat Byte.x00 (Z.to_nat n)), (w, q));
  ERR_error_string_n := fun _ => "error";
  system_clock_now := fun w q => (0, (w, q));
  steady_clock_now := fun w q => (0, (w, q))
|}.

Lemma parse_validates_witness :
  exists doc, json_parse (JsonLib := ping_reader) "ping" = Parsed doc /\ admissible doc = true.
Proof.
  assert (H : forall m s', Message_parse (H := zero_runtime) (H0 := ping_reader) "ping" (mkSt tt [] []) = (Ok m, s') ->
    exists doc, json_parse (JsonLib := ping_reader) "ping" = Parsed doc /\ admissible doc = true).
  { intros m s' E.
    pose proof (parse_validates (H := zero_runtime) (H0 := ping_reader) "ping" (mkSt tt [] [])) as Hp.
    rewrite E in Hp. destruct Hp as (_ & _ & doc & Hd & Ha & _).
    - intros what [=].
    - reflexivity.
    - intros doc [= <-]. unfold is_i32, int_min, int_max. simpl. lia.
    - by exists doc. }
  eapply H. vm_compute. reflexivity.
Defined.
