(* ===== verification/Profile.v ===== *)
(** Security profiles: group classification, the validated [SecurityProfile],
    the downgrade check, and the registry
    ([include/pqtls/security_profile.hpp], [src/common/security_profile.cpp]
    up to the YAML loader, which is in [ProfileYaml]). *)

From stdpp Require Import sets.
From S2P Require Import Prelude Errors.

(** ** Enumerations *)

Inductive TlsVersion := Tls13.

Definition TlsVersion_to_string (v : TlsVersion) : string :=
  match v with Tls13 => "TLS1.3" end.

Definition tls_version_from_string (name : string) : option TlsVersion :=
  if String.eqb name "TLS1.3" || String.eqb name "TLSv1.3" || String.eqb name "1.3"
  then Some Tls13 else None.

Inductive AuthenticationType := EcdsaP256 | EcdsaP384 | MlDsa65.

#[export] Instance TlsVersion_eq_dec : EqDecision TlsVersion.
Proof. solve_decision. Defined.
#[export] Instance AuthenticationType_eq_dec : EqDecision AuthenticationType.
Proof. solve_decision. Defined.

Definition AuthenticationType_to_string (t : AuthenticationType) : string :=
  match t with
  | EcdsaP256 => "ecdsa-p256"
  | EcdsaP384 => "ecdsa-p384"
  | MlDsa65 => "ml-dsa-65"
  end.

Definition authentication_type_from_string (name : string) : option AuthenticationType :=
  if String.eqb name "ecdsa-p256" || String.eqb name "ECDSA-P256" then Some EcdsaP256
  else if String.eqb name "ecdsa-p384" || String.eqb name "ECDSA-P384" then Some EcdsaP384
  else if String.eqb name "ml-dsa-65" || String.eqb name "ML-DSA-65" then Some MlDsa65
  else None.

Definition is_post_quantum_authentication (t : AuthenticationType) : bool :=
  bool_decide (t = MlDsa65).

(** ** Group names *)

Definition kHybridGroups : list string :=
  ["X25519MLKEM768"; "SecP256r1MLKEM768"; "SecP384r1MLKEM1024"].

Definition kPureMlKemGroups : list string := ["MLKEM512"; "MLKEM768"; "MLKEM1024"].

(** ASCII lower-casing of one character, as written in [iequals]. *)
Definition ascii_lower (c : ascii) : ascii :=
  let n := Z.of_N (N_of_ascii c) in
  if (n >=? 65) && (n <=? 90) then ascii_of_N (Z.to_N (n + 32)) else c.

Fixpoint iequals_loop (a b : string) : bool :=
  match a, b with
  | String x a', String y b' =>
      if negb (Ascii.eqb (ascii_lower x) (ascii_lower y)) then false else iequals_loop a' b'
  | _, _ => true
  end.

Definition iequals (a b : string) : bool :=
  if negb (String.length a =? String.length b)%nat then false else iequals_loop a b.

Definition contains (haystack : list string) (needle : string) : bool :=
  any_of haystack (fun candidate => iequals candidate needle).

(** [join(values, separator)]. *)
Definition join (values : list string) (separator : ascii) : string :=
  str_join (String separator "") values.

Definition is_hybrid_group (group : string) : bool :=
  any_of kHybridGroups (fun known => iequals known group).

Definition is_post_quantum_group (group : string) : bool :=
  if is_hybrid_group group then true
  else any_of kPureMlKemGroups (fun known => iequals known group).

Definition default_cipher_suites : list string :=
  ["TLS_AES_256_GCM_SHA384"; "TLS_CHACHA20_POLY1305_SHA256"; "TLS_AES_128_GCM_SHA256"].

(** ** Profiles *)

(** [SecurityProfile::Definition]; a [SecurityProfile] is a definition that
    went through [SecurityProfile_create]. *)
Record Definition_ := mkDefinition {
  id : string;
  description : string;
  minimum_version : TlsVersion;
  maximum_version : TlsVersion;
  groups : list string;
  cipher_suites : list string;
  authentication : AuthenticationType;
  require_client_certificate : bool;
  allow_classical_fallback : bool;
  experimental : bool
}.

Definition SecurityProfile : Type := Definition_.

Definition with_cipher_suites (d : Definition_) (suites : list string) : Definition_ :=
  mkDefinition (id d) (description d) (minimum_version d) (maximum_version d) (groups d) suites
    (authentication d) (require_client_certificate d) (allow_classical_fallback d) (experimental d).

Definition with_description (d : Definition_) (text : string) : Definition_ :=
  mkDefinition (id d) text (minimum_version d) (maximum_version d) (groups d) (cipher_suites d)
    (authentication d) (require_client_certificate d) (allow_classical_fallback d) (experimental d).

(** [std::set(v).size() != v.size()]. *)
Definition has_duplicates (l : list string) : bool :=
  negb (length (remove_dups l) =? length l)%nat.

Definition has_pq (d : Definition_) : bool := any_of (groups d) is_post_quantum_group.
Definition has_classical (d : Definition_) : bool :=
  any_of (groups d) (fun g => negb (is_post_quantum_group g)).
Definition has_pure_pq (d : Definition_) : bool :=
  any_of (groups d) (fun g => is_post_quantum_group g && negb (is_hybrid_group g)).

Definition SecurityProfile_create (definition : Definition_) : result SecurityProfile :=
  throw_if (str_empty (id definition)) (ConfigurationError "security profile is missing an 'id'") ;;
  let who := "profile '" +:+ id definition in
  throw_if (match groups definition with [] => true | _ => false end)
    (ConfigurationError (who +:+ "' defines no TLS groups; an empty group list would let OpenSSL " +:+
      "choose its own defaults, which defeats the purpose of a profile")) ;;
  throw_if (has_duplicates (groups definition))
    (ConfigurationError (who +:+ "' lists a TLS group more than once")) ;;
  let definition :=
    match cipher_suites definition with
    | [] => with_cipher_suites definition default_cipher_suites
    | _ => definition
    end in
  for_each (cipher_suites definition) (fun suite =>
    throw_if (negb (starts_with suite "TLS_"))
      (ConfigurationError (who +:+ "' lists '" +:+ suite +:+
        "' as a cipher suite. TLS 1.3 cipher suites are named TLS_*; note that TLS groups " +:+
        "(key establishment) and cipher suites (record protection) are different things."))) ;;
  for_each (groups definition) (fun group =>
    throw_if (starts_with group "TLS_")
      (ConfigurationError (who +:+ "' lists '" +:+ group +:+
        "' as a TLS group, but that is a cipher suite name. Groups control key " +:+
        "establishment; cipher suites control record protection."))) ;;
  throw_if (negb (bool_decide (minimum_version definition = Tls13)) ||
            negb (bool_decide (maximum_version definition = Tls13)))
    (ConfigurationError (who +:+ "' requests a TLS version other than 1.3; this project negotiates " +:+
      "TLS 1.3 only")) ;;
  throw_if (has_pq definition && has_classical definition &&
            negb (allow_classical_fallback definition))
    (ConfigurationError (who +:+ "' offers both post-quantum and classical groups while setting " +:+
      "fallback.allow_classical=false. That combination would advertise a classical group we " +:+
      "would then refuse after the handshake. Either remove the classical groups or set " +:+
      "allow_classical=true and accept the weaker guarantee.")) ;;
  throw_if (has_pure_pq definition && negb (experimental definition))
    (ConfigurationError (who +:+ "' uses a pure ML-KEM group but is not marked experimental. Standalone ML-KEM groups " +:+
      "are not covered by a finalised TLS specification; mark the profile experimental to " +:+
      "acknowledge that.")) ;;
  throw_if (bool_decide (authentication definition = MlDsa65) && negb (experimental definition))
    (ConfigurationError (who +:+ "' requests ML-DSA authentication but is not marked experimental. Post-quantum " +:+
      "certificate authentication is a capability-gated experiment in this project.")) ;;
  Ok (if str_empty (description definition)
      then with_description definition (id definition) else definition).

Definition openssl_groups_list (p : SecurityProfile) : string := join (groups p) ":".
Definition openssl_ciphersuites_list (p : SecurityProfile) : string := join (cipher_suites p) ":".

Definition offers_post_quantum_key_establishment (p : SecurityProfile) : bool :=
  any_of (groups p) is_post_quantum_group.

(** The downgrade check. *)
Definition permits_negotiated_group (p : SecurityProfile) (negotiated_group : string) : bool :=
  if str_empty negotiated_group then false
  else if negb (contains (groups p) negotiated_group) then false
  else if negb (allow_classical_fallback p) && negb (is_post_quantum_group negotiated_group) &&
          offers_post_quantum_key_establishment p then false
  else true.

Definition explain_group_rejection (p : SecurityProfile) (negotiated_group : string) : string :=
  if str_empty negotiated_group then
    "the negotiated TLS group could not be determined; profile '" +:+ id p +:+
    "' requires one of [" +:+ join (groups p) " " +:+
    "] and cannot confirm the connection satisfies its policy"
  else if negb (contains (groups p) negotiated_group) then
    "negotiated TLS group '" +:+ negotiated_group +:+ "' is not permitted by profile '" +:+
    id p +:+ "', which allows only [" +:+ join (groups p) " " +:+ "]"
  else
    "negotiated TLS group '" +:+ negotiated_group +:+
    "' provides classical key establishment only, and profile '" +:+ id p +:+
    "' sets fallback.allow_classical=false".

(** ** Registry *)

Definition ProfileRegistry : Type := list SecurityProfile.

(** The definitions compiled in, in order. *)
Definition builtin_definitions : list Definition_ :=
  [mkDefinition "classical-x25519" "Classical TLS 1.3 baseline using X25519 key establishment"
     Tls13 Tls13 ["X25519"] default_cipher_suites EcdsaP256 false true false;
   mkDefinition "classical-p256" "Classical TLS 1.3 baseline using NIST P-256 key establishment"
     Tls13 Tls13 ["secp256r1"] default_cipher_suites EcdsaP256 false true false;
   mkDefinition "hybrid-x25519-mlkem768"
     "Primary profile: hybrid X25519 + ML-KEM-768 key establishment, ECDSA P-256 authentication"
     Tls13 Tls13 ["X25519MLKEM768"] default_cipher_suites EcdsaP256 false false false;
   mkDefinition "hybrid-p256-mlkem768"
     "Secondary profile: hybrid NIST P-256 + ML-KEM-768 key establishment"
     Tls13 Tls13 ["SecP256r1MLKEM768"] default_cipher_suites EcdsaP256 false false false;
   mkDefinition "hybrid-p384-mlkem1024"
     "High-security experiment: hybrid P-384 + ML-KEM-1024, ECDSA P-384"
     Tls13 Tls13 ["SecP384r1MLKEM1024"] ["TLS_AES_256_GCM_SHA384"] EcdsaP384 false false false;
   mkDefinition "pure-mlkem768"
     "EXPERIMENTAL: standalone ML-KEM-768 key establishment, no classical component. Disabled by default."
     Tls13 Tls13 ["MLKEM768"] default_cipher_suites EcdsaP256 false false true;
   mkDefinition "hybrid-pq-auth"
     "EXPERIMENTAL: hybrid X25519 + ML-KEM-768 key establishment with ML-DSA-65 authentication. Capability-gated."
     Tls13 Tls13 ["X25519MLKEM768"] default_cipher_suites MlDsa65 false false true].

Definition registry_builtin : result ProfileRegistry :=
  map_result SecurityProfile_create builtin_definitions.

Definition registry_find (r : ProfileRegistry) (key : string) : option SecurityProfile :=
  find_if r (fun p => String.eqb (id p) key).

Definition registry_ids (r : ProfileRegistry) : list string := map id r.

Definition registry_get (r : ProfileRegistry) (key : string) : result SecurityProfile :=
  match registry_find r key with
  | Some profile => Ok profile
  | None => Throw (ConfigurationError ("unknown security profile '" +:+ key +:+
              "'. Available profiles: " +:+ join (registry_ids r) " "))
  end.

Fixpoint registry_add_or_replace (r : ProfileRegistry) (profile : SecurityProfile)
    : ProfileRegistry :=
  match r with
  | [] => [profile]
  | p :: r' => if String.eqb (id p) (id profile) then profile :: r'
               else p :: registry_add_or_replace r' profile
  end.

(** ** Lemmas: case-insensitive names *)

Fixpoint lower (s : string) : string :=
  match s with
  | EmptyString => ""
  | String c s' => String (ascii_lower c) (lower s')
  end.

Lemma iequals_lower a b : iequals a b = true <-> lower a = lower b.
Proof.
  unfold iequals. revert b. induction a as [|x a IH]; intros [|y b]; simpl; try done.
  specialize (IH b). destruct (String.length a =? String.length b)%nat eqn:El; simpl in *.
  - destruct (Ascii.eqb (ascii_lower x) (ascii_lower y)) eqn:E; simpl.
    + apply Ascii.eqb_eq in E as ->. rewrite IH. split; [by intros ->|congruence].
    + apply Ascii.eqb_neq in E. split; [done|]. congruence.
  - split; [done|]. intros [= _ Hl]. apply IH in Hl. done.
Qed.

(** Two spellings of one group name. *)
Definition ieq (a b : string) : Prop := iequals a b = true.

#[export] Instance ieq_equivalence : Equivalence ieq.
Proof.
  unfold ieq. split; [intros a|intros a b|intros a b c]; rewrite !iequals_lower; congruence.
Qed.

#[export] Instance iequals_proper : Proper (ieq ==> ieq ==> eq) iequals.
Proof.
  intros a a' Ha b b' Hb. apply eq_true_iff_eq. unfold ieq in *.
  apply iequals_lower in Ha, Hb. rewrite !iequals_lower. by rewrite Ha, Hb.
Qed.

#[export] Instance contains_proper l : Proper (ieq ==> eq) (contains l).
Proof. intros a b Hab. apply any_of_ext. intros x _. by rewrite Hab. Qed.

#[export] Instance is_hybrid_group_proper : Proper (ieq ==> eq) is_hybrid_group.
Proof. intros a b Hab. apply any_of_ext. intros x _. by rewrite Hab. Qed.

#[export] Instance is_post_quantum_group_proper : Proper (ieq ==> eq) is_post_quantum_group.
Proof.
  intros a b Hab. unfold is_post_quantum_group. rewrite Hab.
  destruct (is_hybrid_group b); [done|]. apply any_of_ext. intros x _. by rewrite Hab.
Qed.

Lemma ieq_empty a : ieq a "" -> a = "".
Proof. unfold ieq. rewrite iequals_lower. by destruct a. Qed.

Lemma contains_spec l g : contains l g = true <-> exists g0, In g0 l /\ ieq g0 g.
Proof. apply any_of_true. Qed.

(** ** Lemmas: validated profiles *)

(** What [create] guarantees of every profile it returns. *)
Record profile_inv (p : SecurityProfile) : Prop := {
  pi_id : id p <> "";
  pi_description : description p <> "";
  pi_groups : groups p <> [];
  pi_nodup : NoDup (groups p);
  pi_suites : cipher_suites p <> [];
  pi_suite_names : forall s, In s (cipher_suites p) -> starts_with s "TLS_" = true;
  pi_group_names : forall g, In g (groups p) -> starts_with g "TLS_" = false;
  pi_fallback : allow_classical_fallback p = false ->
    (forall g, In g (groups p) -> is_post_quantum_group g = true) \/
    (forall g, In g (groups p) -> is_post_quantum_group g = false);
  pi_pure : experimental p = false ->
    forall g, In g (groups p) -> is_post_quantum_group g = true -> is_hybrid_group g = true;
  pi_auth : experimental p = false -> authentication p <> MlDsa65
}.

Lemma length_remove_dups (l : list string) :
  (length (remove_dups l) <= length l)%nat /\
  (length (remove_dups l) = length l <-> NoDup l).
Proof.
  induction l as [|x l [IH1 IH2]]; simpl; [split; [done|]; split; [constructor|done]|].
  case_decide as Hx; simpl.
  - split; [lia|]. split; [lia|]. intros [? _]%list.NoDup_cons. done.
  - split; [lia|]. rewrite list.NoDup_cons, <- IH2. split; [intros; split; [done|lia]|lia].
Qed.

Lemma has_duplicates_false l : has_duplicates l = false <-> NoDup l.
Proof.
  unfold has_duplicates. rewrite negb_false_iff, Nat.eqb_eq. apply length_remove_dups.
Qed.

(** The normalisation [create] applies. *)
Definition normalize_definition (d : Definition_) : Definition_ :=
  let d := match cipher_suites d with
           | [] => with_cipher_suites d default_cipher_suites
           | _ => d
           end in
  if str_empty (description d) then with_description d (id d) else d.

Lemma normalize_fields d :
  id (normalize_definition d) = id d /\ groups (normalize_definition d) = groups d /\
  authentication (normalize_definition d) = authentication d /\
  require_client_certificate (normalize_definition d) = require_client_certificate d /\
  allow_classical_fallback (normalize_definition d) = allow_classical_fallback d /\
  experimental (normalize_definition d) = experimental d.
Proof.
  unfold normalize_definition. destruct (cipher_suites d); case_match; done.
Qed.

Lemma normalize_suites d :
  cipher_suites (normalize_definition d) =
  match cipher_suites d with [] => default_cipher_suites | l => l end.
Proof. unfold normalize_definition. destruct (cipher_suites d) eqn:E; case_match; done. Qed.

Lemma normalize_description d :
  description (normalize_definition d) =
  if str_empty (description d) then id d else description d.
Proof. unfold normalize_definition. destruct (cipher_suites d) eqn:E; simpl; by case_match. Qed.

(** [create] with its normalisation pulled to the end. *)
Definition create_checks (d : Definition_) : bool :=
  negb (str_empty (id d)) &&
  negb (match groups d with [] => true | _ => false end) &&
  negb (has_duplicates (groups d)) &&
  negb (any_of (cipher_suites (normalize_definition d)) (fun s => negb (starts_with s "TLS_"))) &&
  negb (any_of (groups d) (fun g => starts_with g "TLS_")) &&
  negb (has_pq d && has_classical d && negb (allow_classical_fallback d)) &&
  negb (has_pure_pq d && negb (experimental d)) &&
  negb (bool_decide (authentication d = MlDsa65) && negb (experimental d)).

Lemma for_each_throw_if {A} (l : list A) (p : A -> bool) (f : A -> exn) c :
  (forall a, exn_category (f a) = c) ->
  match for_each l (fun a => throw_if (p a) (f a)) with
  | Ok _ => any_of l p = false
  | Throw x => any_of l p = true /\ exn_category x = c
  end.
Proof.
  intros Hf. induction l as [|a l IH]; simpl; [done|].
  unfold throw_if at 1. destruct (p a); simpl; [auto|]. apply IH.
Qed.

Lemma create_decides d :
  match SecurityProfile_create d with
  | Ok p => create_checks d = true /\ p = normalize_definition d
  | Throw x => create_checks d = false /\ exn_category x = CatConfiguration
  end.
Proof.
  destruct (normalize_fields d) as (Hid & Hg & Ha & _ & Hf & He).
  unfold SecurityProfile_create, create_checks.
  unfold throw_if at 1. destruct (str_empty (id d)); simpl; [done|].
  unfold throw_if at 1.
  destruct (match groups d with [] => true | _ => false end); simpl; [done|].
  unfold throw_if at 1. destruct (has_duplicates (groups d)); simpl; [done|].
  set (d1 := match cipher_suites d with [] => _ | _ => _ end).
  assert (Hn : normalize_definition d =
    if str_empty (description d1) then with_description d1 (id d1) else d1) by done.
  assert (Hs : cipher_suites (normalize_definition d) = cipher_suites d1).
  { rewrite Hn. by case_match. }
  assert (Hd : groups d1 = groups d /\ authentication d1 = authentication d /\
    allow_classical_fallback d1 = allow_classical_fallback d /\ experimental d1 = experimental d)
    by (unfold d1; by destruct (cipher_suites d)).
  destruct Hd as (Hg1 & Ha1 & Hf1 & He1).
  rewrite Hs, <- Hn. unfold has_pq, has_classical, has_pure_pq. rewrite Hg1, Ha1, Hf1, He1.
  unfold mbind at 1, result_bind at 1.
  match goal with |- context [for_each (cipher_suites d1) (fun s => throw_if (@?p s) (@?f s))] =>
    pose proof (for_each_throw_if (cipher_suites d1) p f CatConfiguration (fun _ => eq_refl)) as H1 end.
  destruct (for_each (cipher_suites d1) _); [rewrite H1; clear H1|destruct H1 as [-> ?]; done].
  unfold mbind at 1, result_bind at 1.
  match goal with |- context [for_each (groups d) (fun s => throw_if (@?p s) (@?f s))] =>
    pose proof (for_each_throw_if (groups d) p f CatConfiguration (fun _ => eq_refl)) as H1 end.
  destruct (for_each (groups d) _); [rewrite H1; clear H1|destruct H1 as [-> ?]; done].
  rewrite !(bool_decide_eq_true_2 (_ = Tls13)) by (by destruct (minimum_version d1), (maximum_version d1)).
  simpl. repeat match goal with |- context [negb (?x && ?y)] => generalize (x && y); intros end.
  repeat match goal with b : bool |- _ => destruct b end; done.
Qed.

Lemma create_checks_inv d :
  create_checks d = true <-> profile_inv (normalize_definition d).
Proof.
  destruct (normalize_fields d) as (Hid & Hg & Ha & _ & Hf & He).
  unfold create_checks, has_pq, has_classical, has_pure_pq.
  rewrite !andb_true_iff, !negb_true_iff, !andb_false_iff, !any_of_false, has_duplicates_false,
    str_empty_false, !negb_false_iff, bool_decide_eq_false.
  split.
  - intros [[[[[[[H1 H2] H3] H4] H5] H6] H7] H8]. split; rewrite ?Hid, ?Hg, ?Ha, ?Hf, ?He; try done.
    + rewrite normalize_description. destruct (str_empty (description d)) eqn:E; [done|].
      by apply str_empty_false.
    + by destruct (groups d).
    + rewrite normalize_suites. by destruct (cipher_suites d).
    + intros s Hs. by apply negb_false_iff, H4.
    + intros Hfb. destruct H6 as [[H6|H6]|H6]; [by right| |congruence].
      left. intros g Hin. by apply negb_false_iff, H6.
    + intros Hexp g Hin Hpq. destruct H7 as [H7|H7]; [|congruence].
      specialize (H7 g Hin). rewrite Hpq in H7. by apply negb_false_iff.
    + intros Hexp. destruct H8 as [H8|H8]; [done|congruence].
  - intros [I1 _ I2 I3 _ I4 I5 I6 I7 I8]. rewrite ?Hid, ?Hg, ?Ha, ?Hf, ?He in *.
    splits; try done.
    + by destruct (groups d).
    + intros s Hs. apply negb_false_iff. by apply I4.
    + destruct (allow_classical_fallback d); [by right|]. left.
      destruct (I6 eq_refl) as [I|I]; [right|by left]. intros g Hin. apply negb_false_iff. by apply I.
    + destruct (experimental d); [by right|]. left. intros g Hin.
      destruct (is_post_quantum_group g) eqn:E; [|done]. simpl. apply negb_false_iff.
      by apply I7.
    + destruct (experimental d); [by right|left]. by apply I8.
Qed.

Lemma create_exact_inv d p : SecurityProfile_create d = Ok p -> profile_inv p.
Proof.
  intros Hc. pose proof (create_decides d) as H. rewrite Hc in H. destruct H as [H ->].
  by apply create_checks_inv.
Qed.

(** The branches of the check, for any profile. *)
Lemma permits_spec p g :
  permits_negotiated_group p g = true <->
  g <> "" /\ (exists g0, In g0 (groups p) /\ ieq g0 g) /\
  (allow_classical_fallback p = false -> offers_post_quantum_key_establishment p = true ->
   is_post_quantum_group g = true).
Proof.
  rewrite <- contains_spec. unfold permits_negotiated_group.
  destruct (str_empty g) eqn:E; bool_props; [naive_solver|].
  destruct (contains (groups p) g); simpl; [|naive_solver].
  destruct (allow_classical_fallback p), (is_post_quantum_group g),
    (offers_post_quantum_key_establishment p); naive_solver.
Qed.

#[export] Instance permits_proper p : Proper (ieq ==> eq) (permits_negotiated_group p).
Proof.
  intros a b Hab. apply eq_true_iff_eq. rewrite !permits_spec, <- !contains_spec.
  rewrite (contains_proper _ _ _ Hab), (is_post_quantum_group_proper _ _ Hab).
  split; intros (H1 & H2); split; try done; intros ->.
  - apply ieq_empty in Hab. done.
  - symmetry in Hab. apply ieq_empty in Hab. done.
Qed.

(** ** Lemmas: the registry *)

Lemma find_if_id r k p : registry_find r k = Some p -> id p = k.
Proof. intros [_ H]%List.find_some. by apply String.eqb_eq. Qed.

Lemma registry_find_none r k : registry_find r k = None <-> k ∉ registry_ids r.
Proof.
  unfold registry_find, find_if, registry_ids.
  induction r as [|p r IH]; simpl; [set_solver|].
  destruct (String.eqb_spec (id p) k) as [->|]; [set_solver|]. rewrite IH. set_solver.
Qed.

Lemma registry_find_add r p k :
  registry_find (registry_add_or_replace r p) k =
  if String.eqb (id p) k then Some p else registry_find r k.
Proof.
  unfold registry_find, find_if. induction r as [|q r IH]; simpl; [done|].
  destruct (String.eqb_spec (id q) (id p)) as [He|Hn]; simpl.
  - rewrite He. by destruct (String.eqb (id p) k).
  - rewrite IH. destruct (String.eqb_spec (id q) k), (String.eqb_spec (id p) k); congruence.
Qed.

Lemma registry_ids_add r p :
  registry_ids (registry_add_or_replace r p) =
  if registry_find r (id p) then registry_ids r else registry_ids r ++ [id p].
Proof.
  unfold registry_find, find_if, registry_ids. induction r as [|q r IH]; simpl; [done|].
  destruct (String.eqb_spec (id q) (id p)) as [He|Hn]; simpl; [by rewrite He|].
  rewrite IH. by destruct (List.find _ r).
Qed.

Lemma registry_ids_add_nodup r p :
  NoDup (registry_ids r) -> NoDup (registry_ids (registry_add_or_replace r p)).
Proof.
  rewrite registry_ids_add. destruct (registry_find r (id p)) eqn:E; [done|].
  intros Hn. apply list.NoDup_app; splits; [done| |apply NoDup_singleton].
  apply registry_find_none in E. set_solver.
Qed.

Lemma builtin_valid :
  registry_builtin = Ok builtin_definitions /\ Forall profile_inv builtin_definitions /\
  NoDup (registry_ids builtin_definitions).
Proof.
  splits; [reflexivity| |by apply (bool_decide_unpack _)]. unfold builtin_definitions.
  repeat (apply Forall_cons_2;
    [match goal with |- profile_inv ?d => by apply (create_exact_inv d) end|]).
  constructor.
Qed.

(** ** Claims *)

(** The definitions on which the code and its comments agree: a policy without
    classical fallback has a post-quantum group to protect, and no group is
    listed twice, in whatever letter case. *)
Definition clear_cut (d : Definition_) : Prop :=
  (allow_classical_fallback d = true \/ exists g, In g (groups d) /\ is_post_quantum_group g = true) /\
  NoDup (map lower (groups d)).

(** C28: For a definition that has a post-quantum group or allows classical
    fallback, and that lists no group twice up to letter case,
    [SecurityProfile::create] returns exactly when the definition, with the
    defaulted cipher suites and description filled in, satisfies the profile
    invariant, and what it returns is the definition with these defaults; in
    every other case it throws a configuration error.  In particular a
    returned profile that forbids classical fallback has post-quantum groups
    only, and a profile not marked experimental uses neither pure ML-KEM groups
    nor ML-DSA authentication. *)
Theorem create_exact d :
  clear_cut d ->
  match SecurityProfile_create d with
  | Ok p => p = normalize_definition d /\ profile_inv p /\
      (allow_classical_fallback p = false -> forall g, In g (groups p) -> is_post_quantum_group g = true)
  | Throw x => ~ profile_inv (normalize_definition d) /\ exn_category x = CatConfiguration
  end.
Proof.
  intros [Hpq _]. pose proof (create_decides d) as H.
  destruct (SecurityProfile_create d) as [p|x]; destruct H as [H1 H2].
  - assert (Hi : profile_inv p) by (rewrite H2; by apply create_checks_inv). splits; [done|done|].
    intros Hf. destruct (pi_fallback _ Hi Hf) as [Ha|Ha]; [done|]. subst p.
    destruct (normalize_fields d) as (_ & Hg & _ & _ & Hfb & _). rewrite Hg in Ha. rewrite Hfb in Hf.
    destruct Hpq as [Hpq|(g & Hin & Hpq)]; [congruence|]. rewrite Ha in Hpq; done.
  - split; [|done]. rewrite <- create_checks_inv. by rewrite H1.
Qed.


Definition hybrid_definition : Definition_ :=
  mkDefinition "lab" "" Tls13 Tls13 ["X25519MLKEM768"] [] EcdsaP256 false false false.


Lemma create_exact_witness :
  profile_inv (normalize_definition hybrid_definition).
Proof.
  pose proof (create_exact hybrid_definition) as H.
  assert (Hc : clear_cut hybrid_definition).
  { split; [right; exists "X25519MLKEM768"; split; [by left|reflexivity]|]. apply (bool_decide_unpack _). reflexivity. }
  specialize (H Hc). simpl in H. exact (proj1 (proj2 H)).
Defined.

(** C29: The registry.  [builtin] succeeds with exactly the compiled-in
    definitions, every one of them a valid profile, under distinct ids.
    [add_or_replace] keeps the order and the distinctness of the ids: a new id
    goes to the end, a known one keeps its place; afterwards [find] returns
    the stored profile for its id and what it returned before for every other
    id.  [get] returns what [find] finds and throws a configuration error
    otherwise. *)
Theorem registry_spec :
  registry_builtin = Ok builtin_definitions /\
  Forall profile_inv builtin_definitions /\
  NoDup (registry_ids builtin_definitions) /\
  (forall r p k,
     registry_find (registry_add_or_replace r p) k =
       (if String.eqb (id p) k then Some p else registry_find r k) /\
     registry_ids (registry_add_or_replace r p) =
       (if registry_find r (id p) then registry_ids r else registry_ids r ++ [id p]) /\
     (NoDup (registry_ids r) -> NoDup (registry_ids (registry_add_or_replace r p))) /\
     match registry_get r k with
     | Ok q => registry_find r k = Some q /\ id q = k
     | Throw x => registry_find r k = None /\ exn_category x = CatConfiguration
     end).
Proof.
  destruct builtin_valid as (Hb1 & Hb2 & Hb3). splits; [done..|].
  intros r p k. splits.
  - apply registry_find_add.
  - apply registry_ids_add.
  - apply registry_ids_add_nodup.
  - unfold registry_get. destruct (registry_find r k) eqn:E; [|done].
      split; [done|]. by apply find_if_id in E.
Qed.

(** Two definitions [create] accepts although the comments beside its checks
    read otherwise: a profile that forbids classical fallback and lists only
    classical groups, and one that lists a group twice in different letter
    case. *)
Example classical_without_fallback_accepted :
  is_ok (SecurityProfile_create (mkDefinition "c" "" Tls13 Tls13 ["X25519"] [] EcdsaP256
    false false false)) = true.
Proof. reflexivity. Qed.

Example case_variant_duplicate_accepted :
  is_ok (SecurityProfile_create (mkDefinition "c" "" Tls13 Tls13 ["X25519"; "x25519"] [] EcdsaP256
    false true false)) = true.
Proof. reflexivity. Qed.
