(* ===== verification/ProfileYaml.v ===== *)
(** Reading security profiles from YAML: the loader at the end of
    [src/common/security_profile.cpp].

    The YAML library ([yaml-cpp]) is outside [src/]: [YamlLib] collects the
    operations on nodes the sources call, over an abstract node type.  An
    operation that can throw returns the exception's text; all of these
    exceptions derive from [std::runtime_error], so they leave the loaders as
    [RaiseStd]. *)

From stdpp Require Import sets.
From S2P Require Import Prelude Errors Runtime Profile.

(** ** The YAML library *)

(** [YAML::LoadFile]: a document, [YAML::BadFile], or another
    [YAML::Exception]. *)
Inductive yaml_load (N : Type) :=
  | Loaded (root : N)
  | BadFile (what : string)
  | YamlException (what : string).
Arguments Loaded {N} root.
Arguments BadFile {N} what.
Arguments YamlException {N} what.

Class YamlLib (W : Type) := {
  ynode : Type;
  LoadFile : string -> ext W (yaml_load ynode);
  IsDefined : ynode -> bool;
  IsMap : ynode -> bool;
  IsSequence : ynode -> bool;
  subscript : ynode -> string -> string + ynode;
  elements : ynode -> list ynode;
  entries : ynode -> list (ynode * ynode);
  as_string : ynode -> string + string;
  as_bool : ynode -> string + bool;
  as_int : ynode -> string + Z;
  as_uint32 : ynode -> string + Z
}.

(** A library call that throws, inside the sources. *)
Definition yaml_get {A} (r : string + A) : result A :=
  match r with
  | inl what => Throw (RaiseStd what)
  | inr a => Ok a
  end.

Section profile_yaml.
Context {W : Type} {Y : YamlLib W}.

(** [node[key]], then [if (node[key])] and [node[key].as<T>()]. *)
Definition at_key (node : ynode) (key : string) : result ynode := yaml_get (subscript node key).

(** [if (node[key]) target = node[key].as<T>();], the way optional entries
    are read. *)
Definition read_key {A} (conv : ynode -> string + A) (node : ynode) (key : string) (target : A)
    : result A :=
  entry ← at_key node key;
  if IsDefined entry then yaml_get (conv entry) else Ok target.

(** ** Profile definitions *)

Definition reject_unknown_keys (node : ynode) (known : list string) (context : string)
    : result unit :=
  if negb (IsMap node) then Ok tt
  else for_each (entries node) (fun entry =>
    key ← yaml_get (as_string entry.1);
    throw_if (negb (bool_decide (key ∈ known)))
      (ConfigurationError ("unknown key '" +:+ key +:+ "' in " +:+ context +:+
        ". Remove it or correct the spelling; unknown keys are " +:+
        "rejected so that a typo cannot silently weaken a policy."))).

(** [tls.minimum_version] and [tls.maximum_version]. *)
Definition read_tls_version (who : string) (tls : ynode) (key : string) (current : TlsVersion)
    : result TlsVersion :=
  entry ← at_key tls key;
  if negb (IsDefined entry) then Ok current
  else
    raw ← yaml_get (as_string entry);
    match tls_version_from_string raw with
    | Some v => Ok v
    | None => Throw (ConfigurationError ("profile '" +:+ who +:+ "': unsupported tls." +:+ key +:+
                " '" +:+ raw +:+ "'. Only TLS1.3 is supported."))
    end.

Definition read_tls_section (who : string) (node : ynode) : result (TlsVersion * TlsVersion) :=
  tls ← at_key node "tls";
  if negb (IsDefined tls) then Ok (Tls13, Tls13)
  else
    reject_unknown_keys tls ["minimum_version"; "maximum_version"]
      ("profile '" +:+ who +:+ "' tls section") ;;
    lo ← read_tls_version who tls "minimum_version" Tls13;
    hi ← read_tls_version who tls "maximum_version" Tls13;
    Ok (lo, hi).

(** [groups] and [cipher_suites]: absent, or a list of strings. *)
Definition read_string_list (who : string) (node : ynode) (key : string) : result (list string) :=
  seq ← at_key node key;
  if negb (IsDefined seq) then Ok []
  else
    throw_if (negb (IsSequence seq))
      (ConfigurationError ("profile '" +:+ who +:+ "': '" +:+ key +:+ "' must be a list")) ;;
    map_result (fun g => yaml_get (as_string g)) (elements seq).

Definition read_authentication_section (who : string) (node : ynode)
    : result (AuthenticationType * bool) :=
  auth ← at_key node "authentication";
  if negb (IsDefined auth) then Ok (EcdsaP256, false)
  else
    reject_unknown_keys auth ["type"; "require_client_certificate"]
      ("profile '" +:+ who +:+ "' authentication section") ;;
    ty ← at_key auth "type";
    kind ← (if negb (IsDefined ty) then Ok EcdsaP256
            else
              raw ← yaml_get (as_string ty);
              match authentication_type_from_string raw with
              | Some t => Ok t
              | None => Throw (ConfigurationError ("profile '" +:+ who +:+
                          "': unknown authentication.type '" +:+ raw +:+ "'"))
              end);
    mtls ← read_key as_bool auth "require_client_certificate" false;
    Ok (kind, mtls).

Definition read_fallback_section (who : string) (node : ynode) : result bool :=
  fallback ← at_key node "fallback";
  if negb (IsDefined fallback) then Ok false
  else
    reject_unknown_keys fallback ["allow_classical"]
      ("profile '" +:+ who +:+ "' fallback section") ;;
    read_key as_bool fallback "allow_classical" false.

Definition profile_keys : list string :=
  ["id"; "description"; "tls"; "groups"; "cipher_suites"; "authentication"; "fallback";
   "experimental"].

(** The definition a profile node describes, before [create]. *)
Definition parse_definition (node : ynode) : result Definition_ :=
  reject_unknown_keys node profile_keys "profile definition" ;;
  id_node ← at_key node "id";
  throw_if (negb (IsDefined id_node))
    (ConfigurationError "profile definition is missing the mandatory 'id' key") ;;
  who ← yaml_get (as_string id_node);
  text ← read_key as_string node "description" "";
  '(lo, hi) ← read_tls_section who node;
  gs ← read_string_list who node "groups";
  suites ← read_string_list who node "cipher_suites";
  '(auth, mtls) ← read_authentication_section who node;
  fallback ← read_fallback_section who node;
  exp ← read_key as_bool node "experimental" false;
  Ok (mkDefinition who text lo hi gs suites auth mtls fallback exp).

Definition parse_profile_node (node : ynode) : result SecurityProfile :=
  def ← parse_definition node; SecurityProfile_create def.

(** ** The profiles file *)

(** [for (node : profiles) registry.add_or_replace(parse_profile_node(node))]. *)
Fixpoint load_profiles (registry : ProfileRegistry) (nodes : list ynode) : result ProfileRegistry :=
  match nodes with
  | [] => Ok registry
  | node :: rest =>
      profile ← parse_profile_node node;
      load_profiles (registry_add_or_replace registry profile) rest
  end.

Definition registry_from_yaml_file (path : string) : io W ProfileRegistry :=
  registry ← liftM registry_builtin;
  loaded ← call (LoadFile path);
  root ← match loaded with
         | Loaded n => mret n
         | BadFile what | YamlException what =>
             throwM (ConfigurationError ("failed to parse profiles file '" +:+ path +:+ "': " +:+ what))
         end;
  liftM (reject_unknown_keys root ["profiles"; "schema_version"] ("profiles file '" +:+ path +:+ "'")) ;;
  profiles ← liftM (at_key root "profiles");
  (if negb (IsDefined profiles) || negb (IsSequence profiles)
   then throwM (ConfigurationError ("profiles file '" +:+ path +:+
                  "' must contain a top-level 'profiles' list"))
   else mret tt) ;;
  liftM (load_profiles registry (elements profiles)).

(** ** Lemmas *)

(** A mapping node whose keys are all expected ones. *)
Definition keys_known (node : ynode) (known : list string) : Prop :=
  IsMap node = true ->
  forall entry, In entry (entries node) -> exists k, as_string entry.1 = inr k /\ k ∈ known.

Lemma yaml_get_ok {A} (r : string + A) a : yaml_get r = Ok a <-> r = inr a.
Proof. destruct r; simpl; split; congruence. Qed.

Lemma reject_unknown_keys_ok node known context u :
  reject_unknown_keys node known context = Ok u -> keys_known node known.
Proof.
  unfold reject_unknown_keys. intros Hr Hmap entry Hin. rewrite Hmap in Hr. simpl in Hr.
  destruct u. rewrite for_each_ok in Hr. specialize (Hr entry Hin).
  apply result_bind_ok in Hr as (k & Hk%yaml_get_ok & Hr%throw_if_ok). bool_props.
  apply bool_decide_eq_true in Hr. eauto.
Qed.

(** A section of a profile node, when present, has only expected keys. *)
Definition section_known (node : ynode) (key : string) (known : list string) : Prop :=
  exists n, subscript node key = inr n /\ (IsDefined n = true -> keys_known n known).

Lemma read_section_known {A} node key known context (absent : A) k a :
  (n ← at_key node key;
   if negb (IsDefined n) then Ok absent else reject_unknown_keys n known context ;; k n) = Ok a ->
  section_known node key known.
Proof.
  intros (n & Hn & Hk)%result_bind_ok. apply yaml_get_ok in Hn. exists n. split; [done|].
  intros Hd. rewrite Hd in Hk. simpl in Hk. apply result_bind_ok in Hk as (u & Hu & _).
  by eapply reject_unknown_keys_ok.
Qed.

Lemma parse_definition_keys node d :
  parse_definition node = Ok d ->
  keys_known node profile_keys /\
  section_known node "tls" ["minimum_version"; "maximum_version"] /\
  section_known node "authentication" ["type"; "require_client_certificate"] /\
  section_known node "fallback" ["allow_classical"] /\
  exists n, subscript node "id" = inr n /\ IsDefined n = true /\ as_string n = inr (id d).
Proof.
  unfold parse_definition. intros H1. ok_inv. subst d; simpl. bool_props.
  repeat match goal with H : yaml_get _ = Ok _ |- _ => apply yaml_get_ok in H
    | H : at_key _ _ = Ok _ |- _ => apply yaml_get_ok in H end.
  unfold read_tls_section, read_authentication_section, read_fallback_section in *.
  splits; [by eapply reject_unknown_keys_ok| | | |eauto];
    match goal with Hs : _ = Ok _ |- _ => exact (read_section_known _ _ _ _ _ _ _ Hs) end.
Qed.

(** What the registry maintains. *)
Definition registry_inv (r : ProfileRegistry) : Prop :=
  Forall profile_inv r /\ NoDup (registry_ids r).

Lemma registry_inv_add r p :
  registry_inv r -> profile_inv p -> registry_inv (registry_add_or_replace r p).
Proof.
  intros [Hf Hn] Hp. split.
  - clear Hn. induction Hf as [|q r Hq Hr IH]; simpl; [by apply Forall_singleton|].
    case_match; by constructor.
  - by apply registry_ids_add_nodup.
Qed.

Lemma registry_ids_prefix r p : registry_ids r `prefix_of` registry_ids (registry_add_or_replace r p).
Proof. rewrite registry_ids_add. case_match; [done|]. by apply prefix_app_r. Qed.

Lemma parse_profile_node_inv node p :
  parse_profile_node node = Ok p ->
  exists d, parse_definition node = Ok d /\ p = normalize_definition d /\ profile_inv p.
Proof.
  intros (d & Hd & Hc)%result_bind_ok. exists d. pose proof (create_decides d) as He.
  rewrite Hc in He. destruct He as [He ->]. apply create_checks_inv in He. done.
Qed.

(** Loading as a fold: the profiles the nodes describe, added in order. *)
Lemma load_profiles_fold r nodes r' :
  load_profiles r nodes = Ok r' ->
  exists ps, Forall2 (fun n p => parse_profile_node n = Ok p) nodes ps /\
    r' = fold_left registry_add_or_replace ps r.
Proof.
  revert r. induction nodes as [|n nodes IH]; simpl; intros r.
  - intros [= <-]. exists []. split; [constructor|done].
  - intros (p & Hp & Hl)%result_bind_ok. apply IH in Hl as (ps & Hps & ->).
    exists (p :: ps). split; [by constructor|done].
Qed.

Lemma fold_add_inv ps r :
  registry_inv r -> Forall profile_inv ps -> registry_inv (fold_left registry_add_or_replace ps r).
Proof.
  intros Hr Hps. revert r Hr. induction Hps; simpl; auto using registry_inv_add.
Qed.

Lemma fold_add_prefix ps r :
  registry_ids r `prefix_of` registry_ids (fold_left registry_add_or_replace ps r).
Proof.
  revert r. induction ps as [|p ps IH]; intros r; simpl; [done|].
  etrans; [apply registry_ids_prefix|apply IH].
Qed.

(** The last profile with an id wins; ids nobody defines keep their profile. *)
Lemma fold_add_find ps r k :
  registry_find (fold_left registry_add_or_replace ps r) k =
  match find_if (rev ps) (fun p => String.eqb (id p) k) with
  | Some p => Some p
  | None => registry_find r k
  end.
Proof.
  revert r. induction ps as [|p ps IH]; intros r; simpl; [done|].
  rewrite IH, registry_find_add, find_if_app. simpl.
  by destruct (find_if (rev ps) _), (String.eqb (id p) k).
Qed.

Lemma builtin_inv : registry_builtin = Ok builtin_definitions /\ registry_inv builtin_definitions.
Proof. pose proof builtin_valid. unfold registry_inv. naive_solver. Qed.

(** Reading a profile is strict. *)
Definition strictly_read (node : ynode) (p : SecurityProfile) : Prop :=
  keys_known node profile_keys /\
  section_known node "tls" ["minimum_version"; "maximum_version"] /\
  section_known node "authentication" ["type"; "require_client_certificate"] /\
  section_known node "fallback" ["allow_classical"] /\
  (exists n, subscript node "id" = inr n /\ IsDefined n = true /\ as_string n = inr (id p)) /\
  profile_inv p.

Lemma parse_profile_strict node p : parse_profile_node node = Ok p -> strictly_read node p.
Proof.
  intros (d & Hd & -> & Hinv)%parse_profile_node_inv.
  destruct (normalize_fields d) as [Hid _]. unfold strictly_read. rewrite Hid.
  apply parse_definition_keys in Hd as (H1 & H2 & H3 & H4 & H5). done.
Qed.

(** What a returned registry is. *)
Lemma profiles_file_outcome path s r s' :
  registry_from_yaml_file path s = (Ok r, s') ->
  registry_inv r /\
  registry_ids builtin_definitions `prefix_of` registry_ids r /\
  exists root list ps,
    (LoadFile path (st_world s) (st_errq s)).1 = Loaded root /\
    keys_known root ["profiles"; "schema_version"] /\
    subscript root "profiles" = inr list /\
    Forall2 (fun n p => parse_profile_node n = Ok p /\ strictly_read n p) (elements list) ps /\
    forall k, registry_find r k =
      match find_if (rev ps) (fun p => String.eqb (id p) k) with
      | Some p => Some p
      | None => registry_find builtin_definitions k
      end.
Proof.
  destruct builtin_inv as [Hb Hbi]. unfold registry_from_yaml_file. rewrite Hb.
  intros (? & [= <-] & Hrest)%liftM_bind_inv.
  apply bind_inv in Hrest as (ld & s1 & Hcall & Hrest).
  unfold call in Hcall. destruct (LoadFile path _ _) as [ld' [w q]].
  injection Hcall as <- <-. cbn [fst].
  apply bind_inv in Hrest as (root & s2 & Hroot & Hrest).
  assert (ld' = Loaded root) as -> by (destruct ld'; [by injection Hroot as -> _|discriminate Hroot..]).
  apply liftM_bind_inv in Hrest as (u & Hkeys%reject_unknown_keys_ok & Hrest).
  apply liftM_bind_inv in Hrest as (lst & Hl%yaml_get_ok & Hrest).
  apply bind_inv in Hrest as (? & s3 & _ & Hload).
  injection Hload as Hload _. apply load_profiles_fold in Hload as (ps & Hps & ->).
  splits; [apply fold_add_inv; [done|]|apply fold_add_prefix|].
  - apply List.Forall_forall. intros p (n & Hn & Hp)%(Forall2_In_r _ _ _ _ Hps).
    by apply parse_profile_node_inv in Hp as (d & _ & _ & ?).
  - exists root, lst, ps. splits; [done..| |intros k; apply fold_add_find].
    eapply Forall2_impl; [|exact Hps]. cbn beta. eauto using parse_profile_strict.
Qed.

(** ** Claims *)

(** C31: Loading a profiles file.  A registry the loader returns holds only
    valid profiles under distinct ids, lists the built-in ids first, in their
    order, and gives every id the profile of the last node of the file that
    defines it, or else the built-in one.  Every node was read strictly: its
    keys and those of its [tls], [authentication] and [fallback] sections are
    ones the loader knows, the mandatory id was present and is the profile's,
    and the profile satisfies the profile invariant. *)
Theorem profiles_file_sound path s r s' :
  registry_from_yaml_file path s = (Ok r, s') ->
  registry_inv r /\
  registry_ids builtin_definitions `prefix_of` registry_ids r /\
  exists root list ps,
    (LoadFile path (st_world s) (st_errq s)).1 = Loaded root /\
    keys_known root ["profiles"; "schema_version"] /\
    subscript root "profiles" = inr list /\
    Forall2 (fun n p => parse_profile_node n = Ok p /\ strictly_read n p) (elements list) ps /\
    forall k, registry_find r k =
      match find_if (rev ps) (fun p => String.eqb (id p) k) with
      | Some p => Some p
      | None => registry_find builtin_definitions k
      end.
Proof. apply profiles_file_outcome. Qed.

End profile_yaml.

(** ** A small YAML library, for examples *)

Inductive yval :=
  | YUndef
  | YScalar (s : string)
  | YNumber (z : Z)
  | YSeq (l : list yval)
  | YMap (l : list (yval * yval)).

Definition toy_as_string (n : yval) : string + string :=
  match n with
  | YScalar s => inr s
  | YNumber z => inr (std_to_string z)
  | _ => inl "bad conversion"
  end.

Definition toy_subscript (n : yval) (key : string) : string + yval :=
  match n with
  | YMap l => inr (match find_if l (fun kv =>
                     match toy_as_string kv.1 with inr k => String.eqb k key | inl _ => false end) with
                   | Some kv => kv.2
                   | None => YUndef
                   end)
  | YUndef => inl "invalid node"
  | _ => inl "bad subscript"
  end.

Definition toy_as_bool (n : yval) : string + bool :=
  match n with
  | YScalar s => if String.eqb s "true" then inr true
                 else if String.eqb s "false" then inr false else inl "bad conversion"
  | _ => inl "bad conversion"
  end.

Definition toy_yaml {W : Type} (file : string -> yaml_load yval) : YamlLib W := {|
  ynode := yval;
  LoadFile := fun path w q => (file path, (w, q));
  IsDefined := fun n => match n with YUndef => false | _ => true end;
  IsMap := fun n => match n with YMap _ => true | _ => false end;
  IsSequence := fun n => match n with YSeq _ => true | _ => false end;
  subscript := toy_subscript;
  elements := fun n => match n with YSeq l => l | _ => [] end;
  entries := fun n => match n with YMap l => l | _ => [] end;
  as_string := toy_as_string;
  as_bool := toy_as_bool;
  as_int := fun n => match n with YNumber z => inr z | _ => inl "bad conversion" end;
  as_uint32 := fun n => match n with
    | YNumber z => if (0 <=? z) && (z <=? u32_max) then inr z else inl "bad conversion"
    | _ => inl "bad conversion"
    end
|}.

Definition profile_yaml_node : yval :=
  YMap [(YScalar "id", YScalar "lab");
        (YScalar "groups", YSeq [YScalar "X25519MLKEM768"]);
        (YScalar "fallback", YMap [(YScalar "allow_classical", YScalar "false")])].

Definition profiles_doc : yval := YMap [(YScalar "profiles", YSeq [profile_yaml_node])].

Definition lab_profile : SecurityProfile := normalize_definition hybrid_definition.

Lemma profiles_file_sound_witness :
  registry_inv (registry_add_or_replace builtin_definitions lab_profile).
Proof.
  refine (proj1 (profiles_file_sound (Y := toy_yaml (W := unit) (fun _ => Loaded profiles_doc))
    "profiles.yaml" (mkSt tt [] []) _ (mkSt tt [] []) _)).
  reflexivity.
Defined.
