(* ===== verification/Config.v ===== *)
(** Runtime configuration: [include/pqtls/config.hpp] and
    [src/common/config.cpp].  The YAML loaders thread the warnings the code
    collects; the environment ([std::getenv]) is a parameter. *)

From S2P Require Import Prelude Errors Runtime Framing Profile ProfileYaml.

(** ** Data *)

Inductive OutputFormat := Human | Json.

Definition output_format_from_string (name : string) : option OutputFormat :=
  if String.eqb name "human" then Some Human
  else if String.eqb name "json" then Some Json
  else None.

Record CommonConfig := mkCommonConfig {
  profile_id : string;
  profiles_file : string;
  certificate_file : string;
  private_key_file : string;
  ca_certificate_file : string;
  metrics_file : string;
  experiment_id : string;
  max_frame_size : Z;
  handshake_timeout_ms : Z;
  io_timeout_ms : Z;
  output_format : OutputFormat;
  log_level : string;
  insecure_development_mode : bool;
  keylog_file : string
}.

Definition CommonConfig_default : CommonConfig :=
  mkCommonConfig "classical-x25519" "" "" "" "" "" "" kDefaultMaxFrameSize 10000 30000 Human "info"
    false "".

Record ClientConfig := mkClientConfig {
  c_common : CommonConfig;
  host : string;
  c_port : Z;
  server_name : string;
  message : string;
  message_file : string;
  connections : Z;
  concurrency : Z;
  warmup_connections : Z;
  reuse_session : bool;
  messages_per_connection : Z;
  benchmark_output : string
}.

Definition ClientConfig_default : ClientConfig :=
  mkClientConfig CommonConfig_default "localhost" 8443 "" "" "" 1 1 0 false 1 "".

Definition effective_server_name (config : ClientConfig) : string :=
  if str_empty (server_name config) then host config else server_name config.

Record ServerConfig := mkServerConfig {
  s_common : CommonConfig;
  listen_address : string;
  s_port : Z;
  max_connections : Z;
  backlog : Z;
  idle_timeout_ms : Z;
  max_messages_per_connection : Z;
  s_require_client_certificate : bool
}.

Definition ServerConfig_default : ServerConfig :=
  mkServerConfig CommonConfig_default "0.0.0.0" 8443 256 128 60000 1024 false.

(** ** YAML *)

Section config_yaml.
Context {W : Type} {Y : YamlLib W}.

(** Unknown keys become warnings here. *)
Definition warn_unknown_keys (node : ynode) (known : list string) (context : string)
    (warnings : list string) : result (list string) :=
  if negb (IsDefined node) || negb (IsMap node) then Ok warnings
  else
    keys ← map_result (fun entry => yaml_get (as_string entry.1)) (entries node);
    Ok (warnings ++ map (fun key => "unknown configuration key '" +:+ key +:+ "' in " +:+ context +:+
                                    " was ignored")
                        (List.filter (fun key => negb (bool_decide (key ∈ known))) keys)).

(** [assign_if_present] and [assign_string_if_present]. *)
Definition assign_if_present {A} (conv : ynode -> string + A) (node : ynode) (key : string)
    (target : A) : result A :=
  if IsDefined node then read_key conv node key target else Ok target.

Definition parse_port (node : ynode) (key : string) (fallback : Z) : result Z :=
  if negb (IsDefined node) then Ok fallback
  else
    entry ← at_key node key;
    if negb (IsDefined entry) then Ok fallback
    else
      value ← yaml_get (as_int entry);
      throw_if ((value <? 0) || (value >? 65535))
        (ConfigurationError ("'" +:+ key +:+ "' must be in [0, 65535], got " +:+
                             std_to_string value)) ;;
      Ok (to_u16 value).

Definition load_yaml (path : string) : io W ynode :=
  loaded ← call (LoadFile path);
  match loaded with
  | Loaded n => mret n
  | BadFile _ =>
      throwM (ConfigurationError ("configuration file '" +:+ path +:+ "' could not be opened"))
  | YamlException what =>
      throwM (ConfigurationError ("configuration file '" +:+ path +:+ "' is not valid YAML: " +:+ what))
  end.

(** [root[section] ? root[section] : root]. *)
Definition section_or_root (root : ynode) (section : string) : result ynode :=
  sub ← at_key root section;
  Ok (if IsDefined sub then sub else root).

Definition common_keys : list string :=
  ["profile"; "profiles_file"; "certificate"; "private_key"; "ca_certificate"; "metrics";
   "experiment_id"; "max_frame_size"; "handshake_timeout_ms"; "io_timeout_ms"; "output_format";
   "log_level"; "insecure_development_mode"; "keylog_file";
   "host"; "port"; "server_name"; "message"; "message_file"; "connections"; "concurrency";
   "warmup_connections"; "reuse_session"; "messages_per_connection"; "benchmark_output"; "listen";
   "listen_address"; "max_connections"; "backlog"; "idle_timeout_ms";
   "max_messages_per_connection"; "require_client_certificate"; "client"; "server"; "common"].

Definition client_keys : list string :=
  ["host"; "port"; "server_name"; "message"; "message_file"; "connections"; "concurrency";
   "warmup_connections"; "reuse_session"; "messages_per_connection"; "benchmark_output"].

Definition server_keys : list string :=
  ["listen"; "listen_address"; "port"; "max_connections"; "backlog"; "idle_timeout_ms";
   "max_messages_per_connection"; "require_client_certificate"].

Definition read_output_format (node : ynode) (current : OutputFormat) : result OutputFormat :=
  entry ← at_key node "output_format";
  if negb (IsDefined entry) then Ok current
  else
    raw ← yaml_get (as_string entry);
    match output_format_from_string raw with
    | Some f => Ok f
    | None => Throw (ConfigurationError ("unknown output_format '" +:+ raw +:+
                "'; expected human or json"))
    end.

(** The part of [load_common_yaml] after the file was read. *)
Definition read_common (path : string) (root : ynode) (config : CommonConfig)
    (warnings : list string) : result (CommonConfig * list string) :=
  node ← section_or_root root "common";
  warnings ← warn_unknown_keys node common_keys ("'" +:+ path +:+ "'") warnings;
  v_profile ← assign_if_present as_string node "profile" (profile_id config);
  v_profiles_file ← assign_if_present as_string node "profiles_file" (profiles_file config);
  v_certificate ← assign_if_present as_string node "certificate" (certificate_file config);
  v_private_key ← assign_if_present as_string node "private_key" (private_key_file config);
  v_ca ← assign_if_present as_string node "ca_certificate" (ca_certificate_file config);
  v_metrics ← assign_if_present as_string node "metrics" (metrics_file config);
  v_experiment ← assign_if_present as_string node "experiment_id" (experiment_id config);
  v_log ← assign_if_present as_string node "log_level" (log_level config);
  v_keylog ← assign_if_present as_string node "keylog_file" (keylog_file config);
  v_frame ← assign_if_present as_uint32 node "max_frame_size" (max_frame_size config);
  v_handshake ← assign_if_present as_uint32 node "handshake_timeout_ms" (handshake_timeout_ms config);
  v_io ← assign_if_present as_uint32 node "io_timeout_ms" (io_timeout_ms config);
  v_insecure ← assign_if_present as_bool node "insecure_development_mode"
                 (insecure_development_mode config);
  v_format ← read_output_format node (output_format config);
  Ok (mkCommonConfig v_profile v_profiles_file v_certificate v_private_key v_ca v_metrics
        v_experiment v_frame v_handshake v_io v_format v_log v_insecure v_keylog, warnings).

Definition load_common_yaml (path : string) (config : CommonConfig) (warnings : list string)
    : io W (CommonConfig * list string) :=
  root ← load_yaml path; liftM (read_common path root config warnings).

Definition read_client (path : string) (root : ynode) (config : ClientConfig)
    (warnings : list string) : result (ClientConfig * list string) :=
  node ← section_or_root root "client";
  v_host ← assign_if_present as_string node "host" (host config);
  v_server_name ← assign_if_present as_string node "server_name" (server_name config);
  v_message ← assign_if_present as_string node "message" (message config);
  v_message_file ← assign_if_present as_string node "message_file" (message_file config);
  v_output ← assign_if_present as_string node "benchmark_output" (benchmark_output config);
  v_port ← parse_port node "port" (c_port config);
  v_connections ← assign_if_present as_uint32 node "connections" (connections config);
  v_concurrency ← assign_if_present as_uint32 node "concurrency" (concurrency config);
  v_warmup ← assign_if_present as_uint32 node "warmup_connections" (warmup_connections config);
  v_reuse ← assign_if_present as_bool node "reuse_session" (reuse_session config);
  v_messages ← assign_if_present as_uint32 node "messages_per_connection"
                 (messages_per_connection config);
  sub ← at_key root "client";
  warnings ← (if IsDefined sub
              then warn_unknown_keys sub client_keys ("the 'client' section of '" +:+ path +:+ "'") warnings
              else Ok warnings);
  Ok (mkClientConfig (c_common config) v_host v_port v_server_name v_message v_message_file
        v_connections v_concurrency v_warmup v_reuse v_messages v_output, warnings).

Definition with_c_common (config : ClientConfig) (c : CommonConfig) : ClientConfig :=
  mkClientConfig c (host config) (c_port config) (server_name config) (message config)
    (message_file config) (connections config) (concurrency config) (warmup_connections config)
    (reuse_session config) (messages_per_connection config) (benchmark_output config).

(** The file is read twice, as in the code. *)
Definition load_client_yaml (path : string) (config : ClientConfig) (warnings : list string)
    : io W (ClientConfig * list string) :=
  '(common, warnings) ← load_common_yaml path (c_common config) warnings;
  root ← load_yaml path;
  liftM (read_client path root (with_c_common config common) warnings).

Definition read_server (path : string) (root : ynode) (config : ServerConfig)
    (warnings : list string) : result (ServerConfig * list string) :=
  node ← section_or_root root "server";
  v_listen ← read_key as_string node "listen" (listen_address config);
  v_listen ← assign_if_present as_string node "listen_address" v_listen;
  v_port ← parse_port node "port" (s_port config);
  v_max ← assign_if_present as_uint32 node "max_connections" (max_connections config);
  v_backlog ← assign_if_present as_uint32 node "backlog" (backlog config);
  v_idle ← assign_if_present as_uint32 node "idle_timeout_ms" (idle_timeout_ms config);
  v_messages ← assign_if_present as_uint32 node "max_messages_per_connection"
                 (max_messages_per_connection config);
  v_mtls ← assign_if_present as_bool node "require_client_certificate"
             (s_require_client_certificate config);
  sub ← at_key root "server";
  warnings ← (if IsDefined sub
              then warn_unknown_keys sub server_keys ("the 'server' section of '" +:+ path +:+ "'") warnings
              else Ok warnings);
  Ok (mkServerConfig (s_common config) v_listen v_port v_max v_backlog v_idle v_messages v_mtls,
      warnings).

Definition with_s_common (config : ServerConfig) (c : CommonConfig) : ServerConfig :=
  mkServerConfig c (listen_address config) (s_port config) (max_connections config)
    (backlog config) (idle_timeout_ms config) (max_messages_per_connection config)
    (s_require_client_certificate config).

Definition load_server_yaml (path : string) (config : ServerConfig) (warnings : list string)
    : io W (ServerConfig * list string) :=
  '(common, warnings) ← load_common_yaml path (s_common config) warnings;
  root ← load_yaml path;
  liftM (read_server path root (with_s_common config common) warnings).

End config_yaml.

(** ** Validation *)

Class EnvApi (W : Type) := {
  getenv : string -> ext W (option string)
}.

Definition validate_common (config : CommonConfig) : result unit :=
  throw_if (str_empty (profile_id config)) (ConfigurationError "no security profile was selected") ;;
  throw_if ((max_frame_size config =? 0) || (max_frame_size config >? kAbsoluteMaxFrameSize))
    (ConfigurationError ("max_frame_size must be in [1, " +:+ std_to_string kAbsoluteMaxFrameSize +:+
       "], got " +:+ std_to_string (max_frame_size config))) ;;
  throw_if (handshake_timeout_ms config =? 0)
    (ConfigurationError ("handshake_timeout_ms must be greater than zero; a zero timeout would let a stalled " +:+
       "peer hold the connection open indefinitely")) ;;
  throw_if (io_timeout_ms config =? 0) (ConfigurationError "io_timeout_ms must be greater than zero") ;;
  throw_if (negb (str_empty (certificate_file config)) && str_empty (private_key_file config))
    (ConfigurationError "a certificate was given without a matching private key") ;;
  throw_if (str_empty (certificate_file config) && negb (str_empty (private_key_file config)))
    (ConfigurationError "a private key was given without a matching certificate").

Section validate.
Context {W : Type} {EA : EnvApi W}.

Definition production_environment : io W bool :=
  env ← call (getenv "PQTLS_ENV");
  mret (match env with Some v => String.eqb v "production" | None => false end).

Definition enforce_insecure_mode_policy (config : CommonConfig) : io W unit :=
  if negb (insecure_development_mode config) && str_empty (keylog_file config) then mret tt
  else
    production ← production_environment;
    if (production : bool) then
      throwM (ConfigurationError ("PQTLS_ENV=production forbids development-only options. " +:+
        "--insecure-development-mode disables peer authentication and --keylog-file writes " +:+
        "session secrets in the clear; neither is permitted in a production environment."))
    else mret tt.

(** The checks of [validate(const ClientConfig&)] that read only the
    configuration. *)
Definition validate_client_fields (config : ClientConfig) : result unit :=
  validate_common (c_common config) ;;
  throw_if (str_empty (host config)) (ConfigurationError "no host was given") ;;
  throw_if (c_port config =? 0) (ConfigurationError "port 0 is not a valid destination for a client") ;;
  throw_if (connections config =? 0) (ConfigurationError "connections must be at least 1") ;;
  throw_if (concurrency config =? 0) (ConfigurationError "concurrency must be at least 1") ;;
  throw_if (concurrency config >? connections config)
    (ConfigurationError ("concurrency (" +:+ std_to_string (concurrency config) +:+
       ") cannot exceed the number of connections (" +:+ std_to_string (connections config) +:+ ")")) ;;
  throw_if (messages_per_connection config =? 0)
    (ConfigurationError "messages_per_connection must be at least 1") ;;
  throw_if (negb (str_empty (message config)) && negb (str_empty (message_file config)))
    (ConfigurationError "--message and --message-file are mutually exclusive; give exactly one") ;;
  throw_if (negb (insecure_development_mode (c_common config)) &&
            str_empty (effective_server_name config))
    (ConfigurationError
       "hostname verification is enabled but no server name is available; pass --server-name").

Definition validate_client (config : ClientConfig) : io W unit :=
  liftM (validate_client_fields config) ;; enforce_insecure_mode_policy (c_common config).

Definition validate_server_fields (config : ServerConfig) : result unit :=
  validate_common (s_common config) ;;
  throw_if (str_empty (certificate_file (s_common config)) ||
            str_empty (private_key_file (s_common config)))
    (ConfigurationError ("a server requires --certificate and --private-key. Generate a development pair with " +:+
       "scripts/generate-classical-certs.sh.")) ;;
  throw_if (str_empty (listen_address config)) (ConfigurationError "no listen address was given") ;;
  throw_if (max_connections config =? 0)
    (ConfigurationError "max_connections must be at least 1; it bounds the worker pool and the accept queue") ;;
  throw_if (max_messages_per_connection config =? 0)
    (ConfigurationError "max_messages_per_connection must be at least 1") ;;
  throw_if (s_require_client_certificate config && str_empty (ca_certificate_file (s_common config)))
    (ConfigurationError "mutual TLS requires --ca-certificate so that client certificates can be verified").

Definition validate_server (config : ServerConfig) : io W unit :=
  liftM (validate_server_fields config) ;; enforce_insecure_mode_policy (s_common config).

(** ** What the checks mean *)

(** The widths of the fields. *)
Record common_typed (c : CommonConfig) : Prop := {
  ct_frame : is_u32 (max_frame_size c);
  ct_handshake : is_u32 (handshake_timeout_ms c);
  ct_io : is_u32 (io_timeout_ms c)
}.

Record client_typed (c : ClientConfig) : Prop := {
  clt_common : common_typed (c_common c);
  clt_port : is_u16 (c_port c);
  clt_connections : is_u32 (connections c);
  clt_concurrency : is_u32 (concurrency c);
  clt_warmup : is_u32 (warmup_connections c);
  clt_messages : is_u32 (messages_per_connection c)
}.

Record server_typed (c : ServerConfig) : Prop := {
  srt_common : common_typed (s_common c);
  srt_port : is_u16 (s_port c);
  srt_max : is_u32 (max_connections c);
  srt_backlog : is_u32 (backlog c);
  srt_idle : is_u32 (idle_timeout_ms c);
  srt_messages : is_u32 (max_messages_per_connection c)
}.

(** The cross-field rules. *)
Definition common_ok (c : CommonConfig) : Prop :=
  profile_id c <> "" /\
  1 <= max_frame_size c <= kAbsoluteMaxFrameSize /\
  1 <= handshake_timeout_ms c /\ 1 <= io_timeout_ms c /\
  (certificate_file c = "" <-> private_key_file c = "").

Definition client_ok (c : ClientConfig) : Prop :=
  common_ok (c_common c) /\ host c <> "" /\ 1 <= c_port c /\
  1 <= concurrency c <= connections c /\ 1 <= messages_per_connection c /\
  (message c = "" \/ message_file c = "").

Definition server_ok (c : ServerConfig) : Prop :=
  common_ok (s_common c) /\ certificate_file (s_common c) <> "" /\
  private_key_file (s_common c) <> "" /\ listen_address c <> "" /\
  1 <= max_connections c /\ 1 <= max_messages_per_connection c /\
  (s_require_client_certificate c = true -> ca_certificate_file (s_common c) <> "").

(** [PQTLS_ENV=production], as the process would see it in [s]. *)
Definition in_production (s : St W) : bool :=
  match (getenv "PQTLS_ENV" (st_world s) (st_errq s)).1 with
  | Some v => String.eqb v "production"
  | None => false
  end.

Definition development_options (c : CommonConfig) : bool :=
  insecure_development_mode c || negb (str_empty (keylog_file c)).

(** A check returns exactly on the inputs that satisfy its meaning, and
    otherwise throws a configuration error. *)
Definition checks (r : result unit) (P : Prop) : Prop :=
  match r with
  | Ok _ => P
  | Throw x => ~ P /\ exn_category x = CatConfiguration
  end.

Lemma checks_throw_if b x P :
  exn_category x = CatConfiguration -> (b = false <-> P) -> checks (throw_if b x) P.
Proof.
  intros Hx HP. destruct b; simpl; [|by apply HP].
  split; [|done]. intros H%HP. done.
Qed.

Lemma checks_seq r1 r2 P1 P2 :
  checks r1 P1 -> (P1 -> checks r2 P2) -> checks (r1 ;; r2) (P1 /\ P2).
Proof.
  unfold checks. destruct r1; simpl; [|naive_solver]. intros HP H2. specialize (H2 HP).
  destruct r2; naive_solver.
Qed.

Lemma checks_iff r P Q : (P <-> Q) -> checks r P -> checks r Q.
Proof. unfold checks. destruct r; naive_solver. Qed.

End validate.

Ltac check_step :=
  first [apply checks_seq; [apply checks_throw_if; [done|reflexivity]|intros ?]
        |apply checks_throw_if; [done|reflexivity]].

Section validate_lemmas.
Context {W : Type} {EA : EnvApi W}.

Lemma validate_common_checks c : common_typed c -> checks (validate_common c) (common_ok c).
Proof.
  intros [Hf Hh Hi]. unfold is_u32 in *. eapply checks_iff; [|unfold validate_common; repeat check_step].
  rewrite str_empty_false, orb_false_iff, !andb_false_iff, !negb_false_iff, !Z.eqb_neq, !str_empty_true,
    !str_empty_false, Z.gtb_ltb, Z.ltb_ge. unfold common_ok.
  destruct (decide (certificate_file c = "")), (decide (private_key_file c = ""));
    intuition (try lia; try congruence).
Qed.

Lemma validate_client_checks c :
  client_typed c -> checks (validate_client_fields c) (client_ok c).
Proof.
  intros [Hc Hp Hcn Hcc _ Hm]. unfold is_u32, is_u16 in *.
  eapply checks_iff; [|unfold validate_client_fields; apply checks_seq;
    [by apply validate_common_checks|intros _]; repeat check_step].
  rewrite !andb_false_iff, !negb_false_iff, !Z.eqb_neq, !str_empty_true, !str_empty_false,
    Z.gtb_ltb, Z.ltb_ge. unfold client_ok, effective_server_name.
  destruct (str_empty (server_name c)) eqn:E; bool_props;
    destruct (insecure_development_mode (c_common c)); intuition (try lia; try congruence).
Qed.

Lemma validate_server_checks c :
  server_typed c -> checks (validate_server_fields c) (server_ok c).
Proof.
  intros [Hc Hp Hx Hb _ Hm]. unfold is_u32, is_u16 in *.
  eapply checks_iff; [|unfold validate_server_fields; apply checks_seq;
    [by apply validate_common_checks|intros _]; repeat check_step].
  rewrite !andb_false_iff, !orb_false_iff, !Z.eqb_neq, !str_empty_false. unfold server_ok.
  destruct (s_require_client_certificate c); intuition (try lia; try congruence).
Qed.

(** The policy on development options: the exact outcome. *)
Lemma enforce_policy_outcome c s :
  match enforce_insecure_mode_policy c s with
  | (Ok _, s') => development_options c && in_production s = false /\ st_log s' = st_log s
  | (Throw x, s') => development_options c && in_production s = true /\
                     exn_category x = CatConfiguration /\ st_log s' = st_log s
  end.
Proof.
  unfold enforce_insecure_mode_policy, development_options, in_production, production_environment.
  destruct (insecure_development_mode c), (str_empty (keylog_file c)); simpl; try done.
  all: unfold mbind, M_bind, call; destruct (getenv _ _ _) as [[v|] [w q]]; simpl; try done.
  all: by destruct (String.eqb v "production").
Qed.

(** Fields first, then the policy. *)
Lemma validate_seq_outcome r c (P : Prop) s :
  checks r P ->
  match (liftM r ;; enforce_insecure_mode_policy c) s with
  | (Ok _, _) => P /\ development_options c && in_production s = false
  | (Throw x, _) => exn_category x = CatConfiguration /\
                    ~ (P /\ development_options c && in_production s = false)
  end.
Proof.
  intros Hr. unfold liftM, mbind, M_bind. destruct r; simpl in *; [|naive_solver].
  pose proof (enforce_policy_outcome c s). destruct (enforce_insecure_mode_policy c s) as [[]];
    naive_solver congruence.
Qed.

(** ** Claims *)

(** C32: [ConfigLoader::validate] returns exactly when every rule on the
    fields and their combinations holds (a server must also name a certificate
    and a key, and a trust store when it asks for client certificates) and no
    development-only option (insecure mode, key logging) meets
    [PQTLS_ENV=production]; otherwise it throws a configuration error. *)
Theorem validate_exact s :
  (forall c, client_typed c ->
     match validate_client c s with
     | (Ok _, _) => client_ok c /\ development_options (c_common c) && in_production s = false
     | (Throw x, _) => exn_category x = CatConfiguration /\
         ~ (client_ok c /\ development_options (c_common c) && in_production s = false)
     end) /\
  (forall c, server_typed c ->
     match validate_server c s with
     | (Ok _, _) => server_ok c /\ development_options (s_common c) && in_production s = false
     | (Throw x, _) => exn_category x = CatConfiguration /\
         ~ (server_ok c /\ development_options (s_common c) && in_production s = false)
     end).
Proof.
  split; intros c Hc; [by apply validate_seq_outcome, validate_client_checks
                      |by apply validate_seq_outcome, validate_server_checks].
Qed.

End validate_lemmas.

Definition toy_env {W : Type} (v : option string) : EnvApi W := {| getenv := fun _ w q => (v, (w, q)) |}.

Lemma default_client_typed : client_typed ClientConfig_default.
Proof. constructor; [constructor|..]; vm_compute; split; discriminate. Qed.

Definition lab_server : ServerConfig :=
  with_s_common ServerConfig_default
    (mkCommonConfig "hybrid-x25519-mlkem768" "" "server.pem" "server.key" "" "" ""
       kDefaultMaxFrameSize 10000 30000 Human "info" false "keys.log").

Lemma lab_server_typed : server_typed lab_server.
Proof. constructor; [constructor|..]; vm_compute; split; discriminate. Qed.

(** In production the default client passes and the server with a key log
    does not. *)
Lemma validate_exact_witness :
  client_ok ClientConfig_default /\
  ~ (server_ok lab_server /\
     development_options (s_common lab_server) &&
       in_production (EA := toy_env (Some "production")) (mkSt tt [] []) = false).
Proof.
  destruct (validate_exact (EA := toy_env (Some "production")) (mkSt tt [] [])) as [Hc Hs]. split.
  - exact (proj1 (Hc ClientConfig_default default_client_typed)).
  - exact (proj2 (Hs lab_server lab_server_typed)).
Defined.

(** ** What the loaders read *)

Section load_lemmas.
Context {W : Type} {Y : YamlLib W}.

(** [new] is the file's value for [key] when the file has one, and the
    previous value otherwise. *)
Definition from_file {A} (conv : ynode -> string + A) (node : ynode) (key : string) (old new : A)
    : Prop :=
  (exists n, subscript node key = inr n /\ IsDefined n = true /\ conv n = inr new) \/
  (new = old /\ (IsDefined node = false \/ exists n, subscript node key = inr n /\ IsDefined n = false)).

Lemma read_key_from_file {A} (conv : ynode -> string + A) node key old new :
  read_key conv node key old = Ok new -> from_file conv node key old new.
Proof.
  unfold read_key. intros (n & Hn%yaml_get_ok & H)%result_bind_ok.
  destruct (IsDefined n) eqn:E; [apply yaml_get_ok in H|injection H as <-]; unfold from_file; eauto 10.
Qed.

Lemma assign_from_file {A} (conv : ynode -> string + A) node key old new :
  assign_if_present conv node key old = Ok new -> from_file conv node key old new.
Proof.
  unfold assign_if_present. destruct (IsDefined node) eqn:E; [apply read_key_from_file|].
  intros [= <-]. right. auto.
Qed.

Lemma parse_port_from_file node key old new :
  is_u16 old -> parse_port node key old = Ok new ->
  is_u16 new /\ from_file as_int node key old new.
Proof.
  unfold parse_port, is_u16, u16_max. intros Ho. destruct (IsDefined node) eqn:Ed; simpl.
  2: { intros [= <-]. split; [done|]. right. auto. }
  intros (n & Hn%yaml_get_ok & H)%result_bind_ok. destruct (IsDefined n) eqn:E; simpl in H.
  2: { injection H as <-. split; [done|]. right. eauto. }
  apply result_bind_ok in H as (v & Hv%yaml_get_ok & H).
  apply result_bind_ok in H as (u & Hr & [= <-]). destruct u. apply throw_if_ok in Hr. bool_props.
  unfold to_u16. rewrite Z.mod_small by lia. split; [lia|]. left. eauto.
Qed.

Definition as_output_format (n : ynode) : string + OutputFormat :=
  match as_string n with
  | inr raw => match output_format_from_string raw with Some f => inr f | None => inl "" end
  | inl e => inl e
  end.

Lemma read_output_format_from_file node old new :
  read_output_format node old = Ok new -> from_file as_output_format node "output_format" old new.
Proof.
  unfold read_output_format. intros (n & Hn%yaml_get_ok & H)%result_bind_ok.
  destruct (IsDefined n) eqn:E; simpl in H; [|injection H as <-; right; eauto].
  apply result_bind_ok in H as (raw & Hraw%yaml_get_ok & H).
  left. exists n. unfold as_output_format. rewrite Hraw. case_match; [by injection H as <-|discriminate H].
Qed.

(** The section a loader reads: the named one when present, else the root. *)
Definition effective_node (root : ynode) (section : string) (node : ynode) : Prop :=
  exists n, subscript root section = inr n /\ node = if IsDefined n then n else root.

Lemma section_or_root_ok root section node :
  section_or_root root section = Ok node -> effective_node root section node.
Proof. unfold section_or_root. intros (n & Hn%yaml_get_ok & [= <-])%result_bind_ok. by exists n. Qed.

(** The library returns what fits in an unsigned 32-bit integer. *)
Definition as_uint32_typed : Prop := forall n z, as_uint32 n = inr z -> is_u32 z.

Lemma from_file_u32 node key old new :
  as_uint32_typed -> is_u32 old -> from_file as_uint32 node key old new -> is_u32 new.
Proof. intros Ht Ho [(n & _ & _ & Hn)|[-> _]]; [by eapply Ht|done]. Qed.

Record common_from_file (node : ynode) (old new : CommonConfig) : Prop := {
  cff_profile : from_file as_string node "profile" (profile_id old) (profile_id new);
  cff_profiles_file : from_file as_string node "profiles_file" (profiles_file old) (profiles_file new);
  cff_certificate : from_file as_string node "certificate" (certificate_file old) (certificate_file new);
  cff_private_key : from_file as_string node "private_key" (private_key_file old) (private_key_file new);
  cff_ca : from_file as_string node "ca_certificate" (ca_certificate_file old) (ca_certificate_file new);
  cff_metrics : from_file as_string node "metrics" (metrics_file old) (metrics_file new);
  cff_experiment : from_file as_string node "experiment_id" (experiment_id old) (experiment_id new);
  cff_log : from_file as_string node "log_level" (log_level old) (log_level new);
  cff_keylog : from_file as_string node "keylog_file" (keylog_file old) (keylog_file new);
  cff_frame : from_file as_uint32 node "max_frame_size" (max_frame_size old) (max_frame_size new);
  cff_handshake : from_file as_uint32 node "handshake_timeout_ms"
    (handshake_timeout_ms old) (handshake_timeout_ms new);
  cff_io : from_file as_uint32 node "io_timeout_ms" (io_timeout_ms old) (io_timeout_ms new);
  cff_insecure : from_file as_bool node "insecure_development_mode"
    (insecure_development_mode old) (insecure_development_mode new);
  cff_format : from_file as_output_format node "output_format" (output_format old) (output_format new)
}.

Record client_from_file (node : ynode) (old new : ClientConfig) : Prop := {
  clf_host : from_file as_string node "host" (host old) (host new);
  clf_port : from_file as_int node "port" (c_port old) (c_port new);
  clf_server_name : from_file as_string node "server_name" (server_name old) (server_name new);
  clf_message : from_file as_string node "message" (message old) (message new);
  clf_message_file : from_file as_string node "message_file" (message_file old) (message_file new);
  clf_connections : from_file as_uint32 node "connections" (connections old) (connections new);
  clf_concurrency : from_file as_uint32 node "concurrency" (concurrency old) (concurrency new);
  clf_warmup : from_file as_uint32 node "warmup_connections"
    (warmup_connections old) (warmup_connections new);
  clf_reuse : from_file as_bool node "reuse_session" (reuse_session old) (reuse_session new);
  clf_messages : from_file as_uint32 node "messages_per_connection"
    (messages_per_connection old) (messages_per_connection new);
  clf_output : from_file as_string node "benchmark_output" (benchmark_output old) (benchmark_output new)
}.

(** [listen_address] wins over its short form [listen]. *)
Record server_from_file (node : ynode) (old new : ServerConfig) : Prop := {
  srf_listen : exists short, from_file as_string node "listen" (listen_address old) short /\
    from_file as_string node "listen_address" short (listen_address new);
  srf_port : from_file as_int node "port" (s_port old) (s_port new);
  srf_max : from_file as_uint32 node "max_connections" (max_connections old) (max_connections new);
  srf_backlog : from_file as_uint32 node "backlog" (backlog old) (backlog new);
  srf_idle : from_file as_uint32 node "idle_timeout_ms" (idle_timeout_ms old) (idle_timeout_ms new);
  srf_messages : from_file as_uint32 node "max_messages_per_connection"
    (max_messages_per_connection old) (max_messages_per_connection new);
  srf_mtls : from_file as_bool node "require_client_certificate"
    (s_require_client_certificate old) (s_require_client_certificate new)
}.

Lemma warn_prefix node known context w w' :
  warn_unknown_keys node known context w = Ok w' -> w `prefix_of` w'.
Proof. unfold warn_unknown_keys. intros Hw. ok_inv; subst; [done|]. by apply prefix_app_r. Qed.

Lemma read_common_from_file path root old w new w' :
  read_common path root old w = Ok (new, w') ->
  exists node, effective_node root "common" node /\ common_from_file node old new /\ w `prefix_of` w'.
Proof.
  unfold read_common. intros Hr.
  apply result_bind_ok in Hr as (node & Hn & Hr). exists node. split; [by apply section_or_root_ok|].
  apply result_bind_ok in Hr as (w1 & Hw & Hr).
  ok_inv. subst new w'.
  split; [constructor; simpl; first [by apply assign_from_file|by apply read_output_format_from_file]
         |by eapply warn_prefix].
Qed.

Lemma read_client_from_file path root old w new w' :
  is_u16 (c_port old) ->
  read_client path root old w = Ok (new, w') ->
  exists node, effective_node root "client" node /\ client_from_file node old new /\
    is_u16 (c_port new) /\ c_common new = c_common old /\ w `prefix_of` w'.
Proof.
  unfold read_client. intros Hp Hr.
  apply result_bind_ok in Hr as (node & Hn & Hr). exists node. split; [by apply section_or_root_ok|].
  repeat (apply result_bind_ok in Hr as (? & ? & Hr)).
  injection Hr as <- <-. simpl.
  match goal with Hq : parse_port _ _ _ = Ok _ |- _ =>
    destruct (parse_port_from_file _ _ _ _ Hp Hq) end.
  splits; [constructor; simpl; try (by apply assign_from_file); done|done|done|].
  match goal with Hq : (if IsDefined ?n then _ else _) = Ok _ |- _ => destruct (IsDefined n);
    [by eapply warn_prefix|by injection Hq as <-] end.
Qed.

Lemma read_server_from_file path root old w new w' :
  is_u16 (s_port old) ->
  read_server path root old w = Ok (new, w') ->
  exists node, effective_node root "server" node /\ server_from_file node old new /\
    is_u16 (s_port new) /\ s_common new = s_common old /\ w `prefix_of` w'.
Proof.
  unfold read_server. intros Hp Hr.
  apply result_bind_ok in Hr as (node & Hn & Hr). exists node. split; [by apply section_or_root_ok|].
  apply result_bind_ok in Hr as (short & Hshort & Hr).
  repeat (apply result_bind_ok in Hr as (? & ? & Hr)).
  injection Hr as <- <-. simpl.
  match goal with Hq : parse_port _ _ _ = Ok _ |- _ =>
    destruct (parse_port_from_file _ _ _ _ Hp Hq) end.
  splits; [constructor; simpl; try (by apply assign_from_file); try done|done|done|].
  - exists short. split; [by apply read_key_from_file|by apply assign_from_file].
  - match goal with Hq : (if IsDefined ?n then _ else _) = Ok _ |- _ => destruct (IsDefined n);
      [by eapply warn_prefix|by injection Hq as <-] end.
Qed.

Lemma common_from_file_typed node old new :
  as_uint32_typed -> common_typed old -> common_from_file node old new -> common_typed new.
Proof. intros Ht [] []. constructor; (eapply from_file_u32; [done| |eassumption]; done). Qed.

Lemma client_from_file_typed node old new :
  as_uint32_typed -> client_typed old -> client_from_file node old new ->
  common_typed (c_common new) -> is_u16 (c_port new) -> client_typed new.
Proof. intros Ht [] [] ? ?. constructor; try done; (eapply from_file_u32; [done| |eassumption]; done). Qed.

Lemma server_from_file_typed node old new :
  as_uint32_typed -> server_typed old -> server_from_file node old new ->
  common_typed (s_common new) -> is_u16 (s_port new) -> server_typed new.
Proof. intros Ht [] [] ? ?. constructor; try done; (eapply from_file_u32; [done| |eassumption]; done). Qed.

(** [root] is what the file at [path] held when it was opened in [s], which
    leads to [s']. *)
Definition loads (path : string) (s : St W) (root : ynode) (s' : St W) : Prop :=
  LoadFile path (st_world s) (st_errq s) = (Loaded root, (st_world s', st_errq s')).

Lemma load_yaml_ok path s root s' : load_yaml path s = (Ok root, s') -> loads path s root s'.
Proof.
  unfold loads, load_yaml, mbind, M_bind, call.
  destruct (LoadFile path _ _) as [[n| |] [w q]]; simpl; [|done..]. by intros [= -> <-].
Qed.

Lemma load_client_yaml_outcome path old w s new w' s' :
  as_uint32_typed -> client_typed old ->
  load_client_yaml path old w s = (Ok (new, w'), s') ->
  client_typed new /\
  (exists root node s1 root' node',
     loads path s root s1 /\ effective_node root "common" node /\ common_from_file node (c_common old) (c_common new) /\
     loads path s1 root' s' /\ effective_node root' "client" node' /\ client_from_file node' old new) /\
  w `prefix_of` w'.
Proof.
  intros Ht Hold Hl. unfold load_client_yaml in Hl.
  apply bind_inv in Hl as ([c w1] & s1 & Hc & Hl).
  apply bind_inv in Hc as (root & s2 & Hroot & Hc). injection Hc as Hc <-.
  apply bind_inv in Hl as (root2 & s3 & Hroot2 & Hl). injection Hl as Hl <-.
  destruct (read_common_from_file _ _ _ _ _ _ Hc) as (node & Hnode & Hff & Hw1).
  apply read_client_from_file in Hl
    as (node2 & Hnode2 & Hff2 & Hport & Hcommon & Hw2); [|apply Hold].
  assert (Hfc : client_from_file node2 old new) by (destruct Hff2; constructor; assumption).
  rewrite Hcommon. simpl. splits.
  - eapply client_from_file_typed; try done. rewrite Hcommon. simpl.
    eapply common_from_file_typed; [done| |done]. apply Hold.
  - exists root, node, s2, root2, node2. splits; eauto using load_yaml_ok.
  - by etrans.
Qed.

Lemma load_server_yaml_outcome path old w s new w' s' :
  as_uint32_typed -> server_typed old ->
  load_server_yaml path old w s = (Ok (new, w'), s') ->
  server_typed new /\
  (exists root node s1 root' node',
     loads path s root s1 /\ effective_node root "common" node /\ common_from_file node (s_common old) (s_common new) /\
     loads path s1 root' s' /\ effective_node root' "server" node' /\ server_from_file node' old new) /\
  w `prefix_of` w'.
Proof.
  intros Ht Hold Hl. unfold load_server_yaml in Hl.
  apply bind_inv in Hl as ([c w1] & s1 & Hc & Hl).
  apply bind_inv in Hc as (root & s2 & Hroot & Hc). injection Hc as Hc <-.
  apply bind_inv in Hl as (root2 & s3 & Hroot2 & Hl). injection Hl as Hl <-.
  destruct (read_common_from_file _ _ _ _ _ _ Hc) as (node & Hnode & Hff & Hw1).
  apply read_server_from_file in Hl
    as (node2 & Hnode2 & Hff2 & Hport & Hcommon & Hw2); [|apply Hold].
  assert (Hfc : server_from_file node2 old new) by (destruct Hff2; constructor; assumption).
  rewrite Hcommon. simpl. splits.
  - eapply server_from_file_typed; try done. rewrite Hcommon. simpl.
    eapply common_from_file_typed; [done| |done]. apply Hold.
  - exists root, node, s2, root2, node2. splits; eauto using load_yaml_ok.
  - by etrans.
Qed.

(** ** Claims *)

(** C33: Loading configuration files.  When [load_client_yaml] or
    [load_server_yaml] returns, it has opened the file at the given path twice,
    first for the common section, then for the client's or the server's; each
    field holds the value that document gives for its key, in the section the
    loader reads, or is unchanged when it has none ([listen_address] wins over [listen]); the port is a 16-bit
    value, all other integers stay within their width, and warnings are only
    appended. *)
Theorem load_yaml_spec path w s w' s' :
  as_uint32_typed ->
  (forall old new, client_typed old -> load_client_yaml path old w s = (Ok (new, w'), s') ->
     client_typed new /\
     (exists root node s1 root' node',
        loads path s root s1 /\ effective_node root "common" node /\ common_from_file node (c_common old) (c_common new) /\
        loads path s1 root' s' /\ effective_node root' "client" node' /\ client_from_file node' old new) /\
     w `prefix_of` w') /\
  (forall old new, server_typed old -> load_server_yaml path old w s = (Ok (new, w'), s') ->
     server_typed new /\
     (exists root node s1 root' node',
        loads path s root s1 /\ effective_node root "common" node /\ common_from_file node (s_common old) (s_common new) /\
        loads path s1 root' s' /\ effective_node root' "server" node' /\ server_from_file node' old new) /\
     w `prefix_of` w').
Proof.
  intros Ht. split; intros old new Ho Hl;
    [by apply (load_client_yaml_outcome path old w s new w' s')|by apply (load_server_yaml_outcome path old w s new w' s')].
Qed.

End load_lemmas.

Definition client_doc : yval :=
  YMap [(YScalar "profile", YScalar "pure-mlkem768");
        (YScalar "client", YMap [(YScalar "port", YNumber 9443)])].

Definition client_yaml {W : Type} : YamlLib W := toy_yaml (fun _ => Loaded client_doc).

Lemma load_yaml_spec_witness :
  exists new, client_typed new /\ c_port new = 9443 /\ profile_id (c_common new) = "pure-mlkem768".
Proof.
  eexists (mkClientConfig _ _ _ _ _ _ _ _ _ _ _ _).
  split; [|split].
  - refine (proj1 (proj1 (load_yaml_spec (Y := client_yaml) "c.yaml" [] (mkSt tt [] []) [] (mkSt tt [] []) _)
      ClientConfig_default _ default_client_typed _)).
    + intros n z. simpl. destruct n; try discriminate.
      destruct ((0 <=? z0) && (z0 <=? u32_max)) eqn:E; [|discriminate].
      intros [= <-]. bool_props. done.
    + reflexivity.
  - reflexivity.
  - reflexivity.
Defined.
