(* ===== verification/Transport.v ===== *)
(** Sockets and TLS record I/O: [include/pqtls/transport.hpp] and
    [src/common/transport.cpp] (the POSIX branches).

    The socket calls and libssl are parameters ([SocketApi], [SslApi]); what
    the code relies on of libssl is stated as [SslLaws].  A [Socket] object is
    its descriptor; ownership is explicit: a function that owns a socket runs
    its body under [with_socket], which is the destructor. *)

From S2P Require Import Prelude Errors Runtime.

(** ** The socket API *)

Inductive SockOpt := SO_REUSEADDR | TCP_NODELAY | IPV6_V6ONLY.

(** The address families the code distinguishes, with the presentation form
    [inet_ntop] gives. *)
Inductive PeerName :=
  | PeerV4 (text : string) (port : Z)
  | PeerV6 (text : string) (port : Z)
  | PeerOther.

Record addrinfo := mkAddrinfo {
  ai_family_inet6 : bool;
  ai_addr : string
}.

Class SocketApi (W : Type) := {
  getaddrinfo : string -> string -> bool -> ext W (Z * list addrinfo);
  gai_strerror : Z -> string;
  socket : addrinfo -> ext W Z;
  set_rcvtimeo : Z -> timeval -> ext W Z;
  set_sndtimeo : Z -> timeval -> ext W Z;
  setsockopt : Z -> SockOpt -> Z -> ext W Z;
  connect : Z -> addrinfo -> ext W Z;
  bind : Z -> addrinfo -> ext W Z;
  listen : Z -> Z -> ext W Z;
  getpeername : Z -> ext W (option PeerName);
  getsockname : Z -> ext W (option PeerName);
  close : Z -> ext W unit;
  errno : ext W Z;
  strerror : Z -> string
}.

(** ** libssl, as far as established connections need it *)

Definition SSL_ERROR_SSL : Z := 1.
Definition SSL_ERROR_WANT_READ : Z := 2.
Definition SSL_ERROR_WANT_WRITE : Z := 3.
Definition SSL_ERROR_SYSCALL : Z := 5.
Definition SSL_ERROR_ZERO_RETURN : Z := 6.
Definition EAGAIN : Z := 11.

(** An [SSL*] is a handle; 0 is the null pointer. *)
Class SslApi (W : Type) := {
  SSL_write : Z -> list byte -> ext W Z;
  SSL_read : Z -> Z -> ext W (Z * list byte);
  SSL_get_error : Z -> Z -> ext W Z;
  SSL_shutdown : Z -> ext W Z
}.

(** Documented behaviour: a positive return is the number of bytes
    transferred, at most the number asked for. *)
Class SslLaws (W : Type) `{SslApi W} := {
  SSL_write_bound : forall ssl data w q,
    (SSL_write ssl data w q).1 <= Z.of_nat (length data);
  SSL_read_bound : forall ssl n w q,
    let r := (SSL_read ssl n w q).1 in
    0 < r.1 -> Z.of_nat (length r.2) = r.1 /\ r.1 <= n
}.

Section transport.
Context {W : Type} {RA : RuntimeApi W} {SA : SocketApi W} {LA : SslApi W}.

(** ** [Socket] *)

Definition last_socket_error : io W string := e ← call errno; mret (strerror e).

(** [Socket::close], which is also the destructor. *)
Definition Socket_close (fd : Z) : io W unit :=
  if fd >=? 0 then call_ev (close fd) (fun _ => EvClose fd) else mret tt.

(** A scope that owns a socket. *)
Definition with_socket {A} (fd : Z) (body : io W A) : io W A := scoped (Socket_close fd) body.

(** [to_timeval], of an unsigned number of milliseconds. *)
Definition to_timeval (ms : Z) : timeval := (ms / 1000, ms mod 1000 * 1000).

Definition set_timeouts (fd recv_timeout_ms send_timeout_ms : Z) : io W unit :=
  if fd <? 0 then mret tt
  else
    let recv_tv := to_timeval recv_timeout_ms in
    let send_tv := to_timeval send_timeout_ms in
    r ← call (set_rcvtimeo fd recv_tv);
    (if negb (r =? 0) then
       text ← last_socket_error;
       throwM (NetworkError ("failed to set the receive timeout: " +:+ text) [])
     else mret tt) ;;
    r ← call (set_sndtimeo fd send_tv);
    (if negb (r =? 0) then
       text ← last_socket_error;
       throwM (NetworkError ("failed to set the send timeout: " +:+ text) [])
     else mret tt) ;;
    emit (EvTimeouts fd recv_tv send_tv).

Definition set_tcp_nodelay (fd : Z) (enable : bool) : io W unit :=
  if fd <? 0 then mret tt
  else call (setsockopt fd TCP_NODELAY (if enable then 1 else 0)) ;; mret tt.

Definition peer_address (fd : Z) : io W string :=
  if fd <? 0 then mret "unknown"
  else
    r ← call (getpeername fd);
    mret (match r with
          | Some (PeerV4 text port) => text +:+ ":" +:+ std_to_string port
          | Some (PeerV6 text port) => "[" +:+ text +:+ "]:" +:+ std_to_string port
          | Some PeerOther | None => "unknown"
          end).

(** A write to a socket that the peer has closed then fails instead of ending
    the process. *)
Definition ignore_sigpipe : io W unit := emit EvIgnoreSigpipe.

(** ** Connecting and listening *)

(** Create the descriptor for one address. *)
Definition open_socket (candidate : addrinfo) : io W Z :=
  fd ← call (socket candidate);
  (if fd >=? 0 then emit (EvOpen fd) else mret tt) ;; mret fd.

(** What one round of the loops ends with: a socket to return, or the text
    that replaces [last_error]. *)
Inductive attempt := Connected (fd : Z) | Failed (last_error : string).

(** A round owns its descriptor until it succeeds. *)
Definition owning (fd : Z) (body : io W attempt) : io W attempt := fun s =>
  match body s with
  | (Ok (Connected fd'), s') => (Ok (Connected fd'), s')
  | (r, s') => (r, (Socket_close fd s').2)
  end.

Definition connect_attempt (candidate : addrinfo) (timeout_ms : Z) : io W attempt :=
  fd ← open_socket candidate;
  if fd <? 0 then text ← last_socket_error; mret (Failed text)
  else owning fd (
    timeouts ← try_catch (set_timeouts fd timeout_ms timeout_ms ;; mret true) is_Error
                 (fun _ => mret false);
    if negb timeouts then mret (Failed "could not apply a connect timeout")
    else
      r ← call_ev (connect fd candidate) (EvConnect fd);
      if r =? 0 then set_tcp_nodelay fd true ;; mret (Connected fd)
      else text ← last_socket_error; mret (Failed text)).

Definition listen_attempt (candidate : addrinfo) (backlog : Z) : io W attempt :=
  fd ← open_socket candidate;
  if fd <? 0 then text ← last_socket_error; mret (Failed text)
  else owning fd (
    call (setsockopt fd SO_REUSEADDR 1) ;;
    (if ai_family_inet6 candidate then call (setsockopt fd IPV6_V6ONLY 1) ;; mret tt else mret tt) ;;
    r ← call (bind fd candidate);
    if negb (r =? 0) then text ← last_socket_error; mret (Failed text)
    else
      r ← call (listen fd (to_i32 backlog));
      if negb (r =? 0) then text ← last_socket_error; mret (Failed text)
      else mret (Connected fd)).

(** [for (candidate = results; candidate; candidate = candidate->ai_next)]. *)
Fixpoint try_candidates (body : addrinfo -> io W attempt) (candidates : list addrinfo)
    (last_error : string) : io W attempt :=
  match candidates with
  | [] => mret (Failed last_error)
  | candidate :: rest =>
      r ← body candidate;
      match r with
      | Connected fd => mret (Connected fd)
      | Failed text => try_candidates body rest text
      end
  end.

Definition tcp_connect (host : string) (port timeout_ms : Z) : io W Z :=
  let port_text := std_to_string port in
  '(rc, results) ← call (getaddrinfo host port_text false);
  if negb (rc =? 0) || match results with [] => true | _ => false end then
    throwM (NetworkError ("cannot resolve '" +:+ host +:+ "': " +:+ gai_strerror rc) [])
  else
    r ← try_candidates (fun c => connect_attempt c timeout_ms) results "no addresses were returned";
    match r with
    | Connected fd => mret fd
    | Failed last_error =>
        throwM (NetworkError ("cannot connect to " +:+ host +:+ ":" +:+ port_text +:+ ": " +:+ last_error) [])
    end.

Definition tcp_listen (address : string) (port backlog : Z) : io W Z :=
  let port_text := std_to_string port in
  '(rc, results) ← call (getaddrinfo address port_text true);
  if negb (rc =? 0) || match results with [] => true | _ => false end then
    throwM (NetworkError ("cannot resolve the listen address '" +:+ address +:+ "': " +:+ gai_strerror rc) [])
  else
    r ← try_candidates (fun c => listen_attempt c backlog) results "no addresses were returned";
    match r with
    | Connected fd => mret fd
    | Failed last_error =>
        throwM (NetworkError ("cannot listen on " +:+ address +:+ ":" +:+ port_text +:+ ": " +:+ last_error) [])
    end.

(** ** TLS records *)

Record IoCounters := mkIoCounters {
  bytes_sent : Z;
  bytes_received : Z
}.

Definition throw_ssl_error {A} (ssl result : Z) (operation : string) : io W A :=
  error ← call (SSL_get_error ssl result);
  details ← drain_openssl_errors;
  if error =? SSL_ERROR_ZERO_RETURN then
    throwM (NetworkError (operation +:+ ": the peer closed the TLS connection") details)
  else if (error =? SSL_ERROR_WANT_READ) || (error =? SSL_ERROR_WANT_WRITE) then
    throwM (TimeoutError (operation +:+ ": timed out waiting for the peer") details)
  else if error =? SSL_ERROR_SYSCALL then
    e ← call errno;
    if e =? EAGAIN then throwM (TimeoutError (operation +:+ ": socket timeout elapsed") details)
    else throwM (NetworkError (operation +:+ ": the transport failed")
           (if negb (e =? 0) then details ++ ["errno: " +:+ strerror e] else details))
  else throwM (HandshakeError (operation +:+ ": TLS protocol failure") details).

(** [remaining > 0x7FFFFFFF ? 0x7FFFFFFF : remaining]. *)
Definition io_chunk (n : Z) : Z := if n >? int_max then int_max else n.

(** The loop of [ssl_write_all]: [rest] is what [cursor] and [remaining]
    denote. *)
Fixpoint write_loop (fuel : nat) (ssl : Z) (rest : list byte) (counters : IoCounters)
    : io W IoCounters :=
  match rest with
  | [] => mret counters
  | _ =>
      match fuel with
      | O => throwM OutOfFuel
      | S fuel' =>
          let chunk := take (Z.to_nat (io_chunk (Z.of_nat (length rest)))) rest in
          written ← call_ev (SSL_write ssl chunk) (fun rc => EvSslWrite chunk rc);
          if written <=? 0 then throw_ssl_error ssl written "SSL_write"
          else write_loop fuel' ssl (drop (Z.to_nat written) rest)
                 (mkIoCounters (to_u64 (bytes_sent counters + written)) (bytes_received counters))
      end
  end.

(** Every round writes at least one byte, so the length is enough fuel. *)
Definition ssl_write_all (ssl : Z) (data : list byte) (counters : IoCounters) : io W IoCounters :=
  write_loop (length data) ssl data counters.

(** The bytes read and the new counters; no bytes on a clean shutdown. *)
Definition ssl_read_some (ssl capacity : Z) (counters : IoCounters)
    : io W (list byte * IoCounters) :=
  if capacity =? 0 then mret ([], counters)
  else
    '(read, data) ← call_ev (SSL_read ssl (io_chunk capacity))
      (fun r => EvSslRead r.1 (take (Z.to_nat r.1) r.2));
    if read >? 0 then
      mret (take (Z.to_nat read) data,
            mkIoCounters (bytes_sent counters) (to_u64 (bytes_received counters + read)))
    else
      error ← call (SSL_get_error ssl read);
      if error =? SSL_ERROR_ZERO_RETURN then drain_openssl_errors ;; mret ([], counters)
      else throw_ssl_error ssl read "SSL_read".

Definition ssl_graceful_shutdown (ssl : Z) : io W unit :=
  if ssl =? 0 then mret tt
  else
    first ← call_ev (SSL_shutdown ssl) EvSslShutdown;
    (if first =? 0 then call_ev (SSL_shutdown ssl) EvSslShutdown ;; mret tt else mret tt) ;;
    drain_openssl_errors ;; mret tt.

End transport.

(** ** What the log says about descriptors and transmitted bytes *)

Fixpoint remove_first (fd : Z) (l : list Z) : list Z :=
  match l with
  | [] => []
  | x :: l' => if x =? fd then l' else x :: remove_first fd l'
  end.

(** Descriptors open after the events of a log (newest event first). *)
Fixpoint live (log : list Event) : list Z :=
  match log with
  | [] => []
  | EvOpen fd :: log' => fd :: live log'
  | EvClose fd :: log' => remove_first fd (live log')
  | _ :: log' => live log'
  end.

(** Bytes libssl accepted, oldest first. *)
Fixpoint sent (log : list Event) : list byte :=
  match log with
  | [] => []
  | EvSslWrite data rc :: log' => sent log' ++ take (Z.to_nat rc) data
  | _ :: log' => sent log'
  end.

(** Bytes libssl delivered, oldest first. *)
Fixpoint received (log : list Event) : list byte :=
  match log with
  | [] => []
  | EvSslRead _ data :: log' => received log' ++ data
  | _ :: log' => received log'
  end.

Section lemmas.
Context {W : Type} {RA : RuntimeApi W} {SA : SocketApi W} {LA : SslApi W}.

Lemma silent_last_error : silent last_socket_error.
Proof. unfold last_socket_error. auto with pqtls. Qed.

Lemma silent_nodelay fd b : silent (set_tcp_nodelay fd b).
Proof. unfold set_tcp_nodelay. case_match; auto with pqtls. Qed.

Lemma silent_peer_address fd : silent (peer_address fd).
Proof. unfold peer_address. case_match; auto with pqtls. Qed.

Lemma silent_throw_ssl_error {A} ssl rc op : silent (A := A) (throw_ssl_error ssl rc op).
Proof.
  unfold throw_ssl_error. repeat (apply silent_bind; [auto with pqtls|intros ?]).
  repeat case_match; eauto with pqtls. apply silent_bind; [auto with pqtls|intros].
  case_match; auto with pqtls.
Qed.

End lemmas.

#[export] Hint Resolve silent_last_error silent_nodelay silent_peer_address
  silent_throw_ssl_error : pqtls.

(** A computation that opens and closes no descriptor. *)
Definition fd_neutral {W A} (m : io W A) : Prop := forall s, live (st_log (m s).2) = live (st_log s).

Section fd_lemmas.
Context {W : Type} {RA : RuntimeApi W} {SA : SocketApi W} {LA : SslApi W}.

Lemma fd_neutral_silent {A} (m : io W A) : silent m -> fd_neutral m.
Proof. intros Hm s. by rewrite Hm. Qed.

Lemma fd_neutral_bind {A B} (m : io W A) (k : A -> io W B) :
  fd_neutral m -> (forall a, fd_neutral (k a)) -> fd_neutral (m ≫= k).
Proof.
  intros Hm Hk s. unfold mbind, M_bind. specialize (Hm s).
  destruct (m s) as [[a|x] s']; simpl in *; [|done]. by rewrite Hk.
Qed.

Lemma fd_neutral_emit e :
  match e with EvOpen _ | EvClose _ => False | _ => True end -> fd_neutral (W := W) (emit e).
Proof. intros He s. by destruct e. Qed.

Lemma fd_neutral_call_ev {R} (f : ext W R) ev :
  (forall r, match ev r with EvOpen _ | EvClose _ => False | _ => True end) -> fd_neutral (call_ev f ev).
Proof.
  intros He. apply fd_neutral_bind; [apply fd_neutral_silent, silent_call|intros r].
  apply fd_neutral_bind; [apply fd_neutral_emit, He|intros; apply fd_neutral_silent, silent_ret].
Qed.

Lemma fd_neutral_catch {A} (m : io W A) p h :
  fd_neutral m -> (forall x, fd_neutral (h x)) -> fd_neutral (try_catch m p h).
Proof.
  intros Hm Hh s. unfold try_catch. specialize (Hm s).
  destruct (m s) as [[a|x] s']; simpl in *; [done|]. destruct (p x); [|done]. by rewrite Hh.
Qed.

Lemma fd_neutral_timeouts fd r s : fd_neutral (set_timeouts fd r s).
Proof.
  unfold set_timeouts. case_match; [by apply fd_neutral_silent, silent_ret|].
  repeat (apply fd_neutral_bind; [|intros]); try (by apply fd_neutral_silent, silent_call);
    [..|by apply fd_neutral_emit].
  all: apply fd_neutral_silent; case_match; eauto with pqtls.
Qed.

(** One round leaves open exactly the socket it returns. *)
Definition attempt_fds (m : io W attempt) : Prop := forall s,
  match m s with
  | (Ok (Connected fd), s') => 0 <= fd /\ live (st_log s') = fd :: live (st_log s)
  | (_, s') => live (st_log s') = live (st_log s)
  end.

Lemma owning_fds fd (body : io W attempt) :
  0 <= fd -> fd_neutral body -> (forall s fd' s', body s = (Ok (Connected fd'), s') -> fd' = fd) ->
  forall s, live (st_log s) = fd :: live (tail (st_log s)) ->
  match owning fd body s with
  | (Ok (Connected fd'), s') => fd' = fd /\ live (st_log s') = live (st_log s)
  | (_, s') => live (st_log s') = live (tail (st_log s))
  end.
Proof.
  intros Hfd Hb Hret s Hs. unfold owning. specialize (Hb s). specialize (Hret s).
  assert (Hcl : forall s1, live (st_log s1) = live (st_log s) ->
    live (st_log (Socket_close fd s1).2) = live (tail (st_log s))).
  { intros s1 H1. unfold Socket_close. replace (fd >=? 0) with true by lia.
    unfold call_ev, emit, call, mbind, M_bind. destruct (close fd _ _) as [? [? ?]]. simpl.
    rewrite H1, Hs. simpl. by rewrite Z.eqb_refl. }
  destruct (body s) as [[[fd'|t]|x] s']; simpl in *; auto.
  split; [by eapply Hret|done].
Qed.

(** The body of a round returns the descriptor it was given, or none. *)
Definition returns_only (fd : Z) (m : io W attempt) : Prop :=
  forall s fd' s', m s = (Ok (Connected fd'), s') -> fd' = fd.

Lemma returns_only_bind {A} fd (m : io W A) (k : A -> io W attempt) :
  (forall a, returns_only fd (k a)) -> returns_only fd (m ≫= k).
Proof. intros Hk s fd' s' (a & s1 & _ & H)%bind_inv. by eapply Hk. Qed.

Lemma returns_only_fail fd t : returns_only fd (mret (Failed t)).
Proof. by intros s fd' s' [=]. Qed.

Lemma returns_only_ok fd : returns_only fd (mret (Connected fd)).
Proof. by intros s fd' s' [=]. Qed.

Lemma open_socket_outcome candidate s : exists fd w q,
  open_socket candidate s =
  (Ok fd, mkSt w q (if fd >=? 0 then EvOpen fd :: st_log s else st_log s)).
Proof.
  unfold open_socket, mbind, M_bind, call. destruct (socket candidate _ _) as [fd [w q]].
  exists fd, w, q. by destruct (fd >=? 0).
Qed.

Lemma open_owning_fds candidate (body : Z -> io W attempt) :
  (forall fd, 0 <= fd -> fd_neutral (body fd) /\ returns_only fd (body fd)) ->
  attempt_fds (fd ← open_socket candidate;
               if fd <? 0 then text ← last_socket_error; mret (Failed text)
               else owning fd (body fd)).
Proof.
  intros Hbody s. destruct (open_socket_outcome candidate s) as (fd & w & q & Ho).
  rewrite (bind_eq _ _ _ _ _ Ho). destruct (fd <? 0) eqn:Efd; bool_props.
  - replace (fd >=? 0) with false by lia.
    pose proof (silent_last_error (mkSt w q (st_log s))) as Hl.
    unfold mbind, M_bind. destruct (last_socket_error _) as [[t|x] s']; simpl in *; by rewrite Hl.
  - replace (fd >=? 0) with true by lia.
    destruct (Hbody fd) as [Hn Hr]; [done|].
    pose proof (owning_fds fd (body fd) Efd Hn Hr (mkSt w q (EvOpen fd :: st_log s)) eq_refl) as Hb.
    destruct (owning fd (body fd) _) as [[[fd'|t]|x] s']; simpl in Hb; [|done..].
    by destruct Hb as [-> ->].
Qed.

(** Descriptor-neutral bodies, by their shape. *)
Ltac neutral :=
  repeat first
    [ by apply fd_neutral_call_ev
    | apply fd_neutral_bind; [|intros ?]
    | apply fd_neutral_catch; [|intros ?]
    | apply fd_neutral_timeouts
    | apply fd_neutral_silent; by eauto with pqtls
    | case_match ].

Ltac returns :=
  repeat first
    [ apply returns_only_fail | apply returns_only_ok
    | apply returns_only_bind; intros ? | case_match ].

Lemma connect_attempt_fds candidate timeout_ms : attempt_fds (connect_attempt candidate timeout_ms).
Proof. apply open_owning_fds. intros fd Hfd. split; [neutral|returns]. Qed.

Lemma listen_attempt_fds candidate backlog : attempt_fds (listen_attempt candidate backlog).
Proof. apply open_owning_fds. intros fd Hfd. split; [neutral|returns]. Qed.

Lemma try_candidates_fds body cs err :
  (forall c, attempt_fds (body c)) -> attempt_fds (try_candidates body cs err).
Proof.
  intros Hb. revert err. induction cs as [|c cs IH]; intros err s; [done|].
  simpl. unfold mbind, M_bind. specialize (Hb c s).
  destruct (body c s) as [[[fd|t]|x] s1]; [done| |done].
  specialize (IH t s1). destruct (try_candidates body cs t s1) as [[[fd|t']|x] s2];
    [destruct IH as [? IH]; split; [done|]|..]; congruence.
Qed.

(** No round throws, so neither does the loop. *)
Abbreviation no_throw := (throws (fun _ : exn => False)).

Lemma last_error_throws P : throws P (last_socket_error (W := W)).
Proof. unfold last_socket_error. auto with pqtls. Qed.

Lemma set_timeouts_throws fd r s :
  throws (fun x => is_Error x = true /\ exn_category x = CatNetwork) (set_timeouts fd r s).
Proof.
  unfold set_timeouts. case_match; [apply throws_ret|].
  repeat (apply throws_bind; [first [apply throws_call|case_match; [|apply throws_ret]]|intros ?]);
    [..|apply throws_emit].
  all: apply throws_bind; [apply last_error_throws|intros]; by apply throws_throw.
Qed.

Lemma owning_throws P fd (body : io W attempt) : throws P body -> throws P (owning fd body).
Proof.
  intros Hb s x s'. unfold owning. specialize (Hb s). destruct (body s) as [[[fd'|t]|y] s1]; try done.
  intros [= <- _]. by eapply Hb.
Qed.

Lemma open_owning_throws P candidate (body : Z -> io W attempt) :
  (forall fd, throws P (body fd)) ->
  throws P (fd ← open_socket candidate;
            if fd <? 0 then text ← last_socket_error; mret (Failed text) else owning fd (body fd)).
Proof.
  intros Hb. apply throws_bind.
  - unfold open_socket. apply throws_bind; [apply throws_call|intros].
    case_match; auto with pqtls.
  - intros fd. case_match; [|by apply owning_throws].
    apply throws_bind; [apply last_error_throws|auto with pqtls].
Qed.

Ltac no_throws :=
  repeat first
    [ apply throws_call_ev | apply throws_bind; [|intros ?] | apply throws_call | apply throws_ret | apply last_error_throws
    | case_match ].

Lemma set_tcp_nodelay_throws P fd b : throws P (set_tcp_nodelay fd b).
Proof. unfold set_tcp_nodelay. no_throws. Qed.

Lemma connect_attempt_no_throw candidate timeout_ms : no_throw (connect_attempt candidate timeout_ms).
Proof.
  apply open_owning_throws. intros fd. apply throws_bind.
  - eapply throws_catch; [|..|intros; apply throws_ret].
    + apply throws_bind; [apply set_timeouts_throws|intros; apply throws_ret].
    + intros x [Hx _] Hf. congruence.
  - intros. case_match; [no_throws|]. no_throws. apply set_tcp_nodelay_throws.
Qed.

Lemma listen_attempt_no_throw candidate backlog : no_throw (listen_attempt candidate backlog).
Proof. apply open_owning_throws. intros fd. no_throws. Qed.

Lemma try_candidates_no_throw (body : addrinfo -> io W attempt) cs err :
  (forall c, no_throw (body c)) -> no_throw (try_candidates body cs err).
Proof.
  intros Hb. revert err. induction cs as [|c cs IH]; intros err; simpl; [apply throws_ret|].
  apply throws_bind; [apply Hb|intros [fd|t]; [apply throws_ret|apply IH]].
Qed.

(** The shape [tcp_connect] and [tcp_listen] share. *)
Lemma resolve_fds (body : addrinfo -> io W attempt) (f : ext W (Z * list addrinfo)) e1 e2 s :
  (forall c, attempt_fds (body c)) -> (forall c, no_throw (body c)) ->
  match ('(rc, results) ← call f;
         if negb (rc =? 0) || match results with [] => true | _ => false end
         then throwM (NetworkError (e1 rc) [])
         else r ← try_candidates body results "no addresses were returned";
              match r with
              | Connected fd => mret fd
              | Failed last_error => throwM (NetworkError (e2 last_error) [])
              end) s with
  | (Ok fd, s') => 0 <= fd /\ live (st_log s') = fd :: live (st_log s)
  | (Throw x, s') => live (st_log s') = live (st_log s) /\ exn_category x = CatNetwork
  end.
Proof.
  intros Hb Hn. unfold mbind at 1, M_bind at 1, call.
  destruct (f _ _) as [[rc results] [w q]].
  destruct (negb (rc =? 0) || match results with [] => true | _ => false end); [done|].
  pose proof (try_candidates_fds body results "no addresses were returned" Hb (mkSt w q (st_log s))) as Ht.
  pose proof (try_candidates_no_throw body results "no addresses were returned" Hn (mkSt w q (st_log s))) as Hx.
  unfold mbind, M_bind. destruct (try_candidates _ _ _ _) as [[[fd|t]|x] s']; simpl in *; [done..|].
  by destruct (Hx x s' eq_refl).
Qed.

End fd_lemmas.

(** ** Transfers *)

(** What a failed TLS read or write raises: a network, timeout or handshake
    error. *)
Definition ssl_io_error (x : exn) : Prop :=
  exists e, x = Raise true e /\
    (err_category e = CatNetwork \/ err_category e = CatTimeout \/ err_category e = CatHandshake).

Section transfer.
Context {W : Type} {RA : RuntimeApi W} {SA : SocketApi W} {LA : SslApi W} {LL : SslLaws W}.

Lemma throw_ssl_error_throws {A} ssl rc op : throws (A := A) ssl_io_error (throw_ssl_error ssl rc op).
Proof.
  unfold throw_ssl_error. repeat (apply throws_bind; [auto with pqtls|intros ?]).
  repeat case_match; try (apply throws_throw; eexists; by eauto).
  apply throws_bind; [auto with pqtls|intros]. case_match; apply throws_throw; eexists; eauto.
Qed.

Lemma throw_ssl_error_outcome {A} ssl rc op s :
  exists x s', throw_ssl_error (A := A) ssl rc op s = (Throw x, s') /\ ssl_io_error x /\
    st_log s' = st_log s.
Proof.
  pose proof (throw_ssl_error_throws (A := A) ssl rc op s) as Ht.
  pose proof (silent_throw_ssl_error (A := A) ssl rc op s) as Hs.
  destruct (throw_ssl_error ssl rc op s) as [[a|x] s'] eqn:E; [|eauto 6].
  exfalso. revert E. unfold throw_ssl_error, throwM.
  repeat (intros (? & ? & _ & E)%bind_inv; revert E). repeat case_match; try done.
  intros (? & ? & _ & E)%bind_inv. by case_match.
Qed.

Lemma io_chunk_pos n : 0 < n -> 0 < io_chunk n <= n.
Proof. unfold io_chunk, int_max. intros. case_match; bool_props; lia. Qed.

Lemma write_loop_spec fuel ssl rest c s :
  (length rest <= fuel)%nat -> is_u64 (bytes_sent c) ->
  match write_loop fuel ssl rest c s with
  | (Ok c', s') =>
      sent (st_log s') = sent (st_log s) ++ rest /\
      bytes_sent c' = to_u64 (bytes_sent c + Z.of_nat (length rest)) /\
      bytes_received c' = bytes_received c
  | (Throw x, s') =>
      exists pre post, rest = pre ++ post /\ post <> [] /\
        sent (st_log s') = sent (st_log s) ++ pre /\ ssl_io_error x
  end.
Proof.
  revert rest c s. induction fuel as [|fuel IH]; intros [|b rest] c s Hf Hc; simpl in Hf; try lia.
  1-2: simpl; rewrite app_nil_r, Z.add_0_r, to_u64_small; done.
  cbn [write_loop]. set (all := b :: rest). set (chunk := take _ all).
  assert (Hlen : Z.of_nat (length chunk) = io_chunk (Z.of_nat (length all))).
  { unfold chunk. rewrite length_take. pose proof (io_chunk_pos (Z.of_nat (length all))). simpl in *. lia. }
  pose proof (SSL_write_bound ssl chunk (st_world s) (st_errq s)) as Hb.
  destruct (SSL_write ssl chunk (st_world s) (st_errq s)) as [n [w q]] eqn:Ew. simpl in Hb.
  rewrite (bind_eq _ _ _ _ _ (call_ev_eq _ _ _ _ _ _ Ew)).
  destruct (n <=? 0) eqn:En; bool_props.
  - destruct (throw_ssl_error_outcome (A := IoCounters) ssl n "SSL_write"
      (mkSt w q (EvSslWrite chunk n :: st_log s))) as (x & s' & -> & Hx & Hl).
    exists [], all. rewrite Hl. simpl. replace (Z.to_nat n) with 0%nat by lia. done.
  - assert (Htake : take (Z.to_nat n) chunk = take (Z.to_nat n) all).
    { unfold chunk. rewrite take_take. f_equal. lia. }
    set (s1 := mkSt w q (EvSslWrite chunk n :: st_log s)).
    set (c1 := mkIoCounters _ _).
    assert (Hc1 : is_u64 (bytes_sent c1)) by (unfold c1, is_u64, to_u64, u64_max; simpl; dlia).
    assert (Hle : n <= Z.of_nat (length all)).
    { pose proof (io_chunk_pos (Z.of_nat (length all))). simpl in *. lia. }
    specialize (IH (drop (Z.to_nat n) all) c1 s1).
    destruct (write_loop fuel ssl (drop (Z.to_nat n) all) c1 s1) as [[c'|x] s'];
      (destruct IH as (H1 & H2); [rewrite length_drop; unfold all in *; simpl in *; lia|done|]).
    + destruct H2 as [H2 H3]. rewrite H1, H2, H3. unfold c1, s1. simpl. rewrite <- app_assoc, Htake, take_drop.
      splits; [done| |done]. unfold to_u64. rewrite length_drop, Z.add_mod_idemp_l by lia.
      f_equal. unfold all in *. simpl in *. lia.
    + destruct H2 as (post & Hd & Hp & Hs & Hx). exists (take (Z.to_nat n) all ++ H1), post.
      splits; [by rewrite <- app_assoc, <- Hd, take_drop|done| |done].
      rewrite Hs. unfold s1. simpl. by rewrite Htake, app_assoc.
Qed.

(** One read: at most the capacity, some bytes exactly when libssl returned a
    positive count, and the counter follows. *)
Lemma ssl_read_some_spec ssl cap c s :
  0 < cap -> is_u64 (bytes_received c) ->
  match ssl_read_some ssl cap c s with
  | (Ok (data, c'), s') =>
      Z.of_nat (length data) <= cap /\
      bytes_received c' = to_u64 (bytes_received c + Z.of_nat (length data)) /\
      bytes_sent c' = bytes_sent c /\
      exists rc, st_log s' = EvSslRead rc data :: st_log s /\ (data = [] <-> rc <= 0)
  | (Throw x, s') => ssl_io_error x /\ exists rc, st_log s' = EvSslRead rc [] :: st_log s
  end.
Proof.
  intros Hcap Hc. unfold ssl_read_some. replace (cap =? 0) with false by lia.
  pose proof (SSL_read_bound ssl (io_chunk cap) (st_world s) (st_errq s)) as Hb.
  destruct (SSL_read ssl (io_chunk cap) (st_world s) (st_errq s)) as [[n data] [w q]] eqn:Er.
  rewrite (bind_eq _ _ _ _ _ (call_ev_eq _ _ _ _ _ _ Er)). simpl in Hb. simpl fst.
  pose proof (io_chunk_pos cap Hcap). destruct (n >? 0) eqn:En; bool_props.
  - destruct Hb as [Hl Hle]; [done|]. cbn. rewrite length_take, Nat.min_l by lia.
    splits; [lia|by rewrite Z2Nat.id by lia|done|]. exists n. split; [done|].
    split; [|lia]. intros Hnil. apply (f_equal length) in Hnil. rewrite length_take in Hnil. simpl in Hnil. lia.
  - replace (Z.to_nat n) with 0%nat by lia. rewrite take_0.
    destruct (SSL_get_error ssl n w q) as [e [w1 q1]] eqn:Ee.
    rewrite (bind_eq _ _ _ _ _ (call_eq _ (mkSt w q _) _ _ _ Ee)). simpl st_log.
    destruct (e =? SSL_ERROR_ZERO_RETURN).
    + unfold mbind, M_bind, drain_openssl_errors. simpl. destruct (drain_queue q1) as [msgs q2]. simpl.
      rewrite Z.add_0_r, to_u64_small by done. splits; [lia|done|done|]. exists n. split; [done|].
      split; [lia|done].
    + destruct (throw_ssl_error_outcome (A := list byte * IoCounters) ssl n "SSL_read"
        (mkSt w1 q1 (EvSslRead n [] :: st_log s))) as (x & s' & -> & Hx & Hlog). eauto.
Qed.

(** ** Claims *)

(** [tcp_connect] and [tcp_listen] leak no descriptor, over however many
    addresses they try.  When they return, the descriptor they return is the
    only one they left open; when they throw, they left none open, and the
    exception is a network error. *)
Theorem tcp_no_leak name port n s :
  match tcp_connect name port n s with
  | (Ok fd, s') => 0 <= fd /\ live (st_log s') = fd :: live (st_log s)
  | (Throw x, s') => live (st_log s') = live (st_log s) /\ exn_category x = CatNetwork
  end /\
  match tcp_listen name port n s with
  | (Ok fd, s') => 0 <= fd /\ live (st_log s') = fd :: live (st_log s)
  | (Throw x, s') => live (st_log s') = live (st_log s) /\ exn_category x = CatNetwork
  end.
Proof.
  split.
  - refine (resolve_fds (fun c => connect_attempt c n) _ (fun rc => _) (fun e => _) s _ _); intros c;
      [apply connect_attempt_fds|apply connect_attempt_no_throw].
  - refine (resolve_fds (fun c => listen_attempt c n) _ (fun rc => _) (fun e => _) s _ _); intros c;
      [apply listen_attempt_fds|apply listen_attempt_no_throw].
Qed.

(** [ssl_write_all] transmits the whole buffer, once and in order, or
    fails.  It always terminates; on a return libssl has accepted exactly the
    buffer's bytes, over however many partial writes, and the counter has
    grown by its length (modulo 2^64); on failure libssl has accepted a proper
    prefix and the error is a network, timeout or handshake error. *)
Theorem ssl_write_all_spec ssl data c s :
  is_u64 (bytes_sent c) ->
  match ssl_write_all ssl data c s with
  | (Ok c', s') =>
      sent (st_log s') = sent (st_log s) ++ data /\
      bytes_sent c' = to_u64 (bytes_sent c + Z.of_nat (length data)) /\
      bytes_received c' = bytes_received c
  | (Throw x, s') =>
      exists pre post, data = pre ++ post /\ post <> [] /\
        sent (st_log s') = sent (st_log s) ++ pre /\ ssl_io_error x
  end.
Proof. intros Hc. by apply write_loop_spec. Qed.

End transfer.

(** ** An instance, for examples

    The peer of the toy connection accepts at most two bytes per write and has
    the bytes of the world left to read. *)

Definition toy_sockets : SocketApi (list byte) := {|
  getaddrinfo := fun _ _ _ w q => ((0, [mkAddrinfo true "::1"; mkAddrinfo false "127.0.0.1"]), (w, q));
  gai_strerror := fun _ => "resolver error";
  socket := fun a w q => ((if ai_family_inet6 a then 3 else 4), (w, q));
  set_rcvtimeo := fun _ _ w q => (0, (w, q));
  set_sndtimeo := fun _ _ w q => (0, (w, q));
  setsockopt := fun _ _ _ w q => (0, (w, q));
  connect := fun fd _ w q => ((if fd =? 4 then 0 else -1), (w, q));
  bind := fun _ _ w q => (0, (w, q));
  listen := fun _ _ w q => (0, (w, q));
  getpeername := fun _ w q => (Some (PeerV4 "127.0.0.1" 8443), (w, q));
  getsockname := fun _ w q => (Some (PeerV4 "0.0.0.0" 8443), (w, q));
  close := fun _ w q => (tt, (w, q));
  errno := fun w q => (111, (w, q));
  strerror := fun _ => "connection refused"
|}.

Definition toy_ssl : SslApi (list byte) := {|
  SSL_write := fun _ data w q => (Z.min 2 (Z.of_nat (length data)), (w, q));
  SSL_read := fun _ n w q =>
    let data := take (Z.to_nat n) w in
    ((Z.of_nat (length data), data), (drop (Z.to_nat n) w, q));
  SSL_get_error := fun _ _ w q => (SSL_ERROR_ZERO_RETURN, (w, q));
  SSL_shutdown := fun _ w q => (1, (w, q))
|}.

#[export] Instance toy_ssl_laws : @SslLaws (list byte) toy_ssl.
Proof.
  split.
  - intros ssl data w q. simpl. lia.
  - intros ssl n w q. simpl. intros Hn. rewrite length_take in *. lia.
Qed.

Definition toy_clock {W : Type} : RuntimeApi W := {|
  RAND_bytes := fun n w q => ((1, repeat Byte.x00 (Z.to_nat n)), (w, q));
  ERR_error_string_n := fun _ => "error";
  system_clock_now := fun w q => (0, (w, q));
  steady_clock_now := fun w q => (0, (w, q))
|}.

Lemma ssl_write_all_spec_witness :
  sent (st_log (ssl_write_all (RA := toy_clock) (SA := toy_sockets) (LA := toy_ssl) 1
          (bytes_of_string "hello") (mkIoCounters 0 0) (mkSt [] [] [])).2) = bytes_of_string "hello".
Proof.
  pose proof (ssl_write_all_spec (RA := toy_clock) (SA := toy_sockets) (LA := toy_ssl) 1
    (bytes_of_string "hello") (mkIoCounters 0 0) (mkSt [] [] [])) as H.
  assert (H0 : is_u64 (bytes_sent (mkIoCounters 0 0))) by (unfold is_u64, u64_max; simpl; lia).
  specialize (H H0). exact (proj1 H).
Defined.
