(* ===== verification/Sockets.v ===== *)
(** The [Socket] class of [include/pqtls/transport.hpp] and
    [src/common/transport.cpp]: objects that own a descriptor, with moves,
    [release], [close] and the destructor.

    [Transport] models the functions that use sockets with their scopes
    written out; here it is the class itself, under any sequence of operations
    of any number of objects.  The objects are a finite map from their
    addresses to the member [fd_]; the kernel is the set of open descriptors.
    An operation on an address with no object, or a construction on one that
    has an object, is no program and has no result. *)

From stdpp Require Import gmap sets.
From S2P Require Import Prelude Errors.

(** ** State and operations *)

Record Sockets := mkSockets {
  sk_objects : gmap nat Z;
  sk_open : gset Z;
  sk_released : gset Z;     (* open descriptors given up with release() *)
  sk_stray : list Z         (* close() calls on descriptors that are not open *)
}.

Definition Sockets_new : Sockets := mkSockets ∅ ∅ ∅ [].

Inductive sop :=
  | Default (o : nat)                  (* Socket() *)
  | Adopt (o : nat) (fd : Z)           (* Socket(fd), on the result of socket() or accept() *)
  | MoveConstruct (o other : nat)      (* Socket(Socket&& other) *)
  | MoveAssign (o other : nat)         (* operator=(Socket&& other) *)
  | Release (o : nat)
  | Close (o : nat)
  | Destroy (o : nat)                  (* ~Socket() *)
  | CloseReleased (fd : Z).            (* whoever called release() closes it *)

Definition with_objects (s : Sockets) (m : gmap nat Z) : Sockets :=
  mkSockets m (sk_open s) (sk_released s) (sk_stray s).

(** [::close(fd)]. *)
Definition close_fd (fd : Z) (s : Sockets) : Sockets :=
  if bool_decide (fd ∈ sk_open s)
  then mkSockets (sk_objects s) (sk_open s ∖ {[fd]}) (sk_released s ∖ {[fd]}) (sk_stray s)
  else mkSockets (sk_objects s) (sk_open s) (sk_released s) (fd :: sk_stray s).

(** [Socket::close]. *)
Definition socket_close (o : nat) (fd : Z) (s : Sockets) : Sockets :=
  if fd >=? 0 then let s := close_fd fd s in with_objects s (<[o := -1]> (sk_objects s)) else s.

(** [Socket::release]. *)
Definition socket_release (o : nat) (fd : Z) (s : Sockets) : Sockets :=
  mkSockets (<[o := -1]> (sk_objects s)) (sk_open s)
    (if fd >=? 0 then sk_released s ∪ {[fd]} else sk_released s) (sk_stray s).

Definition run_op (op : sop) (s : Sockets) : option Sockets :=
  match op with
  | Default o =>
      guard (sk_objects s !! o = None);; Some (with_objects s (<[o := -1]> (sk_objects s)))
  | Adopt o fd =>
      guard (sk_objects s !! o = None);;
      if fd >=? 0 then
        guard (fd ∉ sk_open s);;
        Some (mkSockets (<[o := fd]> (sk_objects s)) (sk_open s ∪ {[fd]}) (sk_released s) (sk_stray s))
      else Some (with_objects s (<[o := fd]> (sk_objects s)))
  | MoveConstruct o other =>
      guard (sk_objects s !! o = None);;
      fd ← sk_objects s !! other;
      Some (with_objects s (<[other := -1]> (<[o := fd]> (sk_objects s))))
  | MoveAssign o other =>
      old ← sk_objects s !! o;
      fd ← sk_objects s !! other;
      if decide (o = other) then Some s
      else
        let s := socket_close o old s in
        Some (with_objects s (<[other := -1]> (<[o := fd]> (sk_objects s))))
  | Release o => fd ← sk_objects s !! o; Some (socket_release o fd s)
  | Close o => fd ← sk_objects s !! o; Some (socket_close o fd s)
  | Destroy o =>
      fd ← sk_objects s !! o;
      let s := socket_close o fd s in Some (with_objects s (delete o (sk_objects s)))
  | CloseReleased fd => guard (fd ∈ sk_released s);; Some (close_fd fd s)
  end.

Fixpoint run_ops (ops : list sop) (s : Sockets) : option Sockets :=
  match ops with
  | [] => Some s
  | op :: ops' => s' ← run_op op s; run_ops ops' s'
  end.

(** ** Ownership *)

Record owned (s : Sockets) : Prop := {
  ow_stray : sk_stray s = [];
  ow_unique : forall o o' fd, 0 <= fd -> sk_objects s !! o = Some fd -> sk_objects s !! o' = Some fd -> o = o';
  ow_open : forall o fd, 0 <= fd -> sk_objects s !! o = Some fd -> fd ∈ sk_open s /\ fd ∉ sk_released s;
  ow_owner : forall fd, fd ∈ sk_open s -> 0 <= fd /\ (fd ∈ sk_released s \/ exists o, sk_objects s !! o = Some fd);
  ow_released : sk_released s ⊆ sk_open s
}.

(** Changing an object that owns nothing into one that owns nothing. *)
Lemma owned_empty s o fd :
  fd < 0 -> (forall old, sk_objects s !! o = Some old -> old < 0) ->
  owned s -> owned (with_objects s (<[o := fd]> (sk_objects s))).
Proof.
  intros Hfd Hold [H1 H2 H3 H4 H5]. constructor; simpl; try done.
  - intros o1 o2 fd' Hp. rewrite !lookup_insert_Some. naive_solver lia.
  - intros o1 fd' Hp. rewrite lookup_insert_Some. naive_solver lia.
  - intros fd' Hin. destruct (H4 fd' Hin) as [Hp [Hr|[o' Ho']]]; [auto|]. split; [done|right]. exists o'.
    rewrite lookup_insert_ne; [done|]. intros ->. specialize (Hold _ Ho'). lia.
Qed.

Lemma owned_delete s o :
  (forall old, sk_objects s !! o = Some old -> old < 0) ->
  owned s -> owned (with_objects s (delete o (sk_objects s))).
Proof.
  intros Hold [H1 H2 H3 H4 H5]. constructor; simpl; try done.
  - intros o1 o2 fd' Hp. rewrite !lookup_delete_Some. naive_solver.
  - intros o1 fd' Hp. rewrite lookup_delete_Some. naive_solver.
  - intros fd' Hin. destruct (H4 fd' Hin) as [Hp [Hr|[o' Ho']]]; [auto|]. split; [done|right]. exists o'.
    rewrite lookup_delete_ne; [done|]. intros ->. specialize (Hold _ Ho'). lia.
Qed.

(** [close] closes what the object owns, once, and leaves it empty. *)
Lemma owned_close s o fd :
  sk_objects s !! o = Some fd -> owned s ->
  owned (socket_close o fd s) /\
  (forall old, sk_objects (socket_close o fd s) !! o = Some old -> old < 0) /\
  (forall o', o' <> o -> sk_objects (socket_close o fd s) !! o' = sk_objects s !! o').
Proof.
  intros Ho Hs. unfold socket_close. destruct (fd >=? 0) eqn:E.
  2: { splits; [done| |done]. intros old Hold. simplify_eq. lia. }
  assert (Hfd : 0 <= fd) by lia. destruct Hs as [H1 H2 H3 H4 H5].
  destruct (H3 o fd Hfd Ho) as [Hin Hnr]. unfold close_fd. rewrite bool_decide_eq_true_2 by done. simpl.
  splits.
  - constructor; simpl; [done|..].
    + intros o1 o2 fd' Hp. rewrite !lookup_insert_Some. naive_solver lia.
    + intros o1 fd' Hp. rewrite lookup_insert_Some. intros [[_ <-]|[Hne Ho1]]; [lia|].
      destruct (H3 o1 fd' Hp Ho1) as [Hi Hn]. assert (fd' <> fd) by (intros ->; by destruct (H2 o o1 fd)).
      set_solver.
    + intros fd' [Hin' Hne]%elem_of_difference. destruct (H4 fd' Hin') as [Hp [Hr|[o' Ho']]].
      * split; [done|left]. set_solver.
      * split; [done|right]. exists o'. rewrite lookup_insert_ne; [done|]. intros ->. set_solver.
    + set_solver.
  - intros old. rewrite lookup_insert_eq. intros [= <-]. lia.
  - intros o' Hne. by rewrite lookup_insert_ne.
Qed.

(** The descriptor changes hands: [o] owned nothing, [other] owns nothing
    afterwards. *)
Lemma owned_move s o other fd :
  o <> other -> sk_objects s !! other = Some fd -> (forall old, sk_objects s !! o = Some old -> old < 0) ->
  owned s -> owned (with_objects s (<[other := -1]> (<[o := fd]> (sk_objects s)))).
Proof.
  intros Hne Ho Hold [H1 H2 H3 H4 H5]. constructor; simpl; try done.
  - intros o1 o2 fd' Hp. rewrite !lookup_insert_Some. naive_solver lia.
  - intros o1 fd' Hp. rewrite !lookup_insert_Some. naive_solver lia.
  - intros fd' Hin. destruct (H4 fd' Hin) as [Hp [Hr|[o' Ho']]]; [auto|]. split; [done|right].
    destruct (decide (o' = other)) as [->|Hn]; [exists o|exists o'].
    + rewrite lookup_insert_ne, lookup_insert_eq by done. congruence.
    + rewrite !lookup_insert_ne; [done| |done]. intros ->. specialize (Hold _ Ho'). lia.
Qed.

Lemma owned_release s o fd : sk_objects s !! o = Some fd -> owned s -> owned (socket_release o fd s).
Proof.
  intros Ho Hs. pose proof Hs as [H1 H2 H3 H4 H5]. unfold socket_release. destruct (fd >=? 0) eqn:E.
  2: { change (owned (with_objects s (<[o := -1]> (sk_objects s)))). apply owned_empty; [lia| |done].
       intros old Hold. simplify_eq. lia. }
  assert (Hfd : 0 <= fd) by lia. destruct (H3 o fd Hfd Ho) as [Hin Hnr]. constructor; simpl; [done|..].
  - intros o1 o2 fd' Hp. rewrite !lookup_insert_Some. naive_solver lia.
  - intros o1 fd' Hp. rewrite lookup_insert_Some. intros [[_ <-]|[Hne Ho1]]; [lia|].
    destruct (H3 o1 fd' Hp Ho1) as [Hi Hn]. assert (fd' <> fd) by (intros ->; by destruct (H2 o o1 fd)).
    set_solver.
  - intros fd' Hin'. destruct (H4 fd' Hin') as [Hp [Hr|[o' Ho']]]; [split; [done|left]; set_solver|].
    split; [done|]. destruct (decide (o' = o)) as [->|Hn]; [left; simplify_eq; set_solver|right].
    exists o'. by rewrite lookup_insert_ne.
  - set_solver.
Qed.

Lemma owned_adopt s o fd :
  0 <= fd -> fd ∉ sk_open s -> sk_objects s !! o = None -> owned s ->
  owned (mkSockets (<[o := fd]> (sk_objects s)) (sk_open s ∪ {[fd]}) (sk_released s) (sk_stray s)).
Proof.
  intros Hfd Hn Ho [H1 H2 H3 H4 H5].
  assert (Hno : forall o', sk_objects s !! o' <> Some fd)
    by (intros o' Ho'; destruct (H3 o' fd Hfd Ho'); done).
  constructor; simpl; [done|..].
  - intros o1 o2 fd' Hp. rewrite !lookup_insert_Some. naive_solver.
  - intros o1 fd' Hp. rewrite lookup_insert_Some. intros [[<- <-]|[Hne Ho1]]; [set_solver|].
    destruct (H3 o1 fd' Hp Ho1). set_solver.
  - intros fd' [Hin| ->%elem_of_singleton]%elem_of_union.
    + destruct (H4 fd' Hin) as [Hp [Hr|[o' Ho']]]; [auto|]. split; [done|right]. exists o'.
      rewrite lookup_insert_ne; [done|congruence].
    + split; [done|right]. exists o. by rewrite lookup_insert_eq.
  - set_solver.
Qed.

Lemma owned_close_released s fd : fd ∈ sk_released s -> owned s -> owned (close_fd fd s).
Proof.
  intros Hr [H1 H2 H3 H4 H5]. unfold close_fd. rewrite bool_decide_eq_true_2 by set_solver.
  constructor; simpl; [done|done|..].
  - intros o1 fd' Hp Ho1. destruct (H3 o1 fd' Hp Ho1). set_solver.
  - intros fd' [Hin Hne]%elem_of_difference. destruct (H4 fd' Hin) as [Hp [Hr'|Ho]]; [|auto]. set_solver.
  - set_solver.
Qed.

Lemma owned_op op s s' : run_op op s = Some s' -> owned s -> owned s'.
Proof.
  intros Hop Hs. destruct op as [o|o fd|o other|o other|o|o|o|fd]; simpl in Hop;
    [|destruct (fd >=? 0) eqn:Efd|..]; simplify_option_eq.
  - apply owned_empty; [lia|congruence|done].
  - apply owned_adopt; [lia|done..].
  - apply owned_empty; [lia|congruence|done].
  - apply owned_move; [congruence|done|congruence|done].
  - done.
  - edestruct (owned_close s o) as (Hc1 & Hc2 & Hc3); [eassumption|done|].
    apply owned_move; [done|by rewrite Hc3 by done|done|done].
  - by apply owned_release.
  - by apply owned_close.
  - edestruct (owned_close s o) as (Hc1 & Hc2 & Hc3); [eassumption|done|].
    by apply owned_delete.
  - by apply owned_close_released.
Qed.

Lemma owned_ops ops s s' : run_ops ops s = Some s' -> owned s -> owned s'.
Proof.
  revert s. induction ops as [|op ops IH]; intros s; simpl; [by intros [= ->]|].
  intros (s1 & H1 & H2)%bind_Some Hs. by eapply IH, owned_op.
Qed.

(** C35: No code path can forget to close a descriptor, or close it twice.
    After any sequence of constructions, moves, releases, closes and
    destructions: [::close] was never called on a descriptor that is not open,
    no two objects own the same descriptor, and the open descriptors are
    exactly those owned by an object or given up with [release]; so when all
    objects are gone, only the released ones are open. *)
Theorem sockets_owned (ops : list sop) (s : Sockets) :
  run_ops ops Sockets_new = Some s ->
  sk_stray s = [] /\
  (forall o o' fd, 0 <= fd -> sk_objects s !! o = Some fd -> sk_objects s !! o' = Some fd -> o = o') /\
  (forall fd, fd ∈ sk_open s <-> fd ∈ sk_released s \/ exists o, 0 <= fd /\ sk_objects s !! o = Some fd) /\
  (sk_objects s = ∅ -> sk_open s = sk_released s).
Proof.
  intros Hr. apply owned_ops in Hr as [H1 H2 H3 H4 H5].
  2: { constructor; simpl; try done; set_solver. }
  assert (Hiff : forall fd, fd ∈ sk_open s <->
    fd ∈ sk_released s \/ exists o, 0 <= fd /\ sk_objects s !! o = Some fd).
  { intros fd. split; [intros Hin; destruct (H4 fd Hin) as [Hp [Hr|[o Ho]]]; eauto|].
    intros [Hr|(o & Hp & Ho)]; [set_solver|by apply (H3 o)]. }
  splits; [done|done|done|]. intros He. apply set_eq. intros fd. rewrite Hiff.
  split; [|auto]. intros [Hr|(o & _ & Ho)]; [done|]. by rewrite He, lookup_empty in Ho.
Qed.

(** Accepted, moved into the queue and on to a worker, and gone. *)
Lemma sockets_owned_witness :
  exists s, run_ops [Adopt 0 5; MoveConstruct 1 0; Destroy 0; Default 2; MoveAssign 2 1; Destroy 1;
                     Adopt 3 6; Release 3; Destroy 3; Destroy 2] Sockets_new = Some s /\
    sk_stray s = [] /\ sk_open s = {[6]}.
Proof.
  destruct (run_ops _ Sockets_new) as [s|] eqn:E; [|vm_compute in E; discriminate E].
  exists s. split; [reflexivity|]. destruct (sockets_owned _ s E) as (H1 & _ & _ & H4).
  split; [exact H1|]. rewrite H4; vm_compute in E; injection E as <-; reflexivity.
Defined.
