(* ===== verification/Metrics.v ===== *)
(** Connection records: [include/pqtls/metrics.hpp] and
    [src/common/metrics.cpp] (the Linux branches).  Times are IEEE doubles
    computed the way [std::chrono] and the code compute them; the file system
    and [getrusage] are parameters ([MetricsApi]).  What is given to
    the metrics stream is in the log as [EvMetrics] events, with the state of
    the stream after the flush; what reaches the file then is the subject of
    [LineWriter]. *)

From Stdlib Require Import Floats.SpecFloat.
From S2P Require Import Prelude Errors Runtime Json.

(** ** Doubles *)

Definition double_of_Z (z : Z) : double := binary_normalize 53 1024 z 0 false.
Definition double_add : double -> double -> double := SFadd 53 1024.
Definition double_mul : double -> double -> double := SFmul 53 1024.
Definition double_div : double -> double -> double := SFdiv 53 1024.

(** ** Records *)

Definition kMetricsSchemaVersion : Z := 1.

Inductive Role := RoleClient | RoleServer.

Definition Role_to_string (role : Role) : string :=
  match role with RoleClient => "client" | RoleServer => "server" end.

Record ConnectionMetrics := mkMetrics {
  m_schema_version : Z;
  m_experiment_id : string;
  m_connection_id : string;
  m_role : Role;
  m_requested_profile : string;
  m_negotiated_profile : string;
  m_tls_version : string;
  m_negotiated_group : string;
  m_cipher_suite : string;
  m_authentication : string;
  m_handshake_ms : double;
  m_connection_ms : double;
  m_application_bytes_sent : Z;
  m_application_bytes_received : Z;
  m_transport_bytes_sent : option Z;
  m_transport_bytes_received : option Z;
  m_session_reused : bool;
  m_success : bool;
  m_error_category : ErrorCategory;
  m_error_message : option string;
  m_peer_address : string;
  m_protocol_message_count : Z;
  m_process_cpu_user_ms : option double;
  m_process_cpu_system_ms : option double;
  m_peak_memory_kib : option Z;
  m_timestamp : string;
  m_pq_key_establishment : bool;
  m_hybrid_key_establishment : bool;
  m_pq_authentication : bool
}.

Definition ConnectionMetrics_default : ConnectionMetrics :=
  mkMetrics kMetricsSchemaVersion "" "" RoleClient "" "" "" "" "" "" (S754_zero false)
    (S754_zero false) 0 0 None None false false CatNone None "" 0 None None None "" false false false.

(** The assignments, in the order of the code. *)
Definition metrics_fields (m : ConnectionMetrics) : list (string * json) :=
  [("schema_version", JInt (m_schema_version m));
   ("experiment_id", JString (m_experiment_id m));
   ("connection_id", JString (m_connection_id m));
   ("role", JString (Role_to_string (m_role m)));
   ("requested_profile", JString (m_requested_profile m));
   ("negotiated_profile", JString (m_negotiated_profile m));
   ("tls_version", JString (m_tls_version m));
   ("negotiated_group", JString (m_negotiated_group m));
   ("cipher_suite", JString (m_cipher_suite m));
   ("authentication", JString (m_authentication m));
   ("handshake_ms", JFloat (m_handshake_ms m));
   ("connection_ms", JFloat (m_connection_ms m));
   ("application_bytes_sent", JUInt (m_application_bytes_sent m));
   ("application_bytes_received", JUInt (m_application_bytes_received m));
   ("transport_bytes_sent", json_of_option JUInt (m_transport_bytes_sent m));
   ("transport_bytes_received", json_of_option JUInt (m_transport_bytes_received m));
   ("session_reused", JBool (m_session_reused m));
   ("success", JBool (m_success m));
   ("error_category", if bool_decide (m_error_category m = CatNone) then JNull
                      else JString (ErrorCategory_to_string (m_error_category m)));
   ("error_message", json_of_option JString (m_error_message m));
   ("peer_address", JString (m_peer_address m));
   ("protocol_message_count", JUInt (m_protocol_message_count m));
   ("process_cpu_user_ms", json_of_option JFloat (m_process_cpu_user_ms m));
   ("process_cpu_system_ms", json_of_option JFloat (m_process_cpu_system_ms m));
   ("peak_memory_kib", json_of_option JUInt (m_peak_memory_kib m));
   ("timestamp", JString (m_timestamp m));
   ("pq_key_establishment", JBool (m_pq_key_establishment m));
   ("hybrid_key_establishment", JBool (m_hybrid_key_establishment m));
   ("pq_authentication", JBool (m_pq_authentication m))].

(** [doc[k] = v;] for each of them, on a fresh document. *)
Definition set_all (doc : json) (fields : list (string * json)) : json :=
  fold_left (fun doc kv => json_set doc kv.1 kv.2) fields doc.

Definition ConnectionMetrics_to_json (m : ConnectionMetrics) : json := set_all JNull (metrics_fields m).

Definition to_jsonl_line `{JsonLib} (m : ConnectionMetrics) : result string :=
  json_dump (ConnectionMetrics_to_json m).

(** ** Updates the connection handlers make *)

Definition with_handshake_ms (m : ConnectionMetrics) (t : double) : ConnectionMetrics :=
  let 'mkMetrics v e c r rp np tv ng cs au _ cm bs br ts tr sr su ec em pa pc cu cy pk tm pq hy pa' := m in
  mkMetrics v e c r rp np tv ng cs au t cm bs br ts tr sr su ec em pa pc cu cy pk tm pq hy pa'.

Definition with_connection_ms (m : ConnectionMetrics) (t : double) : ConnectionMetrics :=
  let 'mkMetrics v e c r rp np tv ng cs au hs _ bs br ts tr sr su ec em pa pc cu cy pk tm pq hy pa' := m in
  mkMetrics v e c r rp np tv ng cs au hs t bs br ts tr sr su ec em pa pc cu cy pk tm pq hy pa'.

(** Version, group, suite, resumption, authentication and the three
    post-quantum flags. *)
Definition with_negotiation (m : ConnectionMetrics) (tls group suite auth : string)
    (reused pq hybrid pqauth : bool) : ConnectionMetrics :=
  let 'mkMetrics v e c r rp np _ _ _ _ hs cm bs br ts tr _ su ec em pa pc cu cy pk tm _ _ _ := m in
  mkMetrics v e c r rp np tls group suite auth hs cm bs br ts tr reused su ec em pa pc cu cy pk tm
    pq hybrid pqauth.

Definition with_negotiated_profile (m : ConnectionMetrics) (p : string) : ConnectionMetrics :=
  let 'mkMetrics v e c r rp _ tv ng cs au hs cm bs br ts tr sr su ec em pa pc cu cy pk tm pq hy pa' := m in
  mkMetrics v e c r rp p tv ng cs au hs cm bs br ts tr sr su ec em pa pc cu cy pk tm pq hy pa'.

Definition with_peer_address (m : ConnectionMetrics) (p : string) : ConnectionMetrics :=
  let 'mkMetrics v e c r rp np tv ng cs au hs cm bs br ts tr sr su ec em _ pc cu cy pk tm pq hy pa' := m in
  mkMetrics v e c r rp np tv ng cs au hs cm bs br ts tr sr su ec em p pc cu cy pk tm pq hy pa'.

(** [protocol_message_count += 1], a 32-bit counter. *)
Definition count_message (m : ConnectionMetrics) : ConnectionMetrics :=
  let 'mkMetrics v e c r rp np tv ng cs au hs cm bs br ts tr sr su ec em pa pc cu cy pk tm pq hy pa' := m in
  mkMetrics v e c r rp np tv ng cs au hs cm bs br ts tr sr su ec em pa (to_u32 (pc + 1)) cu cy pk tm pq hy pa'.

Definition with_bytes (m : ConnectionMetrics) (bytes_out bytes_in : Z) : ConnectionMetrics :=
  let 'mkMetrics v e c r rp np tv ng cs au hs cm _ _ ts tr sr su ec em pa pc cu cy pk tm pq hy pa' := m in
  mkMetrics v e c r rp np tv ng cs au hs cm bytes_out bytes_in ts tr sr su ec em pa pc cu cy pk tm pq hy pa'.

Definition with_result (m : ConnectionMetrics) (ok : bool) (cat : ErrorCategory) (msg : option string)
    : ConnectionMetrics :=
  let 'mkMetrics v e c r rp np tv ng cs au hs cm bs br ts tr sr _ _ _ pa pc cu cy pk tm pq hy pa' := m in
  mkMetrics v e c r rp np tv ng cs au hs cm bs br ts tr sr ok cat msg pa pc cu cy pk tm pq hy pa'.

Record ResourceUsage := mkUsage {
  cpu_user_ms : option double;
  cpu_system_ms : option double;
  peak_memory_kib : option Z
}.

Definition with_usage (m : ConnectionMetrics) (u : ResourceUsage) : ConnectionMetrics :=
  let 'mkMetrics v e c r rp np tv ng cs au hs cm bs br ts tr sr su ec em pa pc _ _ _ tm pq hy pa' := m in
  mkMetrics v e c r rp np tv ng cs au hs cm bs br ts tr sr su ec em pa pc (cpu_user_ms u)
    (cpu_system_ms u) (peak_memory_kib u) tm pq hy pa'.

(** The identity of a record: who, when, in which role, for which profile and
    experiment. *)
Definition with_identity (m : ConnectionMetrics) (connection timestamp : string) (role : Role)
    (requested experiment : string) : ConnectionMetrics :=
  let 'mkMetrics v _ _ _ _ np tv ng cs au hs cm bs br ts tr sr su ec em pa pc cu cy pk _ pq hy pa' := m in
  mkMetrics v experiment connection role requested np tv ng cs au hs cm bs br ts tr sr su ec em pa pc
    cu cy pk timestamp pq hy pa'.

(** ** The writer, the stopwatch and the resource sample *)

Record rusage := mkRusage {
  utime_sec : Z; utime_usec : Z; stime_sec : Z; stime_usec : Z; maxrss : Z
}.

Class MetricsApi (W : Type) := {
  getrusage : ext W (Z * rusage);
  parent_path : string -> string;                        (* std::filesystem *)
  create_directories : string -> ext W (option string);  (* Some text on error *)
  open_append : string -> ext W bool;
  stream_write : string -> ext W unit;                   (* operator<<; a failure stays in the stream *)
  stream_flush : ext W bool                              (* flush(), and good() afterwards *)
}.

Section metrics_io.
Context {W : Type} {RA : RuntimeApi W} {MA : MetricsApi W} {J : JsonLib}.

(** A [MetricsWriter] is whether its stream is open. *)
Definition MetricsWriter : Type := bool.
Definition enabled (w : MetricsWriter) : bool := w.

Definition MetricsWriter_new (path : string) : io W MetricsWriter :=
  if str_empty path then mret false
  else
    (if negb (str_empty (parent_path path)) then
       ec ← call (create_directories (parent_path path));
       match ec with
       | Some text => throwM (ConfigurationError ("cannot create the directory for the metrics file '"
                        +:+ path +:+ "': " +:+ text))
       | None => mret tt
       end
     else mret tt) ;;
    opened ← call (open_append path);
    if negb opened then
      throwM (ConfigurationError ("cannot open the metrics file '" +:+ path +:+ "' for appending"))
    else mret true.

Definition MetricsWriter_write (w : MetricsWriter) (m : ConnectionMetrics) : io W unit :=
  if negb w then mret tt
  else
    line ← liftM (to_jsonl_line m);
    call (stream_write (line +:+ String "010" "")) ;;
    call_ev stream_flush (EvMetrics line) ;; mret tt.

Definition MetricsWriter_flush (w : MetricsWriter) : io W unit :=
  if negb w then mret tt else call stream_flush ;; mret tt.

(** [Stopwatch]: its start, and the milliseconds since. *)
Definition Stopwatch_start : io W Z := call steady_clock_now.

Definition elapsed_ms (start : Z) : io W double :=
  now ← call steady_clock_now;
  mret (double_div (double_of_Z (now - start)) (double_of_Z 1000000)).

Definition timeval_ms (sec usec : Z) : double :=
  double_add (double_mul (double_of_Z sec) (double_of_Z 1000))
             (double_div (double_of_Z usec) (double_of_Z 1000)).

Definition ResourceUsage_sample : io W ResourceUsage :=
  '(rc, ru) ← call getrusage;
  mret (if rc =? 0 then
          mkUsage (Some (timeval_ms (utime_sec ru) (utime_usec ru)))
                  (Some (timeval_ms (stime_sec ru) (stime_usec ru)))
                  (Some (to_u64 (maxrss ru)))
        else mkUsage None None None).

(** A record leaves one event, if it can be serialised. *)
Lemma emits_metrics (P : Event -> Prop) w m :
  (forall line good, P (EvMetrics line good)) -> emits P (MetricsWriter_write w m).
Proof.
  intros HP. unfold MetricsWriter_write. destruct w; simpl; [|auto with pqtls].
  apply emits_bind; [auto with pqtls|intros line]. apply emits_bind; [auto with pqtls|intros _].
  apply emits_bind; [by apply emits_call_ev|auto with pqtls].
Qed.

Lemma MetricsWriter_write_outcome m (s : St W) :
  match to_jsonl_line m with
  | Ok line => exists good s', MetricsWriter_write true m s = (Ok tt, s') /\ st_log s' = EvMetrics line good :: st_log s
  | Throw x => MetricsWriter_write true m s = (Throw x, s)
  end.
Proof.
  unfold MetricsWriter_write, mbind, M_bind, liftM, call_ev, call. simpl.
  destruct (to_jsonl_line m) as [line|x]; [|done].
  destruct (stream_write _ _ _) as [u [w q]]. unfold mbind, M_bind. cbn [st_world st_errq st_log].
  destruct (stream_flush w q) as [good [w2 q2]]. exists good. eexists. split; [reflexivity|done].
Qed.

End metrics_io.

(** ** Lemmas *)

Lemma json_at_set_all doc fields k :
  is_object doc = true ->
  json_at (set_all doc fields) k =
  match find_if (rev fields) (fun kv => String.eqb kv.1 k) with
  | Some kv => kv.2
  | None => json_at doc k
  end.
Proof.
  revert doc. unfold set_all. induction fields as [|[k' v] fields IH]; intros doc Hd; simpl; [done|].
  rewrite IH by apply json_set_object. rewrite find_if_app. simpl.
  destruct (find_if (rev fields) _); [done|]. rewrite json_at_set by done.
  by destruct (String.eqb k' k).
Qed.

Definition opt_of_json {A} (f : json -> option A) (j : json) : option (option A) :=
  match j with JNull => Some None | _ => Some <$> f j end.

Definition of_string (j : json) : option string := match j with JString s => Some s | _ => None end.
Definition of_uint (j : json) : option Z := match j with JUInt z => Some z | _ => None end.
Definition of_int (j : json) : option Z := match j with JInt z | JUInt z => Some z | _ => None end.
Definition of_float (j : json) : option double := match j with JFloat f => Some f | _ => None end.
Definition of_bool (j : json) : option bool := match j with JBool b => Some b | _ => None end.
Definition of_role (j : json) : option Role :=
  s ← of_string j;
  if String.eqb s "client" then Some RoleClient
  else if String.eqb s "server" then Some RoleServer else None.
Definition of_category (j : json) : option ErrorCategory :=
  match j with
  | JNull => Some CatNone
  | JString s => Some (error_category_from_string s)
  | _ => None
  end.

(** The reader an analysis would write: every field from its key. *)
Definition metrics_of_json (j : json) : option ConnectionMetrics :=
  v ← of_int (json_at j "schema_version");
  e ← of_string (json_at j "experiment_id");
  c ← of_string (json_at j "connection_id");
  r ← of_role (json_at j "role");
  rp ← of_string (json_at j "requested_profile");
  np ← of_string (json_at j "negotiated_profile");
  tv ← of_string (json_at j "tls_version");
  ng ← of_string (json_at j "negotiated_group");
  cs ← of_string (json_at j "cipher_suite");
  au ← of_string (json_at j "authentication");
  hs ← of_float (json_at j "handshake_ms");
  cm ← of_float (json_at j "connection_ms");
  bs ← of_uint (json_at j "application_bytes_sent");
  br ← of_uint (json_at j "application_bytes_received");
  ts ← opt_of_json of_uint (json_at j "transport_bytes_sent");
  tr ← opt_of_json of_uint (json_at j "transport_bytes_received");
  sr ← of_bool (json_at j "session_reused");
  su ← of_bool (json_at j "success");
  ec ← of_category (json_at j "error_category");
  em ← opt_of_json of_string (json_at j "error_message");
  pa ← of_string (json_at j "peer_address");
  pc ← of_uint (json_at j "protocol_message_count");
  cu ← opt_of_json of_float (json_at j "process_cpu_user_ms");
  cy ← opt_of_json of_float (json_at j "process_cpu_system_ms");
  pk ← opt_of_json of_uint (json_at j "peak_memory_kib");
  tm ← of_string (json_at j "timestamp");
  pq ← of_bool (json_at j "pq_key_establishment");
  hy ← of_bool (json_at j "hybrid_key_establishment");
  pa' ← of_bool (json_at j "pq_authentication");
  Some (mkMetrics v e c r rp np tv ng cs au hs cm bs br ts tr sr su ec em pa pc cu cy pk tm pq hy pa').

Lemma metrics_json_at m k kv :
  find_if (rev (metrics_fields m)) (fun kv => String.eqb kv.1 k) = Some kv ->
  json_at (ConnectionMetrics_to_json m) k = kv.2.
Proof.
  intros H. unfold ConnectionMetrics_to_json.
  change (set_all JNull (metrics_fields m)) with
    (set_all (JObject [("schema_version", JInt (m_schema_version m))]) (tail (metrics_fields m))).
  rewrite json_at_set_all by done.
  change (metrics_fields m) with
    ([("schema_version", JInt (m_schema_version m))] ++ tail (metrics_fields m)) in H.
  rewrite rev_app_distr, find_if_app in H.
  set (found := find_if (rev (tail (metrics_fields m))) (fun kv => String.eqb kv.1 k)) in *.
  destruct found as [kv'|]; [by injection H as ->|].
  unfold find_if in H. cbn [rev app List.find fst snd] in H. cbn [json_at obj_find].
  destruct (String.eqb "schema_version" k); [by injection H as <-|done].
Qed.

Lemma of_category_roundtrip c :
  of_category (if bool_decide (c = CatNone) then JNull else JString (ErrorCategory_to_string c)) = Some c.
Proof. by destruct c. Qed.

Lemma of_role_roundtrip r : of_role (JString (Role_to_string r)) = Some r.
Proof. by destruct r. Qed.

Lemma opt_roundtrip {A} (f : json -> option A) (g : A -> json) o :
  (forall a, f (g a) = Some a /\ is_null (g a) = false) ->
  opt_of_json f (json_of_option g o) = Some o.
Proof.
  intros Hfg. destruct o as [a|]; [|done]. destruct (Hfg a) as [H1 H2]. unfold opt_of_json. simpl.
  destruct (g a); simpl in *; by rewrite ?H1.
Qed.

(** Every field can be read back from the document, under its own key, the
    three post-quantum flags separately, an absent measurement as null and not
    as zero, and the error category as null exactly when there was none; also
    from the form the parser gives it. *)
Lemma metrics_roundtrip m : metrics_of_json (ConnectionMetrics_to_json m) = Some m.
Proof.
  unfold metrics_of_json.
  repeat (erewrite metrics_json_at; [|reflexivity]). cbn [snd].
  rewrite of_role_roundtrip, of_category_roundtrip, !opt_roundtrip by done.
  cbn. by destruct m.
Qed.

Lemma metrics_of_json_normalize m :
  metrics_of_json (json_normalize (ConnectionMetrics_to_json m)) = Some m.
Proof.
  unfold metrics_of_json. rewrite !json_at_normalize.
  repeat (erewrite metrics_json_at; [|reflexivity]). cbn [snd].
  destruct m as [v e c r rp np tv ng cs au hs cm bs br ts tr sr su ec em pa pc cu cy pk].
  cbn -[Z.ltb]. destruct (v <? 0), r, ec, em, ts, tr, cu, cy, pk; reflexivity.
Qed.
