(* ===== verification/TlsContext.v ===== *)
(** TLS contexts and the policy on completed handshakes:
    [include/pqtls/tls_context.hpp] and [src/common/tls_context.cpp] (the
    OpenSSL 3.2+ branches).

    libssl and libcrypto are parameters ([CtxApi]); every setting made on a
    context leaves an [EvCtx] event with the library's answer.  Contexts, [SSL]
    objects, certificates and printing buffers are owned through [adopt] and
    [dispose]; a function that returns one keeps it until then in a [guarded]
    scope.  The key-log callback is in [LineWriter].  The log messages have no
    counterpart; the [std::once_flag] around [OPENSSL_init_ssl] is not
    represented, since that function is idempotent. *)

From S2P Require Import Prelude Errors Runtime Transport Profile ProfileYaml Config.

(** ** Constants of the OpenSSL headers *)

Definition TLS1_3_VERSION : Z := 0x0304.
Definition SSL_OP_NO_SSLv3 : Z := 2 ^ 25.
Definition SSL_OP_NO_TLSv1 : Z := 2 ^ 26.
Definition SSL_OP_NO_TLSv1_1 : Z := 2 ^ 28.
Definition SSL_OP_NO_TLSv1_2 : Z := 2 ^ 27.
Definition SSL_OP_NO_COMPRESSION : Z := 2 ^ 17.
Definition SSL_OP_NO_RENEGOTIATION : Z := 2 ^ 30.
Definition SSL_OP_CIPHER_SERVER_PREFERENCE : Z := 2 ^ 22.
Definition SSL_MODE_ENABLE_PARTIAL_WRITE : Z := 1.
Definition SSL_MODE_AUTO_RETRY : Z := 4.
Definition SSL_VERIFY_NONE : Z := 0.
Definition SSL_VERIFY_PEER : Z := 1.
Definition SSL_VERIFY_FAIL_IF_NO_PEER_CERT : Z := 2.
Definition SSL_SESS_CACHE_SERVER : Z := 2.
Definition X509_V_OK : Z := 0.
Definition X509_V_ERR_CERT_NOT_YET_VALID : Z := 9.
Definition X509_V_ERR_CERT_HAS_EXPIRED : Z := 10.
Definition X509_V_ERR_DEPTH_ZERO_SELF_SIGNED_CERT : Z := 18.
Definition X509_V_ERR_SELF_SIGNED_CERT_IN_CHAIN : Z := 19.
Definition X509_V_ERR_UNABLE_TO_GET_ISSUER_CERT_LOCALLY : Z := 20.
Definition X509_V_ERR_HOSTNAME_MISMATCH : Z := 62.
Definition NID_undef : Z := 0.

(** The ALPN identifier on the wire: its length, then "pqtls1". *)
Definition kAlpnWire : list byte := Byte.x06 :: bytes_of_string "pqtls1".

(** ** The library *)

(** Handles ([SSL_CTX*], [SSL*], [X509*], [X509_NAME*]) are integers, 0 the
    null pointer. *)
Class CtxApi (W : Type) := {
  OPENSSL_init_ssl : ext W Z;
  SSL_CTX_new : bool -> ext W Z;
  SSL_CTX_set : Z -> CtxSetting -> ext W Z;
  keylog_open : string -> ext W bool;
  SSL_new : Z -> ext W Z;
  SSL_set_fd : Z -> Z -> ext W Z;
  SSL_get_version : Z -> ext W (option string);
  SSL_cipher_name : Z -> ext W (option string);
  SSL_get0_group_name : Z -> ext W (option string);
  SSL_get_peer_signature_nid : Z -> ext W (Z * Z);
  OBJ_nid2sn : Z -> option string;
  SSL_session_reused : Z -> ext W Z;
  SSL_get1_peer_certificate : Z -> ext W Z;
  X509_get_subject_name : Z -> ext W Z;
  X509_get_issuer_name : Z -> ext W Z;
  BIO_new : ext W Z;
  X509_NAME_print_ex : Z -> ext W (Z * string);
  SSL_get_verify_result : Z -> ext W Z;
  X509_verify_cert_error_string : Z -> option string
}.

Section tls_context.
Context {W : Type} {RA : RuntimeApi W} {EA : EnvApi W} {CA : CtxApi W}.

(** ** Building a context *)

Definition initialize_openssl : io W unit :=
  rc ← call OPENSSL_init_ssl;
  if negb (rc =? 1) then throw_openssl CatInternal "OpenSSL initialisation failed" else mret tt.

(** Apply one setting and record it. *)
Definition ctx_set (ctx : Z) (what : CtxSetting) : io W Z :=
  call_ev (SSL_CTX_set ctx what) (EvCtx ctx what).

(** [if (setter(...) != 1) throw openssl_error(...)]. *)
Definition ctx_require (ctx : Z) (what : CtxSetting) (category : ErrorCategory) (text : string)
    : io W unit :=
  rc ← ctx_set ctx what;
  if negb (rc =? 1) then throw_openssl category text else mret tt.

Definition common_options : Z :=
  Z.lor SSL_OP_NO_SSLv3 (Z.lor SSL_OP_NO_TLSv1 (Z.lor SSL_OP_NO_TLSv1_1 (Z.lor SSL_OP_NO_TLSv1_2
    (Z.lor SSL_OP_NO_COMPRESSION (Z.lor SSL_OP_NO_RENEGOTIATION SSL_OP_CIPHER_SERVER_PREFERENCE))))).

Definition legacy_cipher_list : string := "HIGH:!aNULL:!eNULL:!EXPORT:!DES:!RC4:!MD5:!PSK:!SRP".

Definition install_keylog_callback (ctx : Z) (config : CommonConfig) : io W unit :=
  if str_empty (keylog_file config) then mret tt
  else
    production ← production_environment;
    if (production : bool) then
      throwM (ConfigurationError ("TLS key logging was requested but PQTLS_ENV=production. Key logging writes session " +:+
        "secrets in the clear and is refused outside development."))
    else
      opened ← call (keylog_open (keylog_file config));
      if negb opened then
        throwM (ConfigurationError ("cannot open TLS key log file '" +:+ keylog_file config +:+
          "' for appending"))
      else
        log_at LevelWarn ("TLS KEY LOGGING IS ENABLED -> " +:+ keylog_file config +:+
          ". Session secrets are being written in the clear. " +:+
          "Use this only with locally generated test traffic and never commit the file.") ;;
        ctx_set ctx CtxKeylog ;; mret tt.

Definition apply_common_policy (ctx : Z) (profile : SecurityProfile) (config : CommonConfig)
    : io W unit :=
  ctx_require ctx (CtxMinVersion TLS1_3_VERSION) CatConfiguration
    "failed to set the minimum TLS version to 1.3" ;;
  ctx_require ctx (CtxMaxVersion TLS1_3_VERSION) CatConfiguration
    "failed to set the maximum TLS version to 1.3" ;;
  ctx_set ctx (CtxOptions common_options) ;;
  ctx_set ctx (CtxMode (Z.lor SSL_MODE_AUTO_RETRY SSL_MODE_ENABLE_PARTIAL_WRITE)) ;;
  let groups := openssl_groups_list profile in
  rc ← ctx_set ctx (CtxGroups groups);
  (if negb (rc =? 1) then
     details ← drain_openssl_errors;
     throwM (CapabilityError ("this OpenSSL build does not support the TLS group list required by profile '" +:+
         id profile +:+ "': " +:+ groups +:+
         ". Refusing to continue: substituting a different group would silently weaken the " +:+
         "requested profile.")
       (details ++ ["run 'pqtls-client capabilities' to list the groups this build offers"]))
   else mret tt) ;;
  let suites := openssl_ciphersuites_list profile in
  ctx_require ctx (CtxCiphersuites suites) CatConfiguration
    ("failed to apply the TLS 1.3 cipher suite allowlist for profile '" +:+ id profile +:+ "': " +:+ suites) ;;
  rc ← ctx_set ctx (CtxCipherList legacy_cipher_list);
  (if negb (rc =? 1) then drain_openssl_errors ;; mret tt else mret tt) ;;
  rc ← ctx_set ctx (CtxAlpn kAlpnWire);
  (if negb (rc =? 0) then throw_openssl CatConfiguration "failed to configure ALPN" else mret tt) ;;
  install_keylog_callback ctx config.

Definition load_certificate_material (ctx : Z) (config : CommonConfig) (require_certificate : bool)
    : io W unit :=
  if str_empty (certificate_file config) || str_empty (private_key_file config) then
    if require_certificate then
      throwM (ConfigurationError ("a server requires both --certificate and --private-key. Generate a development " +:+
        "pair with scripts/generate-classical-certs.sh."))
    else mret tt
  else
    ctx_require ctx (CtxCertificate (certificate_file config)) CatCertificate
      ("failed to load the certificate chain from '" +:+ certificate_file config +:+ "'") ;;
    ctx_require ctx (CtxPrivateKey (private_key_file config)) CatCertificate
      ("failed to load the private key from '" +:+ private_key_file config +:+ "'") ;;
    ctx_require ctx CtxCheckKey CatCertificate
      ("the private key in '" +:+ private_key_file config +:+
       "' does not match the certificate in '" +:+ certificate_file config +:+ "'").

Definition load_trust_store (ctx : Z) (config : CommonConfig) : io W unit :=
  if negb (str_empty (ca_certificate_file config)) then
    ctx_require ctx (CtxTrustFile (ca_certificate_file config)) CatCertificate
      ("failed to load the CA trust anchor from '" +:+ ca_certificate_file config +:+ "'")
  else if insecure_development_mode config then mret tt
  else
    ctx_require ctx CtxTrustDefault CatCertificate
      "no --ca-certificate was given and the system trust store could not be loaded" ;;
    log_at LevelDebug "no --ca-certificate given; using the system trust store".

(** A [TlsContext]: the handle and the profile it was built from. *)
Record TlsContext := mkTlsContext {
  ctx_handle : Z;
  ctx_profile : SecurityProfile
}.

(** What the log says when verification is disabled. *)
Definition insecure_mode_notice : string :=
"==================================================================
  INSECURE DEVELOPMENT MODE: certificate and hostname verification
  are DISABLED. This connection is not authenticated and provides
  no protection against an active man-in-the-middle.
==================================================================".

Definition create_client (profile : SecurityProfile) (config : CommonConfig) : io W TlsContext :=
  initialize_openssl ;;
  enforce_insecure_mode_policy config ;;
  ctx ← call (SSL_CTX_new false);
  adopt ObjCtx ctx ;;
  guarded (dispose ObjCtx ctx) (
    (if ctx =? 0 then throw_openssl CatInternal "SSL_CTX_new failed for the client context"
     else mret tt) ;;
    apply_common_policy ctx profile config ;;
    load_trust_store ctx config ;;
    load_certificate_material ctx config false ;;
    (if insecure_development_mode config then
       ctx_set ctx (CtxVerify SSL_VERIFY_NONE) ;; log_at LevelErr insecure_mode_notice
     else
       ctx_set ctx (CtxVerify SSL_VERIFY_PEER) ;; ctx_set ctx (CtxVerifyDepth 8) ;; mret tt) ;;
    mret (mkTlsContext ctx profile)).

Definition create_server (profile : SecurityProfile) (config : CommonConfig)
    (require_client : bool) : io W TlsContext :=
  initialize_openssl ;;
  enforce_insecure_mode_policy config ;;
  ctx ← call (SSL_CTX_new true);
  adopt ObjCtx ctx ;;
  guarded (dispose ObjCtx ctx) (
    (if ctx =? 0 then throw_openssl CatInternal "SSL_CTX_new failed for the server context"
     else mret tt) ;;
    apply_common_policy ctx profile config ;;
    load_certificate_material ctx config true ;;
    ctx_set ctx CtxAlpnSelect ;;
    (if require_client || require_client_certificate profile then
       load_trust_store ctx config ;;
       (if str_empty (ca_certificate_file config) then
          throwM (ConfigurationError ("mutual TLS was requested but no --ca-certificate was given. Without a trust " +:+
            "anchor the server cannot verify client certificates."))
        else mret tt) ;;
       ctx_set ctx (CtxVerify (Z.lor SSL_VERIFY_PEER SSL_VERIFY_FAIL_IF_NO_PEER_CERT)) ;;
       ctx_set ctx (CtxVerifyDepth 8) ;;
       rc ← ctx_set ctx (CtxClientCA (ca_certificate_file config));
       (if rc =? 0 then drain_openssl_errors ;; mret tt else mret tt)
     else ctx_set ctx (CtxVerify SSL_VERIFY_NONE) ;; mret tt) ;;
    ctx_set ctx (CtxSessionCache SSL_SESS_CACHE_SERVER) ;;
    ctx_set ctx (CtxTickets 2) ;;
    mret (mkTlsContext ctx profile)).

Definition new_ssl (context : TlsContext) : io W Z :=
  ssl ← call (SSL_new (ctx_handle context));
  adopt ObjSsl ssl ;;
  if ssl =? 0 then throw_openssl CatInternal "SSL_new failed" else mret ssl.

(** ** Completed handshakes *)

Record HandshakeOutcome := mkOutcome {
  ho_tls_version : string;
  ho_negotiated_group : string;
  ho_cipher_suite : string;
  ho_peer_signature_algorithm : string;
  ho_peer_certificate_subject : string;
  ho_peer_certificate_issuer : string;
  ho_session_reused : bool;
  ho_peer_certificate_present : bool
}.

Definition subject_name_to_string (name : Z) : io W string :=
  if name =? 0 then mret ""
  else
    bio ← call BIO_new;
    adopt ObjBio bio ;;
    scoped (dispose ObjBio bio)
      (if bio =? 0 then mret ""
       else
         '(rc, text) ← call (X509_NAME_print_ex name);
         mret (if rc <? 0 then "" else text)).

Definition inspect (ssl : Z) : io W HandshakeOutcome :=
  version ← call (SSL_get_version ssl);
  suite ← call (SSL_cipher_name ssl);
  group ← call_ev (SSL_get0_group_name ssl) EvGroup;
  '(rc, nid) ← call (SSL_get_peer_signature_nid ssl);
  let signature := if (rc =? 1) && negb (nid =? NID_undef) then default "" (OBJ_nid2sn nid) else "" in
  reused ← call (SSL_session_reused ssl);
  peer ← call (SSL_get1_peer_certificate ssl);
  adopt ObjX509 peer ;;
  '(subject, issuer) ← scoped (dispose ObjX509 peer)
    (if peer =? 0 then mret ("", "")
     else
       subject_name ← call (X509_get_subject_name peer);
       subject ← subject_name_to_string subject_name;
       issuer_name ← call (X509_get_issuer_name peer);
       issuer ← subject_name_to_string issuer_name;
       mret (subject, issuer));
  mret (mkOutcome (default "" version) (default "" group) (default "" suite) signature subject issuer
          (reused =? 1) (negb (peer =? 0))).

Definition enforce_group_policy (profile : SecurityProfile) (outcome : HandshakeOutcome)
    : result unit :=
  if permits_negotiated_group profile (ho_negotiated_group outcome) then Ok tt
  else Throw (TlsPolicyError
    ("downgrade policy violation: " +:+ explain_group_rejection profile (ho_negotiated_group outcome))
    ["requested profile: " +:+ id profile;
     "permitted groups: " +:+ openssl_groups_list profile;
     "negotiated group: " +:+ (if str_empty (ho_negotiated_group outcome) then "<unknown>"
                               else ho_negotiated_group outcome);
     "the connection has been terminated and recorded as a tls-policy failure"]).

Definition describe_verify_result (verify_result : Z) : string :=
  let text := default "unknown verification error" (X509_verify_cert_error_string verify_result) in
  if (verify_result =? X509_V_ERR_UNABLE_TO_GET_ISSUER_CERT_LOCALLY) ||
     (verify_result =? X509_V_ERR_SELF_SIGNED_CERT_IN_CHAIN) ||
     (verify_result =? X509_V_ERR_DEPTH_ZERO_SELF_SIGNED_CERT) then
    text +:+ ". The issuing CA is not in the configured trust store: pass --ca-certificate " +:+
    "pointing at the CA that signed the peer certificate."
  else if verify_result =? X509_V_ERR_CERT_HAS_EXPIRED then
    text +:+ ". Regenerate the development certificates, or check the system clock."
  else if verify_result =? X509_V_ERR_CERT_NOT_YET_VALID then
    text +:+ ". The certificate starts in the future: check the system clock on both hosts."
  else if verify_result =? X509_V_ERR_HOSTNAME_MISMATCH then
    text +:+ ". The name given with --server-name is not covered by the certificate's " +:+
    "subjectAltName entries."
  else text.

Definition enforce_peer_verification (ssl : Z) (config : CommonConfig)
    (require_peer_certificate : bool) : io W unit :=
  if insecure_development_mode config then mret tt
  else
    verify_result ← call_ev (SSL_get_verify_result ssl) EvVerifyResult;
    if negb (verify_result =? X509_V_OK) then
      throwM (CertificateError
        ("peer certificate verification failed: " +:+ describe_verify_result verify_result)
        ["X509_verify_cert code " +:+ std_to_string verify_result])
    else
      peer ← call_ev (SSL_get1_peer_certificate ssl) (fun p => EvPeerCertificate (negb (p =? 0)));
      adopt ObjX509 peer ;;
      scoped (dispose ObjX509 peer)
        (if (peer =? 0) && require_peer_certificate then
           throwM (CertificateError
             ("the peer presented no certificate. An unauthenticated peer cannot be distinguished " +:+
              "from an active man-in-the-middle, so the connection is refused.") [])
         else mret tt).

End tls_context.

(** ** The settings a context ends up with *)

(** Settings whose failure aborts the construction, with the result libssl
    documents for success. *)
Definition accepted (e : CtxSetting * Z) : Prop :=
  match e.1 with
  | CtxMinVersion _ | CtxMaxVersion _ | CtxGroups _ | CtxCiphersuites _ | CtxCertificate _
  | CtxPrivateKey _ | CtxCheckKey | CtxTrustFile _ | CtxTrustDefault => e.2 = 1
  | CtxAlpn _ => e.2 = 0
  | _ => True
  end.

Definition common_settings (p : SecurityProfile) (c : CommonConfig) : list CtxSetting :=
  [CtxMinVersion TLS1_3_VERSION; CtxMaxVersion TLS1_3_VERSION; CtxOptions common_options;
   CtxMode (Z.lor SSL_MODE_AUTO_RETRY SSL_MODE_ENABLE_PARTIAL_WRITE);
   CtxGroups (openssl_groups_list p); CtxCiphersuites (openssl_ciphersuites_list p);
   CtxCipherList legacy_cipher_list; CtxAlpn kAlpnWire] ++
  (if str_empty (keylog_file c) then [] else [CtxKeylog]).

Definition trust_settings (c : CommonConfig) : list CtxSetting :=
  if negb (str_empty (ca_certificate_file c)) then [CtxTrustFile (ca_certificate_file c)]
  else if insecure_development_mode c then [] else [CtxTrustDefault].

Definition certificate_settings (c : CommonConfig) : list CtxSetting :=
  if str_empty (certificate_file c) || str_empty (private_key_file c) then []
  else [CtxCertificate (certificate_file c); CtxPrivateKey (private_key_file c); CtxCheckKey].

Definition client_settings (p : SecurityProfile) (c : CommonConfig) : list CtxSetting :=
  common_settings p c ++ trust_settings c ++ certificate_settings c ++
  (if insecure_development_mode c then [CtxVerify SSL_VERIFY_NONE]
   else [CtxVerify SSL_VERIFY_PEER; CtxVerifyDepth 8]).

Definition server_settings (p : SecurityProfile) (c : CommonConfig) (require_client : bool)
    : list CtxSetting :=
  common_settings p c ++ certificate_settings c ++ [CtxAlpnSelect] ++
  (if require_client || require_client_certificate p then
     trust_settings c ++
     [CtxVerify (Z.lor SSL_VERIFY_PEER SSL_VERIFY_FAIL_IF_NO_PEER_CERT); CtxVerifyDepth 8;
      CtxClientCA (ca_certificate_file c)]
   else [CtxVerify SSL_VERIFY_NONE]) ++
  [CtxSessionCache SSL_SESS_CACHE_SERVER; CtxTickets 2].

(** The settings in a log, newest first, with their results. *)
Definition setting_of (e : Event) : option (CtxSetting * Z) :=
  match e with EvCtx _ what rc => Some (what, rc) | _ => None end.

Definition settings_in (log : list Event) : list (CtxSetting * Z) := omap setting_of log.

(** A setting of [ctx], or a line for the logger. *)
Definition setting_or_log (ctx : Z) (e : Event) : Prop :=
  match e with EvCtx c _ _ => c = ctx | EvLog _ _ => True | _ => False end.

(** Exactly the settings [l] were made, on [ctx] and in this order, and every one that must
    succeed did; apart from them there are only log lines. *)
Definition made (ctx : Z) (l : list CtxSetting) (new : list Event) : Prop :=
  Forall (setting_or_log ctx) new /\ map fst (rev (settings_in new)) = l /\ Forall accepted (settings_in new).

Definition sets {W A} (ctx : Z) (m : io W A) (l : list CtxSetting) : Prop :=
  forall s a s', m s = (Ok a, s') -> exists new, st_log s' = new ++ st_log s /\ made ctx l new.

Lemma made_nil ctx : made ctx [] [].
Proof. by repeat constructor. Qed.

Lemma made_app ctx l1 l2 n1 n2 : made ctx l1 n1 -> made ctx l2 n2 -> made ctx (l1 ++ l2) (n2 ++ n1).
Proof.
  intros (H1 & M1 & A1) (H2 & M2 & A2). unfold made, settings_in in *.
  rewrite omap_app, rev_app_distr, map_app, M1, M2. splits; [by apply Forall_app|done|by apply Forall_app].
Qed.

Lemma made_one ctx what rc : accepted (what, rc) -> made ctx [what] [EvCtx ctx what rc].
Proof. intros Ha. unfold made. by splits; [apply Forall_singleton| |apply Forall_singleton]. Qed.

Section sets.
Context {W : Type} {RA : RuntimeApi W} {EA : EnvApi W} {CA : CtxApi W}.

Lemma sets_silent {A} ctx (m : io W A) : silent m -> sets ctx m [].
Proof. intros Hm s a s' H. exists []. specialize (Hm s). rewrite H in Hm. split; [done|apply made_nil]. Qed.

Lemma sets_log ctx level text : sets (W := W) ctx (log_at level text) [].
Proof. intros s a s' [= _ <-]. exists [EvLog level text]. split; [done|]. by repeat constructor. Qed.

Lemma sets_bind {A B} ctx (m : io W A) (k : A -> io W B) l1 l2 :
  sets ctx m l1 -> (forall a, sets ctx (k a) l2) -> sets ctx (m ≫= k) (l1 ++ l2).
Proof.
  intros Hm Hk s b s' (a & s1 & H1 & H2)%bind_inv.
  destruct (Hm _ _ _ H1) as (n1 & L1 & M1). destruct (Hk _ _ _ _ H2) as (n2 & L2 & M2).
  exists (n2 ++ n1). rewrite L2, L1, app_assoc. split; [done|by apply made_app].
Qed.

Lemma sets_throw {A} ctx x l : sets (W := W) (A := A) ctx (throwM x) l.
Proof. by intros s a s' [=]. Qed.

Lemma sets_throw_openssl {A} ctx c t l : sets (A := A) ctx (throw_openssl c t) l.
Proof. intros s a s' (x & s1 & _ & H)%bind_inv. done. Qed.

(** An unchecked setting. *)
Lemma sets_ctx_set ctx what : accepted (what, 1) /\ (forall rc, accepted (what, rc)) ->
  sets ctx (ctx_set ctx what) [what].
Proof.
  intros [_ Hw] s rc s' H. unfold ctx_set in H.
  destruct (SSL_CTX_set ctx what (st_world s) (st_errq s)) as [r [w q]] eqn:E.
  rewrite (call_ev_eq _ _ _ _ _ _ E) in H. injection H as <- <-.
  exists [EvCtx ctx what r]. split; [done|by apply made_one].
Qed.

Lemma throw_openssl_never {A} c t s (a : A) s' : throw_openssl (W := W) c t s <> (Ok a, s').
Proof. intros (x & s1 & _ & H)%bind_inv. done. Qed.

(** A checked one: the code goes on only with the answers [good] accepts. *)
Lemma sets_checked {A} ctx what (good : Z -> bool) (bad : io W unit) (k : io W A) l :
  (forall rc, good rc = true -> accepted (what, rc)) ->
  (forall s a s', bad s <> (Ok a, s')) ->
  sets ctx k l ->
  sets ctx (rc ← ctx_set ctx what; (if negb (good rc) then bad else mret tt) ;; k) (what :: l).
Proof.
  intros Hg Hbad Hk s a s' H.
  destruct (SSL_CTX_set ctx what (st_world s) (st_errq s)) as [r [w q]] eqn:E.
  unfold ctx_set in H. rewrite (bind_eq _ _ _ _ _ (call_ev_eq _ _ _ _ _ _ E)) in H.
  apply bind_inv in H as (u & s1 & H1 & H).
  destruct (good r) eqn:Eg; simpl in H1; [injection H1 as _ <-|by apply Hbad in H1].
  destruct (Hk _ _ _ H) as (new & L & M). exists (new ++ [EvCtx ctx what r]).
  rewrite L, <- app_assoc. split; [done|]. apply (made_app _ [what]); [|done]. by apply made_one; auto.
Qed.

Lemma sets_require ctx what c t :
  accepted (what, 1) -> sets ctx (ctx_require ctx what c t) [what].
Proof.
  intros Hw s a s' H. unfold ctx_require, ctx_set in H.
  destruct (SSL_CTX_set ctx what (st_world s) (st_errq s)) as [r [w q]] eqn:E.
  rewrite (bind_eq _ _ _ _ _ (call_ev_eq _ _ _ _ _ _ E)) in H.
  destruct (r =? 1) eqn:Er; simpl in H; [|by apply throw_openssl_never in H].
  apply Z.eqb_eq in Er as ->. injection H as _ <-.
  exists [EvCtx ctx what 1]. split; [done|by apply made_one].
Qed.

Lemma sets_seq {A B} ctx (m : io W A) (k : io W B) l1 l2 l :
  sets ctx m l1 -> sets ctx k l2 -> l = l1 ++ l2 -> sets ctx (m ;; k) l.
Proof. intros Hm Hk ->. by apply sets_bind. Qed.

Lemma silent_production : silent production_environment.
Proof. unfold production_environment. auto with pqtls. Qed.

Lemma silent_initialize : silent initialize_openssl.
Proof. unfold initialize_openssl. apply silent_bind; [auto with pqtls|intros]. case_match; auto with pqtls. Qed.

Lemma silent_insecure_policy c : silent (enforce_insecure_mode_policy c).
Proof.
  unfold enforce_insecure_mode_policy. case_match; [auto with pqtls|].
  apply silent_bind; [apply silent_production|intros b]. destruct b; auto with pqtls.
Qed.

Lemma sets_keylog ctx c :
  sets ctx (install_keylog_callback ctx c) (if str_empty (keylog_file c) then [] else [CtxKeylog]).
Proof.
  unfold install_keylog_callback. case_match; [apply sets_silent; auto with pqtls|].
  apply (sets_bind _ _ _ []); [apply sets_silent, silent_production|intros [|]]; [apply sets_throw|].
  apply (sets_bind _ _ _ []); [apply sets_silent; auto with pqtls|intros [|]]; [|apply sets_throw].
  eapply (sets_seq _ _ _ []); [apply sets_log| |reflexivity].
  eapply sets_seq; [by apply sets_ctx_set|apply sets_silent; auto with pqtls|done].
Qed.

Lemma sets_common ctx p c : sets ctx (apply_common_policy ctx p c) (common_settings p c).
Proof.
  unfold apply_common_policy, common_settings.
  eapply sets_seq; [by apply sets_require| |reflexivity].
  eapply sets_seq; [by apply sets_require| |reflexivity].
  eapply sets_seq; [by apply sets_ctx_set| |reflexivity].
  eapply sets_seq; [by apply sets_ctx_set| |reflexivity].
  apply (sets_checked ctx _ (fun rc => rc =? 1)).
  { by intros rc ->%Z.eqb_eq. }
  { by intros s a s' (? & ? & _ & H)%bind_inv. }
  eapply sets_seq; [by apply sets_require| |reflexivity].
  apply (sets_bind _ _ _ [_]); [by apply sets_ctx_set|intros rc].
  eapply (sets_seq _ _ _ []); [apply sets_silent; case_match; auto with pqtls| |reflexivity].
  apply (sets_checked ctx _ (fun rc => rc =? 0)); [by intros ? ->%Z.eqb_eq| |apply sets_keylog].
  intros; apply throw_openssl_never.
Qed.

Lemma sets_trust ctx c : sets ctx (load_trust_store ctx c) (trust_settings c).
Proof.
  unfold load_trust_store, trust_settings. case_match; [by apply sets_require|].
  case_match; [apply sets_silent; auto with pqtls|].
  eapply sets_seq; [by apply sets_require|apply sets_log|done].
Qed.

Lemma sets_certificate ctx c req :
  sets ctx (load_certificate_material ctx c req) (certificate_settings c).
Proof.
  unfold load_certificate_material, certificate_settings. case_match.
  - destruct req; [apply sets_throw|apply sets_silent; auto with pqtls].
  - eapply sets_seq; [by apply sets_require| |reflexivity].
    eapply sets_seq; [by apply sets_require| |reflexivity]. by apply sets_require.
Qed.

(** A context that was built: it was created first, the settings [l] followed. *)
Definition builds (m : io W TlsContext) (p : SecurityProfile) (l : list CtxSetting) : Prop :=
  forall s t s', m s = (Ok t, s') -> ctx_profile t = p /\ ctx_handle t <> 0 /\
  exists new, st_log s' = new ++ EvNew ObjCtx (ctx_handle t) :: st_log s /\ made (ctx_handle t) l new.

(** What happens before the first setting. *)
Lemma builds_start config server text p (k : Z -> io W TlsContext) l :
  (forall ctx, sets ctx (k ctx) l) -> (forall ctx s t s', k ctx s = (Ok t, s') -> t = mkTlsContext ctx p) ->
  builds (initialize_openssl ;; enforce_insecure_mode_policy config ;;
          ctx ← call (SSL_CTX_new server);
          adopt ObjCtx ctx ;;
          guarded (dispose ObjCtx ctx)
            ((if ctx =? 0 then throw_openssl CatInternal text else mret tt) ;; k ctx)) p l.
Proof.
  intros Hk Hr s t s' (u1 & s1 & H1 & H)%bind_inv. apply bind_inv in H as (u2 & s2 & H2 & H).
  apply bind_inv in H as (ctx & s3 & H3 & H). apply bind_inv in H as (u4 & s4 & H4 & H).
  assert (L3 : st_log s3 = st_log s).
  { pose proof (silent_call (SSL_CTX_new server) s2) as E3. rewrite H3 in E3. simpl in E3. rewrite E3.
    pose proof (silent_insecure_policy config s1) as E2. rewrite H2 in E2. simpl in E2. rewrite E2.
    pose proof (silent_initialize s) as E1. by rewrite H1 in E1. }
  apply guarded_inv in H. rename H into H5. apply bind_inv in H5 as (u6 & s6 & H6 & H7). pose proof (Hr _ _ _ _ H7) as ->. unfold adopt in H4. destruct (ctx =? 0) eqn:E0; [by apply throw_openssl_never in H6|].
  injection H4 as _ <-. injection H6 as _ <-. pose proof (Hk _ _ _ _ H7) as (new & L & M).
  splits; [done|by apply Z.eqb_neq|]. exists new. split; [|done]. by rewrite L, <- L3.
Qed.

(** The steps of a constructor after the context was created. *)
Ltac last_bind := intros ctx s t s' H; repeat (apply bind_inv in H as (? & ? & _ & H)); by injection H as <- _.

Lemma builds_client p c : builds (create_client p c) p (client_settings p c).
Proof.
  unfold create_client, client_settings. apply builds_start; [intros ctx|last_bind].
  eapply sets_seq; [apply sets_common| |reflexivity].
  eapply sets_seq; [apply sets_trust| |reflexivity].
  eapply sets_seq; [apply sets_certificate| |reflexivity].
  eapply (sets_seq _ _ _ _ []); [|apply sets_silent; auto with pqtls|by rewrite app_nil_r].
  case_match.
  - eapply sets_seq; [by apply sets_ctx_set|apply sets_log|done].
  - eapply sets_seq; [by apply sets_ctx_set| |reflexivity].
    eapply sets_seq; [by apply sets_ctx_set|apply sets_silent; auto with pqtls|done].
Qed.

Lemma builds_server p c req : builds (create_server p c req) p (server_settings p c req).
Proof.
  unfold create_server, server_settings. apply builds_start; [intros ctx|last_bind].
  eapply sets_seq; [apply sets_common| |reflexivity].
  eapply sets_seq; [apply sets_certificate| |reflexivity].
  eapply sets_seq; [by apply sets_ctx_set| |reflexivity].
  eapply sets_seq; [| |reflexivity].
  - case_match.
    + eapply sets_seq; [apply sets_trust| |reflexivity].
      eapply (sets_seq _ _ _ []); [case_match; [apply sets_throw|apply sets_silent; auto with pqtls]| |reflexivity].
      eapply sets_seq; [by apply sets_ctx_set| |reflexivity].
      eapply sets_seq; [by apply sets_ctx_set| |reflexivity].
      apply (sets_bind _ _ _ [_] []); [by apply sets_ctx_set|intros rc].
      apply sets_silent. case_match; auto with pqtls.
    + eapply sets_seq; [by apply sets_ctx_set|apply sets_silent; auto with pqtls|done].
  - eapply sets_seq; [by apply sets_ctx_set| |reflexivity].
    eapply sets_seq; [by apply sets_ctx_set|apply sets_silent; auto with pqtls|done].
Qed.

End sets.

Section context_claims.
Context {W : Type} {RA : RuntimeApi W} {EA : EnvApi W} {CA : CtxApi W}.

Lemma create_client_profile p c s t s' : create_client p c s = (Ok t, s') -> ctx_profile t = p.
Proof. intros H. by apply builds_client in H as []. Qed.

Lemma create_server_profile p c req s t s' : create_server p c req s = (Ok t, s') -> ctx_profile t = p.
Proof. intros H. by apply builds_server in H as []. Qed.

(** Where [PQTLS_ENV] reads as production, whatever else the world does. *)
Definition always_production : Prop :=
  forall w q, (getenv "PQTLS_ENV" w q).1 = Some "production".

(** With a development-only option set, nothing after the policy runs. *)
Lemma policy_refuses {A} c (k : io W A) s :
  always_production -> development_options c = true ->
  exists x s', (initialize_openssl ;; enforce_insecure_mode_policy c ;; k) s = (Throw x, s') /\
    st_log s' = st_log s /\ (exn_category x = CatConfiguration \/ exn_category x = CatInternal).
Proof.
  intros Hp Hd.
  pose proof silent_initialize as Hs.
  assert (Ht : throws (fun x => exn_category x = CatInternal) initialize_openssl).
  { unfold initialize_openssl. apply throws_bind; [apply throws_call|intros].
    case_match; [by apply throws_openssl|apply throws_ret]. }
  specialize (Hs s). specialize (Ht s). unfold mbind at 1, M_bind at 1.
  destruct (initialize_openssl s) as [[u|x] s1]; simpl in Hs; [|eauto 8].
  pose proof (enforce_policy_outcome c s1) as Ho. unfold mbind, M_bind.
  destruct (enforce_insecure_mode_policy c s1) as [[v|x] s2].
  - exfalso. unfold in_production in Ho. rewrite Hd, Hp in Ho. simpl in Ho. by destruct Ho.
  - destruct Ho as (_ & Hc & Hl). exists x, s2. rewrite Hl. auto.
Qed.

(** ** Claims *)

(** C27: A context that is built carries exactly the policy of its profile and
    configuration.  For the client: TLS 1.3 as both version bounds, the
    profile's group list and cipher suites and nothing else, the trust store,
    and peer verification unless insecure mode was asked for, directly after
    the context was created.  For the server likewise, with its certificate and
    key; when client certificates are required, by the configuration or by the
    profile, the context verifies the peer, fails without a certificate, and
    has the configured trust anchor loaded.  Every one of these calls was
    accepted by OpenSSL (a group list it does not know aborts the
    construction), on the context that is returned, in this order and with
    nothing but log lines between them, and key logging is installed only when
    configured.  In production no context is ever built with a development-only
    option: with insecure mode or key logging configured and
    [PQTLS_ENV=production], both constructors throw before anything is
    created. *)
Theorem context_settings p c s :
  (forall t s', create_client p c s = (Ok t, s') ->
   ctx_profile t = p /\ ctx_handle t <> 0 /\
   exists new, st_log s' = new ++ EvNew ObjCtx (ctx_handle t) :: st_log s /\
     made (ctx_handle t) (client_settings p c) new) /\
  (forall req t s', create_server p c req s = (Ok t, s') ->
   ctx_profile t = p /\ ctx_handle t <> 0 /\
   exists new, st_log s' = new ++ EvNew ObjCtx (ctx_handle t) :: st_log s /\
     made (ctx_handle t) (server_settings p c req) new) /\
  (always_production -> development_options c = true ->
   (exists x s', create_client p c s = (Throw x, s') /\ st_log s' = st_log s /\
      (exn_category x = CatConfiguration \/ exn_category x = CatInternal)) /\
   (forall req, exists x s', create_server p c req s = (Throw x, s') /\ st_log s' = st_log s /\
      (exn_category x = CatConfiguration \/ exn_category x = CatInternal))).
Proof.
  splits; [apply builds_client|intros req; apply builds_server|].
  intros Hp Hd. split; [|intros req]; by apply policy_refuses.
Qed.

End context_claims.

(** ** Protocol negotiation

    The server's ALPN callback.  [SSL_select_next_proto] returns a code and
    what it leaves in [out]. *)

Definition OPENSSL_NPN_NEGOTIATED : Z := 1.
Definition SSL_TLSEXT_ERR_OK : Z := 0.
Definition SSL_TLSEXT_ERR_ALERT_FATAL : Z := 2.

Section alpn.
Context (SSL_select_next_proto : list byte -> list byte -> Z * list byte).

Definition alpn_select_callback (offered : list byte) : Z * list byte :=
  let '(rc, out) := SSL_select_next_proto kAlpnWire offered in
  if negb (rc =? OPENSSL_NPN_NEGOTIATED) then (SSL_TLSEXT_ERR_ALERT_FATAL, out) else (SSL_TLSEXT_ERR_OK, out).

(** A list of protocols on the wire, each after its length. *)
Definition alpn_wire (protocols : list (list byte)) : list byte :=
  concat (map (fun p => byte_of_Z (Z.of_nat (length p)) :: p) protocols).

(** As documented: a protocol both sides list is selected, and if there is
    none that is reported. *)
Hypothesis select_documented : forall ours theirs,
  Forall (fun p => 1 <= Z.of_nat (length p) <= 255) (ours ++ theirs) ->
  let r := SSL_select_next_proto (alpn_wire ours) (alpn_wire theirs) in
  (r.1 = OPENSSL_NPN_NEGOTIATED <-> exists p, In p ours /\ In p theirs) /\
  (r.1 = OPENSSL_NPN_NEGOTIATED -> In r.2 ours /\ In r.2 theirs).

(** The server goes on exactly with clients that offer its protocol, and then
    speaks it. *)
Lemma alpn_agreement offered :
  Forall (fun p => 1 <= Z.of_nat (length p) <= 255) offered ->
  let r := alpn_select_callback (alpn_wire offered) in
  (r.1 = SSL_TLSEXT_ERR_OK <-> In (bytes_of_string "pqtls1") offered) /\
  (r.1 = SSL_TLSEXT_ERR_OK -> r.2 = bytes_of_string "pqtls1").
Proof.
  intros Ho. set (p := bytes_of_string "pqtls1"). pose proof (select_documented [p] offered) as Hs.
  unfold alpn_select_callback. change kAlpnWire with (alpn_wire [p]).
  destruct (SSL_select_next_proto (alpn_wire [p]) (alpn_wire offered)) as [rc out].
  assert (Hl : 1 <= Z.of_nat (length p) <= 255) by (vm_compute; split; discriminate).
  destruct (Hs ltac:(by constructor)) as [H1 H2]. simpl in H1, H2.
  destruct (Z.eqb_spec rc OPENSSL_NPN_NEGOTIATED) as [->|Hne]; simpl.
  - split; [|intros _; destruct (H2 eq_refl) as [[->|[]] _]; done].
    split; [intros _|done]. destruct (proj1 H1 eq_refl) as (p' & [<-|[]] & Hin). done.
  - split; [|done]. split; [done|]. intros Hin. destruct Hne, H1. eauto.
Qed.

End alpn.

(** ** An instance, for examples *)

Definition toy_ctx {W : Type} (group : string) : CtxApi W := {|
  OPENSSL_init_ssl := fun w q => (1, (w, q));
  SSL_CTX_new := fun _ w q => (7, (w, q));
  SSL_CTX_set := fun _ what w q => ((match what with CtxAlpn _ => 0 | _ => 1 end), (w, q));
  keylog_open := fun _ w q => (true, (w, q));
  SSL_new := fun _ w q => (9, (w, q));
  SSL_set_fd := fun _ _ w q => (1, (w, q));
  SSL_get_version := fun _ w q => (Some "TLSv1.3", (w, q));
  SSL_cipher_name := fun _ w q => (Some "TLS_AES_256_GCM_SHA384", (w, q));
  SSL_get0_group_name := fun _ w q => (Some group, (w, q));
  SSL_get_peer_signature_nid := fun _ w q => ((0, 0), (w, q));
  OBJ_nid2sn := fun _ => None;
  SSL_session_reused := fun _ w q => (0, (w, q));
  SSL_get1_peer_certificate := fun _ w q => (5, (w, q));
  X509_get_subject_name := fun _ w q => (1, (w, q));
  X509_get_issuer_name := fun _ w q => (2, (w, q));
  BIO_new := fun w q => (1, (w, q));
  X509_NAME_print_ex := fun _ w q => ((0, "CN=lab"), (w, q));
  SSL_get_verify_result := fun _ w q => (X509_V_OK, (w, q));
  X509_verify_cert_error_string := fun _ => None
|}.

Definition client_common : CommonConfig := CommonConfig_default.

Definition toy_state : St (list byte) := mkSt [] [] [].

Lemma context_settings_witness :
  (exists new, made 7 (client_settings lab_profile client_common) new) /\
  (exists new, made 7 (server_settings lab_profile (s_common lab_server) false) new) /\
  (exists x s', create_server (RA := toy_clock) (EA := toy_env (Some "production"))
     (CA := toy_ctx "X25519") lab_profile (s_common lab_server) false toy_state = (Throw x, s') /\
     st_log s' = []).
Proof.
  splits.
  - destruct (create_client (RA := toy_clock) (EA := toy_env None) (CA := toy_ctx "X25519MLKEM768")
      lab_profile client_common toy_state) as [r s1] eqn:E.
    assert (Hr : r = Ok (mkTlsContext 7 lab_profile))
      by (change r with (fst (r, s1)); rewrite <- E; vm_compute; reflexivity).
    subst r. destruct (proj1 (context_settings _ _ _) _ _ E) as (_ & _ & new & _ & H).
    exists new. exact H.
  - destruct (create_server (RA := toy_clock) (EA := toy_env None) (CA := toy_ctx "X25519MLKEM768")
      lab_profile (s_common lab_server) false toy_state) as [r s1] eqn:E.
    assert (Hr : r = Ok (mkTlsContext 7 lab_profile))
      by (change r with (fst (r, s1)); rewrite <- E; vm_compute; reflexivity).
    subst r. destruct (proj1 (proj2 (context_settings _ _ _)) _ _ _ E) as (_ & _ & new & _ & H).
    exists new. exact H.
  - destruct (proj2 (proj2 (context_settings (RA := toy_clock) (EA := toy_env (Some "production"))
      (CA := toy_ctx "X25519") lab_profile (s_common lab_server) toy_state))
      (fun _ _ => eq_refl) eq_refl) as [_ H].
    destruct (H false) as (x & s' & H1 & H2 & _). exists x, s'. split; [exact H1|exact H2].
Defined.
