(* ===== verification/Capabilities.v ===== *)
(** What the running OpenSSL can do: [include/pqtls/capabilities.hpp] and
    [src/common/capabilities.cpp].

    The probes are calls of libssl and libcrypto ([CapApi], and the context
    settings of [CtxApi], which leave their events); the compile-time version
    text comes from the OpenSSL headers.  The file has its own [iequals] and
    [join], here [cap_iequals] and [cap_join]. *)

From Stdlib Require Import HexadecimalString HexadecimalN.
From S2P Require Import Prelude Errors Runtime Json Profile ProfileYaml Config Transport Metrics.
From S2P Require Import TlsContext.

Definition kCandidateGroups : list string :=
  ["X25519"; "secp256r1"; "secp384r1"; "secp521r1"; "X448"; "ffdhe2048"; "ffdhe3072"; "MLKEM512";
   "MLKEM768"; "MLKEM1024"; "X25519MLKEM768"; "SecP256r1MLKEM768"; "SecP384r1MLKEM1024"].

Definition kCandidateSignatureAlgorithms : list string :=
  ["ecdsa_secp256r1_sha256"; "ecdsa_secp384r1_sha384"; "ecdsa_secp521r1_sha512"; "ed25519";
   "rsa_pss_rsae_sha256"; "rsa_pkcs1_sha256"; "mldsa65"; "mldsa87"].

Definition kCandidateCipherSuites : list string :=
  ["TLS_AES_256_GCM_SHA384"; "TLS_CHACHA20_POLY1305_SHA256"; "TLS_AES_128_GCM_SHA256"].

Record ProfileAvailability := mkAvailability {
  pa_profile_id : string;
  usable : bool;
  pa_experimental : bool;
  missing_groups : list string;
  missing_cipher_suites : list string;
  blocking_reason : string
}.

Record Capabilities := mkCapabilities {
  openssl_compile_time_version : string;
  openssl_runtime_version : string;
  openssl_runtime_version_number : string;
  providers : list string;
  tls13_available : bool;
  tls_groups : list string;
  signature_algorithms : list string;
  cap_cipher_suites : list string;
  mlkem_available : bool;
  mldsa_available : bool;
  cap_profiles : list ProfileAvailability
}.

Class CapApi (W : Type) := {
  OPENSSL_VERSION_TEXT : string;
  OpenSSL_version : ext W (option string);
  OpenSSL_version_num : ext W Z;
  provider_names : ext W (list (option string));
  EVP_PKEY_CTX_new_from_name : string -> ext W Z;
  EVP_PKEY_keygen_init : Z -> ext W Z
}.

(** ** Text *)

(** The loop over the characters, from the first. *)
Fixpoint cap_iequals_from (a b : list ascii) : bool :=
  match a, b with
  | lhs :: a', rhs :: b' =>
      let l := ascii_lower lhs in
      let r := ascii_lower rhs in
      if negb (Ascii.eqb l r) then false else cap_iequals_from a' b'
  | _, _ => true
  end.

Definition cap_iequals (a b : string) : bool :=
  if negb (str_size a =? str_size b) then false
  else cap_iequals_from (String.list_ascii_of_string a) (String.list_ascii_of_string b).

(** [separator] goes before every value but the first. *)
Definition cap_join (values : list string) (separator : string) : string :=
  match values with
  | [] => ""
  | v :: rest => fold_left (fun out w => out +:+ separator +:+ w) rest v
  end.

(** ** Evaluation of a profile *)

Definition has_group (groups : list string) (group : string) : bool :=
  any_of groups (fun known => cap_iequals known group).

Definition has_cipher_suite (suites : list string) (suite : string) : bool :=
  any_of suites (fun known => String.eqb known suite).

(** [if (!s.empty() && s.back() == ' ') s.pop_back()]. *)
Fixpoint pop_space (s : string) : string :=
  match s with
  | EmptyString => EmptyString
  | String c EmptyString => if Ascii.eqb c " " then EmptyString else s
  | String c s' => String c (pop_space s')
  end.

Definition reason_text (tls13 mldsa : bool) (authentication : AuthenticationType)
    (groups suites : list string) : string :=
  (if negb tls13 then "TLS 1.3 is not available in this OpenSSL build. " else "") +:+
  (match groups with [] => "" | _ => "missing TLS groups: " +:+ cap_join groups ", " +:+ ". " end) +:+
  (match suites with [] => "" | _ => "missing cipher suites: " +:+ cap_join suites ", " +:+ ". " end) +:+
  (if bool_decide (authentication = MlDsa65) && negb mldsa then
     "ML-DSA-65 is not available, so this profile's post-quantum authentication " +:+
     "cannot be used. "
   else "").

Definition evaluate_profile (tls13 mldsa : bool) (groups_ suites_ : list string)
    (profile : SecurityProfile) : ProfileAvailability :=
  let groups := List.filter (fun g => negb (has_group groups_ g)) (groups profile) in
  let suites := List.filter (fun s => negb (has_cipher_suite suites_ s)) (cipher_suites profile) in
  let reason := pop_space (reason_text tls13 mldsa (authentication profile) groups suites) in
  mkAvailability (id profile) (str_empty reason) (experimental profile) groups suites reason.

Definition Capabilities_profile (caps : Capabilities) (key : string) : option ProfileAvailability :=
  find_if (cap_profiles caps) (fun p => String.eqb (pa_profile_id p) key).

Section capabilities.
Context {W : Type} {RA : RuntimeApi W} {CA : CtxApi W} {PA : CapApi W}.

(** A probe: true when the call returned 1, else the queue is drained. *)
Definition probe (f : io W Z) : io W bool :=
  rc ← f;
  if rc =? 1 then mret true else drain_openssl_errors ;; mret false.

Definition probe_signature_algorithm (ctx : Z) (name : string) : io W bool :=
  probe (ctx_set ctx (CtxSigalgs name)).

Definition probe_cipher_suite (ctx : Z) (name : string) : io W bool :=
  probe (ctx_set ctx (CtxCiphersuites name)).

Definition openssl_supports_group (group : string) : io W bool :=
  initialize_openssl ;;
  ctx ← call (SSL_CTX_new false);
  adopt ObjCtx ctx ;;
  scoped (dispose ObjCtx ctx)
    (if ctx =? 0 then drain_openssl_errors ;; mret false
     else probe (ctx_set ctx (CtxGroups group))).

Definition openssl_supports_algorithm (algorithm : string) : io W bool :=
  initialize_openssl ;;
  raw ← call_ev (EVP_PKEY_CTX_new_from_name algorithm) (EvPkeyCtx algorithm);
  adopt ObjPkeyCtx raw ;;
  if raw =? 0 then drain_openssl_errors ;; mret false
  else probe (rc ← call_ev (EVP_PKEY_keygen_init raw) (EvKeygenInit algorithm);
              dispose ObjPkeyCtx raw ;; mret rc).

(** The names for which a probe succeeds, in order. *)
Fixpoint probe_all (p : string -> io W bool) (names : list string) : io W (list string) :=
  match names with
  | [] => mret []
  | name :: rest =>
      ok ← p name;
      found ← probe_all p rest;
      mret (if (ok : bool) then name :: found else found)
  end.

Definition loaded_providers : io W (list string) :=
  names ← call provider_names; mret (omap (fun n => n) names).

Definition hex_string (n : Z) : string := NilZero.string_of_uint (N.to_hex_uint (Z.to_N n)).

(** The second call is made only when the first succeeded. *)
Definition probe_tls13 (ctx : Z) : io W bool :=
  rc ← ctx_set ctx (CtxMinVersion TLS1_3_VERSION);
  available ← (if rc =? 1 then rc ← ctx_set ctx (CtxMaxVersion TLS1_3_VERSION); mret (rc =? 1)
               else mret false);
  (if negb available then drain_openssl_errors ;; mret tt else mret tt) ;;
  mret available.

Definition Capabilities_detect (registry : ProfileRegistry) : io W Capabilities :=
  initialize_openssl ;;
  runtime ← call OpenSSL_version;
  number ← call OpenSSL_version_num;
  names ← loaded_providers;
  ctx ← call (SSL_CTX_new false);
  adopt ObjCtx ctx ;;
  scoped (dispose ObjCtx ctx) (
    (if ctx =? 0 then
       throw_openssl CatInternal "could not create a probe SSL_CTX for capability detection"
     else mret tt) ;;
    tls13 ← probe_tls13 ctx;
    groups ← probe_all (fun g => probe (ctx_set ctx (CtxGroups g))) kCandidateGroups;
    sigalgs ← probe_all (probe_signature_algorithm ctx) kCandidateSignatureAlgorithms;
    suites ← probe_all (probe_cipher_suite ctx) kCandidateCipherSuites;
    mlkem ← openssl_supports_algorithm "ML-KEM-768";
    mldsa ← openssl_supports_algorithm "ML-DSA-65";
    mret (mkCapabilities OPENSSL_VERSION_TEXT (default "" runtime) ("0x" +:+ hex_string number) names tls13
            groups sigalgs suites mlkem mldsa (map (evaluate_profile tls13 mldsa groups suites) registry))).

End capabilities.

(** ** Reports *)

Definition availability_to_json (a : ProfileAvailability) : json :=
  set_all JNull
    [("id", JString (pa_profile_id a));
     ("usable", JBool (usable a));
     ("experimental", JBool (pa_experimental a));
     ("missing_groups", JArray (map JString (missing_groups a)));
     ("missing_cipher_suites", JArray (map JString (missing_cipher_suites a)));
     ("blocking_reason", if str_empty (blocking_reason a) then JNull else JString (blocking_reason a))].

Definition Capabilities_to_json (c : Capabilities) : json :=
  set_all JNull
    [("openssl", set_all JNull
        [("compile_time_version", JString (openssl_compile_time_version c));
         ("runtime_version", JString (openssl_runtime_version c));
         ("runtime_version_number", JString (openssl_runtime_version_number c));
         ("providers", JArray (map JString (providers c)))]);
     ("tls13_available", JBool (tls13_available c));
     ("tls_groups", JArray (map JString (tls_groups c)));
     ("signature_algorithms", JArray (map JString (signature_algorithms c)));
     ("cipher_suites", JArray (map JString (cap_cipher_suites c)));
     ("post_quantum", set_all JNull
        [("key_establishment", set_all JNull [("mlkem_available", JBool (mlkem_available c))]);
         ("authentication", set_all JNull [("mldsa_available", JBool (mldsa_available c))])]);
     ("profiles", JArray (map availability_to_json (cap_profiles c)))].

Definition nl : string := String "010" "".

Definition names_or_none (names : list string) : string :=
  match names with [] => "<none>" | _ => cap_join names ", " end.

Definition availability_lines (a : ProfileAvailability) : string :=
  "  " +:+ (if usable a then "[usable]     " else "[unavailable]") +:+ " " +:+ pa_profile_id a +:+
  (if pa_experimental a then "  (EXPERIMENTAL)" else "") +:+ nl +:+
  (if negb (str_empty (blocking_reason a)) then "      reason: " +:+ blocking_reason a +:+ nl else "").

Definition to_human_readable (c : Capabilities) : string :=
  "OpenSSL" +:+ nl +:+
  "  compile-time : " +:+ openssl_compile_time_version c +:+ nl +:+
  "  runtime      : " +:+ openssl_runtime_version c +:+ " (" +:+ openssl_runtime_version_number c +:+
  ")" +:+ nl +:+
  "  providers    : " +:+ names_or_none (providers c) +:+ nl +:+ nl +:+
  "TLS" +:+ nl +:+
  "  TLS 1.3      : " +:+ (if tls13_available c then "available" else "NOT AVAILABLE") +:+ nl +:+
  "  groups       : " +:+ names_or_none (tls_groups c) +:+ nl +:+
  "  signatures   : " +:+ names_or_none (signature_algorithms c) +:+ nl +:+
  "  cipher suites: " +:+ names_or_none (cap_cipher_suites c) +:+ nl +:+ nl +:+
  "Post-quantum primitives" +:+ nl +:+
  "  ML-KEM  (key establishment) : " +:+
  (if mlkem_available c then "available" else "not available") +:+ nl +:+
  "  ML-DSA  (authentication)    : " +:+
  (if mldsa_available c then "available" else "not available") +:+ nl +:+
  "  note: post-quantum key establishment and post-quantum authentication are" +:+ nl +:+
  "        independent properties. A hybrid key exchange with an ECDSA certificate" +:+ nl +:+
  "        is not post-quantum authentication." +:+ nl +:+ nl +:+
  "Profiles" +:+ nl +:+ String.concat "" (map availability_lines (cap_profiles c)).

(** ** Lemmas *)

(** The copies agree with the functions of [Profile] and with the joining of
    strings used elsewhere. *)
Lemma cap_iequals_eq a b : cap_iequals a b = iequals a b.
Proof.
  unfold cap_iequals, iequals, str_size.
  replace (Z.of_nat (String.length a) =? Z.of_nat (String.length b))
    with (String.length a =? String.length b)%nat
    by (destruct (Nat.eqb_spec (String.length a) (String.length b)); symmetry; lia).
  destruct (negb _); [done|]. revert b. induction a as [|x a IH]; intros [|y b]; simpl; try done.
  by rewrite IH.
Qed.

Lemma cap_join_eq values separator : cap_join values separator = str_join separator values.
Proof.
  destruct values as [|v rest]; [done|]. simpl. revert v.
  induction rest as [|w rest IH]; intros v; [done|]. cbn [fold_left str_join]. rewrite IH.
  destruct rest as [|x rest]; cbn [str_join]; [done|]. by rewrite !append_assoc.
Qed.

Lemma pop_space_empty c s : Ascii.eqb c " " = false -> pop_space (String c s) <> "".
Proof. intros Hc. simpl. destruct s; [by rewrite Hc|done]. Qed.

Lemma reason_empty tls13 mldsa a groups suites :
  pop_space (reason_text tls13 mldsa a groups suites) = "" <->
  tls13 = true /\ groups = [] /\ suites = [] /\ (a = MlDsa65 -> mldsa = true).
Proof.
  unfold reason_text. destruct tls13; [|split; [by intros H|by intros (? & _)]].
  destruct groups as [|g groups]; [|split; [|by intros (_ & ? & _)]].
  2: { intros H. by apply pop_space_empty in H. }
  destruct suites as [|u suites]; [|split; [|by intros (_ & _ & ? & _)]].
  2: { intros H. by apply pop_space_empty in H. }
  destruct (bool_decide (a = MlDsa65)) eqn:Ea, mldsa; simpl; try (split; [by auto|done]).
  - apply bool_decide_eq_true in Ea. split; [done|]. intros (_ & _ & _ & H). by specialize (H Ea).
  - apply bool_decide_eq_false in Ea. split; [by splits|done].
Qed.

Lemma filter_nil {A} (f : A -> bool) l : List.filter f l = [] <-> forall x, In x l -> f x = false.
Proof.
  induction l as [|x l IH]; simpl; [by split|]. destruct (f x) eqn:E; split.
  - done.
  - intros H. specialize (H x (or_introl eq_refl)). congruence.
  - intros H y [<-|Hy]; [done|]. by apply IH.
  - intros H. apply IH. auto.
Qed.

(** What a usable profile can count on. *)
Definition satisfied (caps : Capabilities) (p : SecurityProfile) : Prop :=
  tls13_available caps = true /\
  (forall g, In g (groups p) -> has_group (tls_groups caps) g = true) /\
  (forall s, In s (cipher_suites p) -> In s (cap_cipher_suites caps)) /\
  (authentication p = MlDsa65 -> mldsa_available caps = true).

Lemma has_cipher_suite_In suites s : has_cipher_suite suites s = true <-> In s suites.
Proof.
  unfold has_cipher_suite. rewrite any_of_true. split.
  - intros (k & Hk & Heq). by apply String.eqb_eq in Heq as <-.
  - intros H. exists s. split; [done|apply String.eqb_refl].
Qed.

Lemma evaluate_usable caps p :
  usable (evaluate_profile (tls13_available caps) (mldsa_available caps) (tls_groups caps)
            (cap_cipher_suites caps) p) = true <-> satisfied caps p.
Proof.
  unfold evaluate_profile, satisfied. simpl. rewrite str_empty_true, reason_empty, !filter_nil.
  setoid_rewrite negb_false_iff. by setoid_rewrite has_cipher_suite_In.
Qed.

Section probes.
Context {W : Type} {RA : RuntimeApi W} {CA : CtxApi W} {PA : CapApi W}.

(** What probing the candidates with a setting of [ctx] leaves in the log. *)
Definition probed (ctx : Z) (what : string -> CtxSetting) (names found : list string) (new : list Event) : Prop :=
  (forall n, In n found -> In n names /\ In (EvCtx ctx (what n) 1) new) /\
  (forall n, In n names -> In n found \/ exists rc, rc <> 1 /\ In (EvCtx ctx (what n) rc) new).

(** What a probe of TLS 1.3 on [ctx] that answered [b] leaves. *)
Definition tls13_probed (ctx : Z) (b : bool) (new : list Event) : Prop :=
  if b then In (EvCtx ctx (CtxMinVersion TLS1_3_VERSION) 1) new /\ In (EvCtx ctx (CtxMaxVersion TLS1_3_VERSION) 1) new
  else exists rc, rc <> 1 /\ (In (EvCtx ctx (CtxMinVersion TLS1_3_VERSION) rc) new \/
                             In (EvCtx ctx (CtxMaxVersion TLS1_3_VERSION) rc) new).

(** What a probe of an algorithm leaves: key generation was initialised for it, or
    there is no context for it, or the initialisation failed. *)
Definition algorithm_probed (algorithm : string) (b : bool) (new : list Event) : Prop :=
  if b then In (EvKeygenInit algorithm 1) new
  else In (EvPkeyCtx algorithm 0) new \/ exists rc, rc <> 1 /\ In (EvKeygenInit algorithm rc) new.

Lemma probed_incl ctx what names found new new' :
  (forall e, In e new -> In e new') -> probed ctx what names found new -> probed ctx what names found new'.
Proof. intros H [H1 H2]. split; [naive_solver|]. intros n Hn. destruct (H2 n Hn) as [|(rc & ? & ?)]; eauto. Qed.

Lemma probe_outcome ctx what s : exists rc s',
  probe (ctx_set ctx what) s = (Ok (rc =? 1), s') /\ st_log s' = EvCtx ctx what rc :: st_log s.
Proof.
  unfold probe, ctx_set. destruct (SSL_CTX_set ctx what (st_world s) (st_errq s)) as [rc [w q]] eqn:E.
  rewrite (bind_eq _ _ _ _ _ (call_ev_eq _ _ _ _ _ _ E)). exists rc.
  destruct (rc =? 1); [eexists; split; [reflexivity|done]|].
  unfold mbind, M_bind, drain_openssl_errors. simpl. destruct (drain_queue q). eexists. split; [reflexivity|done].
Qed.

Lemma probe_all_probed ctx what names s : exists found s' new,
  probe_all (fun n => probe (ctx_set ctx (what n))) names s = (Ok found, s') /\
  st_log s' = new ++ st_log s /\ probed ctx what names found new.
Proof.
  revert s. induction names as [|n names IH]; intros s; simpl.
  { exists [], s, []. splits; [done|done|]. split; [done|]. by intros n []. }
  destruct (probe_outcome ctx (what n) s) as (rc & s1 & H1 & L1). rewrite (bind_eq _ _ _ _ _ H1).
  destruct (IH s1) as (found & s2 & new & H2 & L2 & [P1 P2]). rewrite (bind_eq _ _ _ _ _ H2).
  eexists _, s2, (new ++ [EvCtx ctx (what n) rc]). splits; [reflexivity|by rewrite L2, L1, <- app_assoc|].
  destruct (Z.eqb_spec rc 1) as [->|Hrc]; split.
  - intros m [<-|Hm]; [split; [by left|apply in_or_app; right; by left]|].
    destruct (P1 m Hm). split; [by right|apply in_or_app; by left].
  - intros m [<-|Hm]; [left; by left|]. destruct (P2 m Hm) as [|(r & ? & ?)]; [left; by right|].
    right. exists r. split; [done|apply in_or_app; by left].
  - intros m Hm. destruct (P1 m Hm). split; [by right|apply in_or_app; by left].
  - intros m [<-|Hm]; [right; exists rc; split; [done|apply in_or_app; right; by left]|].
    destruct (P2 m Hm) as [|(r & ? & ?)]; [by left|]. right. exists r. split; [done|apply in_or_app; by left].
Qed.

(** The other steps only extend the log. *)
Definition extends (s s' : St W) : Prop := exists new, st_log s' = new ++ st_log s.

Lemma extends_trans s1 s2 s3 : extends s1 s2 -> extends s2 s3 -> extends s1 s3.
Proof. intros [n1 L1] [n2 L2]. exists (n2 ++ n1). by rewrite L2, L1, app_assoc. Qed.

Lemma emits_extends {A} P (m : io W A) s : emits P m -> extends s (m s).2.
Proof. intros Hm. destruct (Hm s) as (n & L & _). by exists n. Qed.

Lemma emits_probe (m : io W Z) : emits (fun _ => True) m -> emits (fun _ => True) (probe m).
Proof. intros Hm. apply emits_bind; [done|intros rc]. case_match; auto with pqtls. Qed.

Lemma emits_ctx_set ctx what : emits (fun _ => True) (ctx_set ctx what).
Proof. by apply emits_call_ev. Qed.

Lemma emits_init : emits (fun _ => True) initialize_openssl.
Proof. unfold initialize_openssl. apply emits_bind; [auto with pqtls|intros]. case_match; auto with pqtls. Qed.

Lemma emits_supports a : emits (fun _ => True) (openssl_supports_algorithm a).
Proof.
  unfold openssl_supports_algorithm. apply emits_bind; [apply emits_init|intros _].
  apply emits_bind; [by apply emits_call_ev|intros raw]. apply emits_bind; [by apply emits_adopt|intros _].
  case_match; [auto with pqtls|]. apply emits_probe.
  apply emits_bind; [by apply emits_call_ev|intros rc]. apply emits_bind; [by apply emits_dispose|auto with pqtls].
Qed.

Lemma emits_tls13 ctx : emits (fun _ => True) (probe_tls13 ctx).
Proof.
  unfold probe_tls13. apply emits_bind; [apply emits_ctx_set|intros rc].
  apply emits_bind; [|intros b; apply emits_silent; destruct b; simpl; auto 6 with pqtls].
  case_match; [|auto with pqtls]. apply emits_bind; [apply emits_ctx_set|auto with pqtls].
Qed.

Lemma emits_probe_all (p : string -> io W bool) names :
  (forall n, emits (fun _ => True) (p n)) -> emits (fun _ => True) (probe_all p names).
Proof.
  intros Hp. induction names as [|n names IH]; simpl; [auto with pqtls|].
  apply emits_bind; [done|intros b]. apply emits_bind; [done|auto with pqtls].
Qed.

Lemma bind_extends {A B} (m : io W A) (k : A -> io W B) s b s' :
  (m ≫= k) s = (Ok b, s') -> emits (fun _ => True) m ->
  exists a s1, m s = (Ok a, s1) /\ extends s s1 /\ k a s1 = (Ok b, s').
Proof.
  intros (a & s1 & H1 & H2)%bind_inv Hm. exists a, s1. splits; [done| |done].
  pose proof (emits_extends _ m s Hm) as He. by rewrite H1 in He.
Qed.

Lemma algorithm_probed_incl a b new new' :
  (forall e, In e new -> In e new') -> algorithm_probed a b new -> algorithm_probed a b new'.
Proof. intros H. destruct b; simpl; [auto|]. intros [?|(rc & ? & ?)]; [auto|right; eauto]. Qed.

Lemma tls13_probed_incl ctx b new new' :
  (forall e, In e new -> In e new') -> tls13_probed ctx b new -> tls13_probed ctx b new'.
Proof. intros H. destruct b; simpl; [naive_solver|]. intros (rc & ? & [?|?]); exists rc; auto. Qed.

Lemma ctx_set_inv ctx what (s : St W) rc s' :
  ctx_set ctx what s = (Ok rc, s') -> st_log s' = EvCtx ctx what rc :: st_log s.
Proof.
  unfold ctx_set. destruct (SSL_CTX_set ctx what (st_world s) (st_errq s)) as [r [w q]] eqn:E.
  rewrite (call_ev_eq _ _ _ _ _ _ E). by intros [= <- <-].
Qed.

Lemma probe_tls13_outcome ctx (s : St W) b s' :
  probe_tls13 ctx s = (Ok b, s') -> exists new, st_log s' = new ++ st_log s /\ tls13_probed ctx b new.
Proof.
  unfold probe_tls13. intros (rc & s1 & H1 & H)%bind_inv. apply ctx_set_inv in H1.
  apply bind_inv in H as (b' & s2 & H2 & H). apply bind_inv in H as (u & s3 & H3 & H).
  injection H as -> <-.
  assert (L3 : st_log s3 = st_log s2).
  { assert (Hs : silent (W := W) (if negb b then drain_openssl_errors ;; mret tt else mret tt))
      by (destruct b; simpl; auto with pqtls).
    specialize (Hs s2). by rewrite H3 in Hs. }
  rewrite L3. destruct (Z.eqb_spec rc 1) as [->|Hr].
  - apply bind_inv in H2 as (r2 & s4 & H4 & H2). apply ctx_set_inv in H4. injection H2 as <- <-.
    eexists [_; _]. rewrite H4, H1. split; [reflexivity|]. destruct (Z.eqb_spec r2 1) as [->|Hr2]; simpl; [auto|].
    exists r2. auto.
  - injection H2 as <- <-. eexists [_]. rewrite H1. split; [reflexivity|]. exists rc. simpl. auto.
Qed.

Lemma supports_outcome a (s : St W) b s' :
  openssl_supports_algorithm a s = (Ok b, s') -> exists new, st_log s' = new ++ st_log s /\ algorithm_probed a b new.
Proof.
  unfold openssl_supports_algorithm. intros (? & s1 & _ & [n1 L1] & H)%bind_extends; [|apply emits_init].
  destruct (EVP_PKEY_CTX_new_from_name a (st_world s1) (st_errq s1)) as [raw [w q]] eqn:E.
  rewrite (bind_eq _ _ _ _ _ (call_ev_eq _ _ _ _ _ _ E)) in H.
  unfold adopt, dispose in H. destruct (Z.eqb_spec raw 0) as [->|Hraw].
  - unfold mbind, M_bind, drain_openssl_errors in H. simpl in H. destruct (drain_queue q).
    injection H as <- <-. exists (EvPkeyCtx a 0 :: n1). simpl. rewrite L1. auto.
  - apply bind_inv in H as (? & s2 & H2 & H). injection H2 as <- <-. unfold probe in H. simpl in H.
    apply bind_inv in H as (rc & s3 & H3 & H).
    apply bind_inv in H3 as (rc' & s4 & H4 & H3). apply bind_inv in H3 as (? & s5 & H5 & H3).
    injection H5 as _ <-. injection H3 as -> <-.
    unfold call_ev in H4. apply bind_inv in H4 as (rc' & s6 & H6 & H4). apply bind_inv in H4 as (? & s7 & H7 & H4).
    injection H7 as _ <-. injection H4 as -> <-. unfold call in H6. simpl in H6.
    destruct (EVP_PKEY_keygen_init raw w q) as [r [w2 q2]]. injection H6 as -> <-. simpl in H.
    destruct (Z.eqb_spec rc 1) as [->|Hrc].
    + injection H as <- <-. eexists (_ :: _ :: _ :: _ :: n1). simpl. rewrite L1. split; [reflexivity|]. simpl. auto.
    + unfold mbind, M_bind, drain_openssl_errors in H. simpl in H. destruct (drain_queue q2).
      injection H as <- <-. eexists (_ :: _ :: _ :: _ :: n1). simpl. rewrite L1.
      split; [reflexivity|]. right. exists rc. simpl. auto.
Qed.

(** C40: Capability detection reports what was probed.  When it returns, it has
    made one context of its own in this run, and on it libssl accepted exactly
    the candidate groups, signature algorithms and cipher suites that are
    listed and refused each other candidate; TLS 1.3 is reported available
    exactly when both version bounds were accepted, ML-KEM and ML-DSA exactly
    when key generation could be initialised for that algorithm.  The profiles
    are those of the registry in order; a profile is usable exactly when TLS
    1.3 is available, every group and every cipher suite it lists is among
    those reported, and ML-DSA is available if it authenticates with it; and
    looking a profile up gives the evaluation of the registry's profile of that
    name. *)
Theorem capabilities_sound registry s caps s' :
  Capabilities_detect registry s = (Ok caps, s') ->
  (exists ctx new, st_log s' = new ++ st_log s /\ In (EvNew ObjCtx ctx) new /\
     tls13_probed ctx (tls13_available caps) new /\
     probed ctx CtxGroups kCandidateGroups (tls_groups caps) new /\
     probed ctx CtxSigalgs kCandidateSignatureAlgorithms (signature_algorithms caps) new /\
     probed ctx CtxCiphersuites kCandidateCipherSuites (cap_cipher_suites caps) new /\
     algorithm_probed "ML-KEM-768" (mlkem_available caps) new /\
     algorithm_probed "ML-DSA-65" (mldsa_available caps) new) /\
  Forall2 (fun p a => pa_profile_id a = id p /\ pa_experimental a = experimental p /\
             (usable a = true <-> satisfied caps p)) registry (cap_profiles caps) /\
  (forall k, match Capabilities_profile caps k, registry_find registry k with
             | Some a, Some p => usable a = true <-> satisfied caps p
             | None, None => True
             | _, _ => False
             end).
Proof.
  intros H. unfold Capabilities_detect in H.
  apply bind_extends in H as (? & s1 & _ & E1 & H); [|apply emits_init].
  apply bind_extends in H as (rt & s2 & _ & E2 & H); [|auto with pqtls].
  apply bind_extends in H as (num & s3 & _ & E3 & H); [|auto with pqtls].
  apply bind_extends in H as (names & s4 & _ & E4 & H); [|unfold loaded_providers; auto with pqtls].
  apply bind_extends in H as (ctx & s5 & _ & E5 & H); [|auto with pqtls].
  assert (E : extends s s5) by eauto 9 using extends_trans. clear E1 E2 E3 E4 E5.
  apply bind_inv in H as (? & s5' & Ha & H). apply scoped_inv in H as (s13 & H & ->).
  apply bind_inv in H as (? & s6 & H6 & H). unfold adopt in Ha.
  destruct (ctx =? 0); [by apply throw_openssl_never in H6|]. injection H6 as _ <-. injection Ha as _ <-.
  assert (E13 : extends s13 (dispose ObjCtx ctx s13).2) by (eexists; apply dispose_log).
  apply bind_inv in H as (tls13 & s7 & Ht & H).
  apply probe_tls13_outcome in Ht as (newt & Lt & Pt). simpl in Lt.
  apply bind_inv in H as (groups & s8 & Hg & H).
  destruct (probe_all_probed ctx CtxGroups kCandidateGroups s7) as (g' & s8' & newg & Hg' & Lg & Pg).
  rewrite Hg' in Hg. injection Hg as -> ->.
  apply bind_inv in H as (sigs & s9 & Hs & H).
  destruct (probe_all_probed ctx CtxSigalgs kCandidateSignatureAlgorithms s8) as (a' & s9' & news & Hs' & Ls & Ps).
  unfold probe_signature_algorithm in Hs. rewrite Hs' in Hs. injection Hs as -> ->.
  apply bind_inv in H as (suites & s10 & Hu & H).
  destruct (probe_all_probed ctx CtxCiphersuites kCandidateCipherSuites s9) as (u' & s10' & newu & Hu' & Lu & Pu).
  unfold probe_cipher_suite in Hu. rewrite Hu' in Hu. injection Hu as -> ->.
  apply bind_inv in H as (mlkem & s11 & Hk & H). apply supports_outcome in Hk as (n11 & L11 & P11).
  apply bind_inv in H as (mldsa & s12 & Hd & H). apply supports_outcome in Hd as (n12 & L12 & P12).
  injection H as <- <-. unfold Capabilities_profile.
  destruct E as [n5 L5], E13 as [n13 L13].
  set (caps := mkCapabilities _ _ _ _ _ _ _ _ _ _ _).
  assert (Hev : forall p, usable (evaluate_profile tls13 mldsa groups suites p) = true <-> satisfied caps p)
    by (intros p; apply (evaluate_usable caps)).
  split.
  { exists ctx, (n13 ++ n12 ++ n11 ++ newu ++ news ++ newg ++ newt ++ EvNew ObjCtx ctx :: n5). splits.
    + by rewrite L13, L12, L11, Lu, Ls, Lg, Lt, L5, <- !app_assoc.
    + rewrite !in_app_iff. do 7 right. by left.
    + eapply tls13_probed_incl, Pt. intros e He. rewrite !in_app_iff. tauto.
    + eapply probed_incl, Pg. intros e He. rewrite !in_app_iff. tauto.
    + eapply probed_incl, Ps. intros e He. rewrite !in_app_iff. tauto.
    + eapply probed_incl, Pu. intros e He. rewrite !in_app_iff. tauto.
    + eapply algorithm_probed_incl, P11. intros e He. rewrite !in_app_iff. tauto.
    + eapply algorithm_probed_incl, P12. intros e He. rewrite !in_app_iff. tauto. }
  change (cap_profiles caps) with (map (evaluate_profile tls13 mldsa groups suites) registry).
  clearbody caps. split.
  - clear - Hev. induction registry as [|p r IH]; by constructor.
  - intros k. unfold registry_find. clear - Hev.
    induction registry as [|p r IH]; simpl; [done|]. by destruct (String.eqb (id p) k).
Qed.

End probes.

(** An OpenSSL build with classical groups and X25519MLKEM768 but without
    ML-DSA. *)
Definition lab_ctx {W : Type} : CtxApi W := {|
  OPENSSL_init_ssl := fun w q => (1, (w, q));
  SSL_CTX_new := fun _ w q => (7, (w, q));
  SSL_CTX_set := fun _ what w q =>
    (match what with
     | CtxGroups g => if contains ["X25519"; "X25519MLKEM768"] g then 1 else 0
     | _ => 1
     end, (w, q));
  keylog_open := fun _ w q => (true, (w, q));
  SSL_new := fun _ w q => (9, (w, q));
  SSL_set_fd := fun _ _ w q => (1, (w, q));
  SSL_get_version := fun _ w q => (None, (w, q));
  SSL_cipher_name := fun _ w q => (None, (w, q));
  SSL_get0_group_name := fun _ w q => (None, (w, q));
  SSL_get_peer_signature_nid := fun _ w q => ((0, 0), (w, q));
  OBJ_nid2sn := fun _ => None;
  SSL_session_reused := fun _ w q => (0, (w, q));
  SSL_get1_peer_certificate := fun _ w q => (0, (w, q));
  X509_get_subject_name := fun _ w q => (0, (w, q));
  X509_get_issuer_name := fun _ w q => (0, (w, q));
  BIO_new := fun w q => (1, (w, q));
  X509_NAME_print_ex := fun _ w q => ((0, ""), (w, q));
  SSL_get_verify_result := fun _ w q => (0, (w, q));
  X509_verify_cert_error_string := fun _ => None
|}.

Definition lab_openssl {W : Type} : CapApi W := {|
  OPENSSL_VERSION_TEXT := "OpenSSL 3.5.0";
  OpenSSL_version := fun w q => (Some "OpenSSL 3.5.0", (w, q));
  OpenSSL_version_num := fun w q => (811597824, (w, q));
  provider_names := fun w q => ([Some "default"; None], (w, q));
  EVP_PKEY_CTX_new_from_name := fun n w q => ((if String.eqb n "ML-KEM-768" then 3 else 0), (w, q));
  EVP_PKEY_keygen_init := fun _ w q => (1, (w, q))
|}.

Lemma capabilities_sound_witness :
  exists caps, tls_groups caps = ["X25519"; "X25519MLKEM768"] /\ satisfied caps lab_profile.
Proof.
  destruct (Capabilities_detect (RA := toy_clock) (CA := lab_ctx) (PA := lab_openssl) [lab_profile]
    (mkSt tt [] [])) as [r s1] eqn:E.
  assert (Hr : match r with
               | Ok caps => tls_groups caps = ["X25519"; "X25519MLKEM768"] /\
                            map usable (cap_profiles caps) = [true]
               | Throw _ => False
               end)
    by (change r with (fst (r, s1)); rewrite <- E; vm_compute; split; reflexivity).
  destruct r as [caps|x]; [|destruct Hr]. destruct Hr as [Hg Hu].
  destruct (capabilities_sound _ _ _ _ E) as (_ & HF & _). exists caps. split; [exact Hg|].
  inversion HF as [|p a r0 l (_ & _ & Ha) Hrest Hp Hc]; subst. apply Ha.
  rewrite <- Hc in Hu. simpl in Hu. by injection Hu.
Defined.

(** A profile that names a group outside the candidate table cannot be used,
    even when libssl accepts the group. *)
Example unlisted_group_unusable groups_ suites_ tls13 mldsa p g :
  (forall x, In x groups_ -> In x kCandidateGroups) -> In g (groups p) -> contains kCandidateGroups g = false ->
  usable (evaluate_profile tls13 mldsa groups_ suites_ p) = false.
Proof.
  intros Hsub Hg Hno. apply not_true_iff_false. intros Hu.
  apply (evaluate_usable (mkCapabilities "" "" "" [] tls13 groups_ [] suites_ true mldsa [])) in Hu
    as (_ & H & _). specialize (H g Hg). simpl in H. unfold has_group in H.
  apply any_of_true in H as (k & Hk & Heq). rewrite cap_iequals_eq in Heq. revert Hno. apply not_false_iff_true, any_of_true. eauto.
Qed.
