(* ===== verification/JsonLaws.v ===== *)
(** What the sources rely on from the JSON library: a document that is printed
    and read again is the document, up to the representation of non-negative
    integers.  The law is stated for well-formed documents, those the library
    can hold: objects with distinct keys in the order of a [std::map], 64-bit
    integers, finite floating-point numbers.  The sources call [dump()] without
    indentation where the text matters, so it is one line.  An instance that
    satisfies the laws closes the file. *)

From Stdlib Require Import Floats.SpecFloat.
From stdpp Require Import countable.
From S2P Require Import Prelude Errors Json Utf8 Metrics.

(** ** Well-formed documents *)

Definition key_below (k : string) (l : list string) : bool :=
  forallb (fun k' => match String.compare k k' with Lt => true | _ => false end) l.

Fixpoint keys_ordered (l : list string) : bool :=
  match l with
  | [] => true
  | k :: l' => key_below k l' && keys_ordered l'
  end.

Definition finite_double (f : double) : bool :=
  match f with
  | S754_zero _ => true
  | S754_finite _ m e => bounded 53 1024 m e
  | S754_infinity _ | S754_nan => false
  end.

Definition i64_min : Z := - 2 ^ 63.
Definition i64_max : Z := 2 ^ 63 - 1.

Fixpoint json_wf (j : json) : bool :=
  match j with
  | JNull | JBool _ | JString _ => true
  | JInt z => (i64_min <=? z) && (z <=? i64_max)
  | JUInt z => (0 <=? z) && (z <=? u64_max)
  | JFloat f => finite_double f
  | JArray l => forallb json_wf l
  | JObject o => keys_ordered (map fst o) && forallb (fun kv => json_wf kv.2) o
  end.

(** A text without a line break. *)
Definition newline : byte := Byte.x0a.
Definition one_line (text : string) : bool := forallb (fun b => negb (Byte.eqb b newline)) (bytes_of_string text).

(** ** The laws *)

Class JsonLaws (J : JsonLib) := {
  dump_parse : forall doc text, json_wf doc = true -> json_text doc = inr text ->
    json_parse text = Parsed (json_normalize doc);
  pretty_parse : forall doc text, json_wf doc = true -> json_pretty_text doc = inr text ->
    json_parse text = Parsed (json_normalize doc);
  dump_utf8 : forall doc text, json_text doc = inr text -> is_valid_utf8 text = true /\ text <> "";
  dump_one_line : forall doc text, json_text doc = inr text -> one_line text = true
}.

(** ** Documents the sources build are well formed *)

Lemma string_compare_trans a b c :
  String.compare a b = Lt -> String.compare b c = Lt -> String.compare a c = Lt.
Proof.
  revert b c. induction a as [|x a IH]; intros [|y b] [|z c]; simpl; try done.
  unfold Ascii.compare.
  destruct (N.compare_spec (N_of_ascii x) (N_of_ascii y)) as [->|Hxy|]; [| |done].
  - destruct (N.compare_spec (N_of_ascii y) (N_of_ascii z)); [by apply IH|done..].
  - destruct (N.compare_spec (N_of_ascii y) (N_of_ascii z)) as [<-|Hyz|]; [| |done]; intros _ _.
    + by apply N.compare_lt_iff in Hxy as ->.
    + by rewrite (proj2 (N.compare_lt_iff _ _) (N.lt_trans _ _ _ Hxy Hyz)).
Qed.

Lemma key_below_spec k l :
  key_below k l = true <-> Forall (fun k' => String.compare k k' = Lt) l.
Proof.
  unfold key_below. induction l as [|k' l IH]; simpl; [done|].
  rewrite andb_true_iff, Forall_cons_iff, IH. destruct (String.compare k k'); naive_solver.
Qed.

(** The keys after an insertion. *)
Lemma obj_set_below {A} k (o : list (string * A)) k' v :
  String.compare k k' = Lt -> key_below k (map fst o) = true ->
  key_below k (map fst (obj_set o k' v)) = true.
Proof.
  intros Hk. rewrite !key_below_spec. induction o as [|[k0 v0] o IH]; simpl; [by repeat constructor|].
  intros [H1 H2]%Forall_cons_iff. destruct (String.compare k' k0); simpl; constructor; auto; by constructor.
Qed.

Lemma obj_set_ordered {A} (o : list (string * A)) k v :
  keys_ordered (map fst o) = true -> keys_ordered (map fst (obj_set o k v)) = true.
Proof.
  induction o as [|[k0 v0] o IH]; simpl; [done|]. intros [H1 H2]%andb_true_iff.
  destruct (String.compare k k0) eqn:E; simpl.
  - by rewrite H1, H2.
  - rewrite E, H1, H2. simpl. rewrite andb_true_r. apply key_below_spec. apply key_below_spec in H1.
    eapply Forall_impl; [|exact H1]. intros k'. by apply string_compare_trans.
  - rewrite IH, andb_true_r by done. apply obj_set_below; [|done].
    by rewrite String.compare_antisym, E.
Qed.

Lemma obj_set_wf o k v :
  json_wf (JObject o) = true -> json_wf v = true -> json_wf (JObject (obj_set o k v)) = true.
Proof.
  cbn [json_wf]. intros [H1 H2]%andb_true_iff Hv. rewrite obj_set_ordered by done. simpl.
  clear H1. induction o as [|[k0 v0] o IH]; simpl in *; [by rewrite Hv|].
  apply andb_true_iff in H2 as [H2 H3]. destruct (String.compare k k0); simpl;
    rewrite ?Hv, ?H2, ?H3, ?IH; auto.
Qed.

Lemma json_set_wf j k v : json_wf j = true -> json_wf v = true -> json_wf (json_set j k v) = true.
Proof.
  destruct j; intros Hj Hv; unfold json_set; try (by apply obj_set_wf); simpl; by rewrite Hv.
Qed.

Lemma set_all_wf fields j :
  json_wf j = true -> forallb (fun kv => json_wf kv.2) fields = true -> json_wf (set_all j fields) = true.
Proof.
  unfold set_all. revert j. induction fields as [|[k v] fields IH]; simpl; [done|].
  intros j Hj [Hv Hf]%andb_true_iff. by apply IH; [apply json_set_wf|].
Qed.

Lemma normalize_keys (o : list (string * json)) : map fst (map (fun kv => (kv.1, json_normalize kv.2)) o) = map fst o.
Proof. induction o as [|[k v] o IH]; simpl; congruence. Qed.

Lemma normalize_wf j : json_wf j = true -> json_wf (json_normalize j) = true.
Proof.
  induction j using json_nested_ind; try done.
  - simpl. unfold i64_min, i64_max, u64_max. intros H. destruct (z <? 0) eqn:E; simpl; [done|].
    bool_props. apply andb_true_iff. rewrite !Z.leb_le. unfold u64_max. lia.
  - simpl. induction H as [|c l Hc _ IH]; simpl; [done|]. intros [? ?]%andb_true_iff. by rewrite Hc, IH.
  - cbn [json_normalize json_wf]. rewrite normalize_keys. intros [-> Ho]%andb_true_iff. simpl.
    induction H as [|c l Hc _ IH]; simpl in *; [done|]. apply andb_true_iff in Ho as [? ?]. by rewrite Hc, IH.
Qed.

Lemma normalize_idem j : json_normalize (json_normalize j) = json_normalize j.
Proof.
  induction j using json_nested_ind; try done.
  - simpl. destruct (z <? 0) eqn:E; simpl; by rewrite ?E.
  - simpl. f_equal. induction H as [|c l Hc _ IH]; simpl; [done|]. by rewrite Hc, IH.
  - simpl. f_equal. induction H as [|[k v] l Hc _ IH]; simpl in *; [done|]. by rewrite Hc, IH.
Qed.

(** ** An instance

    Documents are printed as the binary digits of their number in an
    enumeration of all documents; strings that are no UTF-8 are not refused,
    since the digits are text whatever they stand for. *)

#[local] Instance spec_float_eq_dec : EqDecision spec_float.
Proof. solve_decision. Defined.

#[local] Instance spec_float_countable : Countable spec_float.
Proof.
  refine (inj_countable' (fun f => match f with
    | S754_zero s => inl (inl s)
    | S754_infinity s => inl (inr s)
    | S754_nan => inr None
    | S754_finite s m e => inr (Some (s, m, e))
    end) (fun x => match x with
    | inl (inl s) => S754_zero s
    | inl (inr s) => S754_infinity s
    | inr None => S754_nan
    | inr (Some (s, m, e)) => S754_finite s m e
    end) _).
  by intros [].
Defined.

Definition json_leaf : Type := option (bool + (Z + (Z + (spec_float + string)))).

(** Keys are leaves between the members. *)
Fixpoint json_tree (j : json) : gen_tree json_leaf :=
  match j with
  | JNull => GenLeaf None
  | JBool b => GenLeaf (Some (inl b))
  | JInt z => GenLeaf (Some (inr (inl z)))
  | JUInt z => GenLeaf (Some (inr (inr (inl z))))
  | JFloat f => GenLeaf (Some (inr (inr (inr (inl f)))))
  | JString s => GenLeaf (Some (inr (inr (inr (inr s)))))
  | JArray l => GenNode 0 (map json_tree l)
  | JObject o => GenNode 1 (map (fun kv => GenNode 2 [GenLeaf (Some (inr (inr (inr (inr kv.1))))); json_tree kv.2]) o)
  end.

Fixpoint tree_json (t : gen_tree json_leaf) : json :=
  match t with
  | GenLeaf None => JNull
  | GenLeaf (Some (inl b)) => JBool b
  | GenLeaf (Some (inr (inl z))) => JInt z
  | GenLeaf (Some (inr (inr (inl z)))) => JUInt z
  | GenLeaf (Some (inr (inr (inr (inl f))))) => JFloat f
  | GenLeaf (Some (inr (inr (inr (inr s))))) => JString s
  | GenNode 0 l => JArray (map tree_json l)
  | GenNode _ l =>
      JObject (map (fun t => match t with
                             | GenNode _ [GenLeaf (Some (inr (inr (inr (inr k))))); v] => (k, tree_json v)
                             | _ => ("", JNull)
                             end) l)
  end.

Lemma tree_json_tree j : tree_json (json_tree j) = j.
Proof.
  induction j using json_nested_ind; simpl; try done; f_equal.
  - induction H as [|c l Hc _ IH]; simpl; congruence.
  - induction H as [|[k v] l Hc _ IH]; simpl in *; congruence.
Qed.

Fixpoint digits (p : positive) : string :=
  match p with
  | xH => "1"
  | xO p' => String "0" (digits p')
  | xI p' => String "1" (digits p')
  end.

Fixpoint of_digits (s : string) : option positive :=
  match s with
  | EmptyString => None
  | String c EmptyString => if Ascii.eqb c "1" then Some xH else None
  | String c s' => if Ascii.eqb c "1" then xI <$> of_digits s' else xO <$> of_digits s'
  end.

Lemma of_digits_digits p : of_digits (digits p) = Some p.
Proof.
  induction p as [p IH|p IH|]; simpl; try done; rewrite IH;
    destruct (digits p) eqn:E; simpl; try done; by destruct p.
Qed.

Definition enum_json : JsonLib := {|
  json_parse := fun t => match of_digits t ≫= decode (A := gen_tree json_leaf) with
                         | Some tree => Parsed (tree_json tree)
                         | None => ParseError "syntax error"
                         end;
  json_text := fun j => inr (digits (encode (json_tree (json_normalize j))));
  json_pretty_text := fun j => inr (digits (encode (json_tree (json_normalize j))))
|}.

Lemma digits_utf8 p : is_valid_utf8 (digits p) = true.
Proof. unfold is_valid_utf8. induction p as [p IH|p IH|]; [exact IH|exact IH|reflexivity]. Qed.

Lemma digits_line p : one_line (digits p) = true.
Proof. unfold one_line. induction p as [p IH|p IH|]; [exact IH|exact IH|reflexivity]. Qed.

#[export] Instance enum_json_laws : JsonLaws enum_json.
Proof.
  constructor.
  - intros doc text _ [= <-]. simpl. rewrite of_digits_digits. simpl. by rewrite decode_encode, tree_json_tree.
  - intros doc text _ [= <-]. simpl. rewrite of_digits_digits. simpl. by rewrite decode_encode, tree_json_tree.
  - intros doc text [= <-]. split; [apply digits_utf8|]. by destruct (encode _).
  - intros doc text [= <-]. apply digits_line.
Qed.
