(* ===== verification/LineWriter.v ===== *)
(** Files that several threads append lines to: [MetricsWriter] of
    [src/common/metrics.cpp] and the key log of [src/common/tls_context.cpp].

    [Metrics] treats [write] as one step; here it is taken apart into what the
    threads do one after the other, with the mutex, the buffer of the stream
    and its failures.  The mutex is what the standard says: at most one thread
    is past [lock_guard], the others wait, and any of them may be next.  An
    insertion appends to the buffer and may pass any part of the front on to
    the file; an operation of the system that fails leaves the stream bad, and
    a bad stream ignores insertions and flushes. *)

From stdpp Require Import relations.
From S2P Require Import Prelude Errors Runtime Json Framing Metrics JsonLaws.

(** ** The stream *)

Record Stream := mkStream {
  st_file : list byte;
  st_buffer : list byte;
  st_bad : bool
}.

(** [stream << text]. *)
Inductive put : Stream -> list byte -> Stream -> Prop :=
  | put_bad f b t : put (mkStream f b true) t (mkStream f b true)
  | put_some f b t moved rest bad :
      b ++ t = moved ++ rest -> put (mkStream f b false) t (mkStream (f ++ moved) rest bad).

(** [stream.flush()]. *)
Inductive sync : Stream -> Stream -> Prop :=
  | sync_bad f b : sync (mkStream f b true) (mkStream f b true)
  | sync_all f b : sync (mkStream f b false) (mkStream (f ++ b) [] false)
  | sync_fail f b moved rest :
      b = moved ++ rest -> sync (mkStream f b false) (mkStream (f ++ moved) rest true).

(** [stream.close()]: a last attempt to write the buffer. *)
Inductive shut : Stream -> Stream -> Prop :=
  | shut_some f b moved rest bad bad' :
      b = moved ++ rest -> (bad' = false -> bad = false /\ rest = []) ->
      shut (mkStream f b bad) (mkStream (f ++ moved) rest bad').

(** ** The writer *)

(** [MetricsWriter::write], [MetricsWriter::flush], [keylog_callback]. *)
Inductive wcall :=
  | Write (m : ConnectionMetrics)
  | Flush
  | Log (line : option string).

(** Where the thread that holds the mutex is. *)
Inductive critical :=
  | Formatting (m : ConnectionMetrics)     (* before to_jsonl_line *)
  | Inserting (c : wcall) (line : string)  (* before stream << line *)
  | Ending (c : wcall) (line : string)     (* before << '\n' *)
  | Flushing                               (* before flush *)
  | Unlocking.                             (* at the end of the scope *)

Record Writer := mkWriter {
  lw_alive : bool;
  lw_open : bool;
  lw_waiting : list wcall;
  lw_holder : option critical;
  lw_stream : Stream;
  lw_done : list (wcall * string)          (* lines ended so far, ghost *)
}.

Definition Writer_new (open : bool) (existing : list byte) : Writer :=
  mkWriter true open [] None (mkStream existing [] false) [].

(** What happens before the mutex is asked for: [write] returns when the
    stream is closed, the callback when it has no line. *)
Definition attempts (open : bool) (c : wcall) : bool :=
  match c with
  | Write _ => open
  | Flush => true
  | Log line => match line with Some _ => true | None => false end
  end.

(** The first thing done under the mutex. *)
Definition enter (open : bool) (c : wcall) : critical :=
  match c with
  | Write m => Formatting m
  | Flush => if open then Flushing else Unlocking
  | Log line => match line with
                | Some l => if open then Inserting c l else Unlocking
                | None => Unlocking
                end
  end.

Section writer.
Context {J : JsonLib}.

Inductive wstep : Writer -> Writer -> Prop :=
  (* a thread calls an operation and gets as far as the mutex *)
  | WCall open ws h st dn c :
      attempts open c = true ->
      wstep (mkWriter true open ws h st dn) (mkWriter true open (ws ++ [c]) h st dn)
  (* one of the waiting threads gets the mutex *)
  | WLock open ws1 c ws2 st dn :
      wstep (mkWriter true open (ws1 ++ c :: ws2) None st dn)
            (mkWriter true open (ws1 ++ ws2) (Some (enter open c)) st dn)
  (* to_jsonl_line *)
  | WFormat open ws m line st dn :
      to_jsonl_line m = Ok line ->
      wstep (mkWriter true open ws (Some (Formatting m)) st dn)
            (mkWriter true open ws (Some (Inserting (Write m) line)) st dn)
  (* it threw: the guard unlocks during unwinding *)
  | WThrow open ws m x st dn :
      to_jsonl_line m = Throw x ->
      wstep (mkWriter true open ws (Some (Formatting m)) st dn) (mkWriter true open ws None st dn)
  | WInsert open ws c line st st' dn :
      put st (bytes_of_string line) st' ->
      wstep (mkWriter true open ws (Some (Inserting c line)) st dn)
            (mkWriter true open ws (Some (Ending c line)) st' dn)
  | WEnd open ws c line st st' dn :
      put st [newline] st' ->
      wstep (mkWriter true open ws (Some (Ending c line)) st dn)
            (mkWriter true open ws (Some Flushing) st' (dn ++ [(c, line)]))
  | WFlush open ws st st' dn :
      sync st st' ->
      wstep (mkWriter true open ws (Some Flushing) st dn) (mkWriter true open ws (Some Unlocking) st' dn)
  | WUnlock open ws st dn :
      wstep (mkWriter true open ws (Some Unlocking) st dn) (mkWriter true open ws None st dn)
  (* the destructor, which runs when no thread uses the object any more *)
  | WDestroy (open : bool) st st1 st2 dn :
      (if open then sync st st1 /\ shut st1 st2 else st2 = st) ->
      wstep (mkWriter true open [] None st dn) (mkWriter false false [] None st2 dn).

Definition wreachable (open : bool) (existing : list byte) (w : Writer) : Prop :=
  rtc wstep (Writer_new open existing) w.

(** ** The abstract log: a list of lines, each appended at once *)

Definition renders (c : wcall) (line : string) : Prop :=
  match c with
  | Write m => to_jsonl_line m = Ok line
  | Log l => l = Some line
  | Flush => False
  end.

Definition render (lines : list string) : list byte :=
  concat (map (fun l => bytes_of_string l ++ [newline]) lines).

Definition lines (w : Writer) : list string := map snd (lw_done w).

(** The line that has been begun. *)
Definition begun (w : Writer) : list byte :=
  match lw_holder w with Some (Ending _ line) => bytes_of_string line | _ => [] end.

Definition contents (existing : list byte) (w : Writer) : list byte :=
  existing ++ render (lines w) ++ begun w.

(** Nothing is left in the buffer between the flush and the next insertion. *)
Definition settled_holder (h : option critical) : bool :=
  match h with Some (Ending _ _) | Some Flushing => false | _ => true end.

Record writer_inv (existing : list byte) (w : Writer) : Prop := {
  wi_prefix : exists missing, contents existing w = st_file (lw_stream w) ++ st_buffer (lw_stream w) ++ missing /\
    (st_bad (lw_stream w) = false -> missing = []);
  wi_kept : exists more, st_file (lw_stream w) = existing ++ more;
  wi_flushed : st_bad (lw_stream w) = false -> settled_holder (lw_holder w) = true ->
    st_buffer (lw_stream w) = [];
  wi_done : Forall (fun cl => renders cl.1 cl.2) (lw_done w);
  wi_holder : match lw_holder w with
              | Some (Inserting c line) | Some (Ending c line) => renders c line
              | _ => True
              end
}.

Lemma render_snoc ls l : render (ls ++ [l]) = render ls ++ bytes_of_string l ++ [newline].
Proof. unfold render. rewrite map_app, concat_app. simpl. by rewrite app_nil_r. Qed.

(** An insertion appends to what the stream holds, or is lost. *)
Lemma put_outcome st t st' :
  put st t st' -> exists more, st_file st' = st_file st ++ more /\
    (st_bad st = false -> st_file st' ++ st_buffer st' = st_file st ++ st_buffer st ++ t) /\
    (st_bad st = true -> st' = st).
Proof.
  intros [f b t0|f b t0 moved rest bad E]; simpl.
  - exists []. by rewrite app_nil_r.
  - exists moved. splits; [done| |done]. intros _. by rewrite <- app_assoc, <- E.
Qed.

Lemma sync_outcome st st' :
  sync st st' -> exists more, st_file st' = st_file st ++ more /\
    st_file st' ++ st_buffer st' = st_file st ++ st_buffer st /\
    (st_bad st = true -> st_bad st' = true) /\ (st_bad st' = false -> st_buffer st' = []).
Proof.
  intros [f b|f b|f b moved rest ->]; simpl.
  - exists []. by rewrite app_nil_r.
  - exists b. by rewrite app_nil_r.
  - exists moved. by rewrite <- app_assoc.
Qed.

Lemma shut_outcome st st' :
  shut st st' -> exists more, st_file st' = st_file st ++ more /\
    st_file st' ++ st_buffer st' = st_file st ++ st_buffer st /\
    (st_bad st = true -> st_bad st' = true) /\ (st_bad st' = false -> st_buffer st' = []).
Proof.
  intros [f b moved rest bad bad' -> Hb]. simpl. exists moved. rewrite <- app_assoc.
  destruct bad'; splits; try done; naive_solver.
Qed.

(** The file only grows, and every step extends the log by one rendered line
    or leaves it. *)
Lemma wstep_appends existing w w' :
  writer_inv existing w -> wstep w w' ->
  (exists more, st_file (lw_stream w') = st_file (lw_stream w) ++ more) /\
  (lw_done w' = lw_done w \/ exists c line, renders c line /\ lw_done w' = lw_done w ++ [(c, line)]).
Proof.
  intros [_ _ _ _ Hh] Hs. destruct Hs; simpl in *.
  all: try (split; [exists []; by rewrite app_nil_r|by left]).
  - apply put_outcome in H as (more & Hf & _). eauto.
  - apply put_outcome in H as (more & Hf & _). split; eauto.
  - apply sync_outcome in H as (more & Hf & _). eauto.
  - split; [|by left]. destruct open; [|exists []; by rewrite app_nil_r, H].
    destruct H as [(m1 & F1 & _)%sync_outcome (m2 & F2 & _)%shut_outcome].
    exists (m1 ++ m2). by rewrite F2, F1, app_assoc.
Qed.

(** What the stream holds is a prefix of the contents, all of them while it is
    good. *)
Definition holds (st : Stream) (contents : list byte) : Prop :=
  exists missing, contents = st_file st ++ st_buffer st ++ missing /\ (st_bad st = false -> missing = []).

Lemma holds_put st t st' contents : put st t st' -> holds st contents -> holds st' (contents ++ t).
Proof.
  intros (_ & _ & Hg & Hb)%put_outcome (missing & -> & Hm). destruct (st_bad st) eqn:E.
  - rewrite (Hb eq_refl). exists (missing ++ t). rewrite <- !app_assoc. split; [done|congruence].
  - rewrite Hm, app_nil_r by done. exists []. rewrite app_nil_r, <- app_assoc, Hg by done. done.
Qed.

Lemma holds_same st st' contents :
  st_file st' ++ st_buffer st' = st_file st ++ st_buffer st -> (st_bad st = true -> st_bad st' = true) ->
  holds st contents -> holds st' contents.
Proof.
  intros E Hb (missing & -> & Hm). exists missing. rewrite !app_assoc, E. split; [done|].
  intros Hb'. apply Hm. destruct (st_bad st); [|done]. rewrite Hb in Hb'; done.
Qed.

Lemma kept_more (existing f f' more : list byte) :
  f' = f ++ more -> (exists kept, f = existing ++ kept) -> exists kept, f' = existing ++ kept.
Proof. intros -> [kept ->]. exists (kept ++ more). by rewrite app_assoc. Qed.

Lemma writer_inv_stream existing open h h' st st' ws ws' dn open' alive alive' :
  st_file st' ++ st_buffer st' = st_file st ++ st_buffer st -> (st_bad st = true -> st_bad st' = true) ->
  (exists more, st_file st' = st_file st ++ more) -> (st_bad st' = false -> st_buffer st' = []) ->
  match h with Some (Ending _ _) => false | _ => true end = true -> h' = None \/ h' = Some Unlocking ->
  writer_inv existing (mkWriter alive open ws h st dn) ->
  writer_inv existing (mkWriter alive' open' ws' h' st' dn).
Proof.
  intros E Hb [more Hmore] Hbuf Hh Hh' [Hp Hk Hf Hd Ho]. constructor; simpl in *; try done.
  - apply (holds_same st); [done|done|]. unfold contents, begun in *. simpl in *.
    destruct h as [[]|], Hh' as [->| ->]; done.
  - by eapply kept_more.
  - auto.
  - by destruct Hh' as [->| ->].
Qed.

Lemma writer_inv_step existing w w' : writer_inv existing w -> wstep w w' -> writer_inv existing w'.
Proof.
  intros Hi Hs. pose proof (wstep_appends _ _ _ Hi Hs) as [[more Hmore] _].
  pose proof Hi as [Hp Hk Hf Hd Hh]. destruct Hs; simpl in *.
  - by constructor.
  - constructor; simpl; try done; unfold contents, begun in *; simpl in *; by destruct c as [| |[]], open.
  - by constructor.
  - by constructor.
  - constructor; simpl; [|by eapply kept_more|done|done|done].
    unfold contents, begun in *. simpl in *. rewrite app_nil_r in Hp. rewrite app_assoc.
    by eapply holds_put.
  - constructor; simpl; [|by eapply kept_more|done| |done].
    + eapply holds_put in Hp; [|done]. unfold contents, begun, lines in *. simpl in *.
      rewrite map_app. cbn [map snd]. rewrite render_snoc, app_nil_r. by rewrite <- !app_assoc in Hp.
    + apply Forall_app. split; [done|by repeat constructor].
  - apply sync_outcome in H as (m & F & E & Hb & Hn).
    eapply (writer_inv_stream _ open (Some Flushing) _ st st'); try done; [by exists more|by right].
  - by constructor.
  - destruct open; [|subst st2; by constructor].
    destruct H as [(m1 & F1 & E1 & B1 & N1)%sync_outcome (m2 & F2 & E2 & B2 & N2)%shut_outcome].
    eapply (writer_inv_stream _ true None _ st st2); try done; [by rewrite E2|auto|by exists more|by left].
Qed.

Lemma writer_inv_reachable open existing w : wreachable open existing w -> writer_inv existing w.
Proof.
  intros Hr. assert (Hi : writer_inv existing (Writer_new open existing)).
  { constructor; simpl; try done.
    - exists []. unfold contents, begun, lines. simpl. by rewrite !app_nil_r.
    - exists []. by rewrite app_nil_r. }
  unfold wreachable in Hr. revert Hi. induction Hr as [w|w1 w2 w3 Hs _ IH]; [done|].
  intros Hi. apply IH. by eapply writer_inv_step.
Qed.

(** ** Lines of a file *)

(** The lines of a file whose last line is ended. *)
Fixpoint split_lines (bs : list byte) (line : list byte) : list (list byte) :=
  match bs with
  | [] => []
  | b :: bs' => if Byte.eqb b newline then line :: split_lines bs' [] else split_lines bs' (line ++ [b])
  end.

Lemma split_line l rest line :
  forallb (fun b => negb (Byte.eqb b newline)) l = true ->
  split_lines (l ++ newline :: rest) line = (line ++ l) :: split_lines rest [].
Proof.
  revert line. induction l as [|b l IH]; intros line; simpl; [by rewrite app_nil_r|].
  intros [Hb Hl]%andb_true_iff. apply negb_true_iff in Hb. by rewrite Hb, IH, <- app_assoc.
Qed.

Lemma split_render ls :
  Forall (fun l => one_line l = true) ls -> split_lines (render ls) [] = map bytes_of_string ls.
Proof.
  induction 1 as [|l ls Hl _ IH]; [done|]. unfold render in *. simpl.
  rewrite <- app_assoc. simpl. rewrite split_line by done. by rewrite IH.
Qed.

Definition is_write (c : wcall) : bool := match c with Write _ => true | _ => false end.

Lemma written_lines `{!JsonLaws J} w :
  Forall (fun cl => renders cl.1 cl.2) (lw_done w) -> Forall (fun cl => is_write cl.1 = true) (lw_done w) ->
  Forall (fun l => one_line l = true) (lines w).
Proof.
  unfold lines. induction (lw_done w) as [|[c l] dn IH]; intros H1 H2; simpl; [constructor|].
  inversion H1 as [|? ? Hr H1']; subst. inversion H2 as [|? ? Hw H2']; subst. constructor; [|by apply IH].
  destruct c as [m| |]; [|done..]. simpl in Hr. unfold to_jsonl_line, json_dump in Hr.
  destruct (json_text _) as [what|text] eqn:E; [done|]. injection Hr as <-. by eapply dump_one_line.
Qed.

Lemma render_app a b : render (a ++ b) = render a ++ render b.
Proof. unfold render. by rewrite map_app, concat_app. Qed.

(** ** Reading the file again *)

(** The fields a JSON document can hold: 64-bit integers and finite times. *)
Definition opt_wf {A} (f : A -> bool) (o : option A) : bool := match o with Some a => f a | None => true end.

Definition u64_wf (z : Z) : bool := (0 <=? z) && (z <=? u64_max).

Definition metrics_wf (m : ConnectionMetrics) : bool :=
  (i64_min <=? m_schema_version m) && (m_schema_version m <=? i64_max) &&
  finite_double (m_handshake_ms m) && finite_double (m_connection_ms m) &&
  u64_wf (m_application_bytes_sent m) && u64_wf (m_application_bytes_received m) &&
  opt_wf u64_wf (m_transport_bytes_sent m) && opt_wf u64_wf (m_transport_bytes_received m) &&
  u64_wf (m_protocol_message_count m) && opt_wf finite_double (m_process_cpu_user_ms m) &&
  opt_wf finite_double (m_process_cpu_system_ms m) && opt_wf u64_wf (m_peak_memory_kib m).

Lemma json_of_option_wf {A} (f : A -> json) (g : A -> bool) o :
  (forall a, json_wf (f a) = g a) -> json_wf (json_of_option f o) = opt_wf g o.
Proof. intros H. destruct o; simpl; auto. Qed.

Lemma metrics_json_wf m : metrics_wf m = true -> json_wf (ConnectionMetrics_to_json m) = true.
Proof.
  unfold metrics_wf. intros H. repeat (apply andb_true_iff in H as [H ?]). apply set_all_wf; [done|].
  unfold metrics_fields. cbn [forallb snd].
  rewrite !(json_of_option_wf _ u64_wf), !(json_of_option_wf _ finite_double) by done.
  rewrite (json_of_option_wf _ (fun _ => true)) by done. cbn [json_wf]. fold (u64_wf (m_application_bytes_sent m)).
  fold (u64_wf (m_application_bytes_received m)) (u64_wf (m_protocol_message_count m)).
  repeat match goal with Hx : _ = true |- _ => rewrite Hx; clear Hx end.
  by destruct (m_error_category m), (m_error_message m).
Qed.

(** A line read as an analysis would. *)
Definition read_record (line : list byte) : option ConnectionMetrics :=
  match json_parse (string_of_bytes line) with
  | Parsed doc => metrics_of_json doc
  | _ => None
  end.

Definition record_of (c : wcall) : option ConnectionMetrics := match c with Write m => Some m | _ => None end.

Definition writes_wf (cl : wcall * string) : Prop := exists m, cl.1 = Write m /\ metrics_wf m = true.

Lemma read_record_line `{!JsonLaws J} m line :
  metrics_wf m = true -> to_jsonl_line m = Ok line -> read_record (bytes_of_string line) = Some m.
Proof.
  intros Hw. unfold to_jsonl_line, json_dump, read_record. destruct (json_text _) as [what|text] eqn:E; [done|].
  intros [= <-]. rewrite string_of_bytes_of_string, (dump_parse _ _ (metrics_json_wf m Hw) E).
  apply metrics_of_json_normalize.
Qed.

(** ** Claims *)

(** C34: What is measured can be read again.  Metrics records with finite times,
    written by any number of threads to a fresh file, come back one per line,
    in the order in which they were written, every field as it was: absent
    measurements are absent and not zero, the three post-quantum flags are
    separate.  This for a JSON library that reads back what it prints on one
    line, and a file whose writes succeeded. *)
Theorem metrics_file_roundtrip {JL : JsonLaws J} open w :
  wreachable open [] w -> st_bad (lw_stream w) = false -> lw_holder w = None ->
  Forall writes_wf (lw_done w) ->
  map read_record (split_lines (st_file (lw_stream w)) []) = map (fun cl => record_of cl.1) (lw_done w).
Proof.
  intros Hr Hg Hh Hw. destruct (writer_inv_reachable _ _ _ Hr) as [(missing & Hc & Hm) _ Hf Hd _].
  unfold contents, begun in Hc. rewrite Hh, Hm, Hf, !app_nil_r in Hc by (done || by rewrite Hh).
  simpl in Hc. rewrite <- Hc, split_render.
  - clear - JL Hd Hw. unfold lines. induction Hw as [|[c line] dn (m & Hcm & Hm) _ IH]; [done|].
    inversion Hd as [|? ? Hren Hd']; subst. simpl in *. subst c. f_equal; [|by apply IH].
    by apply read_record_line.
  - apply written_lines; [done|]. eapply Forall_impl; [|exact Hw]. by intros [c l] (m & -> & _).
Qed.

(** C20: Threads that share a metrics file or the key log append whole lines.
    In every interleaving, and whatever part of its buffer the stream passes
    on or fails to: each step leaves the log of lines or appends one line that
    is the rendering of its call; the file is only appended to, and holds a
    prefix of the earlier contents followed by the lines in order and the line
    that has been begun.  While no operation of the system has failed, the
    file holds all of them whenever no thread is inside, so that a run killed
    between two records has lost none; and if all calls were [write] on a file
    of lines, splitting it at the line breaks gives the earlier lines and
    exactly one for each record. *)
Theorem line_writer_refines_log `{!JsonLaws J} open existing w :
  wreachable open existing w ->
  let st := lw_stream w in
  (forall w', wstep w w' ->
     (exists more, st_file (lw_stream w') = st_file st ++ more) /\
     (lines w' = lines w \/ exists c line, renders c line /\ lines w' = lines w ++ [line])) /\
  (exists kept, st_file st = existing ++ kept) /\
  (exists missing, existing ++ render (lines w) ++ begun w = st_file st ++ st_buffer st ++ missing) /\
  (st_bad st = false -> lw_holder w = None ->
     st_file st = existing ++ render (lines w) /\
     forall old, existing = render old -> Forall (fun l => one_line l = true) old ->
       Forall (fun cl => is_write cl.1 = true) (lw_done w) ->
       split_lines (st_file st) [] = map bytes_of_string (old ++ lines w)).
Proof.
  intros Hr st. pose proof (writer_inv_reachable _ _ _ Hr) as Hi. pose proof Hi as [Hp Hk Hf Hd _].
  destruct Hp as (missing & Hc & Hm). splits.
  - intros w' Hs. destruct (wstep_appends _ _ _ Hi Hs) as [H1 H2]. split; [done|]. unfold lines.
    destruct H2 as [->|(c & line & Hren & ->)]; [by left|right]. exists c, line. split; [done|]. by rewrite map_app.
  - exact Hk.
  - by exists missing.
  - intros Hg Hh. assert (Hfile : st_file st = existing ++ render (lines w)).
    { unfold contents, begun in Hc. rewrite Hh, Hm, Hf, !app_nil_r in Hc by (done || by rewrite Hh). done. }
    split; [done|]. intros old -> Hold Hw. rewrite Hfile, <- render_app. apply split_render.
    apply Forall_app. split; [done|by apply written_lines].
Qed.

End writer.

(** One record appended to a file that has a line. *)
Lemma line_writer_refines_log_witness :
  exists w line, wreachable (J := enum_json) true (render ["old"]) w /\ lines w = [line] /\
    split_lines (st_file (lw_stream w)) [] = [bytes_of_string "old"; bytes_of_string line].
Proof.
  destruct (to_jsonl_line (H := enum_json) ConnectionMetrics_default) as [line|x] eqn:E; [|discriminate E].
  set (done_ := [(Write ConnectionMetrics_default, line)]).
  set (w := mkWriter true true [] None
              (mkStream (render ["old"] ++ bytes_of_string line ++ [newline]) [] false) done_).
  assert (Hr : wreachable (J := enum_json) true (render ["old"]) w).
  { eapply rtc_l; [apply WCall with (c := Write ConnectionMetrics_default); reflexivity|simpl].
    eapply rtc_l; [apply (WLock _ []) with (ws2 := [])|simpl].
    eapply rtc_l; [apply WFormat, E|].
    eapply rtc_l; [apply WInsert, (put_some _ _ _ [] (bytes_of_string line) false); reflexivity|].
    eapply rtc_l; [apply WEnd, (put_some _ _ _ [] (bytes_of_string line ++ [newline]) false); reflexivity|].
    eapply rtc_l; [apply WFlush, sync_all|]. eapply rtc_l; [apply WUnlock|].
    rewrite !app_nil_r. apply rtc_refl. }
  exists w, line. split; [exact Hr|]. split; [reflexivity|].
  destruct (line_writer_refines_log (J := enum_json) true (render ["old"]) w Hr) as (_ & _ & _ & H).
  destruct (H eq_refl eq_refl) as [_ Hsplit].
  apply (Hsplit ["old"]); [reflexivity|repeat constructor|repeat constructor].
Defined.

(** Two threads, the second record first. *)
Lemma metrics_file_roundtrip_witness :
  exists w, wreachable (J := enum_json) true [] w /\
    map (read_record (J := enum_json)) (split_lines (st_file (lw_stream w)) []) =
    [Some (count_message ConnectionMetrics_default); Some ConnectionMetrics_default].
Proof.
  destruct (to_jsonl_line (H := enum_json) ConnectionMetrics_default) as [line|x] eqn:E; [|discriminate E].
  destruct (to_jsonl_line (H := enum_json) (count_message ConnectionMetrics_default)) as [line2|x] eqn:E2;
    [|discriminate E2].
  set (file := bytes_of_string line2 ++ [newline] ++ bytes_of_string line ++ [newline]).
  set (w := mkWriter true true [] None (mkStream file [] false)
    [(Write (count_message ConnectionMetrics_default), line2); (Write ConnectionMetrics_default, line)]).
  assert (Hr : wreachable (J := enum_json) true [] w).
  { eapply rtc_l; [apply WCall with (c := Write ConnectionMetrics_default); reflexivity|simpl].
    eapply rtc_l; [apply WCall with (c := Write (count_message ConnectionMetrics_default)); reflexivity|simpl].
    eapply rtc_l; [apply (WLock _ [Write ConnectionMetrics_default]) with (ws2 := [])|].
    eapply rtc_l; [apply WFormat, E2|].
    eapply rtc_l; [apply WInsert, (put_some _ _ _ [] (bytes_of_string line2) false); reflexivity|].
    eapply rtc_l; [apply WEnd, (put_some _ _ _ [] (bytes_of_string line2 ++ [newline]) false); reflexivity|].
    eapply rtc_l; [apply WFlush, sync_all|]. eapply rtc_l; [apply WUnlock|].
    eapply rtc_l; [apply (WLock _ []) with (ws2 := [])|].
    eapply rtc_l; [apply WFormat, E|].
    eapply rtc_l; [apply WInsert, (put_some _ _ _ [] (bytes_of_string line) false); reflexivity|].
    eapply rtc_l; [apply WEnd, (put_some _ _ _ [] (bytes_of_string line ++ [newline]) false); reflexivity|].
    eapply rtc_l; [apply WFlush, sync_all|]. eapply rtc_l; [apply WUnlock|].
    rewrite !app_nil_r. cbn [app]. rewrite <- app_assoc. apply rtc_refl. }
  exists w. split; [exact Hr|].
  apply (metrics_file_roundtrip (J := enum_json) true w Hr eq_refl eq_refl).
  repeat constructor; eexists; (split; [reflexivity|vm_compute; reflexivity]).
Defined.
