(* ===== verification/Gate.v ===== *)
(** What the two peers share around a connection: sending and receiving
    messages over an established TLS connection (the shapes that
    [src/server/server.cpp] and [src/client/client.cpp] both write out), and
    the vocabulary of their central property, that no application data moves
    before the policy checks passed. *)

From S2P Require Import Prelude Errors Runtime Json Framing Identifiers Message Profile Config.
From S2P Require Import Transport Metrics TlsContext.

Definition kReadChunk : Z := 16 * 1024.

(** ** Messages over an established connection *)

Section exchange.
Context {W : Type} {RA : RuntimeApi W} {J : JsonLib} {EA : EnvApi W} {SA : SocketApi W}
  {LA : SslApi W} {CA : CtxApi W} {MA : MetricsApi W}.

(** Serialise, frame and write a message. *)
Definition send_message (ssl : Z) (message : Message) (max_frame : Z) (counters : IoCounters)
    : io W IoCounters :=
  payload ← liftM (Message_serialize message);
  out_frame ← liftM (encode payload max_frame);
  ssl_write_all ssl out_frame counters.

(** Run a decoder operation; an exception leaves the decoder's scope. *)
Definition on_decoder {A} (m : M Decoder A) (d : Decoder) : result (A * Decoder) :=
  match m d with
  | (Ok a, d') => Ok (a, d')
  | (Throw x, _) => Throw x
  end.

(** Read once and feed the decoder: [None] when the peer has closed. *)
Definition read_more (ssl : Z) (decoder : Decoder) (counters : IoCounters)
    : io W (option (Decoder * IoCounters)) :=
  '(data, counters) ← ssl_read_some ssl kReadChunk counters;
  match data with
  | [] => mret None
  | _ =>
      '(_, decoder) ← liftM (on_decoder (feed data) decoder);
      mret (Some (decoder, counters))
  end.

End exchange.

(** ** Silent pieces *)

Section silent_pieces.
Context {W : Type} {RA : RuntimeApi W} {J : JsonLib} {EA : EnvApi W} {SA : SocketApi W}
  {LA : SslApi W} {CA : CtxApi W} {MA : MetricsApi W}.

Lemma silent_uuid : silent generate_uuid_v4.
Proof.
  unfold generate_uuid_v4. apply silent_bind; [auto with pqtls|intros [rc w]].
  case_match; auto with pqtls.
Qed.

Lemma silent_now : silent iso8601_now.
Proof. unfold iso8601_now. auto with pqtls. Qed.

Lemma silent_make_ack r t : silent (make_acknowledgement r t).
Proof. unfold make_acknowledgement. auto using silent_now with pqtls. Qed.

Lemma silent_make_error r t : silent (make_error r t).
Proof.
  unfold make_error. apply silent_bind; [case_match; auto using silent_uuid with pqtls|].
  auto using silent_now with pqtls.
Qed.

Lemma silent_parse text : silent (Message_parse text).
Proof.
  unfold Message_parse, parse_message_id, parse_timestamp.
  repeat (apply silent_bind; [try apply silent_lift|intros ?]); try apply silent_ret.
  all: case_match; auto 8 using silent_uuid, silent_now with pqtls.
Qed.

Lemma silent_catch {A} (m : io W A) p h :
  silent m -> (forall x, silent (h x)) -> silent (try_catch m p h).
Proof.
  intros Hm Hh s. unfold try_catch. specialize (Hm s).
  destruct (m s) as [[a|x] s']; simpl in *; [done|]. destruct (p x); [|done]. by rewrite Hh.
Qed.

Lemma silent_stopwatch : silent Stopwatch_start.
Proof. unfold Stopwatch_start. auto with pqtls. Qed.

Lemma silent_elapsed t : silent (elapsed_ms t).
Proof. unfold elapsed_ms. auto with pqtls. Qed.

Lemma silent_usage : silent ResourceUsage_sample.
Proof. unfold ResourceUsage_sample. apply silent_bind; [auto with pqtls|intros []; auto with pqtls]. Qed.

End silent_pieces.

#[export] Hint Resolve silent_uuid silent_now silent_make_ack silent_make_error silent_parse
  silent_stopwatch silent_elapsed silent_usage : pqtls.

(** ** Pieces that only create and free objects *)

Definition on_object (e : Event) : Prop :=
  match e with EvNew _ _ | EvFree _ _ => True | _ => False end.

(** A class of events that leaves objects out of account. *)
Definition indifferent (P : Event -> Prop) : Prop := forall e, on_object e -> P e.

#[export] Hint Extern 0 (indifferent _) => by intros [] : pqtls.

Section object_pieces.
Context {W : Type} {RA : RuntimeApi W} {CA : CtxApi W}.

Lemma emits_new_ssl P t : indifferent P -> emits P (new_ssl t).
Proof.
  intros HP. unfold new_ssl. apply emits_bind; [auto with pqtls|intros].
  apply emits_bind; [by apply emits_adopt, HP|intros; case_match; auto with pqtls].
Qed.

Lemma throws_new_ssl (P : exn -> Prop) t :
  (forall d, P (Raise false (Error_make CatInternal "SSL_new failed" d))) -> throws P (new_ssl t).
Proof.
  intros HP. unfold new_ssl. apply throws_bind; [apply throws_call|intros].
  apply throws_bind; [apply throws_adopt|intros; case_match; [by apply throws_openssl|apply throws_ret]].
Qed.

Lemma emits_free P o h : indifferent P -> emits (W := W) P (dispose o h).
Proof. intros HP. by apply emits_dispose, HP. Qed.

Lemma emits_subject P n : indifferent P -> emits P (subject_name_to_string n).
Proof.
  intros HP. unfold subject_name_to_string. case_match; [auto with pqtls|].
  apply emits_bind; [auto with pqtls|intros bio]. apply emits_bind; [by apply emits_adopt, HP|intros _].
  apply emits_scoped; [by apply emits_free|]. case_match; [auto with pqtls|].
  apply emits_bind; [auto with pqtls|intros []; auto with pqtls].
Qed.

Lemma throws_subject P n : throws P (subject_name_to_string n).
Proof.
  unfold subject_name_to_string.
  repeat first [apply throws_bind; [|intros ?] | apply throws_scoped | apply throws_call
    | apply throws_adopt | apply throws_ret | case_match].
Qed.

(** The part of [inspect] that looks at the certificate. *)
Lemma emits_names P peer : indifferent P ->
  emits P (scoped (dispose ObjX509 peer)
    (if peer =? 0 then mret (M := io W) ("", "")
     else
       subject_name ← call (X509_get_subject_name peer);
       subject ← subject_name_to_string subject_name;
       issuer_name ← call (X509_get_issuer_name peer);
       issuer ← subject_name_to_string issuer_name;
       mret (subject, issuer))).
Proof.
  intros HP. apply emits_scoped; [by apply emits_free|]. case_match; [auto with pqtls|].
  repeat (apply emits_bind; [first [by apply emits_subject|auto with pqtls]|intros ?]). auto with pqtls.
Qed.

End object_pieces.

#[export] Hint Resolve emits_new_ssl emits_free : pqtls.

(** ** Application data only after the policy checks *)

Definition is_app_data (e : Event) : bool :=
  match e with EvSslRead _ _ | EvSslWrite _ _ => true | _ => false end.

(** Every event that carries application data happens in a state in which the
    earlier events (newest first) satisfy [auth]. *)
Fixpoint gated (auth : list Event -> Prop) (log : list Event) : Prop :=
  match log with
  | [] => True
  | e :: earlier => (is_app_data e = true -> auth earlier) /\ gated auth earlier
  end.

(** The handshake succeeded, its group was inspected and the profile permits
    it, and, unless verification is off, the chain verified and, where a
    certificate is required, the peer had one. *)
Definition authorised (profile : SecurityProfile) (insecure need_cert : bool) (earlier : list Event)
    : Prop :=
  In (EvHandshake 1) earlier /\
  (exists g, In (EvGroup g) earlier /\ permits_negotiated_group profile (default "" g) = true) /\
  (insecure = false ->
   In (EvVerifyResult X509_V_OK) earlier /\
   (need_cert = true -> In (EvPeerCertificate true) earlier)).

Lemma authorised_app p i n l1 l2 : authorised p i n l2 -> authorised p i n (l1 ++ l2).
Proof.
  intros (H1 & (g & H2 & H3) & H4). split; [apply in_or_app; auto|]. split.
  - exists g. split; [apply in_or_app; auto|done].
  - intros Hi. destruct (H4 Hi) as [H5 H6].
    split; [apply in_or_app; auto|intros; apply in_or_app; auto].
Qed.

Lemma gated_app (auth : list Event -> Prop) l1 l2 :
  (forall l l', auth l' -> auth (l ++ l')) -> auth l2 -> gated auth l2 -> gated auth (l1 ++ l2).
Proof.
  intros Hm Ha Hg. induction l1 as [|e l1 IH]; simpl; [done|]. split; [intros _; auto|done].
Qed.

Lemma gated_quiet auth l1 l2 :
  Forall (fun e => is_app_data e = false) l1 -> gated auth l2 -> gated auth (l1 ++ l2).
Proof. induction 1 as [|e l1 He _ IH]; simpl; intros; [done|]. split; [by rewrite He|auto]. Qed.

(** Events outside the transfer of application data. *)
Definition quiet (e : Event) : Prop :=
  match e with
  | EvSslRead _ _ | EvSslWrite _ _ | EvOpen _ | EvClose _ | EvMetrics _ _ | EvOut _ | EvErr _ => False
  | _ => True
  end.

(** The transfer, and what is logged meanwhile. *)
Definition transfer (e : Event) : Prop := match e with EvLog _ _ => True | _ => is_app_data e = true end.

Lemma quiet_no_data e : quiet e -> is_app_data e = false.
Proof. by destruct e. Qed.

Section gate.
Context {W : Type} {RA : RuntimeApi W} {J : JsonLib} {EA : EnvApi W} {SA : SocketApi W}
  {LA : SslApi W} {CA : CtxApi W} {MA : MetricsApi W}.

Lemma emits_set_timeouts fd r t : emits quiet (set_timeouts fd r t).
Proof.
  unfold set_timeouts. case_match; [auto with pqtls|].
  repeat (apply emits_bind; [|intros ?]); try (apply emits_silent; case_match; by eauto with pqtls);
    auto with pqtls. by apply emits_emit.
Qed.

Lemma inspect_wp ssl (Q : HandshakeOutcome -> St W -> Prop) E s :
  (forall o s' g new, st_log s' = new ++ EvGroup g :: st_log s -> Forall on_object new ->
     ho_negotiated_group o = default "" g -> Q o s') ->
  wp (inspect ssl) Q E s.
Proof.
  intros HQ. unfold inspect.
  apply wp_bind, call_wp. intros version w1 q1 _. apply wp_bind, call_wp. intros suite w2 q2 _.
  apply wp_bind, call_ev_wp. intros g w3 q3 _. apply wp_bind, call_wp. intros [rc nid] w4 q4 _.
  apply wp_bind, call_wp. intros reused w5 q5 _. apply wp_bind, call_wp. intros peer w6 q6 _.
  cbn [st_log]. set (s1 := mkSt w6 q6 _).
  apply wp_bind, (emits_wp_total on_object); [by apply emits_adopt|apply throws_adopt|].
  intros _ s2 n2 L2 F2. apply wp_bind, (emits_wp_total on_object); [by apply emits_names; intros []|..].
  { apply throws_scoped. case_match; [apply throws_ret|].
    repeat (apply throws_bind; [first [apply throws_call|apply throws_subject]|intros ?]). apply throws_ret. }
  intros [subject issuer] s3 n3 L3 F3. apply wp_ret. apply (HQ _ _ g (n3 ++ n2)); [|by apply Forall_app|done].
  by rewrite L3, L2, <- app_assoc.
Qed.

Lemma enforce_peer_wp ssl c req (Q : unit -> St W -> Prop) (E : exn -> St W -> Prop) s :
  (forall s' new, st_log s' = new ++ st_log s -> Forall quiet new ->
     (insecure_development_mode c = false ->
      In (EvVerifyResult X509_V_OK) new /\ (req = true -> In (EvPeerCertificate true) new)) ->
     Q tt s') ->
  (forall x s' new, st_log s' = new ++ st_log s -> Forall quiet new ->
     exn_category x = CatCertificate -> is_exception x = true -> E x s') ->
  wp (enforce_peer_verification ssl c req) Q E s.
Proof.
  intros HQ HE. unfold enforce_peer_verification.
  destruct (insecure_development_mode c).
  { apply wp_ret. apply (HQ _ []); done. }
  apply wp_bind, call_ev_wp. intros v w1 q1 _. destruct (v =? X509_V_OK) eqn:Ev; simpl.
  - apply Z.eqb_eq in Ev as ->. apply wp_bind, call_ev_wp. intros peer w2 q2 _.
    unfold adopt, dispose. destruct (peer =? 0) eqn:E0; cbn [andb negb].
    + apply wp_bind, wp_ret, wp_scoped. destruct req.
      * apply wp_throw. eapply (HE _ _ [_; _]); [done|by repeat constructor|done..].
      * apply wp_ret. eapply (HQ _ [_; _]); [done|by repeat constructor|].
        intros _. split; [by right; left|done].
    + apply wp_bind. unfold wp at 1. cbn [emit]. apply wp_scoped, wp_ret.
      eapply (HQ _ [_; _; _; _]); [done|by repeat constructor|]. intros _.
      split; [do 3 right; by left|]. intros _. do 2 right. by left.
  - apply wp_throw. eapply (HE _ _ [_]); [done|by repeat constructor|done..].
Qed.

End gate.

(** Neither reads nor writes. *)
Definition no_data (e : Event) : Prop := is_app_data e = false.

Section log_rules.
Context {W : Type} {RA : RuntimeApi W} {J : JsonLib} {EA : EnvApi W} {SA : SocketApi W}
  {LA : SslApi W} {CA : CtxApi W} {MA : MetricsApi W}.

Lemma emits_write_loop fuel ssl rest c : emits transfer (write_loop fuel ssl rest c).
Proof.
  revert rest c. induction fuel as [|fuel IH]; intros [|b rest] c; cbn [write_loop]; auto with pqtls.
  apply emits_bind; [by apply emits_call_ev|intros n]. case_match; auto with pqtls.
Qed.

Lemma emits_send ssl m f c : emits transfer (send_message ssl m f c).
Proof.
  unfold send_message. repeat (apply emits_bind; [auto with pqtls|intros ?]). apply emits_write_loop.
Qed.

Lemma emits_read_more ssl d c : emits transfer (read_more ssl d c).
Proof.
  unfold read_more, ssl_read_some. apply emits_bind.
  - case_match; [auto with pqtls|]. apply emits_bind; [by apply emits_call_ev|intros [n data]].
    case_match; [auto with pqtls|]. apply emits_bind; [auto with pqtls|intros e].
    case_match; auto with pqtls.
  - intros [data c']. case_match; [auto with pqtls|].
    apply emits_bind; [auto with pqtls|intros []; auto with pqtls].
Qed.

(** Since [base], only quiet events happened, the [facts] among them. *)
Definition grown (base facts : list Event) (s : St W) : Prop :=
  exists new, st_log s = new ++ base /\ Forall quiet new /\ forall e, In e facts -> In e new.

Lemma grown_start s : grown (st_log s) [] s.
Proof. by exists []. Qed.

Lemma grown_step base facts s s' new :
  grown base facts s -> st_log s' = new ++ st_log s -> Forall quiet new -> grown base facts s'.
Proof.
  intros (n & L & F & I) L' F'. exists (new ++ n). rewrite L', L, app_assoc.
  splits; [done|by apply Forall_app|]. intros e He. apply in_or_app. auto.
Qed.

Lemma grown_event base facts s s' e :
  grown base facts s -> st_log s' = e :: st_log s -> quiet e -> grown base (e :: facts) s'.
Proof.
  intros (n & L & F & I) L' He. exists (e :: n). rewrite L', L.
  splits; [done|by constructor|]. intros e' [->|H']; [by left|right; auto].
Qed.

(** After [inspect]. *)
Lemma grown_inspect base facts s s' g new :
  grown base facts s -> st_log s' = new ++ EvGroup g :: st_log s -> Forall on_object new ->
  grown base (EvGroup g :: facts) s'.
Proof.
  intros Hg L F. pose (s1 := mkSt (st_world s) (st_errq s) (EvGroup g :: st_log s)).
  eapply (grown_step _ _ s1); [by eapply grown_event|exact L|]. eapply Forall_impl; [|exact F]. by intros [].
Qed.

Lemma grown_dispose base facts s o h : grown base facts s -> grown base facts (dispose o h s).2.
Proof.
  intros Hg. eapply (grown_step _ _ _ _ _ Hg); [apply dispose_log|]. case_match; by repeat constructor.
Qed.

Lemma step_quiet {A L} base facts (m : io W A) (Q : A -> St W * L -> Prop) E s c :
  emits quiet m -> grown base facts s ->
  (forall a s', grown base facts s' -> Q a (s', c)) ->
  (forall x s', grown base facts s' -> E x (s', c)) ->
  wp (lift_io m) Q E (s, c).
Proof.
  intros Hm Hg HQ HE. apply wp_lift_io, (emits_wp quiet); [done|..]; eauto using grown_step.
Qed.

Lemma step_throw {A L} base facts cat text (Q : A -> St W * L -> Prop) E s c :
  grown base facts s -> (forall x s', grown base facts s' -> E x (s', c)) ->
  wp (lift_io (throw_openssl cat text)) Q E (s, c).
Proof.
  intros Hg HE. apply wp_lift_io. pose proof (silent_throw_openssl (A := A) cat text s) as Hs.
  unfold wp. destruct (throw_openssl cat text s) as [[a|x] s'] eqn:Et.
  - by apply throw_openssl_never in Et.
  - apply HE, (grown_step _ _ _ _ [] Hg); [by rewrite <- Hs|constructor].
Qed.

(** The log since [base] is gated. *)
Definition gated_since (auth : list Event -> Prop) (base : list Event) (s : St W) : Prop :=
  exists new, st_log s = new ++ base /\ gated auth new.

Lemma grown_gated auth base facts s : grown base facts s -> gated_since auth base s.
Proof.
  intros (new & L & F & _). exists new. split; [done|]. rewrite <- (app_nil_r new).
  apply gated_quiet; [|exact I]. eapply Forall_impl; [apply quiet_no_data|exact F].
Qed.

(** Once authorised, whatever follows stays gated. *)
Lemma gated_extend auth base (s s' : St W) new new' :
  (forall l l', auth l' -> auth (l ++ l')) ->
  st_log s = new ++ base -> auth new -> gated auth new -> st_log s' = new' ++ st_log s ->
  gated_since auth base s'.
Proof.
  intros Hm L Ha Hg L'. exists (new' ++ new). rewrite L', L, app_assoc. split; [done|].
  by apply gated_app.
Qed.

Lemma gated_since_step auth base (s s' : St W) new :
  gated_since auth base s -> st_log s' = new ++ st_log s -> Forall no_data new ->
  gated_since auth base s'.
Proof.
  intros (n & L & G) L' F. exists (new ++ n). rewrite L', L, app_assoc.
  split; [done|by apply gated_quiet].
Qed.

Lemma gated_since_dispose auth base (s : St W) o h :
  gated_since auth base s -> gated_since auth base (dispose o h s).2.
Proof.
  intros Hg. eapply (gated_since_step _ _ _ _ _ Hg); [apply dispose_log|]. case_match; by repeat constructor.
Qed.

Lemma step_gated {A L} auth base (m : local W L A) (Q : A -> St W * L -> Prop)
    (E : exn -> St W * L -> Prop) s c :
  local_emits no_data m -> gated_since auth base s ->
  (forall a s' c', gated_since auth base s' -> Q a (s', c')) ->
  (forall x s' c', gated_since auth base s' -> E x (s', c')) -> wp m Q E (s, c).
Proof.
  intros Hm Hg HQ HE. apply (local_emits_wp no_data); [done|..]; eauto using gated_since_step.
Qed.

Lemma Socket_close_outcome fd s : exists w q,
  Socket_close fd s = (Ok tt, mkSt w q (if fd >=? 0 then EvClose fd :: st_log s else st_log s)).
Proof.
  unfold Socket_close. destruct (fd >=? 0).
  - destruct (close fd (st_world s) (st_errq s)) as [[] [w q]] eqn:E.
    rewrite (call_ev_eq _ _ _ _ _ _ E). eauto.
  - exists (st_world s), (st_errq s). by destruct s.
Qed.

(** Neither descriptors nor metrics, and nothing printed. *)
Definition inner (e : Event) : Prop :=
  match e with EvOpen _ | EvClose _ | EvMetrics _ _ | EvOut _ | EvErr _ => False | _ => True end.

Lemma quiet_inner e : quiet e -> inner e.
Proof. by destruct e. Qed.

Lemma transfer_inner e : transfer e -> inner e.
Proof. by destruct e. Qed.

Lemma inspect_emits (P : Event -> Prop) ssl :
  indifferent P -> (forall g, P (EvGroup g)) -> emits P (inspect ssl).
Proof.
  intros HP Hg s. set (Q := fun s' : St W => exists g new, st_log s' = new ++ EvGroup g :: st_log s /\ Forall on_object new).
  assert (H : wp (inspect ssl) (fun _ => Q) (fun _ => Q) s).
  { apply inspect_wp. intros o s' g new L F _. by exists g, new. }
  assert (H2 : Q (inspect ssl s).2) by (unfold wp in H; by destruct (inspect ssl s) as [[] ?]).
  destruct H2 as (g & new & L & F). exists (new ++ [EvGroup g]). split; [by rewrite <- app_assoc|].
  apply Forall_app. split; [by eapply Forall_impl|by apply Forall_singleton].
Qed.

Lemma enforce_peer_emits (P : Event -> Prop) ssl c req :
  indifferent P -> (forall v, P (EvVerifyResult v)) -> (forall b, P (EvPeerCertificate b)) ->
  emits P (enforce_peer_verification ssl c req).
Proof.
  intros HP Hv Hc. unfold enforce_peer_verification.
  repeat first [ by auto with pqtls | by apply emits_call_ev | by apply emits_adopt, HP
    | apply emits_scoped | apply emits_bind; [|intros ?] | case_match ].
Qed.

Lemma emits_inspect ssl : emits quiet (inspect ssl).
Proof.
  apply inspect_emits; [by intros []|done].
Qed.

Lemma emits_enforce_peer ssl c req : emits quiet (enforce_peer_verification ssl c req).
Proof. by apply enforce_peer_emits; [intros []|..]. Qed.

Lemma emits_shutdown ssl : emits quiet (ssl_graceful_shutdown ssl).
Proof.
  unfold ssl_graceful_shutdown.
  repeat first [ by auto with pqtls | by apply emits_call_ev | apply emits_bind; [|intros ?] | case_match ].
Qed.

Lemma throws_inspect P ssl : throws P (inspect ssl).
Proof.
  unfold inspect. cbv zeta.
  repeat first [apply throws_call | apply throws_call_ev | apply throws_ret | apply throws_adopt
    | apply throws_subject | apply throws_scoped | apply throws_bind; [|intros ?] | case_match].
Qed.

Lemma throws_shutdown P ssl : throws P (ssl_graceful_shutdown ssl).
Proof.
  unfold ssl_graceful_shutdown.
  repeat first [apply throws_call_ev | apply throws_ret | apply throws_drain
    | apply throws_bind; [|intros ?] | case_match].
Qed.

End log_rules.

(** Handshake-stage steps, one call at a time. *)
Ltac quiet_step :=
  apply wp_bind; eapply step_quiet; [solve [auto using emits_set_timeouts with pqtls|by apply emits_call_ev]|eassumption| |
    intros ? ?st ?; eauto]; intros ? ?st ?.

(** ** Sending and receiving, in full *)

Section exchange_spec.
Context {W : Type} {RA : RuntimeApi W} {J : JsonLib} {EA : EnvApi W} {SA : SocketApi W}
  {LA : SslApi W} {LL : SslLaws W} {CA : CtxApi W} {MA : MetricsApi W}.

(** Exceptions of the program, as opposed to the model's bound; none of them
    has the category of a success. *)
Definition real (x : exn) : Prop := is_exception x = true /\ exn_category x <> CatNone.

Lemma protocol_real x : is_ProtocolError x = true -> real x.
Proof. destruct x as [[] e| |]; [|done..]. simpl. intros H%bool_decide_eq_true. split; simpl; congruence. Qed.

Lemma ssl_io_real x : ssl_io_error x -> real x.
Proof. intros (e & -> & [H|[H|H]]); split; simpl; congruence. Qed.

Lemma real_network x : is_Error x = true /\ exn_category x = CatNetwork -> real x.
Proof. destruct x as [b e| |]; simpl; [|naive_solver..]. intros [_ H]. split; simpl; congruence. Qed.

Lemma real_certificate x : exn_category x = CatCertificate -> is_exception x = true -> real x.
Proof. intros Hx He. split; [done|]. by rewrite Hx. Qed.

Lemma throws_uuid : throws real generate_uuid_v4.
Proof.
  unfold generate_uuid_v4. apply throws_bind; [apply throws_call|intros [rc w]].
  case_match; [|apply throws_ret]. apply throws_bind; [apply throws_drain|intros; by apply throws_throw].
Qed.

Lemma throws_uuid_works : throws (fun x => real x /\ ~ generator_works W) generate_uuid_v4.
Proof.
  intros s x s' H. split; [by eapply throws_uuid|]. intros Hg. specialize (Hg 16 (st_world s) (st_errq s)).
  unfold generate_uuid_v4, mbind, M_bind, call in H. destruct (RAND_bytes 16 _ _) as [[rc written] [w q]].
  simpl in *. by subst rc.
Qed.

Lemma throws_now P : throws P iso8601_now.
Proof. unfold iso8601_now. apply throws_bind; [apply throws_call|intros; apply throws_ret]. Qed.

Lemma throws_make_ack P r t : throws P (make_acknowledgement r t).
Proof. apply throws_bind; [apply throws_now|intros; apply throws_ret]. Qed.

Lemma throws_make_error r t : throws real (make_error r t).
Proof.
  apply throws_bind; [case_match; [apply throws_ret|apply throws_uuid]|intros].
  apply throws_bind; [apply throws_now|intros; apply throws_ret].
Qed.

Lemma throws_check b t : throws (S := St W) real (liftM (throw_if b (ProtocolError t))).
Proof. apply throws_lift. intros x. destruct b; [by intros [= <-]|done]. Qed.

Lemma throws_parse text : throws real (Message_parse text).
Proof.
  unfold Message_parse, parse_message_id, parse_timestamp.
  repeat (apply throws_bind; [|intros ?]); try apply throws_ret; try apply throws_check.
  all: try (apply throws_lift; intros x Hx; apply protocol_real;
            match type of Hx with ?f ?d = _ => by apply (pure_fields_exn d); auto end).
  - apply throws_lift. intros x [H|(what & -> & _)]%parse_document_exn; [by apply protocol_real|done].
  - case_match; [|apply throws_uuid]. repeat (apply throws_bind; [apply throws_check|intros]). apply throws_ret.
  - case_match; [|apply throws_now]. apply throws_bind; [apply throws_check|intros; apply throws_ret].
Qed.

(** ** Sending *)

Lemma received_writes new l :
  Forall (fun e => exists d n, e = EvSslWrite d n) new -> received (new ++ l) = received l.
Proof. induction 1 as [|e new (d & n & ->) _ IH]; [done|]. simpl. done. Qed.

Lemma write_loop_writes fuel ssl rest c :
  emits (fun e => exists d n, e = EvSslWrite d n) (write_loop fuel ssl rest c).
Proof.
  revert rest c. induction fuel as [|fuel IH]; intros [|b rest] c; cbn [write_loop]; auto with pqtls.
  apply emits_bind; [apply emits_call_ev; eauto|intros n]. case_match; auto with pqtls.
Qed.

(** A frame cut short by a failed write. *)
Definition truncated (max : Z) (pre : list byte) : Prop :=
  pre = [] \/ exists p post, legal max p /\ post <> [] /\ pre ++ post = frame_of p.

Definition counters_ok (c : IoCounters) : Prop := is_u64 (bytes_sent c) /\ is_u64 (bytes_received c).

Lemma to_u32_ok z : is_u32 (to_u32 z).
Proof. unfold is_u32, to_u32, u32_max. dlia. Qed.

Lemma to_u64_ok z : is_u64 (to_u64 z).
Proof. unfold is_u64, to_u64, u64_max. dlia. Qed.

Lemma send_message_spec ssl m max c s :
  1 <= max <= kAbsoluteMaxFrameSize -> counters_ok c ->
  match send_message ssl m max c s with
  | (Ok c', s') => counters_ok c' /\ received (st_log s') = received (st_log s) /\
      bytes_received c' = bytes_received c /\
      exists p, Message_serialize m = Ok p /\ legal max p /\
        sent (st_log s') = sent (st_log s) ++ frame_of p /\
        bytes_sent c' = to_u64 (bytes_sent c + Z.of_nat (length (frame_of p)))
  | (Throw x, s') => real x /\ received (st_log s') = received (st_log s) /\
      exists pre, truncated max pre /\ sent (st_log s') = sent (st_log s) ++ pre
  end.
Proof.
  intros Hmax [Hcs Hcr]. unfold send_message, liftM. unfold mbind at 1, M_bind at 1.
  destruct (Message_serialize m) as [p|x] eqn:Es.
  2: { split; [|split; [done|exists []; rewrite app_nil_r; split; [by left|done]]].
       unfold Message_serialize, json_dump in Es. case_match; [by injection Es as <-|done]. }
  unfold mbind at 1, M_bind at 1. destruct (encode p max) as [f|x] eqn:Ee.
  2: { split; [|split; [done|exists []; rewrite app_nil_r; split; [by left|done]]].
       apply protocol_real. revert Ee. unfold encode, throw_if, mbind, result_bind.
       repeat case_match; intros Heq; by simplify_eq. }
  apply encode_ok in Ee as (_ & Hl & Hf). change (header_bytes _ ++ _) with (frame_of p) in Hf. subst f.
  unfold ssl_write_all.
  pose proof (write_loop_spec (length (frame_of p)) ssl (frame_of p) c s ltac:(done) Hcs) as Hw.
  destruct (write_loop_writes (length (frame_of p)) ssl (frame_of p) c s) as (new & Ln & Fn).
  destruct (write_loop _ ssl (frame_of p) c s) as [[c'|x] s']; simpl in Ln.
  - destruct Hw as (H1 & H2 & H3). rewrite Ln, received_writes by done. rewrite Ln in H1.
    splits; [split; [rewrite H2; apply to_u64_ok|by rewrite H3]|done|done|eauto 6].
  - destruct Hw as (pre & post & H1 & H2 & H3 & H4). split; [by apply ssl_io_real|].
    split; [by rewrite Ln, received_writes|]. exists pre. split; [right; exists p, post; by rewrite H1|done].
Qed.

(** ** Receiving *)

Definition reading (max : Z) (d : Decoder) : Prop :=
  decoder_inv d /\ max_frame_size_ d = max /\ buffered_bytes d <= buffer_bound max kReadChunk.

Lemma read_more_spec ssl d c s max :
  reading max d -> vec_size (pending d) < 4 + max -> counters_ok c ->
  match read_more ssl d c s with
  | (Ok None, s') => received (st_log s') = received (st_log s) /\ sent (st_log s') = sent (st_log s)
  | (Ok (Some (d', c')), s') => counters_ok c' /\ bytes_sent c' = bytes_sent c /\
      reading max d' /\ sent (st_log s') = sent (st_log s) /\
      exists data, data <> [] /\ pending d' = pending d ++ data /\
        received (st_log s') = received (st_log s) ++ data
  | (Throw x, s') => real x /\ sent (st_log s') = sent (st_log s) /\
      exists data, received (st_log s') = received (st_log s) ++ data
  end.
Proof.
  intros (Hi & Hm & Hb) Hp [Hcs Hcr]. unfold read_more, mbind at 1, M_bind at 1.
  pose proof (ssl_read_some_spec ssl kReadChunk c s ltac:(done) Hcr) as Hr.
  destruct (ssl_read_some ssl kReadChunk c s) as [[[data c']|x] s'].
  2: { destruct Hr as [Hx (rc & L)]. split; [by apply ssl_io_real|]. rewrite L. simpl. eauto. }
  destruct Hr as (Hlen & Hcr' & Hcs' & rc & L & Hnil). destruct data as [|b data].
  { cbn. rewrite L. simpl. by rewrite app_nil_r. }
  set (all := b :: data) in *. pose proof Hi as [Hic Him His].
  unfold buffer_bound, kHeaderSize, kReadChunk, kAbsoluteMaxFrameSize in *.
  destruct (feed_refines d all Hi) as (d1 & Hf & Hi1 & Hm1 & Hp1 & Hb1).
  { unfold buffered_bytes, vec_size in *. lia. }
  unfold mbind, M_bind, liftM, on_decoder. rewrite Hf.
  destruct (Stream.feed (max_frame_size_ d) (pending d) all).1 as [u|x] eqn:Ef.
  - cbn. rewrite L. simpl. splits; [split; [by rewrite Hcs'|rewrite Hcr'; apply to_u64_ok]|done| |done|].
    + unfold reading. splits; [done|congruence|]. unfold buffer_bound, kHeaderSize, kReadChunk, vec_size in *. lia.
    + exists all. splits; [done| |done]. rewrite Hp1. unfold Stream.feed. by case_match.
  - split; [by apply protocol_real; eapply feed_error|]. rewrite L. simpl. eauto.
Qed.

(** The decoder step of a round. *)
Lemma next_frame_step max d :
  1 <= max -> reading max d ->
  match on_decoder next_frame d with
  | Ok (Some f, d') => reading max d' /\ legal max f /\ pending d = frame_of f ++ pending d'
  | Ok (None, d') => reading max d' /\ pending d' = pending d /\ vec_size (pending d) < 4 + max
  | Throw x => real x
  end.
Proof.
  intros Hmax (Hi & Hm & Hb). destruct (next_frame_refines d Hi) as (d' & Hn & Hi' & Hm' & Hp' & Hb').
  unfold on_decoder. rewrite Hn. rewrite Hm in *.
  assert (Hrd : reading max d') by (split; [done|split; [congruence|lia]]).
  destruct (Stream.next max (pending d)) as [[[f|]|x] pre] eqn:En; simpl in *.
  - apply next_sound in En as [Hl Hp]. by rewrite Hp'.
  - pose proof (next_none _ _ _ En) as Hpre. apply next_none_short in En; [|lia]. subst pre. by rewrite <- Hpre.
  - by eapply protocol_real, next_error.
Qed.

Lemma reading_new max : 1 <= max <= kAbsoluteMaxFrameSize -> reading max (mkDecoder max [] 0).
Proof.
  intros Hm. unfold reading. splits; [by apply decoder_inv_new|done|]. unfold buffered_bytes, vec_size, buffer_bound,
    kHeaderSize, kReadChunk. simpl. lia.
Qed.

(** The same step against the abstract parser. *)
Lemma next_frame_stream max d :
  1 <= max -> reading max d ->
  match on_decoder next_frame d with
  | Ok (Some _, _) => True
  | Ok (None, _) => Stream.next max (pending d) = (Ok None, pending d)
  | Throw x => exists pre, Stream.next max (pending d) = (Throw x, pre)
  end.
Proof.
  intros Hmax (Hi & Hm & Hb). destruct (next_frame_refines d Hi) as (d' & Hn & _).
  unfold on_decoder. rewrite Hn. rewrite Hm in *.
  destruct (Stream.next max (pending d)) as [[[f|]|x] pre] eqn:En; simpl in *; [done| |by exists pre].
  by rewrite (next_none _ _ _ En).
Qed.

(** A read that found the peer gone, and the counter after one that brought data. *)
Lemma read_more_counts ssl d c s :
  is_u64 (bytes_received c) ->
  match read_more ssl d c s with
  | (Ok None, s') => exists rc, rc <= 0 /\ st_log s' = EvSslRead rc [] :: st_log s
  | (Ok (Some (_, c')), s') => exists data, received (st_log s') = received (st_log s) ++ data /\
      bytes_received c' = to_u64 (bytes_received c + Z.of_nat (length data))
  | (Throw _, _) => True
  end.
Proof.
  intros Hcr. unfold read_more, mbind at 1, M_bind at 1.
  pose proof (ssl_read_some_spec ssl kReadChunk c s ltac:(done) Hcr) as Hr.
  destruct (ssl_read_some ssl kReadChunk c s) as [[[data c']|x] s']; [|done].
  destruct Hr as (_ & Hb & _ & rc & L & Hnil). destruct data as [|b data].
  { exists rc. split; [by apply Hnil|done]. }
  unfold mbind, M_bind, liftM. destruct (on_decoder _ d) as [[u d']|x]; [|done].
  exists (b :: data). by rewrite L.
Qed.

End exchange_spec.
