(* ===== verification/Server.v ===== *)
(** The server's handling of one connection: [src/server/server.cpp],
    [build_capabilities_payload], [handle_message] and [handle_connection].
    The pool around it is in [ServerPool].

    [handle_connection] keeps its [ConnectionMetrics] outside the [try], so
    what was recorded before an exception is still there in the handlers: the
    connection runs in a state monad over the runtime state and the metrics.
    The [SSL] object is destroyed on every way out of the [try] block. *)

From S2P Require Import Prelude Errors Runtime Json Framing Identifiers Message Profile Config.
From S2P Require Import Transport Metrics TlsContext Gate.

(** ** Requests and replies *)

Definition build_capabilities_payload (profile : SecurityProfile) (outcome : HandshakeOutcome) : json :=
  set_all JNull
    [("server_profile", JString (id profile));
     ("tls_version", JString (ho_tls_version outcome));
     ("negotiated_group", JString (ho_negotiated_group outcome));
     ("cipher_suite", JString (ho_cipher_suite outcome));
     ("pq_key_establishment", JBool (is_post_quantum_group (ho_negotiated_group outcome)));
     ("hybrid_key_establishment", JBool (is_hybrid_group (ho_negotiated_group outcome)));
     ("authentication", JString (AuthenticationType_to_string (authentication profile)));
     ("pq_authentication", JBool (is_post_quantum_authentication (authentication profile)))].

Definition with_type (m : Message) (t : MessageType) : Message :=
  mkMessage (protocol_version m) (message_id m) t (timestamp m) (status m) (payload m).

Definition with_payload (m : Message) (p : json) : Message :=
  mkMessage (protocol_version m) (message_id m) (type m) (timestamp m) (status m) p.

(** The process around a connection: libssl's accept and the stop flag the
    loop polls. *)
Class ServerApi (W : Type) := {
  SSL_accept : Z -> ext W Z;
  stopping : ext W bool
}.

Section server.
Context {W : Type} {RA : RuntimeApi W} {J : JsonLib} {EA : EnvApi W} {SA : SocketApi W}
  {LA : SslApi W} {CA : CtxApi W} {MA : MetricsApi W} {VA : ServerApi W}.

(** Both constructors end with this. *)
Definition warn_if_experimental (profile : SecurityProfile) : io W unit :=
  if experimental profile then
    log_at LevelWarn ("profile '" +:+ id profile +:+ "' is EXPERIMENTAL: " +:+ description profile)
  else mret tt.

(** The constructor: the profile from the registry, then the context. *)
Definition PqTlsServer_new (config : ServerConfig) (registry : ProfileRegistry) : io W TlsContext :=
  profile ← liftM (registry_get registry (profile_id (s_common config)));
  context ← create_server profile (s_common config) (s_require_client_certificate config);
  ignore_sigpipe ;;
  warn_if_experimental (ctx_profile context) ;;
  mret context.

(** The start of [run]: the listening socket and the port that was bound, which
    differs from the configured one when that is 0. *)
Definition bound_port (name : option PeerName) : Z :=
  match name with
  | Some (PeerV4 _ port) | Some (PeerV6 _ port) => port
  | Some PeerOther | None => 0
  end.

Definition run_listen (config : ServerConfig) : io W (Z * Z) :=
  listener ← tcp_listen (listen_address config) (s_port config) (backlog config);
  name ← call (getsockname listener);
  mret (listener, bound_port name).

(** The reply to a request, or none for [close]. *)
Definition handle_message (request : Message) (profile : SecurityProfile)
    (outcome : HandshakeOutcome) : io W (option Message) :=
  match type request with
  | Ping =>
      reply ← make_acknowledgement request "accepted"; mret (Some (with_type reply Pong))
  | Echo =>
      reply ← make_acknowledgement request "accepted";
      mret (Some (with_payload reply (payload request)))
  | Telemetry => reply ← make_acknowledgement request "accepted"; mret (Some reply)
  | Capabilities_ =>
      reply ← make_acknowledgement request "accepted";
      mret (Some (with_payload reply (build_capabilities_payload profile outcome)))
  | Close => mret None
  | Acknowledgement | Pong | Error_ =>
      reply ← make_error (Some request) ("message type '" +:+ MessageType_to_string (type request) +:+
                "' is a response type and is not accepted from a client");
      mret (Some reply)
  end.

(** ** The state of a connection handler *)

Definition conn (A : Type) : Type := local W ConnectionMetrics A.

(** ** The application loop *)

(** One complete frame: parse, handle, and on a protocol violation answer
    with an error and close.  The reply, and whether the loop ends. *)
Definition respond (frame : string) (profile : SecurityProfile) (outcome : HandshakeOutcome)
    (peer : string) : io W (option Message * bool) :=
  try_catch
    (request ← Message_parse frame;
     reply ← handle_message request profile outcome;
     mret (reply, match reply with None => true | Some _ => false end))
    is_ProtocolError
    (fun x =>
       log_at LevelWarn ("protocol violation from " +:+ peer +:+ ": " +:+ exn_message x) ;;
       reply ← make_error None (exn_message x); mret (Some reply, true)).

(** The loop of [handle_connection]; returns the counters and how many
    messages were handled. *)
Fixpoint app_loop (fuel : nat) (config : ServerConfig) (profile : SecurityProfile)
    (outcome : HandshakeOutcome) (peer : string) (ssl : Z) (decoder : Decoder) (counters : IoCounters)
    (handled : Z) (closing : bool) : conn (IoCounters * Z) :=
  if closing then mret (counters, handled)
  else
    stop ← lift_io (call stopping);
    if (stop : bool) || negb (handled <? max_messages_per_connection config)
    then mret (counters, handled)
    else
      match fuel with
      | O => throwM OutOfFuel
      | S fuel' =>
          '(frame, decoder) ← liftM (on_decoder next_frame decoder);
          match frame with
          | None =>
              more ← lift_io (read_more ssl decoder counters);
              match more with
              | None => mret (counters, handled)
              | Some (decoder, counters) =>
                  app_loop fuel' config profile outcome peer ssl decoder counters handled false
              end
          | Some frame =>
              let handled := to_u32 (handled + 1) in
              modify count_message ;;
              '(reply, closing) ← lift_io (respond frame profile outcome peer);
              match reply with
              | None => app_loop fuel' config profile outcome peer ssl decoder counters handled closing
              | Some reply =>
                  counters ← lift_io (send_message ssl reply (max_frame_size (s_common config)) counters);
                  modify count_message ;;
                  app_loop fuel' config profile outcome peer ssl decoder counters handled closing
              end
          end
      end.

(** Between two frames the loop reads at most [4 + max_frame_size] times, at
    least a byte at a time, and it handles at most
    [max_messages_per_connection] frames. *)
Definition loop_fuel (config : ServerConfig) : nat :=
  Z.to_nat ((max_messages_per_connection config + 1) * (max_frame_size (s_common config) + 6)).

(** ** A connection *)

(** From the accepted socket to the inspected handshake, with the [SSL] object
    that [serve] then owns. *)
Definition server_handshake (config : ServerConfig) (context : TlsContext) (fd : Z) (peer : string)
    : conn (Z * HandshakeOutcome) :=
  let common := s_common config in
  lift_io (set_timeouts fd (io_timeout_ms common) (io_timeout_ms common)) ;;
  lift_io (set_tcp_nodelay fd true) ;;
  ssl ← lift_io (new_ssl context);
  guarded (lift_io (dispose ObjSsl ssl)) (
    rc ← lift_io (call_ev (SSL_set_fd ssl fd) (EvSetFd ssl fd));
    (if negb (rc =? 1) then
       lift_io (throw_openssl CatInternal "SSL_set_fd failed on an accepted socket")
     else mret tt) ;;
    timer ← lift_io Stopwatch_start;
    result ← lift_io (call_ev (SSL_accept ssl) EvHandshake);
    t ← lift_io (elapsed_ms timer);
    modify (fun m => with_handshake_ms m t) ;;
    (if negb (result =? 1) then
       details ← lift_io drain_openssl_errors;
       verify_result ← lift_io (call (SSL_get_verify_result ssl));
       if negb (verify_result =? X509_V_OK) then
         throwM (CertificateError ("client certificate verification failed: " +:+
                   describe_verify_result verify_result) details)
       else throwM (HandshakeError ("TLS handshake with " +:+ peer +:+ " failed") details)
     else mret tt) ;;
    outcome ← lift_io (inspect ssl);
    let profile := ctx_profile context in
    modify (fun m => with_negotiation m (ho_tls_version outcome) (ho_negotiated_group outcome)
      (ho_cipher_suite outcome) (AuthenticationType_to_string (authentication profile))
      (ho_session_reused outcome) (is_post_quantum_group (ho_negotiated_group outcome))
      (is_hybrid_group (ho_negotiated_group outcome))
      (is_post_quantum_authentication (authentication profile))) ;;
    mret (ssl, outcome)).

(** What is logged when the checks have passed. *)
Definition connection_notice (peer : string) (outcome : HandshakeOutcome) : string :=
  "connection from " +:+ peer +:+ ": " +:+ ho_tls_version outcome +:+ " group=" +:+
  ho_negotiated_group outcome +:+ " cipher=" +:+ ho_cipher_suite outcome +:+ " resumed=" +:+
  (if ho_session_reused outcome then "true" else "false").

(** The [try] block. *)
Definition serve (config : ServerConfig) (context : TlsContext) (fd : Z) (peer : string)
    : conn unit :=
  let common := s_common config in
  let profile := ctx_profile context in
  '(ssl, outcome) ← server_handshake config context fd peer;
  scoped (lift_io (dispose ObjSsl ssl)) (
    liftM (enforce_group_policy profile outcome) ;;
    lift_io (enforce_peer_verification ssl common
      (s_require_client_certificate config || require_client_certificate profile)) ;;
    lift_io (log_at LevelInfo (connection_notice peer outcome)) ;;
    decoder ← liftM (Decoder_new (max_frame_size common));
    '(counters, handled) ← app_loop (loop_fuel config) config profile outcome peer ssl decoder
                             (mkIoCounters 0 0) 0 false;
    (if handled >=? max_messages_per_connection config then
       lift_io (log_at LevelInfo ("connection from " +:+ peer +:+ " reached the per-connection message limit of " +:+
         std_to_string (max_messages_per_connection config)))
     else mret tt) ;;
    lift_io (ssl_graceful_shutdown ssl) ;;
    modify (fun m => with_result (with_bytes m (bytes_sent counters) (bytes_received counters))
                       true CatNone (m_error_message m))).

(** Both handlers record the category and text of what was thrown. *)
Definition record_failure (peer : string) (x : exn) : conn unit :=
  modify (fun m => with_result m false (exn_category x) (Some (exn_message x))) ;;
  lift_io (if is_Error x then
    log_at LevelWarn ("connection from " +:+ peer +:+ " ended with a " +:+
      ErrorCategory_to_string (exn_category x) +:+ " error: " +:+ exn_message x)
  else log_at LevelErr ("unexpected exception handling " +:+ peer +:+ ": " +:+ exn_message x)).

Record PendingConnection := mkPending {
  pc_fd : Z;
  pc_peer_address : string
}.

(** [if (metrics_writer_ && metrics_writer_->enabled()) metrics_writer_->write(metrics)]. *)
Definition write_record (writer : option MetricsWriter) : conn unit := fun '(s, m) =>
  match writer with
  | Some w => if enabled w then lift_io (MetricsWriter_write w m) (s, m) else (Ok tt, (s, m))
  | None => (Ok tt, (s, m))
  end.

Definition connection_body (config : ServerConfig) (context : TlsContext)
    (writer : option MetricsWriter) (p : PendingConnection) : conn unit :=
  connection_id ← lift_io generate_uuid_v4;
  timestamp ← lift_io iso8601_now;
  modify (fun m => with_peer_address (with_negotiated_profile
    (with_identity m connection_id timestamp RoleServer (profile_id (s_common config))
       (experiment_id (s_common config)))
    (id (ctx_profile context))) (pc_peer_address p)) ;;
  timer ← lift_io Stopwatch_start;
  try_catch (serve config context (pc_fd p) (pc_peer_address p)) is_exception (record_failure (pc_peer_address p)) ;;
  t ← lift_io (elapsed_ms timer);
  modify (fun m => with_connection_ms m t) ;;
  usage ← lift_io ResourceUsage_sample;
  modify (fun m => with_usage m usage) ;;
  write_record writer.

(** The socket is owned from entry, so it closes last. *)
Definition handle_connection (config : ServerConfig) (context : TlsContext)
    (writer : option MetricsWriter) (p : PendingConnection) : io W unit :=
  with_socket (pc_fd p) (fun s =>
    let '(r, (s', _)) := connection_body config context writer p (s, ConnectionMetrics_default) in
    (r, s')).

End server.

(** ** Events *)

Section silent_replies.
Context {W : Type} {RA : RuntimeApi W} {J : JsonLib} {EA : EnvApi W} {SA : SocketApi W}
  {LA : SslApi W} {CA : CtxApi W} {MA : MetricsApi W} {VA : ServerApi W}.

Lemma silent_handle_message r p o : silent (handle_message r p o).
Proof.
  unfold handle_message. case_match; auto using silent_make_ack, silent_make_error with pqtls.
Qed.

Lemma emits_respond f p o peer : emits logging (respond f p o peer).
Proof.
  apply emits_catch.
  - apply emits_silent, silent_bind; [apply silent_parse|intros r].
    apply silent_bind; [apply silent_handle_message|auto with pqtls].
  - intros x. apply emits_bind; [auto with pqtls|intros _].
    apply emits_silent, silent_bind; [apply silent_make_error|auto with pqtls].
Qed.

Lemma emits_respond_any P f p o peer : (forall e, logging e -> P e) -> emits P (respond f p o peer).
Proof. intros HP. by eapply emits_mono, emits_respond. Qed.

Lemma emits_experimental P p : (forall e, logging e -> P e) -> emits P (warn_if_experimental (W := W) p).
Proof. intros HP. unfold warn_if_experimental. case_match; [by apply emits_emit, HP|auto with pqtls]. Qed.

Lemma throws_experimental P p : throws P (warn_if_experimental (W := W) p).
Proof. unfold warn_if_experimental. case_match; [apply throws_log|apply throws_ret]. Qed.

End silent_replies.

#[export] Hint Resolve silent_handle_message throws_experimental : pqtls.
#[export] Hint Extern 1 (emits _ (warn_if_experimental _)) => apply emits_experimental; by intros [] : pqtls.
#[export] Hint Extern 1 (emits _ (respond _ _ _ _)) => apply emits_respond_any; by intros [] : pqtls.

Section gate_claims.
Context {W : Type} {RA : RuntimeApi W} {J : JsonLib} {EA : EnvApi W} {SA : SocketApi W}
  {LA : SslApi W} {CA : CtxApi W} {MA : MetricsApi W} {VA : ServerApi W}.

Lemma emits_app_loop fuel config p o peer ssl d c h cl :
  local_emits transfer (app_loop fuel config p o peer ssl d c h cl).
Proof.
  revert d c h cl. induction fuel as [|fuel IH]; intros d c h cl; cbn [app_loop].
  all: destruct cl; [by apply local_emits_pure|].
  all: apply local_emits_bind; [apply local_emits_lift; auto with pqtls|intros stop].
  all: destruct (_ || _); [by apply local_emits_pure|]; try by apply local_emits_pure.
  apply local_emits_bind; [by apply local_emits_pure|intros [[frame|] d']].
  - apply local_emits_bind; [by apply local_emits_pure|intros _].
    apply local_emits_bind; [apply local_emits_lift; auto with pqtls|intros [[reply|] cl']]; [|apply IH].
    apply local_emits_bind; [apply local_emits_lift, emits_send|intros c'].
    apply local_emits_bind; [by apply local_emits_pure|intros _]. apply IH.
  - apply local_emits_bind; [apply local_emits_lift, emits_read_more|intros [[d2 c2]|]]; [apply IH|].
    by apply local_emits_pure.
Qed.

(** What is known when the handshake stage is left. *)
Lemma server_handshake_wp config context fd peer Q E base s c :
  grown base [] s ->
  (forall ssl o s' c' g, grown base [EvGroup g; EvHandshake 1] s' ->
     ho_negotiated_group o = default "" g -> Q (ssl, o) (s', c')) ->
  (forall x s' c' facts, grown base facts s' -> E x (s', c')) ->
  wp (server_handshake config context fd peer) Q E (s, c).
Proof.
  intros Hg HQ HE. unfold server_handshake. cbn zeta. do 3 quiet_step.
  assert (HE' : forall x s' c' facts, grown base facts s' -> E x ((dispose ObjSsl a1 s').2, c'))
    by eauto using grown_dispose.
  apply wp_guarded_io. clear HE. rename HE' into HE. quiet_step. apply wp_bind. destruct (negb _); [eapply step_throw; eauto|apply wp_ret].
  quiet_step. apply wp_bind, wp_lift_io, call_ev_wp. intros rc w q _.
  match goal with Hs : grown base [] ?st |- _ =>
    pose proof (grown_event base [] st (mkSt w q (EvHandshake rc :: st_log st)) _ Hs eq_refl I) as Hh end.
  quiet_step. apply wp_bind, wp_modify, wp_bind. destruct (rc =? 1) eqn:Erc; cbn [negb].
  - apply Z.eqb_eq in Erc as ->. apply wp_ret, wp_bind, wp_lift_io, inspect_wp.
    intros o s9 g new L F Ho. apply wp_bind, wp_modify, wp_ret. eapply HQ; [|done]. by eapply grown_inspect.
  - do 2 quiet_step. case_match; apply wp_throw; eauto.
Qed.

Definition need_certificate (config : ServerConfig) (context : TlsContext) : bool :=
  s_require_client_certificate config || require_client_certificate (ctx_profile context).

Definition server_authorised (config : ServerConfig) (context : TlsContext) : list Event -> Prop :=
  authorised (ctx_profile context) (insecure_development_mode (s_common config))
    (need_certificate config context).

Lemma serve_gated config context fd peer base s c :
  grown base [] s ->
  wp (serve config context fd peer) (fun _ st => gated_since (server_authorised config context) base st.1)
    (fun _ st => gated_since (server_authorised config context) base st.1) (s, c).
Proof.
  intros Hg. unfold serve. cbn zeta. apply wp_bind. eapply server_handshake_wp; [done|..].
  2: intros; by eapply grown_gated.
  intros ssl o s1 c1 g Hg1 Ho. apply wp_scoped_io.
  eapply wp_mono; [intros ? ?; apply gated_since_dispose|intros ? ?; apply gated_since_dispose|].
  apply wp_bind, wp_lift; [|intros; by eapply grown_gated].
  intros [] Hpol. apply wp_bind, wp_lift_io, enforce_peer_wp.
  2: intros; eapply grown_gated, grown_step; eauto.
  intros s2 new2 L2 F2 Hver.
  destruct Hg1 as (new1 & L1 & F1 & I1).
  assert (Ha : server_authorised config context (new2 ++ new1)).
  { unfold server_authorised, authorised. splits; [apply in_or_app; right; apply I1; simpl; auto| |].
    - exists g. split; [apply in_or_app; right; apply I1; by left|].
      unfold enforce_group_policy in Hpol. rewrite <- Ho. by destruct (permits_negotiated_group _ _).
    - intros Hi. destruct (Hver Hi) as [H1 H2]. unfold need_certificate.
      split; [apply in_or_app; by left|intros; apply in_or_app; auto]. }
  assert (Hga : gated (server_authorised config context) (new2 ++ new1)).
  { rewrite <- (app_nil_r (new2 ++ new1)). apply gated_quiet; [|exact I]. apply Forall_app.
    split; (eapply Forall_impl; [apply quiet_no_data|eassumption]). }
  assert (L : st_log s2 = (new2 ++ new1) ++ base) by (rewrite L2, L1; by rewrite app_assoc).
  assert (Hend : forall s3 new3, st_log s3 = new3 ++ st_log s2 -> gated_since (server_authorised config context) base s3)
    by (intros; eapply gated_extend; [intros; by apply authorised_app|eassumption..]).
  eapply (local_emits_wp (fun _ => True)); [|intros; by eapply Hend|intros; by eapply Hend].
  apply local_emits_bind; [apply local_emits_lift; by auto with pqtls|intros _].
  apply local_emits_bind; [by apply local_emits_pure|intros d].
  apply local_emits_bind; [by eapply local_emits_mono, emits_app_loop|intros [counters handled]].
  apply local_emits_bind; [by apply local_emits_log_if|intros _].
  apply local_emits_bind; [|intros _; by apply local_emits_pure].
  apply local_emits_lift. unfold ssl_graceful_shutdown. case_match; [auto with pqtls|].
  apply emits_bind; [by apply emits_call_ev|intros]. apply emits_bind; [|auto with pqtls].
  case_match; [|auto with pqtls]. apply emits_bind; [by apply emits_call_ev|auto with pqtls].
Qed.

Lemma emits_record_failure (P : Event -> Prop) peer x :
  (forall e, logging e -> P e) -> local_emits P (record_failure (W := W) peer x).
Proof.
  intros HP. apply local_emits_bind; [by apply local_emits_pure|intros _].
  apply local_emits_lift. case_match; by apply emits_emit, HP.
Qed.

Lemma record_failure_eq peer x (s : St W) m :
  exists level text, record_failure peer x (s, m) =
    (Ok tt, (mkSt (st_world s) (st_errq s) (EvLog level text :: st_log s),
             with_result m false (exn_category x) (Some (exn_message x)))).
Proof. unfold record_failure, mbind, M_bind, modify. destruct (is_Error x); eauto. Qed.

Lemma emits_write_record writer : local_emits no_data (write_record (W := W) writer).
Proof.
  intros s c. unfold write_record. destruct writer as [[]|]; try by exists [].
  by apply local_emits_lift, emits_metrics.
Qed.

Lemma connection_body_gated config context writer p s c :
  let base := st_log s in
  wp (connection_body config context writer p) (fun _ st => gated_since (server_authorised config context) base st.1)
    (fun _ st => gated_since (server_authorised config context) base st.1) (s, c).
Proof.
  intros base. unfold connection_body. pose proof (grown_start s : grown base [] s) as Hg0.
  assert (HE : forall (x : exn) (s' : St W) (c' : ConnectionMetrics),
    grown base [] s' -> gated_since (server_authorised config context) base (s', c').1)
    by (intros; by eapply grown_gated).
  do 2 quiet_step. apply wp_bind, wp_modify. quiet_step.
  apply wp_bind, wp_catch. eapply wp_mono; [| |eapply serve_gated; eassumption].
  2: intros x [s' c'] Hx; destruct (is_exception x); [|done];
     (eapply step_gated; [apply emits_record_failure; by intros []|exact Hx| |done]); clear s' c' Hx; intros _ s' c' Hx.
  all: cbn beta; try intros _ [s' c'] Hx; simpl in Hx.
  all: repeat (apply wp_bind; eapply step_gated; [|eassumption| |done];
    [first [apply local_emits_lift, emits_silent; by auto with pqtls|by apply local_emits_pure]|
     intros ? ?st ? ?]).
  all: eapply step_gated; [apply emits_write_record|eassumption|done..].
Qed.

End gate_claims.
