(* ===== verification/ServerLoop.v ===== *)
(** The application loop of [PqTlsServer::handle_connection]: it terminates,
    answers the client's frames in order, one reply frame per answered
    request, and never exceeds the message limit. *)

From S2P Require Import Prelude Errors Runtime Json Framing Identifiers Message Profile.
From S2P Require Import ProfileYaml Config Transport Metrics TlsContext Gate Server.

(** ** Messages in and out *)

Section loop.
Context {W : Type} {RA : RuntimeApi W} {J : JsonLib} {EA : EnvApi W} {SA : SocketApi W}
  {LA : SslApi W} {LL : SslLaws W} {CA : CtxApi W} {MA : MetricsApi W} {VA : ServerApi W}.

Lemma throws_handle_message r p o : throws real (handle_message r p o).
Proof.
  unfold handle_message. case_match; try apply throws_ret;
    (apply throws_bind; [first [apply throws_make_ack|apply throws_make_error]|intros; apply throws_ret]).
Qed.

Lemma throws_respond f p o peer : throws real (respond f p o peer).
Proof.
  unfold respond. eapply (throws_catch _ real); [|done|].
  - apply throws_bind; [apply throws_parse|intros r].
    apply throws_bind; [apply throws_handle_message|intros; apply throws_ret].
  - intros x. apply throws_bind; [apply throws_log|intros _].
    apply throws_bind; [apply throws_make_error|intros; apply throws_ret].
Qed.

(** Answering a frame moves no data by itself. *)
Lemma logging_data l1 l2 :
  Forall logging l1 -> received (l1 ++ l2) = received l2 /\ sent (l1 ++ l2) = sent l2.
Proof. induction 1 as [|[] l1 He _ [IH1 IH2]]; simpl in *; done. Qed.

Lemma respond_data f p o peer s :
  received (st_log (respond f p o peer s).2) = received (st_log s) /\
  sent (st_log (respond f p o peer s).2) = sent (st_log s).
Proof. destruct (emits_respond f p o peer s) as (new & -> & F). by apply logging_data. Qed.

(** ** The loop *)

(** A request frame and the payload of the frame sent back, if any: what
    [respond] answers, serialised, and whether the answer ends the loop. *)
Definition answered_with (profile : SecurityProfile) (outcome : HandshakeOutcome) (closing : bool)
    (e : string * option string) : Prop :=
  exists peer s reply s', respond e.1 profile outcome peer s = (Ok (reply, closing), s') /\
    match reply with
    | None => e.2 = None
    | Some m => exists p, e.2 = Some p /\ Message_serialize m = Ok p
    end.

Definition answered (profile : SecurityProfile) (outcome : HandshakeOutcome)
    (e : string * option string) : Prop := exists closing, answered_with profile outcome closing e.

(** Frames answered one after the other from a loop that is [closing] or not:
    nothing is answered after an answer that closes, and [closed] is what the
    last one left. *)
Fixpoint answers (profile : SecurityProfile) (outcome : HandshakeOutcome) (closing : bool)
    (es : list (string * option string)) (closed : bool) : Prop :=
  match es with
  | [] => closed = closing
  | e :: es' => closing = false /\
      exists cl, answered_with profile outcome cl e /\ answers profile outcome cl es' closed
  end.

Lemma answers_all profile outcome cl es closed :
  answers profile outcome cl es closed -> Forall (answered profile outcome) es.
Proof.
  revert cl. induction es as [|e es IH]; simpl; [constructor|].
  intros cl (_ & cl' & Ha & Hr). constructor; [by exists cl'|by eapply IH].
Qed.

Definition requests (es : list (string * option string)) : list string := map fst es.
Definition replies (es : list (string * option string)) : list string := omap snd es.

(** What a run of the loop from decoder [d] has done: the frames it answered,
    what else it sent of a frame that was cut short, the bytes it got and those
    it left unanswered. *)
Record exchanged (config : ServerConfig) (profile : SecurityProfile) (outcome : HandshakeOutcome)
    (d : Decoder) (s s' : St W) (es : list (string * option string)) (cut got rest : list byte) : Prop := {
  ex_answered : Forall (answered profile outcome) es;
  ex_legal : Forall (legal (max_frame_size (s_common config))) (requests es ++ replies es);
  ex_received : received (st_log s') = received (st_log s) ++ got;
  ex_in : pending d ++ got = frames (requests es) ++ rest;
  ex_out : sent (st_log s') = sent (st_log s) ++ frames (replies es) ++ cut
}.

(** How many more rounds the loop can make. *)
Definition potential (config : ServerConfig) (handled : Z) (d : Decoder) : Z :=
  (max_messages_per_connection config - handled) * (max_frame_size (s_common config) + 6) +
  Z.max 0 (4 + max_frame_size (s_common config) - vec_size (pending d)).

Lemma frames_app a b : frames (a ++ b) = frames a ++ frames b.
Proof. unfold frames. by rewrite map_app, concat_app. Qed.

Section round.
Context (config : ServerConfig) (profile : SecurityProfile) (outcome : HandshakeOutcome).
Let max := max_frame_size (s_common config).
Let maxm := max_messages_per_connection config.
Context (Hmax : 1 <= max <= kAbsoluteMaxFrameSize) (Hmaxm : is_u32 maxm).

(** Nothing was answered any more. *)
Lemma exchanged_nil d s s' data cut :
  received (st_log s') = received (st_log s) ++ data -> sent (st_log s') = sent (st_log s) ++ cut ->
  exchanged config profile outcome d s s' [] cut data (pending d ++ data).
Proof. intros Hr Hs. by constructor; simpl; [constructor|constructor|..]. Qed.

(** A read in front. *)
Lemma exchanged_read d d' s s1 s' es cut got rest data :
  pending d' = pending d ++ data -> received (st_log s1) = received (st_log s) ++ data ->
  sent (st_log s1) = sent (st_log s) ->
  exchanged config profile outcome d' s1 s' es cut got rest ->
  exchanged config profile outcome d s s' es cut (data ++ got) rest.
Proof.
  intros Hp Hr Hs [A L I1 I2 O]. constructor; try done; [by rewrite I1, Hr, app_assoc| |by rewrite O, Hs].
  by rewrite <- I2, Hp, app_assoc.
Qed.

(** An answered frame in front. *)
Lemma exchanged_frame d d' s s1 s' es cut got rest f r :
  answered profile outcome (f, r) -> legal max f -> match r with Some p => legal max p | None => True end ->
  pending d = frame_of f ++ pending d' -> received (st_log s1) = received (st_log s) ->
  sent (st_log s1) = sent (st_log s) ++ frames (match r with Some p => [p] | None => [] end) ->
  exchanged config profile outcome d' s1 s' es cut got rest ->
  exchanged config profile outcome d s s' ((f, r) :: es) cut got rest.
Proof.
  intros Ha Hf Hlr Hp Hr Hs [A L I1 I2 O].
  constructor; [by constructor| |by rewrite I1, Hr| |].
  - apply Forall_app in L as [L1 L2]. apply Forall_app. split; [by constructor|].
    destruct r; simpl; [by constructor|done].
  - change (requests ((f, r) :: es)) with (f :: requests es).
    rewrite frames_cons, Hp, <- !app_assoc. by rewrite I2.
  - rewrite O, Hs, <- app_assoc. f_equal. rewrite app_assoc. f_equal. destruct r as [p|]; [|done].
    change (replies ((f, Some p) :: es)) with (p :: replies es).
    rewrite !frames_cons. by rewrite app_nil_r.
Qed.

(** Messages counted: requests and replies. *)
Definition messages (es : list (string * option string)) : Z :=
  Z.of_nat (length es + length (replies es)).

Definition counted (m : ConnectionMetrics) (n : Z) : Z := to_u32 (m_protocol_message_count m + n).

(** Why the loop returned: an answer closed the connection, the limit was
    reached, the server is stopping, or the last read found the peer gone with
    no complete frame left. *)
Definition loop_ended (closed : bool) (handled : Z) (rest : list byte) (s' : St W) : Prop :=
  closed = true \/ handled = maxm \/ (exists s0, call stopping s0 = (Ok true, s')) \/
  ((exists rc log, rc <= 0 /\ st_log s' = EvSslRead rc [] :: log) /\ Stream.next max rest = (Ok None, rest)).

(** Why it threw: the next header is illegal, the next frame could not be
    answered or its answer not be sent, or a read failed. *)
Definition loop_failed (peer : string) (ssl : Z) (rest : list byte) (x : exn) (s' : St W) : Prop :=
  (exists pre, Stream.next max rest = (Throw x, pre)) \/
  (exists f more s0, rest = frame_of f ++ more /\ respond f profile outcome peer s0 = (Throw x, s')) \/
  (exists f more reply closing c0 s0 s1, rest = frame_of f ++ more /\
     respond f profile outcome peer s0 = (Ok (Some reply, closing), s1) /\
     send_message ssl reply max c0 s1 = (Throw x, s')) \/
  (exists d0 c0 s0, read_more ssl d0 c0 s0 = (Throw x, s')).

(** The outcome of the loop. *)
Definition loop_post (peer : string) (ssl : Z) (cl : bool) (d : Decoder) (s : St W) (c : IoCounters)
    (m : ConnectionMetrics) (handled : Z) (out : result (IoCounters * Z) * (St W * ConnectionMetrics)) : Prop :=
  match out with
  | (Ok (c', handled'), (s', m')) =>
      exists es closed got rest, exchanged config profile outcome d s s' es [] got rest /\
        answers profile outcome cl es closed /\ loop_ended closed handled' rest s' /\
        handled' = handled + Z.of_nat (length es) /\ handled' <= maxm /\
        bytes_sent c' = to_u64 (bytes_sent c + Z.of_nat (length (frames (replies es)))) /\
        bytes_received c' = to_u64 (bytes_received c + Z.of_nat (length got)) /\
        m_protocol_message_count m' = counted m (messages es) /\
        vec_size rest <= buffer_bound max kReadChunk
  | (Throw x, (s', _)) =>
      real x /\ exists es cut got rest, truncated max cut /\
        exchanged config profile outcome d s s' es cut got rest /\
        answers profile outcome cl es false /\ loop_failed peer ssl rest x s'
  end.

Lemma reading_pending d : reading max d -> vec_size (pending d) <= buffer_bound max kReadChunk.
Proof.
  intros (_ & _ & Hb). etrans; [|exact Hb]. unfold pending, vec_size, buffered_bytes, vec_size.
  rewrite length_drop. lia.
Qed.

Lemma count_message_count m : m_protocol_message_count (count_message m) = counted m 1.
Proof. by destruct m. Qed.

Lemma loop_post_done peer ssl cl d s s' c m h :
  h <= maxm -> counters_ok c -> is_u32 (m_protocol_message_count m) -> reading max d ->
  received (st_log s') = received (st_log s) -> sent (st_log s') = sent (st_log s) ->
  loop_ended cl h (pending d) s' ->
  loop_post peer ssl cl d s c m h (Ok (c, h), (s', m)).
Proof.
  intros Hh [Hc Hcr] Hm Hd Hr Hs Hend. exists [], cl, [], (pending d).
  pose proof (exchanged_nil d s s' [] []) as He. rewrite !app_nil_r in He. splits; auto using reading_pending; simpl; unfold counted, messages.
  all: simpl; rewrite ?Z.add_0_r, ?to_u64_small, ?to_u32_small; done.
Qed.

Lemma loop_post_fail peer ssl d s s' c m m' h x data cut :
  real x -> truncated max cut -> received (st_log s') = received (st_log s) ++ data ->
  sent (st_log s') = sent (st_log s) ++ cut -> loop_failed peer ssl (pending d ++ data) x s' ->
  loop_post peer ssl false d s c m h (Throw x, (s', m')).
Proof.
  intros Hx Ht Hr Hs Hf. split; [done|]. exists [], cut, data, (pending d ++ data).
  splits; [done|by apply exchanged_nil|done|done].
Qed.

(** A failure before anything was sent. *)
Lemma loop_post_abort peer ssl d s s' c m m' h x data :
  real x -> received (st_log s') = received (st_log s) ++ data -> sent (st_log s') = sent (st_log s) ->
  loop_failed peer ssl (pending d ++ data) x s' -> loop_post peer ssl false d s c m h (Throw x, (s', m')).
Proof. intros Hx Hr Hs Hf. eapply loop_post_fail; [done|by left|done|by rewrite app_nil_r|done]. Qed.

Lemma loop_post_read peer ssl d d' s s1 c c1 m h data out :
  pending d' = pending d ++ data -> received (st_log s1) = received (st_log s) ++ data ->
  sent (st_log s1) = sent (st_log s) -> bytes_sent c1 = bytes_sent c ->
  bytes_received c1 = to_u64 (bytes_received c + Z.of_nat (length data)) ->
  loop_post peer ssl false d' s1 c1 m h out -> loop_post peer ssl false d s c m h out.
Proof.
  intros Hp Hr Hs Hc Hcr. destruct out as [[[c' h']|x] [s' m']]; simpl; rewrite ?Hc.
  - intros (es & closed & got & rest & He & Ha & Hend & Hh & Hl & Hb & Hbr & Hm).
    destruct Hm. exists es, closed, (data ++ got), rest. splits; try done; [by eapply exchanged_read|].
    rewrite Hbr, Hcr. unfold to_u64. rewrite Z.add_mod_idemp_l by done. f_equal. rewrite length_app. lia.
  - intros (Hx & es & cut & got & rest & Ht & He & Hf). split; [done|]. exists es, cut, (data ++ got), rest.
    splits; [done|by eapply exchanged_read|apply Hf..].
Qed.

Lemma loop_post_frame peer ssl cl d d' s s1 c c1 m m1 h f r out :
  answered_with profile outcome cl (f, r) -> legal max f -> match r with Some p => legal max p | None => True end ->
  pending d = frame_of f ++ pending d' -> received (st_log s1) = received (st_log s) ->
  let out_frames := frames (match r with Some p => [p] | None => [] end) in
  sent (st_log s1) = sent (st_log s) ++ out_frames ->
  bytes_sent c1 = to_u64 (bytes_sent c + Z.of_nat (length out_frames)) -> bytes_received c1 = bytes_received c ->
  m_protocol_message_count m1 = counted m (1 + match r with Some _ => 1 | None => 0 end) ->
  loop_post peer ssl cl d' s1 c1 m1 (h + 1) out -> loop_post peer ssl false d s c m h out.
Proof.
  intros Ha Hf Hl Hp Hr out_frames Hs Hc Hcr Hm. destruct out as [[[c' h']|x] [s' m']]; simpl.
  - intros (es & closed & got & rest & He & Hans & Hend & -> & Hle & Hb & Hbr & Hn & Hrest).
    exists ((f, r) :: es), closed, got, rest.
    split; [by eapply exchanged_frame; [exists cl|..]|].
    assert (Hfr : frames (replies ((f, r) :: es)) = out_frames ++ frames (replies es)).
    { unfold out_frames. destruct r as [p|]; [|done].
      change (replies ((f, Some p) :: es)) with (p :: replies es). rewrite !frames_cons.
      by rewrite app_nil_r. }
    rewrite Hb, Hbr, Hn, Hfr, length_app. unfold counted in *. rewrite Hc, Hcr, Hm. unfold to_u64, to_u32, messages.
    rewrite !Z.add_mod_idemp_l by done.
    splits; [split; [done|by exists cl]|done|simpl; lia|done|f_equal; lia|done| |done]. f_equal. destruct r; simpl; lia.
  - intros (Hx & es & cut & got & rest & Ht & He & Hans & Hfail). split; [done|]. exists ((f, r) :: es), cut, got, rest.
    splits; [done|by eapply exchanged_frame; [exists cl|..]|split; [done|by exists cl]|done].
Qed.

Lemma potential_frame h d d' :
  h < maxm -> potential config (h + 1) d' < potential config h d.
Proof.
  intros Hh. unfold potential. fold max maxm. pose proof (vec_size_nonneg (pending d')). nia.
Qed.

Lemma potential_read h d d' data :
  vec_size (pending d) < 4 + max -> data <> [] -> pending d' = pending d ++ data ->
  potential config h d' < potential config h d.
Proof.
  intros Hp Hd He. unfold potential. fold max. rewrite He, vec_size_app.
  assert (1 <= vec_size data) by (unfold vec_size; destruct data; simpl in *; [done|lia]). lia.
Qed.

Lemma stopping_silent_log s : exists b s1, call stopping s = (Ok b, s1) /\ st_log s1 = st_log s.
Proof.
  unfold call. destruct (stopping (st_world s) (st_errq s)) as [b [w q]]. eauto.
Qed.

Lemma answered_reply f peer s reply closing s' p :
  respond f profile outcome peer s = (Ok (Some reply, closing), s') -> Message_serialize reply = Ok p ->
  answered_with profile outcome closing (f, Some p).
Proof. intros H Hp. exists peer, s, (Some reply), s'. eauto. Qed.

Lemma answered_none f peer s closing s' :
  respond f profile outcome peer s = (Ok (None, closing), s') ->
  answered_with profile outcome closing (f, None).
Proof. intros H. by exists peer, s, None, s'. Qed.

(** What [app_loop] promises from [fuel] iterations on. *)
Definition loop_ok (fuel : nat) (peer : string) (ssl : Z) : Prop := forall d c h cl s m,
  reading max d -> counters_ok c -> 0 <= h <= maxm -> is_u32 (m_protocol_message_count m) ->
  potential config h d <= Z.of_nat fuel ->
  loop_post peer ssl cl d s c m h (app_loop fuel config profile outcome peer ssl d c h cl (s, m)).

(** An iteration that has a frame. *)
Lemma frame_round fuel peer ssl f d d' c h s m :
  loop_ok fuel peer ssl -> reading max d' -> legal max f -> pending d = frame_of f ++ pending d' ->
  counters_ok c -> 0 <= h < maxm -> is_u32 (m_protocol_message_count m) ->
  potential config h d <= Z.of_nat (S fuel) ->
  loop_post peer ssl false d s c m h
    ((modify count_message ;;
      '(reply, closing) ← lift_io (respond f profile outcome peer);
      match reply with
      | None => app_loop fuel config profile outcome peer ssl d' c (h + 1) closing
      | Some reply =>
          counters ← lift_io (send_message ssl reply max c);
          modify count_message ;;
          app_loop fuel config profile outcome peer ssl d' counters (h + 1) closing
      end) (s, m)).
Proof.
  intros IH Hd' Hlf Hp Hc Hh Hm Hf. unfold mbind at 1, M_bind at 1, modify at 1. cbn [fst snd].
  unfold mbind at 1, M_bind at 1, lift_io at 1.
  pose proof (respond_data f profile outcome peer s) as [Lr Ls]. pose proof (throws_respond f profile outcome peer s) as Hx.
  destruct (respond f profile outcome peer s) as [[[reply closing]|x] s2] eqn:Er; simpl in Lr, Ls.
  2: { eapply (loop_post_abort _ _ _ _ _ _ _ _ _ _ []); [by eapply Hx|by rewrite app_nil_r, Lr|by rewrite Ls|].
       right. left. exists f, (pending d' ++ []), s. by rewrite Hp, app_assoc. }
  pose proof (potential_frame h d d' ltac:(lia)).
  assert (Hm1 : forall m, is_u32 (m_protocol_message_count (count_message m)))
    by (intros; rewrite count_message_count; apply to_u32_ok).
  destruct reply as [reply|].
  - unfold mbind at 1, M_bind at 1, lift_io at 1.
    pose proof (send_message_spec ssl reply max c s2 Hmax Hc) as Hsend.
    destruct (send_message ssl reply max c s2) as [[c'|x] s3] eqn:Esend.
    2: { destruct Hsend as (Hreal & Hrec & pre & Hpre & Hsent).
         eapply (loop_post_fail _ _ _ _ _ _ _ _ _ _ []); [done|done|by rewrite Hrec, Lr, app_nil_r|by rewrite Hsent, Ls|].
         do 2 right. left. exists f, (pending d' ++ []), reply, closing, c, s, s2. by rewrite Hp, app_assoc. }
    destruct Hsend as (Hc' & Hrec & Hbr & p & Hser & Hlp & Hsent & Hbytes).
    unfold mbind at 1, M_bind at 1, modify at 1.
    eapply (loop_post_frame _ _ closing _ d' s s3 _ c' m _ _ f (Some p)); try done.
    + by eapply answered_reply.
    + by rewrite Hrec, Lr.
    + rewrite Hsent, Ls. unfold frames. simpl. by rewrite app_nil_r.
    + rewrite Hbytes. unfold frames. simpl. by rewrite app_nil_r.
    + rewrite count_message_count. unfold counted. rewrite count_message_count. unfold counted, to_u32.
      rewrite Z.add_mod_idemp_l by done. by rewrite <- Z.add_assoc.
    + apply IH; [done|done|lia|apply Hm1|lia].
  - eapply (loop_post_frame _ _ closing _ d' s s2 _ c m _ _ f None); try done.
    + by eapply answered_none.
    + rewrite app_nil_r. by rewrite Ls.
    + simpl. rewrite Z.add_0_r, to_u64_small; [done|apply Hc].
    + by rewrite count_message_count.
    + apply IH; [done|done|lia|apply Hm1|lia].
Qed.

(** An iteration that has to read. *)
Lemma read_round fuel peer ssl d d' c h s m :
  loop_ok fuel peer ssl -> reading max d -> reading max d' -> pending d' = pending d -> vec_size (pending d) < 4 + max ->
  Stream.next max (pending d) = (Ok None, pending d) ->
  counters_ok c -> 0 <= h <= maxm -> is_u32 (m_protocol_message_count m) ->
  potential config h d <= Z.of_nat (S fuel) ->
  loop_post peer ssl false d s c m h
    ((more ← lift_io (read_more ssl d' c);
      match more with
      | None => mret (c, h)
      | Some (decoder, counters) => app_loop fuel config profile outcome peer ssl decoder counters h false
      end) (s, m)).
Proof.
  intros IH Hd Hd' Hp Hshort Hnone Hc Hh Hm Hf. unfold mbind at 1, M_bind at 1, lift_io at 1.
  rewrite <- Hp in Hshort. pose proof (read_more_spec ssl d' c s max Hd' Hshort Hc) as Hread.
  pose proof (read_more_counts ssl d' c s (proj2 Hc)) as Hcount.
  destruct (read_more ssl d' c s) as [[[[d2 c2]|]|x] s2] eqn:Er.
  - destruct Hread as (Hc2 & Hb2 & Hd2 & Hs2 & data & Hne & Hp2 & Hr2).
    destruct Hcount as (data' & Hr2' & Hbr2). rewrite Hr2' in Hr2. apply app_inv_head in Hr2 as ->.
    eapply (loop_post_read _ _ _ d2 s s2 _ c2 _ _ data); [by rewrite Hp2, Hp|done..|].
    apply IH; try done. rewrite Hp in Hshort, Hp2.
    pose proof (potential_read h d d2 data Hshort Hne Hp2). lia.
  - destruct Hread as [Hr Hs]. destruct Hcount as (rc & Hrc & L). apply loop_post_done; try (done || lia).
    do 3 right. split; [by exists rc, (st_log s)|done].
  - destruct Hread as (Hx & Hs & data & Hr). eapply loop_post_abort; [done..|].
    do 3 right. by exists d', c, s.
Qed.

(** The log decides the outcome, so a silent step can be skipped. *)
Lemma loop_post_log peer ssl cl d s s1 c m h out :
  st_log s1 = st_log s -> loop_post peer ssl cl d s1 c m h out -> loop_post peer ssl cl d s c m h out.
Proof.
  intros L. assert (H : forall s' es cut got rest, exchanged config profile outcome d s1 s' es cut got rest ->
    exchanged config profile outcome d s s' es cut got rest).
  { intros s' es cut got rest [A L' I1 I2 O]. constructor; by rewrite <- ?L. }
  destruct out as [[[c' h']|x] [s' m']]; simpl.
  - intros (es & closed & got & rest & He & Hrest). exists es, closed, got, rest. auto.
  - intros (Hx & es & cut & got & rest & Ht & He & Hrest). split; [done|]. exists es, cut, got, rest. auto.
Qed.

Lemma app_loop_spec fuel peer ssl : loop_ok fuel peer ssl.
Proof.
  induction fuel as [|fuel IH]; intros d c h cl s m Hd Hc Hh Hm Hf.
  all: cbn [app_loop]; destruct cl; [apply loop_post_done; try (done || lia); by left|].
  all: destruct (stopping_silent_log s) as (stop & s1 & Hstop & L1).
  all: unfold mbind at 1, M_bind at 1, lift_io at 1; rewrite Hstop; fold max maxm.
  all: apply (loop_post_log _ _ _ d s s1); [done|].
  all: destruct (stop || negb (h <? maxm)) eqn:Es.
  1,3: apply loop_post_done; try (done || lia); right; destruct stop; [right; left; by exists s|left; bool_props; lia].
  all: bool_props.
  { exfalso. unfold potential in Hf. fold max maxm in Hf. nia. }
  pose proof (next_frame_step max d (proj1 Hmax) Hd) as Hn.
  pose proof (next_frame_stream max d (proj1 Hmax) Hd) as Hst.
  unfold mbind at 1, M_bind at 1, liftM at 1.
  destruct (on_decoder next_frame d) as [[[f|] d']|x].
  - destruct Hn as (Hd' & Hlf & Hp).
    assert (Hto : to_u32 (h + 1) = h + 1) by (apply to_u32_small; unfold is_u32 in *; lia).
    cbv zeta. rewrite Hto. apply frame_round; try done. lia.
  - destruct Hn as (Hd' & Hp & Hshort). by apply read_round.
  - eapply (loop_post_abort _ _ _ _ _ _ _ _ _ _ []); [done|by rewrite app_nil_r|done|].
    left. destruct Hst as [pre Hst]. exists pre. by rewrite app_nil_r.
Qed.

End round.

End loop.

Section claims.
Context {W : Type} {RA : RuntimeApi W} {J : JsonLib} {EA : EnvApi W} {SA : SocketApi W}
  {LA : SslApi W} {LL : SslLaws W} {CA : CtxApi W} {MA : MetricsApi W} {VA : ServerApi W}.

Lemma fuel_enough config :
  1 <= max_frame_size (s_common config) -> 0 <= max_messages_per_connection config ->
  potential config 0 (mkDecoder (max_frame_size (s_common config)) [] 0) <= Z.of_nat (loop_fuel config).
Proof.
  intros. unfold potential, loop_fuel, pending, vec_size. simpl. nia.
Qed.

(** The loop as [serve] starts it. *)
Lemma server_loop_post config profile outcome peer ssl s m :
  1 <= max_frame_size (s_common config) <= kAbsoluteMaxFrameSize ->
  is_u32 (max_messages_per_connection config) -> is_u32 (m_protocol_message_count m) ->
  let d := mkDecoder (max_frame_size (s_common config)) [] 0 in
  loop_post config profile outcome peer ssl false d s (mkIoCounters 0 0) m 0
    (app_loop (loop_fuel config) config profile outcome peer ssl d (mkIoCounters 0 0) 0 false (s, m)).
Proof.
  intros Hmax Hmaxm Hm d. unfold is_u32 in Hmaxm.
  apply app_loop_spec; [done|done|by apply reading_new| |lia|done|apply fuel_enough; lia].
  unfold counters_ok, is_u64, u64_max. simpl. lia.
Qed.

(** ** Claims *)

(** C6: The server's application loop.  Within the configured limits it
    always terminates.  When it returns, the client's bytes were cut into a
    sequence of legal frames, in order, at most the configured number of
    them; each was answered by what [respond] answers it, none after an answer
    that closes, and libssl has been given exactly the frames of these answers,
    in the same order, with the two byte counters and the message counter to
    match.  It returns for one of four reasons only: the last answer closed the
    connection, the limit is reached, the server was seen to be stopping, or
    the last read found the peer gone and no complete frame is left.  When it
    throws, the exception is the one of an illegal header after the answered
    frames, of answering the next frame, of sending that answer, or of a read;
    the same holds of the frames answered until then, followed by at most one
    frame that was cut short. *)
Theorem server_loop_correct config profile outcome peer ssl s m :
  1 <= max_frame_size (s_common config) <= kAbsoluteMaxFrameSize ->
  is_u32 (max_messages_per_connection config) -> is_u32 (m_protocol_message_count m) ->
  let max := max_frame_size (s_common config) in
  match app_loop (loop_fuel config) config profile outcome peer ssl (mkDecoder max [] 0)
          (mkIoCounters 0 0) 0 false (s, m) with
  | (Ok (c', handled), (s', m')) =>
      exists es closed got rest,
        answers profile outcome false es closed /\ loop_ended config closed handled rest s' /\
        Forall (legal max) (requests es ++ replies es) /\
        handled = Z.of_nat (length es) /\ handled <= max_messages_per_connection config /\
        received (st_log s') = received (st_log s) ++ got /\ got = frames (requests es) ++ rest /\
        sent (st_log s') = sent (st_log s) ++ frames (replies es) /\
        bytes_sent c' = to_u64 (Z.of_nat (length (frames (replies es)))) /\
        bytes_received c' = to_u64 (Z.of_nat (length got)) /\
        m_protocol_message_count m' =
          to_u32 (m_protocol_message_count m + Z.of_nat (length es + length (replies es)))
  | (Throw x, (s', _)) =>
      real x /\ exists es got rest cut,
        answers profile outcome false es false /\ loop_failed config profile outcome peer ssl rest x s' /\
        Forall (legal max) (requests es ++ replies es) /\ truncated max cut /\
        received (st_log s') = received (st_log s) ++ got /\ got = frames (requests es) ++ rest /\
        sent (st_log s') = sent (st_log s) ++ frames (replies es) ++ cut
  end.
Proof.
  intros Hmax Hmaxm Hm max. pose proof (server_loop_post config profile outcome peer ssl s m Hmax Hmaxm Hm) as Hp.
  cbv zeta in Hp. fold max in Hp. destruct (app_loop _ _ _ _ _ _ _ _ _ _ _) as [[[c' h]|x] [s' m']].
  - destruct Hp as (es & closed & got & rest & [A L I1 I2 O] & Ha & He & Hh & Hl & Hb & Hbr & Hn & _).
    rewrite app_nil_r in O. exists es, closed, got, rest. by splits.
  - destruct Hp as (Hx & es & cut & got & rest & Ht & [A L I1 I2 O] & Ha & Hf).
    split; [done|]. exists es, got, rest, cut. by splits.
Qed.

End claims.

(** ** An instance, for examples

    A client that sends one [ping] frame and closes; the toy JSON library
    knows the two texts "ping" and "pong". *)

Definition toy_metrics {W : Type} : MetricsApi W := {|
  getrusage := fun w q => ((0, mkRusage 1 0 0 500000 2048), (w, q));
  parent_path := fun _ => "";
  create_directories := fun _ w q => (None, (w, q));
  open_append := fun _ w q => (true, (w, q));
  stream_write := fun _ w q => (tt, (w, q));
  stream_flush := fun w q => (true, (w, q))
|}.

Definition toy_server {W : Type} : ServerApi W := {|
  SSL_accept := fun _ w q => (1, (w, q));
  stopping := fun w q => (false, (w, q))
|}.

Definition ping_document : json :=
  JObject [("message_id", JString "id-1"); ("protocol_version", JUInt 1);
           ("timestamp", JString "t"); ("type", JString "ping")].

Definition toy_protocol : JsonLib := {|
  json_parse := fun t => if String.eqb t "ping" then Parsed ping_document else ParseError "syntax error";
  json_text := fun j => inr (if String.eqb (get_string (json_at j "type")) "pong" then "pong" else "record");
  json_pretty_text := fun _ => inr "document"
|}.

(** The server configuration of the examples: small limits. *)
Definition small_server : ServerConfig :=
  mkServerConfig
    (mkCommonConfig "hybrid-x25519-mlkem768" "" "server.pem" "server.key" "" "" "e1" 64 10000 30000 Human
       "info" false "")
    "0.0.0.0" 8443 4 4 60000 2 false.

Definition toy_outcome : HandshakeOutcome :=
  mkOutcome "TLSv1.3" "X25519MLKEM768" "TLS_AES_256_GCM_SHA384" "" "" "" false true.

Definition toy_run : result (IoCounters * Z) * (St (list byte) * ConnectionMetrics) :=
  app_loop (RA := toy_clock) (J := toy_protocol) (SA := toy_sockets) (LA := toy_ssl) (VA := toy_server)
    (loop_fuel small_server) small_server lab_profile toy_outcome "127.0.0.1:50000" 9 (mkDecoder 64 [] 0)
    (mkIoCounters 0 0) 0 false (mkSt (frame_of "ping") [] [], ConnectionMetrics_default).

Lemma server_loop_correct_witness :
  toy_run.1 = Ok (mkIoCounters 8 8, 1) /\
  exists es, Z.of_nat (length es) = 1 /\ sent (st_log toy_run.2.1) = frames (replies es).
Proof.
  pose proof (server_loop_correct (RA := toy_clock) (J := toy_protocol) (SA := toy_sockets) (LA := toy_ssl)
    (VA := toy_server) small_server lab_profile toy_outcome "127.0.0.1:50000" 9 (mkSt (frame_of "ping") [] []) ConnectionMetrics_default) as H.
  assert (Hr : toy_run.1 = Ok (mkIoCounters 8 8, 1)) by (vm_compute; reflexivity).
  split; [exact Hr|].
  assert (H1 : 1 <= max_frame_size (s_common small_server) <= kAbsoluteMaxFrameSize)
    by (unfold kAbsoluteMaxFrameSize; simpl; lia).
  assert (H2 : is_u32 (max_messages_per_connection small_server)) by (unfold is_u32, u32_max; simpl; lia).
  assert (H3 : is_u32 (m_protocol_message_count ConnectionMetrics_default))
    by (unfold is_u32, u32_max; simpl; lia).
  specialize (H H1 H2 H3). cbv zeta in H. change (app_loop _ _ _ _ _ _ _ _ _ _ _) with toy_run in H.
  destruct toy_run as [[[c h]|x] [s' m']]; [|discriminate Hr]. simpl in Hr. injection Hr as -> ->.
  destruct H as (es & closed & got & rest & _ & _ & _ & Hn & _ & _ & _ & Hsent & _).
  exists es. split; [by rewrite <- Hn|exact Hsent].
Defined.
