(* ===== verification/ServerSpec.v ===== *)
(** What a client connection can observe and what it leaves behind: the
    theorems on [PqTlsServer::handle_connection] as a whole. *)

From S2P Require Import Prelude Errors Runtime Json Framing Identifiers Message Profile.
From S2P Require Import ProfileYaml Config Transport Metrics TlsContext Gate Server ServerLoop.

(** ** The metrics of a connection *)

Section server_spec.
Context {W : Type} {RA : RuntimeApi W} {J : JsonLib} {EA : EnvApi W} {SA : SocketApi W}
  {LA : SslApi W} {LL : SslLaws W} {CA : CtxApi W} {MA : MetricsApi W} {VA : ServerApi W}.

(** The flags follow the group that was negotiated. *)
Definition flags_ok (m : ConnectionMetrics) : Prop :=
  m_pq_key_establishment m = is_post_quantum_group (m_negotiated_group m) /\
  m_hybrid_key_establishment m = is_hybrid_group (m_negotiated_group m).

(** Inside the [try] block nothing has been decided yet. *)
Definition undecided (m : ConnectionMetrics) : Prop :=
  flags_ok m /\ m_success m = false /\ m_error_category m = CatNone /\ m_error_message m = None /\
  is_u32 (m_protocol_message_count m).

Lemma undecided_count m : undecided m -> undecided (count_message m).
Proof.
  destruct m. unfold undecided, flags_ok. simpl.
  intros ([? ?] & ? & ? & ? & ?). splits; try done. apply to_u32_ok.
Qed.

Lemma undecided_start cid ts role rp ex np pa :
  undecided (with_peer_address (with_negotiated_profile
    (with_identity ConnectionMetrics_default cid ts role rp ex) np) pa).
Proof.
  unfold undecided, flags_ok. simpl. splits; try reflexivity; unfold is_u32, u32_max; simpl; lia.
Qed.

Lemma keeps_app_loop P fuel config p o peer ssl d c h cl :
  (forall m, P m -> P (count_message m)) ->
  keeps P (app_loop fuel config p o peer ssl d c h cl).
Proof.
  intros HP. revert d c h cl. induction fuel as [|fuel IH]; intros d c h cl; cbn [app_loop].
  all: destruct cl; [apply keeps_ret|]; apply keeps_bind; [apply keeps_lift|intros stop].
  all: destruct (_ || _); [apply keeps_ret|]; try apply keeps_throw.
  apply keeps_bind; [apply keeps_liftM|intros [[f|] d']].
  - apply keeps_bind; [by apply keeps_modify|intros _].
    apply keeps_bind; [apply keeps_lift|intros [[reply|] cl']]; [|apply IH].
    apply keeps_bind; [apply keeps_lift|intros c'].
    apply keeps_bind; [by apply keeps_modify|intros _; apply IH].
  - apply keeps_bind; [apply keeps_lift|intros [[d2 c2]|]]; [apply IH|apply keeps_ret].
Qed.

(** A record of a finished connection: flags from the group; a success names
    a permitted group and carries no error, a failure carries a message. *)
Definition decided (profile : SecurityProfile) (m : ConnectionMetrics) : Prop :=
  flags_ok m /\
  if m_success m then
    permits_negotiated_group profile (m_negotiated_group m) = true /\
    m_error_category m = CatNone /\ m_error_message m = None
  else exists text, m_error_message m = Some text.

Lemma server_handshake_metrics config context fd peer s c :
  undecided c ->
  wp (server_handshake config context fd peer)
    (fun r st => undecided st.2 /\ m_negotiated_group st.2 = ho_negotiated_group r.2)
    (fun _ st => undecided st.2) (s, c).
Proof.
  intros Hc. unfold server_handshake. cbn zeta.
  assert (Hstep : forall A (m : local W ConnectionMetrics A) Q s c, keeps undecided m -> undecided c ->
    (forall a s' c', undecided c' -> Q a (s', c')) -> wp m Q (fun _ st => undecided st.2) (s, c)).
  { intros A m Q s0 c0 Hm H0 HQ. specialize (Hm s0 c0 H0). unfold wp.
    destruct (m (s0, c0)) as [[a|x] [s' c']]; auto. }
  do 3 (apply wp_bind, Hstep; [apply keeps_lift|done|]; clear s c Hc; intros ? s c Hc).
  apply wp_guarded_io. cbn [snd].
  apply wp_bind, Hstep; [apply keeps_lift|done|]; clear s c Hc; intros ? s c Hc.
  apply wp_bind, Hstep; [case_match; auto with pqtls|done|]; clear s c Hc; intros ? s c Hc.
  do 3 (apply wp_bind, Hstep; [apply keeps_lift|done|]; clear s c Hc; intros ? s c Hc).
  apply wp_bind, Hstep; [apply keeps_modify; intros m Hm; by destruct m|done|]; clear s c Hc; intros ? s c Hc.
  apply wp_bind, Hstep; [|done|]; [|clear s c Hc; intros ? s c Hc].
  { case_match; [|apply keeps_ret]. repeat (apply keeps_bind; [apply keeps_lift|intros ?]).
    case_match; apply keeps_throw. }
  apply wp_bind, Hstep; [apply keeps_lift|done|]; clear s c Hc; intros o s c Hc.
  apply wp_bind, wp_modify, wp_ret. simpl. destruct c. unfold undecided, flags_ok in *. simpl in *. naive_solver.
Qed.

Lemma throws_handshake config context fd peer : throws real (server_handshake config context fd peer).
Proof.
  unfold server_handshake. cbn zeta.
  apply throws_bind; [apply throws_lift_io|intros _].
  { eapply throws_mono; [apply real_network|apply set_timeouts_throws]. }
  apply throws_bind; [apply throws_lift_io, set_tcp_nodelay_throws|intros _].
  apply throws_bind; [apply throws_lift_io|intros ssl].
  { by apply throws_new_ssl. }
  apply throws_guarded. apply throws_bind; [apply throws_lift_io, throws_call_ev|intros rc].
  apply throws_bind; [case_match; [by apply throws_lift_io, throws_openssl|apply throws_ret]|intros _].
  apply throws_bind; [apply throws_lift_io, throws_call|intros timer].
  apply throws_bind; [apply throws_lift_io, throws_call_ev|intros res].
  apply throws_bind; [apply throws_lift_io; unfold elapsed_ms; auto with pqtls|intros t].
  apply throws_bind; [apply throws_modify|intros _].
  apply throws_bind; [case_match; [|apply throws_ret]|intros _].
  { apply throws_bind; [apply throws_lift_io, throws_drain|intros det].
    apply throws_bind; [apply throws_lift_io, throws_call|intros v]. case_match; by apply throws_throw. }
  apply throws_bind; [apply throws_lift_io, throws_inspect|intros o].
  apply throws_bind; [apply throws_modify|intros _; apply throws_ret].
Qed.

Definition server_limits (config : ServerConfig) : Prop :=
  1 <= max_frame_size (s_common config) <= kAbsoluteMaxFrameSize /\
  is_u32 (max_messages_per_connection config).

(** The [try] block decides a success or throws a real exception. *)
Lemma serve_outcome config context fd peer s c :
  server_limits config -> undecided c ->
  wp (serve config context fd peer)
    (fun _ st => decided (ctx_profile context) st.2 /\ m_success st.2 = true)
    (fun x st => real x /\ undecided st.2) (s, c).
Proof.
  intros [Hmax Hmaxm] Hc. unfold serve. cbn zeta. apply wp_bind.
  eapply wp_mono; [|by intros ? ? H; exact H|
    apply wp_throws; [apply throws_handshake|by apply server_handshake_metrics]].
  intros [ssl o] [s1 c1] [Hc1 Hg1]. simpl in Hc1, Hg1. apply wp_scoped_io. cbn [snd].
  apply wp_bind, wp_lift.
  2: { intros x Hx. unfold enforce_group_policy in Hx. case_match; [done|]. injection Hx as <-. done. }
  intros [] Hpol. assert (Hperm : permits_negotiated_group (ctx_profile context) (m_negotiated_group c1) = true).
  { unfold enforce_group_policy in Hpol. rewrite Hg1. by destruct (permits_negotiated_group _ _). }
  apply wp_bind, wp_lift_io, enforce_peer_wp; [intros s2 _ _ _ _|intros; split; [by apply real_certificate|done]].
  apply wp_bind, wp_lift_io, log_wp. set (s2l := mkSt _ _ _).
  rewrite Decoder_new_ok by done. apply wp_bind. unfold wp at 1. cbn [liftM]. apply wp_bind.
  destruct Hc1 as (Hfl & Hsu & Hcat & Hmsg & Hcnt).
  pose proof (server_loop_post config (ctx_profile context) o peer ssl s2l c1 Hmax Hmaxm Hcnt) as Hloop.
  cbv zeta in Hloop.
  pose proof (keeps_app_loop (fun m => undecided m /\ m_negotiated_group m = m_negotiated_group c1)
    (loop_fuel config) config (ctx_profile context) o peer ssl
    (mkDecoder (max_frame_size (s_common config)) [] 0) (mkIoCounters 0 0) 0 false) as Hkeep.
  specialize (Hkeep ltac:(intros m [H1 H2]; split; [by apply undecided_count|by destruct m]) s2l c1
    ltac:(by split)).
  unfold wp at 1. destruct (app_loop _ _ _ _ _ _ _ _ _ _ _) as [[[c' h]|x] [s3 c3]]; simpl in Hkeep.
  2: { split; [apply Hloop|apply Hkeep]. }
  apply wp_bind, log_if_wp. clear s2l Hloop. rename s3 into s3'. intros s3 _ _ _.
  apply wp_bind, wp_lift_io.
  pose proof (throws_shutdown (fun _ => False) ssl s3) as Hsh. unfold wp at 1.
  destruct (ssl_graceful_shutdown ssl s3) as [[[]|x] s4]; [|by destruct (Hsh x s4)].
  apply wp_modify. destruct Hkeep as [(Hf3 & _ & _ & Hm3 & _) Hg3].
  destruct c3. unfold decided, flags_ok in *. simpl in *.
  split; [|done]. split; [exact Hf3|]. by rewrite Hg3.
Qed.

(** ** Events inside the [try] block *)

Lemma emits_handshake config context fd peer : local_emits quiet (server_handshake config context fd peer).
Proof.
  unfold server_handshake. cbn zeta.
  repeat first [ apply local_emits_bind; [|intros ?] | apply local_emits_guarded
    | apply local_emits_lift; first [apply emits_set_timeouts|apply emits_inspect|by apply emits_call_ev
        |by auto with pqtls]
    | by apply local_emits_pure | case_match ].
Qed.

Lemma emits_serve config context fd peer : local_emits inner (serve config context fd peer).
Proof.
  unfold serve. cbn zeta.
  apply local_emits_bind; [eapply local_emits_mono, emits_handshake; apply quiet_inner|intros [ssl o]].
  apply local_emits_scoped; [apply local_emits_lift; auto with pqtls|].
  apply local_emits_bind; [by apply local_emits_pure|intros _].
  apply local_emits_bind; [eapply local_emits_mono, local_emits_lift, emits_enforce_peer; apply quiet_inner|intros _].
  apply local_emits_bind; [apply local_emits_lift; by auto with pqtls|intros _].
  apply local_emits_bind; [by apply local_emits_pure|intros d].
  apply local_emits_bind; [eapply local_emits_mono, emits_app_loop; apply transfer_inner|intros [c h]].
  apply local_emits_bind; [by apply local_emits_log_if|intros _].
  apply local_emits_bind; [eapply local_emits_mono, local_emits_lift, emits_shutdown; apply quiet_inner|intros _].
  by apply local_emits_pure.
Qed.

(** ** The whole handler *)

Definition recording (writer : option MetricsWriter) : bool :=
  match writer with Some w => enabled w | None => false end.

Definition server_identity (config : ServerConfig) (context : TlsContext) (p : PendingConnection)
    (m : ConnectionMetrics) : Prop :=
  m_role m = RoleServer /\ m_requested_profile m = profile_id (s_common config) /\
  m_negotiated_profile m = id (ctx_profile context) /\
  m_experiment_id m = experiment_id (s_common config) /\ m_peer_address m = pc_peer_address p.

(** Since [base] only inner events. *)
Definition inner_since (base : list Event) (s : St W) : Prop :=
  exists new, st_log s = new ++ base /\ Forall inner new.

Lemma inner_step {A} base (m : local W ConnectionMetrics A) (Q : A -> _ -> Prop) (E : exn -> _ -> Prop)
    (T : exn -> Prop) P s c :
  local_emits inner m -> throws T m -> keeps P m -> inner_since base s -> P c ->
  (forall a s' c', inner_since base s' -> P c' -> Q a (s', c')) ->
  (forall x s' c', inner_since base s' -> T x -> E x (s', c')) -> wp m Q E (s, c).
Proof.
  intros Hm Ht Hk (n & L & F) HP HQ HE. destruct (Hm s c) as (n2 & L2 & F2).
  specialize (Ht (s, c)). specialize (Hk s c HP). unfold wp.
  assert (Hin : inner_since base (m (s, c)).2.1).
  { exists (n2 ++ n). rewrite L2, L, app_assoc. split; [done|by apply Forall_app]. }
  destruct (m (s, c)) as [[a|x] [s' c']]; simpl in *; [by apply HQ|]. apply HE; [done|by eapply Ht].
Qed.

Definition finished (config : ServerConfig) (context : TlsContext) (p : PendingConnection)
    (m : ConnectionMetrics) : Prop :=
  decided (ctx_profile context) m /\ server_identity config context p m.

(** The record of a connection can be serialised: no string in it is ill-formed. *)
Definition serialisable (config : ServerConfig) (context : TlsContext) (p : PendingConnection) : Prop :=
  forall m, finished config context p m -> exists line, to_jsonl_line m = Ok line.

(** An exception that leaves the handler: the identifier could not be made, or
    the record not be serialised. *)
Definition escaped (config : ServerConfig) (context : TlsContext) (p : PendingConnection) (x : exn) : Prop :=
  real x /\ (generator_works W -> ~ serialisable config context p).

Lemma write_record_outcome config context writer p base s m :
  inner_since base s -> finished config context p m ->
  wp (write_record writer)
    (fun _ st => exists new, Forall inner new /\ finished config context p st.2 /\
       if recording writer
       then exists line good, to_jsonl_line st.2 = Ok line /\
              st_log st.1 = EvMetrics line good :: new ++ base
       else st_log st.1 = new ++ base)
    (fun x st => escaped config context p x /\ inner_since base st.1) (s, m).
Proof.
  intros (new & L & F) Hf. unfold write_record, wp, recording.
  destruct writer as [[]|]; cbn [enabled]; [|exists new; done|exists new; done].
  unfold lift_io. pose proof (MetricsWriter_write_outcome m s) as Hw.
  destruct (to_jsonl_line m) as [line|x] eqn:Ed.
  - destruct Hw as (good & s' & -> & Lw). exists new. splits; [done|done|]. exists line, good. split; [done|]. simpl. by rewrite Lw, L.
  - rewrite Hw. split; [|by exists new]. split.
    + unfold to_jsonl_line, json_dump in Ed. case_match; [by injection Ed as <-|done].
    + intros _ Hs. destruct (Hs m Hf) as [line Hl]. congruence.
Qed.

Lemma serve_identity config context fd peer s c (P : ConnectionMetrics -> Prop) :
  (forall m t, P m -> P (with_handshake_ms m t)) -> (forall m, P m -> P (count_message m)) ->
  (forall m a b d e f g h i, P m -> P (with_negotiation m a b d e f g h i)) ->
  (forall m a b r k e, P m -> P (with_result (with_bytes m a b) r k e)) ->
  P c -> P (serve config context fd peer (s, c)).2.2.
Proof.
  intros H1 H2 H3 H4 Hc. revert s c Hc. change (keeps P (serve config context fd peer)).
  unfold serve, server_handshake. cbn zeta.
  repeat first [ apply keeps_lift | apply keeps_liftM | apply keeps_ret | apply keeps_throw
    | by apply keeps_modify; auto | by apply keeps_app_loop | apply keeps_scoped | apply keeps_guarded | apply keeps_bind; [|intros ?] | case_match ].
Qed.

Lemma identity_stable config context p :
  (forall m t, server_identity config context p m -> server_identity config context p (with_handshake_ms m t)) /\
  (forall m t, server_identity config context p m -> server_identity config context p (with_connection_ms m t)) /\
  (forall m u, server_identity config context p m -> server_identity config context p (with_usage m u)) /\
  (forall m, server_identity config context p m -> server_identity config context p (count_message m)) /\
  (forall m a b d e f g h i, server_identity config context p m ->
     server_identity config context p (with_negotiation m a b d e f g h i)) /\
  (forall m a b r k e, server_identity config context p m ->
     server_identity config context p (with_result (with_bytes m a b) r k e)) /\
  (forall m r k e, server_identity config context p m ->
     server_identity config context p (with_result m r k e)).
Proof. splits; intros m *; by destruct m. Qed.

Lemma finished_stable config context p m :
  finished config context p m ->
  (forall t, finished config context p (with_connection_ms m t)) /\
  (forall u, finished config context p (with_usage m u)).
Proof. intros Hf. split; intros; by destruct m. Qed.

(** The [try] statement ends with a decided record and throws nothing. *)
Lemma try_serve_outcome config context p base s c Q E :
  server_limits config -> undecided c -> server_identity config context p c -> inner_since base s ->
  (forall s' c', inner_since base s' -> finished config context p c' -> Q tt (s', c')) ->
  wp (try_catch (serve config context (pc_fd p) (pc_peer_address p)) is_exception (record_failure (pc_peer_address p))) Q E (s, c).
Proof.
  intros Hlim Hc Hid (n & L & F) HQ.
  destruct (identity_stable config context p) as (I1 & _ & _ & I2 & I3 & I4 & I5).
  pose proof (serve_identity config context (pc_fd p) (pc_peer_address p) s c _ I1 I2 I3 I4 Hid) as Hi.
  pose proof (serve_outcome config context (pc_fd p) (pc_peer_address p) s c Hlim Hc) as Ho.
  destruct (emits_serve config context (pc_fd p) (pc_peer_address p) s c) as (n2 & L2 & F2).
  apply wp_catch. unfold wp in Ho |- *.
  destruct (serve config context (pc_fd p) (pc_peer_address p) (s, c)) as [[[]|x] [s' c']]; simpl in *.
  all: assert (Hin : inner_since base s')
    by (exists (n2 ++ n); rewrite L2, L, app_assoc; split; [done|by apply Forall_app]).
  - apply HQ; [done|split; [apply Ho|done]].
  - destruct Ho as [Hx Hu]. rewrite (proj1 Hx).
    destruct (record_failure_eq (pc_peer_address p) x s' c') as (level & text & ->).
    apply HQ; [|split; [|by apply I5]].
    { destruct Hin as (n3 & L3 & F3). exists (EvLog level text :: n3). simpl. rewrite L3. split; [done|by constructor]. }
    destruct Hu as (Hf & _). split; [by destruct c'|]. destruct c'. simpl. eauto.
Qed.

Lemma connection_body_outcome config context writer p s :
  server_limits config ->
  wp (connection_body config context writer p)
    (fun _ st => exists new, Forall inner new /\ finished config context p st.2 /\
       if recording writer
       then exists line good, to_jsonl_line st.2 = Ok line /\
              st_log st.1 = EvMetrics line good :: new ++ st_log s
       else st_log st.1 = new ++ st_log s)
    (fun x st => escaped config context p x /\ inner_since (st_log s) st.1) (s, ConnectionMetrics_default).
Proof.
  intros Hlim. unfold connection_body. set (base := st_log s).
  assert (H0 : inner_since base s) by (by exists []).
  assert (Hs : forall A (m : io W A), silent m -> local_emits (L := ConnectionMetrics) inner (lift_io m))
    by (intros; by apply local_emits_lift, emits_silent).
  apply wp_bind, (inner_step base _ _ _ (fun x => real x /\ ~ generator_works W) (fun m => m = ConnectionMetrics_default));
    [auto with pqtls|apply throws_lift_io, throws_uuid_works|apply keeps_lift|done|done| |
     by intros x s' c' Hi [Hx Hg]; split; [split; [|intros ?; destruct Hg]|]].
  intros cid s1 c1 H1 ->. apply wp_bind, (inner_step base _ _ _ (fun _ => False) (fun m => m = ConnectionMetrics_default));
    [auto with pqtls|apply throws_lift_io, throws_now|apply keeps_lift|done|done| |done].
  intros ts s2 c2 H2 ->. apply wp_bind, wp_modify. set (c0 := with_peer_address _ _).
  apply wp_bind, (inner_step base _ _ _ (fun _ => False) (fun m => m = c0));
    [auto with pqtls|apply throws_lift_io, throws_call|apply keeps_lift|done|done| |done].
  intros timer s3 c3 H3 ->.
  apply wp_bind, (try_serve_outcome _ _ _ base); [done|apply undecided_start|done|done|].
  intros s4 c4 H4 Hf4.
  apply wp_bind, (inner_step base _ _ _ (fun _ => False) (finished config context p));
    [auto with pqtls|apply throws_lift_io; unfold elapsed_ms; auto with pqtls|apply keeps_lift|done|done| |done].
  intros t s5 c5 H5 Hf5. apply wp_bind, wp_modify.
  apply wp_bind, (inner_step base _ _ _ (fun _ => False) (finished config context p));
    [auto with pqtls|apply throws_lift_io; unfold ResourceUsage_sample|apply keeps_lift|done|by apply finished_stable| |done].
  { apply throws_bind; [apply throws_call|intros []; apply throws_ret]. }
  intros u s6 c6 H6 Hf6. apply wp_bind, wp_modify.
  apply write_record_outcome; [done|by apply finished_stable].
Qed.

(** ** Replies *)

(** The reply the protocol prescribes for a request. *)
Definition reply_ok (profile : SecurityProfile) (outcome : HandshakeOutcome) (request r : Message) : Prop :=
  message_id r = message_id request /\ protocol_version r = kProtocolVersion /\
  match type request with
  | Ping => type r = Pong /\ status r = Some "accepted" /\ payload r = JObject []
  | Echo => type r = Acknowledgement /\ status r = Some "accepted" /\ payload r = payload request
  | Telemetry => type r = Acknowledgement /\ status r = Some "accepted" /\ payload r = JObject []
  | Capabilities_ => type r = Acknowledgement /\ status r = Some "accepted" /\
      payload r = build_capabilities_payload profile outcome
  | Close => False
  | Acknowledgement | Pong | Error_ => type r = Error_ /\ status r = Some "rejected" /\
      payload r = JObject [("reason", JString ("message type '" +:+ MessageType_to_string (type request) +:+
        "' is a response type and is not accepted from a client"))]
  end.

Lemma make_ack_outcome r t s : exists ts s',
  make_acknowledgement r t s =
  (Ok (mkMessage kProtocolVersion (message_id r) Acknowledgement ts (Some t) (JObject [])), s').
Proof.
  unfold make_acknowledgement, iso8601_now, mbind, M_bind, call.
  destruct (system_clock_now _ _) as [ns [w q]]. eauto.
Qed.

Lemma make_error_some_outcome r t s : exists ts s',
  make_error (Some r) t s =
  (Ok (mkMessage kProtocolVersion (message_id r) Error_ ts (Some "rejected")
         (JObject [("reason", JString t)])), s').
Proof.
  unfold make_error, iso8601_now, mbind, M_bind, call. cbn.
  destruct (system_clock_now _ _) as [ns [w q]]. eauto.
Qed.

Lemma handle_message_outcome request p o s : exists reply s',
  handle_message request p o s = (Ok reply, s') /\
  match reply with Some r => reply_ok p o request r | None => type request = Close end.
Proof.
  unfold handle_message, reply_ok. destruct (type request).
  all: try (destruct (make_ack_outcome request "accepted" s) as (ts & s' & Ha);
    rewrite (bind_eq _ _ _ _ _ Ha); eexists _, _; (split; [reflexivity|]); done).
  all: try (edestruct make_error_some_outcome as (ts & s' & He);
    rewrite (bind_eq _ _ _ _ _ He); eexists _, _; (split; [reflexivity|]); done).
  by exists None, s.
Qed.

(** ** The life of a connection *)

(** How a connection ends: the result of the handler and its events, the newest
    first. *)
Definition ended (config : ServerConfig) (context : TlsContext) (writer : option MetricsWriter)
    (p : PendingConnection) (r : result unit) (log : list Event) : Prop :=
  match r with
  | Ok _ => exists new m, Forall inner new /\ finished config context p m /\
      if recording writer
      then exists line good, to_jsonl_line m = Ok line /\
             log = EvClose (pc_fd p) :: EvMetrics line good :: new
      else log = EvClose (pc_fd p) :: new
  | Throw x => escaped config context p x /\ exists new, Forall inner new /\ log = EvClose (pc_fd p) :: new
  end.

Lemma handle_connection_gated config context writer p s :
  exists new, st_log (handle_connection config context writer p s).2 = new ++ st_log s /\
    gated (server_authorised config context) new.
Proof.
  unfold handle_connection, with_socket, scoped.
  pose proof (connection_body_gated config context writer p s ConnectionMetrics_default) as Hb.
  unfold wp in Hb. destruct (connection_body config context writer p (s, ConnectionMetrics_default))
    as [[u|x] [s1 m1]]; destruct Hb as (new & L & G); simpl in L;
    destruct (Socket_close_outcome (pc_fd p) s1) as (w & q & Hc); rewrite Hc; simpl;
    (destruct (pc_fd p >=? 0); [exists (EvClose (pc_fd p) :: new); rewrite L; done|exists new; done]).
Qed.

Lemma handle_connection_ended config context writer p s :
  server_limits config -> 0 <= pc_fd p ->
  exists new, st_log (handle_connection config context writer p s).2 = new ++ st_log s /\
    ended config context writer p (handle_connection config context writer p s).1 new.
Proof.
  intros Hlim Hfd. unfold handle_connection, with_socket, scoped.
  pose proof (connection_body_outcome config context writer p s Hlim) as Hb. unfold wp in Hb.
  destruct (connection_body config context writer p (s, ConnectionMetrics_default)) as [[u|x] [s1 m1]].
  all: destruct (Socket_close_outcome (pc_fd p) s1) as (w & q & Hc); rewrite Hc; cbn [fst snd st_log ended];
    rewrite (proj2 (Z.geb_le (pc_fd p) 0)) by lia; cbn [fst snd] in Hb.
  - destruct Hb as (new & F & Hf & Hr). destruct (recording writer).
    + destruct Hr as (line & good & Hd & L). exists (EvClose (pc_fd p) :: EvMetrics line good :: new).
      rewrite L. split; [done|]. exists new, m1. eauto 6.
    + exists (EvClose (pc_fd p) :: new). rewrite Hr. split; [done|]. by exists new, m1.
  - destruct Hb as (Hx & new & L & F). exists (EvClose (pc_fd p) :: new). rewrite L.
    split; [done|]. split; [done|]. by exists new.
Qed.

(** ** Claims *)

(** C1: No application data before the policy checks.  In everything a
    connection does, whatever the peer, the network and OpenSSL do, each TLS
    read or write of application data comes after a successful handshake
    whose group was read and is permitted by the profile, and, unless
    verification is disabled, after a positive chain verification and, when
    client certificates are required, a certificate from the peer. *)
Theorem application_data_gated config context writer p s :
  exists new, st_log (handle_connection config context writer p s).2 = new ++ st_log s /\
    gated (server_authorised config context) new.
Proof.
  apply handle_connection_gated.
Qed.


(** The requests of the protocol, as opposed to its responses. *)
Definition is_request (t : MessageType) : bool :=
  match t with Ping | Echo | Telemetry | Capabilities_ => true | _ => false end.

(** A response type from a client is answered with an error, and the connection
    is kept open. *)
Lemma response_type_kept_open frame p o peer request (s s1 s' : St W) reply closing :
  Message_parse frame s = (Ok request, s1) ->
  is_request (type request) = false -> type request <> Close ->
  respond frame p o peer s = (Ok (reply, closing), s') ->
  closing = false /\ exists r, reply = Some r /\ type r = Error_.
Proof.
  intros Hp Hr Hc. unfold respond, try_catch, mbind at 1, M_bind at 1. rewrite Hp.
  destruct (handle_message_outcome request p o s1) as (re & s2 & Hh & Hok).
  rewrite (bind_eq _ _ _ _ _ Hh). intros [= <- <- <-]. destruct re as [r|]; [|done].
  split; [done|]. exists r. split; [done|]. destruct Hok as (_ & _ & Hok).
  destruct (type request); try discriminate Hr; naive_solver.
Qed.

(** C30: The answer to a frame.  A frame that parses is answered as the
    protocol prescribes (the same message id; pong, echo, acknowledgement or
    capabilities; an error for a response type; nothing for [close]);
    [close] ends the loop, and a request of the protocol does not.  A protocol
    violation is answered with an error message carrying the reason, and ends
    the loop.  Any other exception leaves the handler without an answer. *)
Theorem respond_spec frame p o peer s :
  match respond frame p o peer s with
  | (Ok (reply, closing), _) =>
      (exists request s1, Message_parse frame s = (Ok request, s1) /\
         match reply with
         | Some r => reply_ok p o request r /\ (is_request (type request) = true -> closing = false)
         | None => type request = Close /\ closing = true
         end) \/
      (exists x s1 r, Message_parse frame s = (Throw x, s1) /\ is_ProtocolError x = true /\
         reply = Some r /\ closing = true /\ type r = Error_ /\ status r = Some "rejected" /\
         payload r = JObject [("reason", JString (exn_message x))])
  | (Throw x, _) => real x /\ is_ProtocolError x = false
  end.
Proof.
  unfold respond, try_catch, mbind at 1, M_bind at 1.
  pose proof (throws_parse frame s) as Ht.
  destruct (Message_parse frame s) as [[request|x] s1] eqn:Ep.
  - destruct (handle_message_outcome request p o s1) as (reply & s2 & Hh & Hr).
    rewrite (bind_eq _ _ _ _ _ Hh). simpl. left. exists request, s1. split; [done|].
    by destruct reply.
  - specialize (Ht _ _ eq_refl). destruct (is_ProtocolError x) eqn:Epx; [|done].
    unfold make_error, mbind, M_bind, log_at, emit. set (s1' := mkSt _ _ _). pose proof (throws_uuid s1') as Hu.
    pose proof (uuid_exn s1') as Hi.
    destruct (generate_uuid_v4 s1') as [[u|y] s2].
    + pose proof (throws_now (fun _ => False) s2) as Hn.
      destruct (iso8601_now s2) as [[ts|y] s3]; [|by destruct (Hn y s3)].
      simpl. right. eexists x, s1, _. splits; try done.
    + split; [by eapply Hu|]. specialize (Hi _ _ eq_refl). destruct y as [[] e| |]; try done.
      simpl in *. by rewrite Hi.
Qed.

End server_spec.

(** A whole connection of the toy client, recorded in the metrics file. *)
Definition toy_connection : result unit * St (list byte) :=
  handle_connection (RA := toy_clock) (J := toy_protocol) (SA := toy_sockets) (LA := toy_ssl)
    (CA := toy_ctx "X25519MLKEM768") (MA := toy_metrics) (VA := toy_server)
    small_server (mkTlsContext 7 lab_profile) (Some true) (mkPending 4 "127.0.0.1:50000")
    (mkSt (frame_of "ping") [] []).

