(* ===== verification/ServerPool.v ===== *)
(** The server's acceptor and worker pool: [PqTlsServer::run], [stop],
    [worker_loop] and the destructor of [src/server/server.cpp].

    The threads are interleaved at the granularity of their critical sections:
    a piece of code that runs under [queue_mutex_], one system call or one
    atomic access that another thread reacts to is one step.  The condition
    variable is modelled as the standard describes it: [wait] tests its
    predicate while it holds the mutex ([Deciding]), then releases the mutex
    and blocks in one step ([Asleep]); a notification reaches only threads that
    are blocked at that moment, and a blocked thread may also wake spuriously.
    [ps_opened], [ps_closed], [ps_enqueued] and [ps_taken] are ghost lists of
    what has happened so far; [running_], which no thread reacts to, is stored
    together with the flag next to it in the code. *)

From stdpp Require Import relations.
From S2P Require Import Prelude Errors Runtime Config Server.

(** ** State *)

(** Where the thread that called [run] is. *)
Inductive acceptor :=
  | NotStarted
  | Started                             (* running_ set, stopping_ not yet cleared *)
  | Spawning                            (* in the loop that creates the workers *)
  | Looping                             (* at the test of the accept loop *)
  | Polling                             (* in poll or accept *)
  | Holding (p : PendingConnection)     (* accepted, before the queue lock *)
  | Counting                            (* enqueued, counter not yet increased *)
  | Notifying                           (* before notify_one *)
  | Leaving                             (* loop left, listener closed, before notify_all *)
  | Joining                             (* in the join loop *)
  | Finished
  | Failed                              (* an exception left run *)
  | Destructing                         (* destructor: in stop(), flags stored *)
  | Renotifying                         (* destructor: before its own notify_all *)
  | Reaping                             (* destructor: in the join loop *)
  | Destroyed.

Inductive worker :=
  | Ready                               (* about to lock and test the wait predicate *)
  | Deciding                            (* found it false, still holds the mutex *)
  | Asleep                              (* blocked in wait *)
  | Busy (p : PendingConnection)        (* in handle_connection *)
  | Exited.

Record Pool := mkPool {
  ps_acceptor : acceptor;
  ps_running : bool;
  ps_stopping : bool;
  ps_stops : nat;                       (* calls of stop() that still have to notify *)
  ps_queue : list PendingConnection;
  ps_accepted : Z;
  ps_rejected : Z;
  ps_workers : list worker;
  ps_opened : list PendingConnection;
  ps_closed : list PendingConnection;
  ps_enqueued : list PendingConnection;
  ps_taken : list PendingConnection
}.

Definition Pool_new : Pool := mkPool NotStarted false false 0 [] 0 0 [] [] [] [] [].

(** [std::max(1U, config_.max_connections)]. *)
Definition worker_count (config : ServerConfig) : Z := Z.max 1 (max_connections config).

(** [queue_mutex_] is free when no worker is between the test of its predicate
    and the call that blocks; all other critical sections are single steps. *)
Definition is_deciding (w : worker) : bool := match w with Deciding => true | _ => false end.
Definition is_asleep (w : worker) : bool := match w with Asleep => true | _ => false end.
Definition is_ready (w : worker) : bool := match w with Ready => true | _ => false end.

Definition count (f : worker -> bool) (ws : list worker) : nat := length (List.filter f ws).

Definition unlocked (ws : list worker) : Prop := count is_deciding ws = 0%nat.

(** [notify_all]. *)
Definition wake (w : worker) : worker := if is_asleep w then Ready else w.

(** The destructor runs while no [run] is active; [stop] may be called as long as
    the object exists. *)
Definition inactive (a : acceptor) : bool :=
  match a with NotStarted | Finished | Failed => true | _ => false end.

Definition alive (a : acceptor) : bool :=
  match a with Destroyed => false | _ => true end.

(** ** Steps *)

(** Who moves: a thread that calls [stop], the thread that called [run], the one
    that destroys the object, a worker in its loop, or a worker whose handler
    has ended, normally or not. *)
Inductive actor :=
  | Stopper
  | Runner
  | Destroyer
  | Worker
  | Handler (p : PendingConnection) (returned : bool).

(** The connection a worker serves. *)
Definition busy (w : worker) : option PendingConnection :=
  match w with Busy p => Some p | _ => None end.

Inductive step (config : ServerConfig) : actor -> Pool -> Pool -> Prop :=
  (* stop(): the flags, from any thread, at any time *)
  | StepStop a r st k q na nr ws op cl en tk :
      alive a = true ->
      step config Stopper (mkPool a r st k q na nr ws op cl en tk)
                          (mkPool a false true (S k) q na nr ws op cl en tk)
  (* stop(): notify_all *)
  | StepStopNotify a r st q na nr ws op cl en tk k :
      step config Stopper (mkPool a r st (S k) q na nr ws op cl en tk)
                          (mkPool a r st k q na nr (map wake ws) op cl en tk)
  (* run(): running_.store(true) *)
  | StepStart r st k q na nr ws op cl en tk :
      step config Runner (mkPool NotStarted r st k q na nr ws op cl en tk)
                         (mkPool Started true st k q na nr ws op cl en tk)
  (* tcp_listen throws *)
  | StepListenFailed r st k q na nr ws op cl en tk :
      step config Runner (mkPool NotStarted r st k q na nr ws op cl en tk)
                         (mkPool Failed r st k q na nr ws op cl en tk)
  (* stopping_.store(false) *)
  | StepClear r st k q na nr ws op cl en tk :
      step config Runner (mkPool Started r st k q na nr ws op cl en tk)
                         (mkPool Spawning r false k q na nr ws op cl en tk)
  (* a worker thread is created *)
  | StepSpawn r st k q na nr ws op cl en tk :
      Z.of_nat (length ws) < worker_count config ->
      step config Runner (mkPool Spawning r st k q na nr ws op cl en tk)
                         (mkPool Spawning r st k q na nr (ws ++ [Ready]) op cl en tk)
  (* the thread cannot be created: std::system_error leaves run *)
  | StepSpawnFailed r st k q na nr ws op cl en tk :
      Z.of_nat (length ws) < worker_count config ->
      step config Runner (mkPool Spawning r st k q na nr ws op cl en tk)
                         (mkPool Failed r st k q na nr ws op cl en tk)
  (* all workers exist *)
  | StepSpawned r st k q na nr ws op cl en tk :
      worker_count config <= Z.of_nat (length ws) ->
      step config Runner (mkPool Spawning r st k q na nr ws op cl en tk)
                         (mkPool Looping r st k q na nr ws op cl en tk)
  (* the loop condition holds *)
  | StepTest r k q na nr ws op cl en tk :
      step config Runner (mkPool Looping r false k q na nr ws op cl en tk)
                         (mkPool Polling r false k q na nr ws op cl en tk)
  (* poll times out, or poll or accept fails *)
  | StepNone r st k q na nr ws op cl en tk :
      step config Runner (mkPool Polling r st k q na nr ws op cl en tk)
                         (mkPool Looping r st k q na nr ws op cl en tk)
  (* accept delivers a connection, on a descriptor that is not in use *)
  | StepAccept r st k q na nr ws op cl en tk p :
      0 <= pc_fd p -> pc_fd p ∉ map pc_fd (q ++ omap busy ws) ->
      step config Runner (mkPool Polling r st k q na nr ws op cl en tk)
                         (mkPool (Holding p) r st k q na nr ws (p :: op) cl en tk)
  (* queue_.size() >= max_connections: count, and close on scope exit *)
  | StepRefuse r st k q na nr ws op cl en tk p :
      unlocked ws ->
      max_connections config <= Z.of_nat (length q) ->
      step config Runner (mkPool (Holding p) r st k q na nr ws op cl en tk)
                         (mkPool Looping r st k q na (to_u64 (nr + 1)) ws op (p :: cl) en tk)
  (* push_back *)
  | StepEnqueue r st k q na nr ws op cl en tk p :
      unlocked ws ->
      Z.of_nat (length q) < max_connections config ->
      step config Runner (mkPool (Holding p) r st k q na nr ws op cl en tk)
                         (mkPool Counting r st k (q ++ [p]) na nr ws op cl (en ++ [p]) tk)
  (* connections_accepted_.fetch_add(1) *)
  | StepCount r st k q na nr ws op cl en tk :
      step config Runner (mkPool Counting r st k q na nr ws op cl en tk)
                         (mkPool Notifying r st k q (to_u64 (na + 1)) nr ws op cl en tk)
  (* notify_one, with a blocked worker *)
  | StepNotifyOne r st k q na nr ws op cl en tk i :
      ws !! i = Some Asleep ->
      step config Runner (mkPool Notifying r st k q na nr ws op cl en tk)
                         (mkPool Looping r st k q na nr (<[i := Ready]> ws) op cl en tk)
  (* notify_one, with nobody blocked *)
  | StepNotifyNone r st k q na nr ws op cl en tk :
      count is_asleep ws = 0%nat ->
      step config Runner (mkPool Notifying r st k q na nr ws op cl en tk)
                         (mkPool Looping r st k q na nr ws op cl en tk)
  (* the loop condition fails: running_ is cleared, the listener closed *)
  | StepLeave r k q na nr ws op cl en tk :
      step config Runner (mkPool Looping r true k q na nr ws op cl en tk)
                         (mkPool Leaving false true k q na nr ws op cl en tk)
  (* run(): notify_all *)
  | StepLeaveNotify r st k q na nr ws op cl en tk :
      step config Runner (mkPool Leaving r st k q na nr ws op cl en tk)
                         (mkPool Joining r st k q na nr (map wake ws) op cl en tk)
  (* all workers joined; what is still queued is closed *)
  | StepFinish r st k q na nr ws op cl en tk :
      Forall (fun w => w = Exited) ws ->
      step config Runner (mkPool Joining r st k q na nr ws op cl en tk)
                         (mkPool Finished r st k [] na nr [] op (q ++ cl) en tk)
  (* ~PqTlsServer(): the flags of stop() *)
  | StepDestruct a r st k q na nr ws op cl en tk :
      inactive a = true ->
      step config Destroyer (mkPool a r st k q na nr ws op cl en tk)
                            (mkPool Destructing false true k q na nr ws op cl en tk)
  (* ~PqTlsServer(): the notify_all of stop() *)
  | StepDestructNotify r st k q na nr ws op cl en tk :
      step config Destroyer (mkPool Destructing r st k q na nr ws op cl en tk)
                            (mkPool Renotifying r st k q na nr (map wake ws) op cl en tk)
  (* ~PqTlsServer(): its own notify_all *)
  | StepRenotify r st k q na nr ws op cl en tk :
      step config Destroyer (mkPool Renotifying r st k q na nr ws op cl en tk)
                            (mkPool Reaping r st k q na nr (map wake ws) op cl en tk)
  (* ~PqTlsServer(): all workers joined; the members go, nothing is closed *)
  | StepDestroyed r st k q na nr ws op cl en tk :
      Forall (fun w => w = Exited) ws ->
      step config Destroyer (mkPool Reaping r st k q na nr ws op cl en tk)
                            (mkPool Destroyed r st k [] na nr [] op cl en tk)
  (* a worker takes the front of the queue *)
  | StepTake a r st k na nr ws op cl en tk p q i :
      ws !! i = Some Ready ->
      unlocked ws ->
      step config Worker (mkPool a r st k (p :: q) na nr ws op cl en tk)
                         (mkPool a r st k q na nr (<[i := Busy p]> ws) op cl en (tk ++ [p]))
  (* the queue is empty and a stop was requested *)
  | StepExit a r k na nr ws op cl en tk i :
      ws !! i = Some Ready ->
      unlocked ws ->
      step config Worker (mkPool a r true k [] na nr ws op cl en tk)
                         (mkPool a r true k [] na nr (<[i := Exited]> ws) op cl en tk)
  (* the predicate of wait is false *)
  | StepDecide a r k na nr ws op cl en tk i :
      ws !! i = Some Ready ->
      unlocked ws ->
      step config Worker (mkPool a r false k [] na nr ws op cl en tk)
                         (mkPool a r false k [] na nr (<[i := Deciding]> ws) op cl en tk)
  (* wait releases the mutex and blocks *)
  | StepSleep a r st k q na nr ws op cl en tk i :
      ws !! i = Some Deciding ->
      step config Worker (mkPool a r st k q na nr ws op cl en tk)
                         (mkPool a r st k q na nr (<[i := Asleep]> ws) op cl en tk)
  (* a spurious wake-up *)
  | StepSpurious a r st k q na nr ws op cl en tk i :
      ws !! i = Some Asleep ->
      step config Worker (mkPool a r st k q na nr ws op cl en tk)
                         (mkPool a r st k q na nr (<[i := Ready]> ws) op cl en tk)
  (* handle_connection returned; its socket is closed *)
  | StepServed a r st k q na nr ws op cl en tk i p :
      ws !! i = Some (Busy p) ->
      step config (Handler p true) (mkPool a r st k q na nr ws op cl en tk)
                                   (mkPool a r st k q na nr (<[i := Ready]> ws) op (p :: cl) en tk)
  (* an exception left handle_connection; the catch-all ends the thread *)
  | StepDied a r st k q na nr ws op cl en tk i p :
      ws !! i = Some (Busy p) ->
      step config (Handler p false) (mkPool a r st k q na nr ws op cl en tk)
                                    (mkPool a r st k q na nr (<[i := Exited]> ws) op (p :: cl) en tk).

(** A step of any thread. *)
Definition pool_step (config : ServerConfig) (s s' : Pool) : Prop := exists who, step config who s s'.

Inductive reachable (config : ServerConfig) : Pool -> Prop :=
  | reach_init : reachable config Pool_new
  | reach_step s s' : reachable config s -> pool_step config s s' -> reachable config s'.

(** ** Lists of workers *)

Lemma omap_insert (ws : list worker) (i : nat) (w w' : worker) :
  ws !! i = Some w ->
  option_list (busy w') ++ omap busy ws ≡ₚ option_list (busy w) ++ omap busy (<[i := w']> ws).
Proof. apply omap_insert_perm. Qed.

Lemma omap_idle (ws : list worker) (i : nat) (w' : worker) :
  busy w' = None -> omap busy ws = [] -> omap busy (<[i := w']> ws) = [].
Proof.
  revert i. induction ws as [|v ws IH]; intros [|i] Hw H; try done; simpl in *;
    destruct (busy v); try done; rewrite ?Hw; auto.
Qed.

Lemma omap_wake (ws : list worker) : omap busy (map wake ws) = omap busy ws.
Proof. induction ws as [|[] ws IH]; [done|try exact IH ..]. exact (f_equal (cons p) IH). Qed.

Lemma omap_exited (ws : list worker) : Forall (fun w => w = Exited) ws -> omap busy ws = [].
Proof. induction 1 as [|w ws -> _ IH]; done. Qed.

Lemma omap_spawn (ws : list worker) : omap busy (ws ++ [Ready]) = omap busy ws.
Proof. rewrite omap_app. exact (right_id_L [] (++) (omap busy ws)). Qed.

Lemma count_insert (f : worker -> bool) (ws : list worker) (i : nat) (w w' : worker) :
  ws !! i = Some w ->
  (count f (<[i := w']> ws) + Nat.b2n (f w) = count f ws + Nat.b2n (f w'))%nat.
Proof.
  unfold count. revert i. induction ws as [|v ws IH]; intros [|i] H; simplify_eq/=.
  - destruct (f w), (f w'); simpl; lia.
  - specialize (IH i H). destruct (f v); simpl; lia.
Qed.

Lemma count_wake_asleep (ws : list worker) : count is_asleep (map wake ws) = 0%nat.
Proof. unfold count. induction ws as [|[] ws IH]; simpl; done. Qed.

Lemma count_wake_deciding (ws : list worker) :
  count is_deciding (map wake ws) = count is_deciding ws.
Proof. unfold count. induction ws as [|[] ws IH]; simpl; congruence. Qed.

Lemma count_wake_ready (ws : list worker) :
  (count is_ready ws <= count is_ready (map wake ws))%nat.
Proof. unfold count. induction ws as [|[] ws IH]; simpl; lia. Qed.

Lemma count_spawn (f : worker -> bool) (ws : list worker) :
  count f (ws ++ [Ready]) = (count f ws + Nat.b2n (f Ready))%nat.
Proof. unfold count. rewrite List.filter_app, length_app. simpl. by destruct (f Ready). Qed.

Lemma count_lookup (f : worker -> bool) (ws : list worker) (i : nat) (w : worker) :
  ws !! i = Some w -> f w = true -> (0 < count f ws)%nat.
Proof. intros H Hf. pose proof (count_insert f ws i w w H). unfold count in *. revert i H H0.
  induction ws as [|v ws IH]; intros [|i] H H0; simplify_eq/=; [rewrite Hf; simpl; lia|].
  destruct (f v); simpl; [lia|]. apply (IH i H). by rewrite list_insert_id.
Qed.

Lemma count_absent (f : worker -> bool) (ws : list worker) (w : worker) :
  (forall v, f v = true -> v = w) -> ~ In w ws -> count f ws = 0%nat.
Proof.
  intros Hf Hn. unfold count. destruct (List.filter f ws) as [|v l] eqn:E; [done|].
  assert (Hin : In v (List.filter f ws)) by (rewrite E; by left).
  apply filter_In in Hin as [Hin Hv]. apply Hf in Hv as ->. done.
Qed.

Lemma absent_asleep ws : ~ In Asleep ws -> count is_asleep ws = 0%nat.
Proof. apply count_absent. by intros []. Qed.

Lemma absent_deciding ws : ~ In Deciding ws -> count is_deciding ws = 0%nat.
Proof. apply count_absent. by intros []. Qed.

(** ** Safety: bounds, conservation, order and counters *)

Definition held (a : acceptor) : list PendingConnection :=
  match a with Holding p => [p] | _ => [] end.

Definition uncounted (a : acceptor) : nat := match a with Counting => 1 | _ => 0 end.

(** [run] has returned, or will never be called again. *)
Definition over (a : acceptor) : bool :=
  match a with
  | Finished | Failed | Destructing | Renotifying | Reaping | Destroyed => true
  | _ => false
  end.

(** Before the accept loop and after the join. *)
Definition quiet (a : acceptor) : bool :=
  match a with NotStarted | Started | Spawning => true | _ => over a end.

Definition gone (a : acceptor) : bool :=
  match a with NotStarted | Started | Finished | Destroyed => true | _ => false end.

(** Every accepted connection is in exactly one place; the queue and the pool
    are bounded; connections are taken in the order they were enqueued. *)
Definition placed (config : ServerConfig) (s : Pool) : Prop :=
  Z.of_nat (length (ps_queue s)) <= max_connections config /\
  Z.of_nat (length (ps_workers s)) <= worker_count config /\
  ps_opened s ≡ₚ
    ps_closed s ++ held (ps_acceptor s) ++ ps_queue s ++ omap busy (ps_workers s) /\
  (over (ps_acceptor s) = false -> ps_enqueued s = ps_taken s ++ ps_queue s).

(** The counters agree with what was enqueued and what was refused. *)
Definition accounted (s : Pool) : Prop :=
  (length (ps_enqueued s) + length (held (ps_acceptor s)) <= length (ps_opened s))%nat /\
  (uncounted (ps_acceptor s) <= length (ps_enqueued s))%nat /\
  ps_accepted s = to_u64 (Z.of_nat (length (ps_enqueued s) - uncounted (ps_acceptor s))) /\
  ps_rejected s = to_u64 (Z.of_nat
    (length (ps_opened s) - length (ps_enqueued s) - length (held (ps_acceptor s)))).

(** Outside the accept loop and the shutdown of [run] nothing is queued or being
    served; before the first worker is created and after the last join there
    are no workers. *)
Definition settled (s : Pool) : Prop :=
  (quiet (ps_acceptor s) = true -> ps_queue s = [] /\ omap busy (ps_workers s) = []) /\
  (gone (ps_acceptor s) = true -> ps_workers s = []).

Lemma pool_settled_step config s s' : settled s -> pool_step config s s' -> settled s'.
Proof.
  unfold settled. intros [H1 H2] Hs. destruct Hs as [who Hs]; destruct Hs; simpl in *; rewrite ?omap_wake, ?omap_spawn;
    split; intros Ha; try done; auto.
  all: try (by rewrite H2).
  all: try (destruct a; simpl in *; try done; by auto).
  all: try (destruct (H1 Ha) as [? Hb]; split; [done|]; simplify_eq; by apply omap_idle).
Qed.

(** Solves the conservation equation after the worker [i] changed its state. *)
Ltac moved w' :=
  match goal with
  | Hi : _ !! _ = Some _, Hc : _ ≡ₚ _ |- _ =>
      let E := fresh in
      pose proof (omap_insert _ _ _ w' Hi) as E; simpl in E;
      rewrite Hc; first [rewrite E|rewrite <- E]; solve_Permutation
  end.

Lemma conserved_step config s s' :
  pool_step config s s' -> settled s ->
  ps_opened s ≡ₚ ps_closed s ++ held (ps_acceptor s) ++ ps_queue s ++ omap busy (ps_workers s) ->
  ps_opened s' ≡ₚ ps_closed s' ++ held (ps_acceptor s') ++ ps_queue s' ++ omap busy (ps_workers s').
Proof.
  intros Hs [Hd _] Hc. destruct Hs as [who Hs]; destruct Hs; simpl in *; rewrite ?omap_wake, ?omap_spawn in *; try exact Hc.
  - rewrite Hc. solve_Permutation.
  - rewrite Hc. solve_Permutation.
  - rewrite Hc. solve_Permutation.
  - moved Ready.
  - rewrite omap_exited in Hc by done. rewrite Hc. solve_Permutation.
  - rewrite Hc. destruct a; try done.
  - destruct (Hd eq_refl) as [-> E]. by rewrite E in Hc.
  - moved (Busy p).
  - moved Exited.
  - moved Deciding.
  - moved Asleep.
  - moved Ready.
  - moved Ready.
  - moved Exited.
Qed.

Lemma to_u64_succ (n : Z) : to_u64 (to_u64 n + 1) = to_u64 (n + 1).
Proof. unfold to_u64. apply Zplus_mod_idemp_l. Qed.

Lemma placed_step config s s' :
  settled s -> placed config s -> pool_step config s s' -> placed config s'.
Proof.
  intros Hd (Hq & Hw & Hc & Hf) Hs. split; [|split; [|split]]; [| |by eapply conserved_step|].
  - destruct Hs as [who Hs]; destruct Hs; simpl in *; rewrite ?length_app; simpl; lia.
  - destruct Hs as [who Hs]; destruct Hs; simpl in *; rewrite ?length_insert, ?length_map, ?length_app; simpl;
      unfold worker_count in *; lia.
  - destruct Hs as [who Hs]; destruct Hs; simpl in *; intros Hne; try done; try (by apply Hf).
    all: rewrite Hf by done; by rewrite <- ?(assoc_L (++)).
Qed.

Lemma accounted_step config s s' : accounted s -> pool_step config s s' -> accounted s'.
Proof.
  unfold accounted. intros (H1 & H2 & H3 & H4) Hs. destruct Hs as [who Hs]; destruct Hs; simpl in *;
    try (match goal with H : inactive ?a = true |- _ => destruct a; try done end);
    rewrite ?length_app; simpl; splits; try lia; try exact H3; try exact H4; subst;
    rewrite ?to_u64_succ; f_equal; lia.
Qed.

Lemma reachable_ind' config (I : Pool -> Prop) :
  I Pool_new -> (forall s s', reachable config s -> I s -> pool_step config s s' -> I s') ->
  forall s, reachable config s -> I s.
Proof. intros H0 HS s Hr. induction Hr; eauto. Qed.

(** The connections whose descriptor is open. *)
Definition live (s : Pool) : list PendingConnection :=
  held (ps_acceptor s) ++ ps_queue s ++ omap busy (ps_workers s).

(** Descriptors are valid, and no two open connections share one. *)
Definition exclusive (s : Pool) : Prop :=
  Forall (fun p => 0 <= pc_fd p) (ps_opened s) /\ NoDup (map pc_fd (live s)).

(** The same for what stays open. *)
Ltac kept w' gone :=
  right; split; [done|]; exists gone; simpl;
  match goal with
  | Hi : _ !! _ = Some _ |- _ =>
      let E := fresh in
      pose proof (omap_insert _ _ _ w' Hi) as E; simpl in E;
      first [rewrite E|rewrite <- E]; solve_Permutation
  end.

(** A step opens one connection or none, and closes some. *)
Lemma live_step config s s' :
  pool_step config s s' ->
  (exists p, ps_opened s' = p :: ps_opened s /\ live s' = p :: live s /\
     0 <= pc_fd p /\ pc_fd p ∉ map pc_fd (live s)) \/
  ps_opened s' = ps_opened s /\ exists gone, live s ≡ₚ gone ++ live s'.
Proof.
  intros Hs. destruct Hs as [who Hs]. destruct Hs; unfold live; simpl; rewrite ?omap_wake, ?omap_spawn;
    try (right; split; [done|by exists []]).
  - left. exists p. by splits.
  - right. split; [done|]. by exists [p].
  - right. split; [done|]. exists []. simpl. solve_Permutation.
  - kept Ready (@nil PendingConnection).
  - right. split; [done|]. rewrite omap_exited by done. exists q. simpl. solve_Permutation.
  - right. split; [done|]. by exists (held a).
  - right. split; [done|]. exists (q ++ omap busy ws). solve_Permutation.
  - kept (Busy p) (@nil PendingConnection).
  - kept Exited (@nil PendingConnection).
  - kept Deciding (@nil PendingConnection).
  - kept Asleep (@nil PendingConnection).
  - kept Ready (@nil PendingConnection).
  - kept Ready [p].
  - kept Exited [p].
Qed.

Lemma exclusive_step config s s' : exclusive s -> pool_step config s s' -> exclusive s'.
Proof.
  intros [Hf Hn] Hs. unfold exclusive.
  destruct (live_step _ _ _ Hs) as [(p & -> & -> & Hp & Hq)|(-> & gone & Hl)].
  - split; by constructor.
  - split; [done|]. apply (Permutation_map pc_fd) in Hl. rewrite map_app in Hl.
    rewrite Hl in Hn. by apply list.NoDup_app in Hn as (_ & _ & Hn).
Qed.

Lemma reachable_settled config s : reachable config s -> settled s.
Proof. revert s. apply reachable_ind'; [by split|]. eauto using pool_settled_step. Qed.

Lemma reachable_accounted config s :
  0 <= max_connections config -> reachable config s -> placed config s /\ accounted s.
Proof.
  intros Hmax. revert s. apply reachable_ind';
    [|naive_solver eauto using placed_step, accounted_step, reachable_settled].
  unfold placed, accounted; simpl; splits; auto with lia; try done.
  unfold worker_count. lia.
Qed.

Lemma reachable_exclusive config s : reachable config s -> exclusive s.
Proof. revert s. apply reachable_ind'; [by repeat constructor|]. eauto using exclusive_step. Qed.

(** ** Wake-ups *)

(** Only a worker that holds the mutex is between its test and its sleep, and
    while it does so the queue stays empty.  When a connection is queued, either
    every queued connection has an awake worker of its own, up to the one whose
    notification is still to come, or nobody sleeps. *)
Definition pending_notify (a : acceptor) : nat :=
  match a with Counting | Notifying => 1 | _ => 0 end.

Definition attended (s : Pool) : Prop :=
  (count is_deciding (ps_workers s) = 0%nat \/
   count is_deciding (ps_workers s) = 1%nat /\ length (ps_queue s) = 0%nat) /\
  (count is_asleep (ps_workers s) = 0%nat \/
   (length (ps_queue s) <= count is_ready (ps_workers s) + pending_notify (ps_acceptor s))%nat).

Ltac counted w' :=
  match goal with
  | Hi : ?ws !! ?i = Some ?w |- _ =>
      pose proof (count_insert is_deciding ws i w w' Hi);
      pose proof (count_insert is_asleep ws i w w' Hi);
      pose proof (count_insert is_ready ws i w w' Hi); simpl in *
  end.

Lemma attended_step config s s' : attended s -> pool_step config s s' -> attended s'.
Proof.
  unfold attended. intros (H1 & H2) Hs. destruct Hs as [who Hs]; destruct Hs; simpl in *; unfold unlocked in *;
    try (match goal with H : inactive ?a = true |- _ => destruct a; try done end);
    rewrite ?count_wake_asleep, ?count_wake_deciding, ?length_app, ?count_spawn; simpl;
    try lia; try (by split; left).
  - counted Ready. lia.
  - counted (Busy p). lia.
  - counted Exited. lia.
  - counted Deciding. lia.
  - counted Asleep. lia.
  - counted Ready. lia.
  - counted Ready. lia.
  - counted Exited. lia.
Qed.

(** ** Shutdown *)

(** [run] or the destructor joins the workers; both joins are over. *)
Definition joining (a : acceptor) : bool :=
  match a with Joining | Reaping => true | _ => false end.

Definition joined (a : acceptor) : bool :=
  match a with Finished | Destroyed => true | _ => false end.

(** The workers are being joined and none has missed the notification. *)
Definition quiescing (s : Pool) : Prop :=
  joining (ps_acceptor s) = true /\ ps_stopping s = true /\
  count is_asleep (ps_workers s) = 0%nat /\ count is_deciding (ps_workers s) = 0%nat.

Definition weight (w : worker) : nat :=
  match w with Exited => 0 | Busy _ => 2 | _ => 1 end.

(** What the workers still have to do. *)
Definition remaining (s : Pool) : nat :=
  2 * length (ps_queue s) + list_sum (map weight (ps_workers s)).

Lemma weight_insert (ws : list worker) (i : nat) (w w' : worker) :
  ws !! i = Some w ->
  (list_sum (map weight (<[i := w']> ws)) + weight w = list_sum (map weight ws) + weight w')%nat.
Proof.
  revert i. induction ws as [|v ws IH]; intros [|i] H; simplify_eq/=; [lia|].
  specialize (IH i H). lia.
Qed.

Lemma wake_awake (ws : list worker) : count is_asleep ws = 0%nat -> map wake ws = ws.
Proof. unfold count. induction ws as [|[] ws IH]; simpl; intros H; try done; by rewrite IH. Qed.

(** A worker that is neither asleep nor deciding is ready, busy or gone. *)
Lemma awake_cases (ws : list worker) :
  count is_asleep ws = 0%nat -> count is_deciding ws = 0%nat ->
  Forall (fun w => w = Exited) ws \/
  (exists i, ws !! i = Some Ready) \/ (exists i p, ws !! i = Some (Busy p)).
Proof.
  unfold count. induction ws as [|[] ws IH]; simpl; intros Ha Hd; try lia; auto.
  - right; left. by exists 0%nat.
  - right; right. by exists 0%nat, p.
  - destruct (IH Ha Hd) as [H|[[i H]|(i & p & H)]]; [by left; constructor|right; left|right; right].
    + by exists (S i).
    + by exists (S i), p.
Qed.

(** A stop request that arrives while the server is quiescing changes nothing
    the workers see; every other step makes progress. *)
Lemma quiescing_step config s s' :
  quiescing s -> pool_step config s s' ->
  joined (ps_acceptor s') = true \/
  quiescing s' /\ ((remaining s' < remaining s)%nat \/
    (ps_queue s', ps_workers s') = (ps_queue s, ps_workers s) /\ ps_stops s' <> ps_stops s).
Proof.
  unfold quiescing, remaining. intros (Ha & Hst & H1 & H2) Hs.
  destruct Hs as [who Hs]; destruct Hs; simplify_eq/=; auto; try (by destruct a).
  - right. splits; auto.
  - right. rewrite wake_awake by done. splits; auto.
  - right. pose proof (weight_insert ws i _ (Busy p) H). counted (Busy p). splits; auto; lia.
  - right. pose proof (weight_insert ws i _ Exited H). counted Exited. splits; auto; lia.
  - counted Asleep. lia.
  - counted Ready. lia.
  - right. pose proof (weight_insert ws i _ Ready H). counted Ready. splits; auto; lia.
  - right. pose proof (weight_insert ws i _ Exited H). counted Exited. splits; auto; lia.
Qed.

Lemma quiescing_progress config s :
  quiescing s ->
  exists s', pool_step config s s' /\ (joined (ps_acceptor s') = true \/ (remaining s' < remaining s)%nat).
Proof.
  destruct s as [a r st k q na nr ws op cl en tk]. unfold quiescing, remaining; simpl.
  intros (Ha & -> & H1 & H2).
  destruct (awake_cases ws H1 H2) as [H|[[i H]|(i & p & H)]].
  - destruct a; try done;
      (eexists; split; [eexists; by first [apply StepFinish|apply StepDestroyed]|by left]).
  - destruct q as [|p q];
      (eexists; split; [eexists; by first [eapply StepTake|eapply StepExit]|right; simpl]).
    + pose proof (weight_insert ws i _ Exited H). simpl in *. lia.
    + pose proof (weight_insert ws i _ (Busy p) H). simpl in *. lia.
  - eexists. split; [eexists; by apply (StepServed config _ _ _ _ _ _ _ _ _ _ _ _ i p)|right; simpl].
    pose proof (weight_insert ws i _ Ready H). simpl in *. lia.
Qed.

(** Once the loop has been left the stop flag stays set. *)
Definition stop_seen (s : Pool) : Prop :=
  match ps_acceptor s with
  | Leaving | Joining | Finished | Destructing | Renotifying | Reaping | Destroyed => ps_stopping s = true
  | _ => True
  end.

Lemma reachable_stop_seen config s : reachable config s -> stop_seen s.
Proof.
  revert s. apply reachable_ind'; [done|]. unfold stop_seen. intros s s' _ H Hs.
  destruct Hs as [who Hs]; destruct Hs; simpl in *; try done; by destruct a.
Qed.

Lemma quiescing_finishes config s :
  quiescing s -> exists s', rtc (pool_step config) s s' /\ joined (ps_acceptor s') = true.
Proof.
  remember (remaining s) as n eqn:E. revert s E.
  induction n as [n IH] using lt_wf_ind. intros s -> Hs.
  destruct (quiescing_progress config s Hs) as (s1 & H1 & [Hf|Hlt]).
  - exists s1. split; [by apply rtc_once|done].
  - destruct (quiescing_step config s s1 Hs H1) as [Hf|[Hq _]];
      [exists s1; split; [by apply rtc_once|done]|].
    destruct (IH _ Hlt s1 eq_refl Hq) as (s2 & H2 & Hf). exists s2. split; [by eapply rtc_l|done].
Qed.

(** ** Properties *)

(** C8: whatever the interleaving of the acceptor, the workers and calls of
    [stop], at every moment the queue holds at most [max_connections]
    connections and there are at most [max(1, max_connections)] workers; every
    connection that was ever accepted is in exactly one place (closed, held by
    the acceptor, queued, or being served by one worker), and the open ones
    have valid descriptors, no two the same; connections are taken
    in the order in which they were enqueued; the two counters are the numbers
    of enqueued and refused connections modulo 2^64; and once [run] has
    finished, or the object has been destroyed after a [run] that returned or
    was left by an exception while it started its threads, no worker is left
    and every accepted connection has been closed exactly once. *)
Theorem pool_safe (config : ServerConfig) (s : Pool) :
  0 <= max_connections config -> reachable config s ->
  placed config s /\ accounted s /\ exclusive s /\
  (joined (ps_acceptor s) = true -> ps_opened s ≡ₚ ps_closed s /\ ps_workers s = []).
Proof.
  intros Hmax Hr.
  pose proof (reachable_settled config s Hr) as Hd.
  destruct (reachable_accounted config s Hmax Hr) as [Hp Hc].
  splits; [done..|by eapply reachable_exclusive|intros Ha].
  destruct Hd as [Hq Hw], Hp as (_ & _ & Hp & _).
  destruct (ps_acceptor s); try done; destruct (Hq eq_refl) as [Eq _];
    rewrite Eq, (Hw eq_refl) in *; simpl in Hp; by rewrite (right_id_L [] (++)) in Hp.
Qed.

(** C24: no connection is forgotten between the queue and the workers: a worker
    that blocks does so while the queue is empty, and whenever connections are
    queued either no worker sleeps or there are at least as many awake idle
    workers as queued connections, not counting one whose notification the
    acceptor is about to send.  In particular, when the acceptor is back at its
    loop test and the queue is not empty, a sleeping worker implies a ready
    one. *)
Theorem queued_connections_attended (config : ServerConfig) (s : Pool) :
  reachable config s ->
  attended s /\
  (ps_acceptor s = Looping -> ps_queue s <> [] -> In Asleep (ps_workers s) -> In Ready (ps_workers s)).
Proof.
  intros Hr.
  assert (H : attended s).
  { revert s Hr. apply reachable_ind'; [|eauto using attended_step].
    unfold attended; simpl. by split; left. }
  split; [exact H|]. intros Ha Hq Hz. destruct H as (_ & H). rewrite Ha in H; simpl in H.
  destruct (ps_queue s) as [|p q]; [done|]. simpl in H.
  destruct H as [H|H].
  - exfalso. apply list_elem_of_In, list_elem_of_lookup in Hz as [i Hi].
    pose proof (count_lookup is_asleep _ _ _ Hi eq_refl). lia.
  - unfold count in H. destruct (List.filter is_ready (ps_workers s)) as [|w l] eqn:E; simpl in H; [lia|].
    assert (Hin : In w (List.filter is_ready (ps_workers s))) by (rewrite E; by left).
    apply filter_In in Hin as [Hin Hw]. by destruct w.
Qed.

(** C26: shutdown terminates when the stop notification reached every worker.  If
    [run] or the destructor is joining the threads and no worker is blocked or about to block,
    then the server can finish, it can always move until it has, and every step
    either finishes it, or strictly reduces the work that remains, or is a
    further call of [stop] that leaves the queue and the workers alone; so
    after at most [remaining s] steps other than calls of [stop], [run] or
    the destructor returns. *)
Theorem shutdown_completes (config : ServerConfig) (s : Pool) :
  reachable config s -> joining (ps_acceptor s) = true ->
  ~ In Asleep (ps_workers s) -> ~ In Deciding (ps_workers s) ->
  (exists s', rtc (pool_step config) s s' /\ joined (ps_acceptor s') = true) /\
  (exists s', pool_step config s s' /\ (joined (ps_acceptor s') = true \/ (remaining s' < remaining s)%nat)) /\
  (forall s', pool_step config s s' ->
     joined (ps_acceptor s') = true \/
     quiescing s' /\ ((remaining s' < remaining s)%nat \/
       (ps_queue s', ps_workers s') = (ps_queue s, ps_workers s) /\ ps_stops s' <> ps_stops s)).
Proof.
  intros Hr Ha H1 H2.
  assert (Hst : ps_stopping s = true).
  { pose proof (reachable_stop_seen config s Hr) as Hst. unfold stop_seen in Hst.
    by destruct (ps_acceptor s). }
  assert (Hq : quiescing s) by (unfold quiescing; splits; auto using absent_asleep, absent_deciding).
  splits; eauto using quiescing_finishes, quiescing_progress, quiescing_step.
Qed.

(** A server with room for one connection, and one run of it. *)
Definition one_slot : ServerConfig :=
  mkServerConfig CommonConfig_default "127.0.0.1" 8443 1 128 60000 1024 false.

Definition caller : PendingConnection := mkPending 7 "192.0.2.1:50000".
Definition caller' : PendingConnection := mkPending 8 "192.0.2.1:50001".

(** Extends a run by the step that [t] selects. *)
Tactic Notation "next" hyp(H) tactic3(t) :=
  let H' := fresh in
  eassert (H' : reachable _ _)
    by (eapply reach_step; [exact H|eexists; t; try reflexivity; simpl; first [lia|set_solver by lia]]);
  simpl in H'; clear H; rename H' into H.

(** A connection is accepted and taken, a second one queued. *)
Lemma one_slot_run :
  reachable one_slot (mkPool Looping true false 0 [caller'] 2 0 [Busy caller] [caller'; caller] []
                       [caller; caller'] [caller]).
Proof.
  pose proof (reach_init one_slot) as H. unfold Pool_new in H.
  next H (eapply StepStart). next H (eapply StepClear). next H (eapply StepSpawn).
  next H (eapply StepSpawned).
  next H (eapply StepTest). next H (eapply StepAccept with (p := caller)).
  next H (eapply StepEnqueue). next H (eapply StepCount).
  next H (eapply StepTake with (i := 0%nat)). next H (eapply StepNotifyNone).
  next H (eapply StepTest). next H (eapply StepAccept with (p := caller')).
  next H (eapply StepEnqueue). next H (eapply StepCount). next H (eapply StepNotifyNone).
  exact H.
Qed.

Lemma pool_safe_witness :
  placed one_slot (mkPool Looping true false 0 [caller'] 2 0 [Busy caller] [caller'; caller] []
                     [caller; caller'] [caller]).
Proof. apply (pool_safe one_slot); [simpl; lia|exact one_slot_run]. Defined.

Lemma queued_connections_attended_witness :
  attended (mkPool Looping true false 0 [caller'] 2 0 [Busy caller] [caller'; caller] []
              [caller; caller'] [caller]).
Proof. apply (queued_connections_attended one_slot). exact one_slot_run. Defined.

(** An idle server that is asked to stop. *)
Lemma stopping_run :
  reachable one_slot (mkPool Joining false true 0 [] 0 0 [Ready] [] [] [] []).
Proof.
  pose proof (reach_init one_slot) as H. unfold Pool_new in H.
  next H (eapply StepStart). next H (eapply StepClear). next H (eapply StepSpawn).
  next H (eapply StepSpawned). next H (eapply StepStop).
  next H (eapply StepStopNotify). next H (eapply StepLeave). next H (eapply StepLeaveNotify).
  exact H.
Qed.

Lemma shutdown_completes_witness :
  exists s', rtc (pool_step one_slot) (mkPool Joining false true 0 [] 0 0 [Ready] [] [] [] []) s' /\
             joined (ps_acceptor s') = true.
Proof.
  apply (shutdown_completes one_slot _ stopping_run);
    [reflexivity|intros [[=]|[]]|intros [[=]|[]]].
Defined.

(** A worker that sleeps while its threads are being joined. *)
Definition missed (a : acceptor) : Pool := mkPool a false true 0 [] 0 0 [Asleep] [] [] [] [].

(** Nobody but a further call of [stop] or a spurious wake-up moves it. *)
Definition hangs (config : ServerConfig) (a : acceptor) : Prop :=
  forall s', pool_step config (missed a) s' ->
    s' = mkPool a false true 1 [] 0 0 [Asleep] [] [] [] [] \/
    s' = mkPool a false true 0 [] 0 0 [Ready] [] [] [] [].

Lemma missed_hangs (config : ServerConfig) (a : acceptor) : joining a = true -> hangs config a.
Proof.
  intros Ha s' [who Hs]. unfold missed in Hs. inversion Hs; subst; auto;
    repeat match goal with
    | H : joining _ = true |- _ => discriminate H
    | H : inactive a = true |- _ => destruct a; discriminate
    | H : Forall _ [_] |- _ => inversion H; simplify_eq
    | H : [_] !! ?i = Some _ |- _ => destruct i as [|[]]; simplify_eq/=; auto
    end.
Qed.

(** Room for two connections, so that the second thread can fail to start. *)
Definition two_slots : ServerConfig :=
  mkServerConfig CommonConfig_default "127.0.0.1" 8443 2 128 60000 1024 false.

(** A stop notification can be lost.  [stop], [run] and the destructor change
    the flag that the workers' predicate reads without holding [queue_mutex_],
    so a worker that has found the predicate false but is not blocked yet
    misses every notification.  One state reached then has a worker asleep,
    [run] joining it and no notification to come; another, after the creation
    of a second thread has failed, has the destructor joining it.  Unless the
    worker wakes spuriously, the only possible step is another call of
    [stop]. *)
Theorem stop_wakeup_can_be_lost :
  reachable one_slot (missed Joining) /\ hangs one_slot Joining /\
  reachable two_slots (missed Reaping) /\ hangs two_slots Reaping.
Proof.
  splits; try (by apply missed_hangs).
  - pose proof (reach_init one_slot) as H. unfold Pool_new in H.
    next H (eapply StepStart). next H (eapply StepClear). next H (eapply StepSpawn).
    next H (eapply StepSpawned).
    next H (eapply StepDecide with (i := 0%nat)). next H (eapply StepStop).
    next H (eapply StepStopNotify). next H (eapply StepLeave). next H (eapply StepLeaveNotify).
    next H (eapply StepSleep with (i := 0%nat)). exact H.
  - pose proof (reach_init two_slots) as H. unfold Pool_new in H.
    next H (eapply StepStart). next H (eapply StepClear). next H (eapply StepSpawn).
    next H (eapply StepDecide with (i := 0%nat)). next H (eapply StepSpawnFailed).
    next H (eapply StepDestruct). next H (eapply StepDestructNotify). next H (eapply StepRenotify).
    next H (eapply StepSleep with (i := 0%nat)). exact H.
Qed.

(** A stop request that arrives before the accept loop is entered is lost:
    [run] clears the flag after it has set [running_]. *)
Example early_stop_lost :
  exists s1 s2 s3,
    pool_step one_slot Pool_new s1 /\ pool_step one_slot s1 s2 /\ ps_stopping s2 = true /\
    pool_step one_slot s2 s3 /\ ps_stopping s3 = false /\ ps_acceptor s3 = Spawning.
Proof.
  do 3 eexists. splits; [eexists; apply StepStart|eexists; by apply StepStop|reflexivity|
    eexists; apply StepClear|reflexivity|reflexivity].
Qed.

(** A pool whose only worker has died keeps accepting: the connection stays
    queued and nobody takes it. *)
Example dead_pool_accepts :
  reachable one_slot (mkPool Looping true false 0 [caller'] 2 0 [Exited] [caller'; caller] [caller]
                        [caller; caller'] [caller]).
Proof.
  pose proof one_slot_run as H. next H (eapply StepDied with (i := 0%nat)). exact H.
Qed.
