(* ===== verification/Service.v ===== *)
(** The server as a whole: the pool of [ServerPool] whose workers run
    [handle_connection] of [Server], and the signal handler of
    [src/server/main.cpp] that reaches the server through a global pointer.

    A handler starts with an empty log, in a world and with an error queue of
    which nothing is assumed: that world decides every answer the handler gets
    from the system, the effects of the other threads among them.  The log it
    leaves is kept with its result. *)

From stdpp Require Import relations.
From S2P Require Import Prelude Errors Runtime Json Framing Identifiers Message Profile.
From S2P Require Import ProfileYaml Config Transport Metrics TlsContext Gate Server ServerLoop.
From S2P Require Import ServerSpec ServerPool.

(** ** State and steps *)

(** A connection whose handler has ended. *)
Record handled := mkHandled {
  h_connection : PendingConnection;
  h_result : result unit;
  h_log : list Event
}.

Record Service := mkService {
  sv_pool : Pool;
  sv_handled : list handled
}.

Definition Service_new : Service := mkService Pool_new [].

Definition returned (r : result unit) : bool := match r with Ok _ => true | Throw _ => false end.

(** A step in which no handler ends. *)
Definition plain (who : actor) : bool := match who with Handler _ _ => false | _ => true end.

(** The lines a connection gave to the metrics stream. *)
Definition metrics_line (e : Event) : option string :=
  match e with EvMetrics line _ => Some line | _ => None end.

Definition lines (h : handled) : list string := omap metrics_line (h_log h).

Section service.
Context {W : Type} {RA : RuntimeApi W} {J : JsonLib} {EA : EnvApi W} {SA : SocketApi W}
  {LA : SslApi W} {LL : SslLaws W} {CA : CtxApi W} {MA : MetricsApi W} {VA : ServerApi W}.
Context (config : ServerConfig) (context : TlsContext) (writer : option MetricsWriter).

Inductive service_step : Service -> Service -> Prop :=
  (* the acceptor, a worker in its loop, stop() or the destructor *)
  | ServicePlain who s s' hs :
      plain who = true -> step config who s s' ->
      service_step (mkService s hs) (mkService s' hs)
  (* a worker's call of handle_connection ends, normally or by an exception *)
  | ServiceHandled p w q r st s s' hs :
      handle_connection config context writer p (mkSt w q []) = (r, st) ->
      step config (Handler p (returned r)) s s' ->
      service_step (mkService s hs) (mkService s' (mkHandled p r (st_log st) :: hs)).

Definition service_reachable : Service -> Prop := rtc service_step Service_new.

(** ** Invariants *)

(** What each finished handler did. *)
Definition orderly (h : handled) : Prop :=
  ended config context writer (h_connection h) (h_result h) (h_log h) /\
  gated (server_authorised config context) (h_log h).

(** Every connection taken from the queue has been handled or is being served;
    every accepted one was refused, is held by the acceptor or was enqueued;
    what is closed was refused, handled, or left in the queue when [run]
    ended. *)
Definition tracked (s : Service) : Prop :=
  let pool := sv_pool s in
  let done := map h_connection (sv_handled s) in
  ps_taken pool ≡ₚ done ++ omap busy (ps_workers pool) /\
  exists refused left,
    ps_opened pool ≡ₚ refused ++ held (ps_acceptor pool) ++ ps_enqueued pool /\
    ps_enqueued pool = ps_taken pool ++ ps_queue pool ++ left /\
    (over (ps_acceptor pool) = false -> left = []) /\
    ps_closed pool ≡ₚ refused ++ done ++ left.

Lemma service_step_pool s s' : service_step s s' -> pool_step config (sv_pool s) (sv_pool s').
Proof. intros []; by eexists. Qed.

Lemma service_reachable_pool s : service_reachable s -> reachable config (sv_pool s).
Proof.
  intros Hr. apply rtc_ind_r with (P := fun s => reachable config (sv_pool s)) (z := s) in Hr; [done|constructor|].
  intros s1 s2 _ Hs H1. eapply reach_step; [exact H1|by apply service_step_pool].
Qed.

(** The workers of a step in which no handler ends. *)
Lemma taken_plain who (s s' : Pool) :
  step config who s s' -> plain who = true -> forall done,
  ps_taken s ≡ₚ done ++ omap busy (ps_workers s) ->
  ps_taken s' ≡ₚ done ++ omap busy (ps_workers s').
Proof.
  intros Hs Hp done Ht. destruct Hs; try discriminate Hp; simpl in *;
    rewrite ?omap_wake, ?omap_spawn; try exact Ht; try (by rewrite omap_exited in Ht).
  - moved Ready.
  - moved (Busy p).
  - moved Exited.
  - moved Deciding.
  - moved Asleep.
  - moved Ready.
Qed.

(** Where the connections are, given those whose handler has ended. *)
Definition sorted_out (done : list PendingConnection) (s : Pool) : Prop :=
  exists refused left,
    ps_opened s ≡ₚ refused ++ held (ps_acceptor s) ++ ps_enqueued s /\
    ps_enqueued s = ps_taken s ++ ps_queue s ++ left /\
    (over (ps_acceptor s) = false -> left = []) /\
    ps_closed s ≡ₚ refused ++ done ++ left.

Lemma sorted_out_plain who done (s s' : Pool) :
  settled s -> step config who s s' -> plain who = true -> sorted_out done s -> sorted_out done s'.
Proof.
  intros [Hd _] Hs Hp (refused & left & Ho & He & Hl & Hc). unfold sorted_out.
  destruct Hs; try discriminate Hp; simpl in *; try (exists refused, left; by splits).
  - exists refused, left. splits; try done. rewrite Ho. solve_Permutation.
  - exists (p :: refused), left. splits; try done; simpl; [rewrite Ho|rewrite Hc]; solve_Permutation.
  - exists refused, left. splits; try done; [rewrite Ho; solve_Permutation|].
    rewrite He, (Hl eq_refl), !(right_id_L [] (++)). by rewrite (assoc_L (++)).
  - rewrite (Hl eq_refl), !(right_id_L [] (++)) in *. exists refused, q.
    splits; try done. rewrite Hc. solve_Permutation.
  - destruct a; try done; exists refused, left; by splits.
  - destruct (Hd eq_refl) as [-> _]. exists refused, left. by splits.
  - exists refused, left. splits; try done. rewrite He. by rewrite <- (assoc_L (++)).
Qed.

(** A handler that ends frees its worker, or takes it down. *)
Lemma handler_step p ok (s s' : Pool) :
  step config (Handler p ok) s s' ->
  exists i, ps_workers s !! i = Some (Busy p) /\
    s' = mkPool (ps_acceptor s) (ps_running s) (ps_stopping s) (ps_stops s) (ps_queue s)
           (ps_accepted s) (ps_rejected s) (<[i := if ok then Ready else Exited]> (ps_workers s))
           (ps_opened s) (p :: ps_closed s) (ps_enqueued s) (ps_taken s).
Proof. intros Hs. inversion Hs; subst; eauto. Qed.

Lemma tracked_step s s' :
  settled (sv_pool s) -> tracked s -> service_step s s' -> tracked s'.
Proof.
  intros Hd [Ht Hc] Hs. destruct Hs as [who s s' hs Hp Hs|p w q r st s s' hs Hh Hs].
  { split; [by eapply taken_plain|]. by eapply sorted_out_plain. }
  apply handler_step in Hs as (i & Hi & ->). unfold tracked. simpl in *. split.
  - pose proof (omap_insert _ _ _ (if returned r then Ready else Exited) Hi) as E.
    rewrite Ht. destruct (returned r); simpl in E; rewrite E; solve_Permutation.
  - destruct Hc as (refused & left & Ho & He & Hl & Hc). exists refused, left.
    splits; try done. rewrite Hc. solve_Permutation.
Qed.

Lemma reachable_tracked s : service_reachable s -> tracked s.
Proof.
  intros Hr. apply rtc_ind_r with (P := tracked) (z := s) in Hr; [done|..].
  - split; [done|]. exists [], []. by splits.
  - intros s1 s2 H1 Hs Ht. eapply tracked_step; [|done..].
    by eapply reachable_settled, service_reachable_pool.
Qed.

(** A connection being served has a valid descriptor. *)
Lemma served_descriptor p ok (s s' : Pool) :
  0 <= max_connections config -> reachable config s -> step config (Handler p ok) s s' -> 0 <= pc_fd p.
Proof.
  intros Hmax Hr Hs. apply handler_step in Hs as (i & Hi & _).
  destruct (reachable_accounted config s Hmax Hr) as [(_ & _ & Hc & _) _].
  destruct (reachable_exclusive config s Hr) as [Hf _].
  rewrite List.Forall_forall in Hf. apply Hf, list_elem_of_In. rewrite Hc, !elem_of_app. do 3 right.
  apply list_elem_of_omap. exists (Busy p). split; [by eapply list_elem_of_lookup_2|done].
Qed.

Lemma reachable_orderly s :
  server_limits config -> 0 <= max_connections config -> service_reachable s ->
  Forall orderly (sv_handled s).
Proof.
  intros Hlim Hmax Hr. apply rtc_ind_r with (P := fun s => Forall orderly (sv_handled s)) (z := s) in Hr;
    [done|constructor|].
  intros s1 s2 H1 Hs IH. destruct Hs as [|p w q r st s' s'' hs Hh Hs]; [done|]. constructor; [|done].
  pose proof (served_descriptor _ _ _ _ Hmax (service_reachable_pool _ H1) Hs) as Hfd.
  destruct (handle_connection_ended config context writer p (mkSt w q []) Hlim Hfd) as (n1 & L1 & E).
  destruct (handle_connection_gated config context writer p (mkSt w q [])) as (n2 & L2 & G).
  rewrite Hh in *. simpl in *. rewrite (right_id_L [] (++)) in *. subst n1 n2. by split.
Qed.

(** A handler that returned wrote one line if a file is open, one that threw
    wrote none. *)
Lemma orderly_lines h :
  orderly h -> length (lines h) = if recording writer && returned (h_result h) then 1%nat else 0%nat.
Proof.
  intros [He _]. unfold lines, ended in *.
  assert (Hn : forall new, Forall inner new -> omap metrics_line new = [])
    by (induction 1 as [|[]]; simpl in *; done).
  destruct (h_result h) as [u|x]; simpl.
  - destruct He as (new & m & Hi & _ & He). destruct (recording writer); simpl.
    + destruct He as (line & good & _ & ->). simpl. by rewrite Hn.
    + rewrite He. simpl. by rewrite Hn.
  - destruct He as (_ & new & Hi & ->). rewrite andb_false_r. simpl. by rewrite Hn.
Qed.

(** In general there is a line for each handler that returned. *)
Lemma records_counted hs :
  Forall orderly hs ->
  length (concat (map lines hs)) =
    if recording writer then length (List.filter (fun h => returned (h_result h)) hs) else 0%nat.
Proof.
  induction 1 as [|h hs Hh _ IH]; simpl; [by case_match|].
  rewrite length_app, IH, (orderly_lines h Hh).
  destruct (recording writer), (returned (h_result h)); done.
Qed.

(** Unless the generator fails or a record cannot be serialised, no handler
    throws. *)
Lemma orderly_returned h :
  generator_works W -> serialisable config context (h_connection h) -> orderly h -> h_result h = Ok tt.
Proof.
  intros Hg Hs [He _]. unfold ended in He. destruct (h_result h) as [[]|x]; [done|].
  destruct He as [[_ He] _]. by destruct (He Hg).
Qed.

(** ** The claim *)


End service.

(** ** An example *)

(** Room for one connection; the toy client connects and is served, then the
    server is stopped. *)
Definition solo_server : ServerConfig :=
  mkServerConfig (s_common small_server) "0.0.0.0" 8443 1 4 60000 2 false.

Definition solo_client : PendingConnection := mkPending 4 "127.0.0.1:50000".

Definition solo_connection : result unit * St (list byte) :=
  handle_connection (RA := toy_clock) (J := toy_protocol) (SA := toy_sockets) (LA := toy_ssl)
    (CA := toy_ctx "X25519MLKEM768") (MA := toy_metrics) (VA := toy_server)
    solo_server (mkTlsContext 7 lab_profile) (Some true) solo_client (mkSt (frame_of "ping") [] []).

Definition solo_step : Service -> Service -> Prop :=
  service_step (RA := toy_clock) (J := toy_protocol) (SA := toy_sockets) (LA := toy_ssl)
    (CA := toy_ctx "X25519MLKEM768") (MA := toy_metrics) (VA := toy_server)
    solo_server (mkTlsContext 7 lab_profile) (Some true).

Definition solo_end : Service :=
  mkService (mkPool Finished false true 0 [] 1 0 [] [solo_client] [solo_client] [solo_client] [solo_client])
    [mkHandled solo_client solo_connection.1 (st_log solo_connection.2)].

(** Extends a run by a step of the pool. *)
Tactic Notation "serves" hyp(H) tactic3(t) :=
  let H' := fresh in
  eassert (H' : rtc solo_step _ _)
    by (eapply rtc_r; [exact H|eapply ServicePlain; cycle 1;
          [t; try reflexivity; simpl; first [lia|set_solver by lia|repeat constructor]|reflexivity]]);
  simpl in H'; clear H; rename H' into H.

Definition solo_pool (w : worker) (closed : list PendingConnection) : Pool :=
  mkPool Looping true false 0 [] 1 0 [w] [solo_client] closed [solo_client] [solo_client].

Lemma solo_begin : rtc solo_step Service_new (mkService (solo_pool (Busy solo_client) []) []).
Proof.
  assert (H : rtc solo_step Service_new Service_new) by constructor.
  unfold Service_new at 2, Pool_new in H.
  serves H (eapply StepStart). serves H (eapply StepClear). serves H (eapply StepSpawn).
  serves H (eapply StepSpawned). serves H (eapply StepTest).
  serves H (eapply StepAccept with (p := solo_client)). serves H (eapply StepEnqueue).
  serves H (eapply StepCount). serves H (eapply StepTake with (i := 0%nat)).
  serves H (eapply StepNotifyNone). exact H.
Qed.

Lemma solo_stop (h : handled) :
  rtc solo_step (mkService (solo_pool Ready [solo_client]) [h])
    (mkService (mkPool Finished false true 0 [] 1 0 [] [solo_client] [solo_client] [solo_client] [solo_client]) [h]).
Proof.
  assert (H : rtc solo_step (mkService (solo_pool Ready [solo_client]) [h])
    (mkService (solo_pool Ready [solo_client]) [h])) by constructor. unfold solo_pool in H at 2.
  serves H (eapply StepStop). serves H (eapply StepStopNotify).
  serves H (eapply StepLeave). serves H (eapply StepLeaveNotify).
  serves H (eapply StepExit with (i := 0%nat)). serves H (eapply StepFinish). exact H.
Qed.

Lemma solo_run : rtc solo_step Service_new solo_end.
Proof.
  etransitivity; [exact solo_begin|]. eapply rtc_l; [|apply solo_stop].
  apply (ServiceHandled _ _ _ solo_client (frame_of "ping") [] solo_connection.1 solo_connection.2).
  - change (solo_connection = (solo_connection.1, solo_connection.2)). apply surjective_pairing.
  - assert (Hok : returned solo_connection.1 = true) by (vm_compute; reflexivity).
    rewrite Hok.
    by apply (StepServed solo_server Looping true false 0 [] 1 0 [Busy solo_client] [solo_client] []
      [solo_client] [solo_client] 0 solo_client).
Qed.


(** ** The signal handler

    [command_serve] publishes the server in the global [g_server] before [run]
    and withdraws it after; [handle_signal] calls [stop] through it.  An
    exception that leaves [run] unwinds past the withdrawal, and the server is
    destroyed on the way. *)

Record Process := mkProcess {
  pr_pool : Pool;
  pr_g_server : bool;                   (* g_server points to the server *)
  pr_threw : bool                       (* run was left by an exception *)
}.

Definition Process_new : Process := mkProcess Pool_new false false.

Definition is_failed (a : acceptor) : bool := match a with Failed => true | _ => false end.

Definition is_destructing (a : acceptor) : bool :=
  match a with Destructing | Renotifying | Reaping | Destroyed => true | _ => false end.

Inductive process_step (config : ServerConfig) : Process -> Process -> Prop :=
  (* g_server = &server, and the handlers are installed *)
  | ProcPublish pool th :
      ps_acceptor pool = NotStarted ->
      process_step config (mkProcess pool false th) (mkProcess pool true th)
  (* server.run() *)
  | ProcRun pool pool' th :
      step config Runner pool pool' ->
      process_step config (mkProcess pool true th)
        (mkProcess pool' true (th || is_failed (ps_acceptor pool')))
  (* the worker threads *)
  | ProcWork who pool pool' g th :
      who = Worker \/ (exists p ok, who = Handler p ok) -> step config who pool pool' ->
      process_step config (mkProcess pool g th) (mkProcess pool' g th)
  (* handle_signal: if (g_server != nullptr) g_server->stop(), and its second half *)
  | ProcSignal pool pool' g th :
      g = true \/ (ps_stops pool' < ps_stops pool)%nat -> step config Stopper pool pool' ->
      process_step config (mkProcess pool g th) (mkProcess pool' g th)
  (* g_server = nullptr *)
  | ProcClear pool th :
      ps_acceptor pool = Finished ->
      process_step config (mkProcess pool true th) (mkProcess pool false th)
  (* the server goes out of scope, after the withdrawal or by unwinding *)
  | ProcDestroy pool pool' g th :
      ps_acceptor pool <> NotStarted -> (ps_acceptor pool = Finished -> g = false) ->
      step config Destroyer pool pool' ->
      process_step config (mkProcess pool g th) (mkProcess pool' g th).

(** A signal that arrives now calls [stop] on an object that is gone. *)
Definition dangling (s : Process) : Prop :=
  pr_g_server s = true /\ ps_acceptor (pr_pool s) = Destroyed.

Definition withdrawn (s : Process) : Prop :=
  let a := ps_acceptor (pr_pool s) in
  (is_failed a = true -> pr_threw s = true) /\
  (pr_g_server s = true -> is_destructing a = true -> pr_threw s = true).

Lemma withdrawn_step config s s' : withdrawn s -> process_step config s s' -> withdrawn s'.
Proof.
  unfold withdrawn. intros [H1 H2] Hs.
  destruct Hs as [pool th Ha|pool pool' th Hs|who pool pool' g th Hw Hs|pool pool' g th _ Hs
    |pool th Ha|pool pool' g th Ha Hf Hs]; simpl in *.
  - by rewrite Ha.
  - inversion Hs; subst; simpl in *; rewrite ?orb_true_r, ?orb_false_r; by auto.
  - destruct Hs; destruct Hw as [Hw|(? & ? & Hw)]; try discriminate Hw; simpl in *; by auto.
  - inversion Hs; subst; simpl in *; by auto.
  - rewrite Ha. by split.
  - inversion Hs; subst; simpl in *; split; intros; auto; try done.
    destruct a; simpl in *; auto; try done. by rewrite Hf in *.
Qed.

(** The pointer outlives the server only when an exception left [run]. *)
Lemma dangling_only_after_exception config s :
  rtc (process_step config) Process_new s -> dangling s -> pr_threw s = true.
Proof.
  intros Hr [Hg Ha]. apply rtc_ind_r with (P := withdrawn) (z := s) in Hr as [_ H].
  - by rewrite Ha in H; auto.
  - done.
  - intros; by eapply withdrawn_step.
Qed.

(** It does when the port cannot be bound. *)
Example dangling_after_failed_listen :
  exists s, rtc (process_step one_slot) Process_new s /\ dangling s.
Proof.
  exists (mkProcess (mkPool Destroyed false true 0 [] 0 0 [] [] [] [] []) true true).
  split; [|by split].
  eapply rtc_l; [by apply ProcPublish|].
  eapply rtc_l; [by eapply ProcRun, StepListenFailed|].
  eapply rtc_l; [by eapply ProcDestroy; [..|by apply StepDestruct]|].
  eapply rtc_l; [by eapply ProcDestroy; [..|by apply StepDestructNotify]|].
  eapply rtc_l; [by eapply ProcDestroy; [..|by apply StepRenotify]|].
  eapply rtc_l; [by eapply ProcDestroy; [..|by apply StepDestroyed]|]. constructor.
Qed.
