(* ===== verification/Client.v ===== *)
(** One client connection: [src/client/client.cpp],
    [populate_negotiation_fields], [connect_and_exchange], [run_once] and
    [clear_cached_session].

    The [ClientResult] that [connect_and_exchange] fills in is a local: an
    exception destroys it, so it is passed along as a value.  The cached TLS
    session is a member that survives exceptions, and it is the state of the
    monad besides the runtime (0 is the null pointer).  The [SSL] object of a
    connection is destroyed on every way out, the session when it is replaced
    or cleared and with the client. *)

From S2P Require Import Prelude Errors Runtime Json Framing Identifiers Message Profile Config.
From S2P Require Import Transport Metrics TlsContext Gate Server.

(** ** Records *)

Record ClientResult := mkResult {
  cr_metrics : ConnectionMetrics;
  cr_responses : list Message;
  cr_ok : bool
}.

Definition ClientResult_default : ClientResult := mkResult ConnectionMetrics_default [] false.

(** The peer's signature decides what authentication is reported. *)
Definition populate_negotiation_fields (metrics : ConnectionMetrics) (profile : SecurityProfile)
    (outcome : HandshakeOutcome) : ConnectionMetrics :=
  let sig := ho_peer_signature_algorithm outcome in
  with_negotiation metrics (ho_tls_version outcome) (ho_negotiated_group outcome)
    (ho_cipher_suite outcome)
    (if str_empty sig then AuthenticationType_to_string (authentication profile) else sig)
    (ho_session_reused outcome) (is_post_quantum_group (ho_negotiated_group outcome))
    (is_hybrid_group (ho_negotiated_group outcome))
    (str_contains sig "mldsa" || str_contains sig "ML-DSA" || str_contains sig "dilithium").

(** libssl's client side. *)
Class ClientApi (W : Type) := {
  SSL_set_tlsext_host_name : Z -> string -> ext W Z;
  SSL_set_hostflags : Z -> Z -> ext W unit;
  SSL_set1_host : Z -> string -> ext W Z;
  SSL_set_session : Z -> Z -> ext W Z;
  SSL_get1_session : Z -> ext W Z;
  SSL_connect : Z -> ext W Z
}.

Definition X509_CHECK_FLAG_NO_PARTIAL_WILDCARDS : Z := 4.

Section client.
Context {W : Type} {RA : RuntimeApi W} {J : JsonLib} {EA : EnvApi W} {SA : SocketApi W}
  {LA : SslApi W} {CA : CtxApi W} {MA : MetricsApi W} {KA : ClientApi W}.

(** The client's own state: the cached session. *)
Definition client (A : Type) : Type := local W Z A.

Definition get_session : client Z := fun '(s, c) => (Ok c, (s, c)).

(** [cached_session_.reset(session)]: the old pointer is freed after the new one
    is in place. *)
Definition reset_session (session : Z) : client unit :=
  old ← get_session;
  modify (fun _ => session) ;;
  lift_io (dispose ObjSession old).

Definition clear_cached_session : client unit := reset_session 0.

(** A client from its constructor to its destructor, which frees the session and
    then the context. *)
Definition with_client {A} (context : TlsContext) (body : client A) : io W A :=
  scoped (dispose ObjCtx (ctx_handle context)) (fun s =>
    let '(r, (s', session)) := body (s, 0) in (r, (dispose ObjSession session s').2)).

(** The constructor: the profile from the registry, then the context. *)
Definition PqTlsClient_new (config : ClientConfig) (registry : ProfileRegistry) : io W TlsContext :=
  profile ← liftM (registry_get registry (profile_id (c_common config)));
  context ← create_client profile (c_common config);
  ignore_sigpipe ;;
  warn_if_experimental (ctx_profile context) ;;
  mret context.

(** ** The handshake *)

(** Session resumption, attempted when it was asked for and there is a session. *)
Definition offer_session (config : ClientConfig) (ssl : Z) : client unit :=
  cached ← get_session;
  if reuse_session config && negb (cached =? 0) then
    rc ← lift_io (call (SSL_set_session ssl cached));
    if negb (rc =? 1) then
      lift_io drain_openssl_errors ;;
      lift_io (log_at LevelDebug "cached TLS session was rejected; falling back to a full handshake")
    else mret tt
  else mret tt.

(** Everything set on the [SSL] object before [SSL_connect]; [over_socket] then
    owns it. *)
Definition prepare_ssl (config : ClientConfig) (context : TlsContext) (fd : Z) : client Z :=
  let common := c_common config in
  lift_io (set_timeouts fd (io_timeout_ms common) (io_timeout_ms common)) ;;
  ssl ← lift_io (new_ssl context);
  guarded (lift_io (dispose ObjSsl ssl)) (
    rc ← lift_io (call_ev (SSL_set_fd ssl fd) (EvSetFd ssl fd));
    (if negb (rc =? 1) then lift_io (throw_openssl CatInternal "SSL_set_fd failed") else mret tt) ;;
    let server_name := effective_server_name config in
    rc ← lift_io (call_ev (SSL_set_tlsext_host_name ssl server_name) (EvSni server_name));
    (if negb (rc =? 1) then
       lift_io (throw_openssl CatConfiguration
         ("failed to set the TLS SNI hostname to '" +:+ server_name +:+ "'"))
     else mret tt) ;;
    (if insecure_development_mode common then mret tt
     else
       lift_io (call (SSL_set_hostflags ssl X509_CHECK_FLAG_NO_PARTIAL_WILDCARDS)) ;;
       rc ← lift_io (call_ev (SSL_set1_host ssl server_name) (EvHostCheck server_name));
       if negb (rc =? 1) then
         lift_io (throw_openssl CatConfiguration
           ("failed to enable hostname verification for '" +:+ server_name +:+ "'"))
       else mret tt) ;;
    offer_session config ssl ;;
    mret ssl).

(** [SSL_connect], the classification of its failure, and the inspection of
    its success.  Also returns the time it took. *)
Definition client_handshake (config : ClientConfig) (ssl : Z) : client (HandshakeOutcome * double) :=
  timer ← lift_io Stopwatch_start;
  handshake_result ← lift_io (call_ev (SSL_connect ssl) EvHandshake);
  t ← lift_io (elapsed_ms timer);
  (if negb (handshake_result =? 1) then
     ssl_error ← lift_io (call (SSL_get_error ssl handshake_result));
     details ← lift_io drain_openssl_errors;
     verify_result ← lift_io (call (SSL_get_verify_result ssl));
     if negb (verify_result =? X509_V_OK) then
       throwM (CertificateError ("TLS handshake failed during certificate verification: " +:+
         describe_verify_result verify_result) details)
     else if (ssl_error =? SSL_ERROR_SYSCALL) || (ssl_error =? SSL_ERROR_ZERO_RETURN) then
       throwM (NetworkError "TLS handshake failed: the connection was closed by the peer" details)
     else
       throwM (HandshakeError ("TLS handshake failed against " +:+ host config +:+ ":" +:+
         std_to_string (c_port config)) details)
   else mret tt) ;;
  outcome ← lift_io (inspect ssl);
  mret (outcome, t).

(** [SSL_get1_session] after an accepted handshake. *)
Definition cache_session (config : ClientConfig) (ssl : Z) : client unit :=
  if reuse_session config then
    session ← lift_io (call (SSL_get1_session ssl));
    if negb (session =? 0) then lift_io (adopt ObjSession session) ;; reset_session session else mret tt
  else mret tt.

(** ** The exchange *)

(** Read until a complete frame is assembled. *)
Fixpoint await_response (fuel : nat) (ssl : Z) (decoder : Decoder) (counters : IoCounters)
    : io W (string * Decoder * IoCounters) :=
  '(frame, decoder) ← liftM (on_decoder next_frame decoder);
  match frame with
  | Some text => mret (text, decoder, counters)
  | None =>
      match fuel with
      | O => throwM OutOfFuel
      | S fuel' =>
          more ← read_more ssl decoder counters;
          match more with
          | None => throwM (ProtocolError
              "the server closed the connection before a complete response frame arrived")
          | Some (decoder, counters) => await_response fuel' ssl decoder counters
          end
      end
  end.

(** A response needs at most [4 + max_frame_size] reads, a byte at a time. *)
Definition await_fuel (config : ClientConfig) : nat :=
  Z.to_nat (max_frame_size (c_common config) + 5).

(** The loop over the messages, with the metrics and the responses so far. *)
Fixpoint exchange (config : ClientConfig) (ssl : Z) (messages : list Message) (decoder : Decoder)
    (counters : IoCounters) (metrics : ConnectionMetrics) (responses : list Message)
    : io W (ConnectionMetrics * list Message * IoCounters) :=
  match messages with
  | [] => mret (metrics, responses, counters)
  | message :: rest =>
      counters ← send_message ssl message (max_frame_size (c_common config)) counters;
      let metrics := count_message metrics in
      if bool_decide (type message = Close) then mret (metrics, responses, counters)
      else
        '(text, decoder, counters) ← await_response (await_fuel config) ssl decoder counters;
        response ← Message_parse text;
        exchange config ssl rest decoder counters (count_message metrics) (responses ++ [response])
  end.

(** ** A connection *)

(** What is logged when the checks have passed. *)
Definition handshake_notice (outcome : HandshakeOutcome) (authentication : string) : string :=
  "handshake complete: " +:+ ho_tls_version outcome +:+ " group=" +:+ ho_negotiated_group outcome +:+
  " cipher=" +:+ ho_cipher_suite outcome +:+ " auth=" +:+ authentication +:+ " resumed=" +:+
  (if ho_session_reused outcome then "true" else "false").

(** From the connected socket to the result. *)
Definition over_socket (config : ClientConfig) (context : TlsContext) (messages : list Message)
    (metrics : ConnectionMetrics) (connection_timer fd : Z) : client ClientResult :=
  let common := c_common config in
  let profile := ctx_profile context in
  peer ← lift_io (peer_address fd);
  let metrics := with_peer_address metrics peer in
  ssl ← prepare_ssl config context fd;
  scoped (lift_io (dispose ObjSsl ssl)) (
    '(outcome, t) ← client_handshake config ssl;
    let metrics := with_handshake_ms metrics t in
    let metrics := populate_negotiation_fields metrics profile outcome in
    let metrics := with_negotiated_profile metrics (id profile) in
    lift_io (enforce_peer_verification ssl common true) ;;
    liftM (enforce_group_policy profile outcome) ;;
    lift_io (log_at LevelDebug (handshake_notice outcome (m_authentication metrics))) ;;
    cache_session config ssl ;;
    decoder ← liftM (Decoder_new (max_frame_size common));
    '(metrics, responses, counters) ←
      lift_io (exchange config ssl messages decoder (mkIoCounters 0 0) metrics []);
    lift_io (ssl_graceful_shutdown ssl) ;;
    let metrics := with_bytes metrics (bytes_sent counters) (bytes_received counters) in
    t ← lift_io (elapsed_ms connection_timer);
    let metrics := with_connection_ms metrics t in
    usage ← lift_io ResourceUsage_sample;
    let metrics := with_usage metrics usage in
    mret (mkResult (with_result metrics true CatNone (m_error_message metrics)) responses true)).

Definition connect_and_exchange (config : ClientConfig) (context : TlsContext)
    (messages : list Message) : client ClientResult :=
  let common := c_common config in
  connection_id ← lift_io generate_uuid_v4;
  timestamp ← lift_io iso8601_now;
  let metrics := with_identity ConnectionMetrics_default connection_id timestamp RoleClient
    (profile_id common) (experiment_id common) in
  connection_timer ← lift_io Stopwatch_start;
  fd ← lift_io (tcp_connect (host config) (c_port config) (handshake_timeout_ms common));
  scoped (lift_io (Socket_close fd))
    (over_socket config context messages metrics connection_timer fd).

(** Both handlers turn the exception into a failed result; what
    [connect_and_exchange] had recorded is gone. *)
Definition failed_result (x : exn) : ClientResult :=
  mkResult (with_result ConnectionMetrics_default false (exn_category x) (Some (exn_message x))) [] false.

(** The two handlers log at different levels. *)
Definition log_failure (x : exn) : io W unit :=
  if is_Error x then
    log_at LevelDebug ("connection failed (" +:+ ErrorCategory_to_string (exn_category x) +:+ "): " +:+ exn_message x)
  else log_at LevelErr ("unexpected exception in the client: " +:+ exn_message x).

(** The fields that are set whether or not the connection succeeded. *)
Definition complete_metrics (config : ClientConfig) (metrics : ConnectionMetrics)
    : io W ConnectionMetrics :=
  connection_id ← (if str_empty (m_connection_id metrics) then generate_uuid_v4
                   else mret (m_connection_id metrics));
  timestamp ← (if str_empty (m_timestamp metrics) then iso8601_now else mret (m_timestamp metrics));
  mret (with_identity metrics connection_id timestamp RoleClient (profile_id (c_common config))
          (experiment_id (c_common config))).

(** [run_once] after its [try] statement. *)
Definition conclude (config : ClientConfig) (writer : option MetricsWriter) (result : ClientResult)
    : client ClientResult :=
  metrics ← lift_io (complete_metrics config (cr_metrics result));
  (match writer with
   | Some w => if enabled w then lift_io (MetricsWriter_write w metrics) else mret tt
   | None => mret tt
   end) ;;
  mret (mkResult metrics (cr_responses result) (cr_ok result)).

Definition run_once (config : ClientConfig) (context : TlsContext) (writer : option MetricsWriter)
    (messages : list Message) : client ClientResult :=
  result ← try_catch (connect_and_exchange config context messages) is_exception
             (fun x => lift_io (log_failure x) ;; mret (failed_result x));
  conclude config writer result.

(** The overload for one message. *)
Definition run_once_message (config : ClientConfig) (context : TlsContext) (writer : option MetricsWriter)
    (message : Message) : client ClientResult :=
  run_once config context writer [message].

(** Offering a session only calls libssl and logs. *)
Lemma offer_session_wp config ssl (Q : unit -> St W * Z -> Prop) E s c :
  (forall s' new, st_log s' = new ++ st_log s -> Forall logging new -> Q tt (s', c)) ->
  wp (offer_session config ssl) Q E (s, c).
Proof.
  intros HQ. unfold offer_session, get_session. apply wp_bind. unfold wp at 1.
  case_match; [|by apply (HQ _ [])]. apply wp_bind, wp_lift_io, call_wp. intros rc w q _.
  case_match; [|by apply (HQ _ [])]. apply wp_bind, wp_lift_io, drain_wp. intros msgs q' _.
  apply wp_lift_io, log_wp. eapply HQ; [apply (app_assoc [_] [])|by apply Forall_singleton].
Qed.

(** The same for the computations the later files follow. *)
Lemma offer_session_ends config ssl (s : St W) c :
  exists s' new, offer_session config ssl (s, c) = (Ok tt, (s', c)) /\
    st_log s' = new ++ st_log s /\ Forall logging new.
Proof.
  pose proof (offer_session_wp config ssl
    (fun _ st => exists s' new, st = (s', c) /\ st_log s' = new ++ st_log s /\ Forall logging new)
    (fun _ _ => False) s c) as H.
  unfold wp in H. destruct (offer_session config ssl (s, c)) as [[[]|x] st]; [|destruct H; eauto].
  destruct H as (s' & new & -> & L & F); eauto 8.
Qed.

Lemma emits_offer (P : Event -> Prop) config ssl :
  (forall e, logging e -> P e) -> local_emits P (offer_session config ssl).
Proof.
  intros HP s c. destruct (offer_session_ends config ssl s c) as (s' & new & -> & L & F).
  exists new. split; [done|by eapply Forall_impl].
Qed.

Lemma throws_offer P config ssl : throws P (offer_session config ssl).
Proof. intros [s c] x st. by destruct (offer_session_ends config ssl s c) as (s' & new & -> & _). Qed.

Lemma keeps_offer P config ssl : keeps P (offer_session config ssl).
Proof. intros s c Hc. by destruct (offer_session_ends config ssl s c) as (s' & new & -> & _). Qed.

Lemma log_failure_eq x (s : St W) :
  exists level text, log_failure x s =
    (Ok tt, mkSt (st_world s) (st_errq s) (EvLog level text :: st_log s)).
Proof. unfold log_failure. destruct (is_Error x); eauto. Qed.

Lemma throws_log_failure P x : throws P (log_failure x).
Proof. unfold log_failure. case_match; apply throws_log. Qed.

Lemma emits_log_failure (P : Event -> Prop) x : (forall e, logging e -> P e) -> emits P (log_failure x).
Proof. intros HP. unfold log_failure. case_match; by apply emits_emit, HP. Qed.

Definition destroyed (context : TlsContext) (st : St W * Z) : St W :=
  (dispose ObjCtx (ctx_handle context) (dispose ObjSession st.2 st.1).2).2.

Lemma wp_with_client {A} context (body : client A) (Q : A -> St W -> Prop) E s :
  wp body (fun a st => Q a (destroyed context st)) (fun x st => E x (destroyed context st)) (s, 0) ->
  wp (with_client context body) Q E s.
Proof.
  unfold wp, with_client, scoped, destroyed. by destruct (body (s, 0)) as [[a|x] [s' session]].
Qed.

Lemma emits_with_client {A} P context (body : client A) :
  indifferent P -> local_emits P body -> emits P (with_client context body).
Proof.
  intros HP Hb. apply emits_scoped; [by apply emits_free|]. intros s.
  destruct (Hb s 0) as (n1 & L1 & F1). destruct (body (s, 0)) as [r [s' session]]. simpl in *.
  destruct (emits_free P ObjSession session HP s') as (n2 & L2 & F2). exists (n2 ++ n1).
  rewrite L2, L1, app_assoc. split; [done|by apply Forall_app].
Qed.

End client.

#[export] Hint Resolve throws_offer throws_log_failure keeps_offer : pqtls.
#[export] Hint Extern 1 (local_emits _ (offer_session _ _)) => apply emits_offer; by intros [] : pqtls.
#[export] Hint Extern 1 (emits _ (log_failure _)) => apply emits_log_failure; by intros [] : pqtls.
