(* ===== verification/ClientSpec.v ===== *)
(** Theorems on one client connection: what happens before application data
    moves, that the exchange terminates with one response per request, and
    what [run_once] leaves behind. *)

From S2P Require Import Prelude Errors Runtime Json Framing Identifiers Message Profile.
From S2P Require Import ProfileYaml Config Transport Metrics TlsContext Gate Server ServerLoop.
From S2P Require Import ServerSpec Client.

(** ** Application data only after the policy checks *)

(** What must have happened before the client sends or reads application data:
    the server name was announced, hostname verification was enabled unless
    verification is off, and the handshake is authorised with a certificate of
    the peer. *)
Definition client_authorised (config : ClientConfig) (context : TlsContext) (earlier : list Event)
    : Prop :=
  In (EvSni (effective_server_name config) 1) earlier /\
  (insecure_development_mode (c_common config) = false ->
   In (EvHostCheck (effective_server_name config) 1) earlier) /\
  authorised (ctx_profile context) (insecure_development_mode (c_common config)) true earlier.

Lemma authorised_incl p i n l l' :
  (forall e, In e l -> In e l') -> authorised p i n l -> authorised p i n l'.
Proof.
  intros H (H1 & (g & H2 & H3) & H4). split; [auto|]. split; [eauto|].
  intros Hi. destruct (H4 Hi). auto.
Qed.

Lemma client_authorised_incl config context l l' :
  (forall e, In e l -> In e l') -> client_authorised config context l ->
  client_authorised config context l'.
Proof. intros H (H1 & H2 & H3). split; [|split]; eauto using authorised_incl. Qed.

Lemma gated_older (auth : list Event -> Prop) l1 l2 :
  (forall l l', auth l -> auth (l ++ l')) -> gated auth l1 -> gated auth l2 -> gated auth (l1 ++ l2).
Proof.
  intros Hm. induction l1 as [|e l1 IH]; simpl; [done|]. intros [H1 H2] H3. split; auto.
Qed.

Section gate.
Context {W : Type} {RA : RuntimeApi W} {J : JsonLib} {EA : EnvApi W} {SA : SocketApi W}
  {LA : SslApi W} {CA : CtxApi W} {MA : MetricsApi W} {KA : ClientApi W}.

(** A descriptor's life, and nothing else the properties look at. *)
Definition plumbing (e : Event) : Prop :=
  match e with EvOpen _ | EvClose _ | EvTimeouts _ _ _ | EvConnect _ _ => True | _ => False end.

Lemma emits_owning P fd (body : io W attempt) :
  emits P body -> P (EvClose fd) -> emits P (owning fd body).
Proof.
  intros Hb Hp s. destruct (Hb s) as (n & L & F). unfold owning.
  destruct (Socket_close_outcome fd (body s).2) as (w & q & Hc).
  destruct (body s) as [[[fd'|t]|x] s']; simpl in *; [by exists n| |].
  all: rewrite Hc; simpl; destruct (fd >=? 0); [exists (EvClose fd :: n)|by exists n].
  all: rewrite L; split; [done|by constructor].
Qed.

Lemma emits_tcp_connect host port timeout_ms : emits plumbing (tcp_connect host port timeout_ms).
Proof.
  assert (Ha : forall c, emits plumbing (connect_attempt c timeout_ms)).
  { intros c. unfold connect_attempt, open_socket. apply emits_bind.
    { apply emits_bind; [auto with pqtls|intros fd]. apply emits_bind; [|auto with pqtls].
      case_match; [by apply emits_emit|auto with pqtls]. }
    intros fd. case_match; [auto with pqtls|]. apply emits_owning; [|done].
    apply emits_bind; [apply emits_catch|intros b; repeat case_match]; auto with pqtls.
    - apply emits_bind; [|auto with pqtls]. unfold set_timeouts. case_match; [auto with pqtls|].
      repeat (apply emits_bind; [|intros ?]); try (apply emits_silent; case_match; by eauto with pqtls);
        auto with pqtls. by apply emits_emit.
    - apply emits_bind; [by apply emits_call_ev|intros r]. case_match; auto with pqtls. }
  unfold tcp_connect. apply emits_bind; [auto with pqtls|intros [rc results]].
  case_match; [auto with pqtls|]. apply emits_bind; [|intros []; auto with pqtls].
  clear - Ha. generalize "no addresses were returned"%string.
  induction results as [|c cs IH]; intros err; simpl; [auto with pqtls|].
  apply emits_bind; [apply Ha|intros []; auto with pqtls].
Qed.

(** Up to [SSL_connect]: the name was announced and, unless verification is
    off, is checked. *)
Definition named (config : ClientConfig) (facts : list Event) : Prop :=
  In (EvSni (effective_server_name config) 1) facts /\
  (insecure_development_mode (c_common config) = false ->
   In (EvHostCheck (effective_server_name config) 1) facts).

Lemma prepare_ssl_wp config context fd (Q : Z -> St W * Z -> Prop) (E : exn -> St W * Z -> Prop) base s c :
  grown base [] s ->
  (forall ssl s' facts, grown base facts s' -> named config facts -> Q ssl (s', c)) ->
  (forall x s' facts, grown base facts s' -> E x (s', c)) ->
  wp (prepare_ssl config context fd) Q E (s, c).
Proof.
  intros Hg HQ HE. unfold prepare_ssl. cbn zeta. do 2 quiet_step.
  assert (HE' : forall x s' facts, grown base facts s' -> E x ((dispose ObjSsl a0 s').2, c))
    by eauto using grown_dispose.
  apply wp_guarded_io. clear HE. rename HE' into HE. set (E' := fun x st' => E x _).
  change (forall x s' facts, grown base facts s' -> E' x (s', c)) in HE. clearbody E'. clear E.
  rename E' into E. quiet_step. apply wp_bind. destruct (negb _); [eapply step_throw; eauto|apply wp_ret].
  apply wp_bind, wp_lift_io, call_ev_wp. intros rc w q _. set (name := effective_server_name config).
  match goal with Hs : grown base [] ?st |- _ =>
    pose proof (grown_event base [] st (mkSt w q (EvSni name rc :: st_log st)) _ Hs eq_refl I) as Hn end.
  apply wp_bind. destruct (rc =? 1) eqn:Erc; cbn [negb]; [|eapply step_throw; eauto].
  apply Z.eqb_eq in Erc as ->. apply wp_ret, wp_bind.
  assert (Htail : forall s' facts, grown base facts s' -> named config facts ->
    wp (offer_session config a0 ;; mret a0) Q E (s', c)).
  { intros s' facts Hf Hnm. apply wp_bind, offer_session_wp. intros s2 new L F. apply wp_ret.
    eapply HQ; [|exact Hnm]. eapply grown_step; [done..|]. eapply Forall_impl; [|exact F]. by intros []. }
  destruct (insecure_development_mode (c_common config)) eqn:Ei.
  - apply wp_ret. eapply Htail; [done|]. split; [by left|by rewrite Ei].
  - quiet_step. apply wp_bind, wp_lift_io, call_ev_wp. intros rc w2 q2 _.
    match goal with Hs : grown base [EvSni name 1] ?st |- _ =>
      pose proof (grown_event base _ st (mkSt w2 q2 (EvHostCheck name rc :: st_log st)) _ Hs eq_refl I) as Hn2
    end.
    destruct (rc =? 1) eqn:Erc; cbn [negb]; [|eapply step_throw; eauto].
    apply Z.eqb_eq in Erc as ->. apply wp_ret. eapply Htail; [done|].
    split; [by right; left|intros _; by left].
Qed.

Lemma client_handshake_wp config ssl (Q : HandshakeOutcome * double -> St W * Z -> Prop)
    (E : exn -> St W * Z -> Prop) base facts s c :
  grown base facts s ->
  (forall o t s' g, grown base (EvGroup g :: EvHandshake 1 :: facts) s' ->
     ho_negotiated_group o = default "" g -> Q (o, t) (s', c)) ->
  (forall x s' facts, grown base facts s' -> E x (s', c)) ->
  wp (client_handshake config ssl) Q E (s, c).
Proof.
  intros Hg HQ HE. unfold client_handshake. quiet_step.
  apply wp_bind, wp_lift_io, call_ev_wp. intros rc w q _.
  match goal with Hs : grown base facts ?st |- _ =>
    pose proof (grown_event base facts st (mkSt w q (EvHandshake rc :: st_log st)) _ Hs eq_refl I) as Hh end.
  quiet_step. apply wp_bind. destruct (rc =? 1) eqn:Erc; cbn [negb].
  - apply Z.eqb_eq in Erc as ->. apply wp_ret, wp_bind, wp_lift_io, inspect_wp.
    intros o s9 g new L F Ho. apply wp_ret. eapply HQ; [|done]. by eapply grown_inspect.
  - do 3 quiet_step. repeat case_match; apply wp_throw; eauto.
Qed.

Lemma emits_await fuel ssl d c : emits transfer (await_response fuel ssl d c).
Proof.
  revert d c. induction fuel as [|fuel IH]; intros d c; cbn [await_response].
  all: apply emits_bind; [auto with pqtls|intros [[f|] d']]; auto with pqtls.
  apply emits_bind; [apply emits_read_more|intros [[d2 c2]|]]; auto with pqtls.
Qed.

Lemma emits_exchange config ssl ms d c m rs : emits transfer (exchange config ssl ms d c m rs).
Proof.
  revert d c m rs. induction ms as [|x ms IH]; intros d c m rs; cbn [exchange]; [auto with pqtls|].
  apply emits_bind; [apply emits_send|intros c']. cbn zeta. case_match; [auto with pqtls|].
  apply emits_bind; [apply emits_await|intros [[t d'] c2]]. apply emits_bind; [auto with pqtls|intros r].
  apply IH.
Qed.

(** Data moved only when authorised, and the cached session was replaced only
    when authorised. *)
Definition client_gated (config : ClientConfig) (context : TlsContext) (base : list Event)
    (c : Z) (st : St W * Z) : Prop :=
  exists new, st_log st.1 = new ++ base /\ gated (client_authorised config context) new /\
    (st.2 = c \/ client_authorised config context new).

Lemma grown_client_gated config context base facts s c :
  grown base facts s -> client_gated config context base c (s, c).
Proof.
  intros Hg. destruct (grown_gated (client_authorised config context) _ _ _ Hg) as (new & L & G).
  exists new. auto.
Qed.

Lemma client_gated_step config context base c s s' c' new :
  client_gated config context base c (s, c') -> st_log s' = new ++ st_log s -> Forall no_data new ->
  client_gated config context base c (s', c').
Proof.
  intros (n & L & G & A) L' F. exists (new ++ n). simpl in *. rewrite L', L, app_assoc.
  splits; [done|by apply gated_quiet|]. destruct A as [A|A]; [by left|right].
  eapply client_authorised_incl; [|exact A]. intros e He. apply in_or_app. auto.
Qed.

Lemma client_gated_dispose config context base c o h s c' :
  client_gated config context base c (s, c') ->
  client_gated config context base c ((dispose o h s).2, c').
Proof.
  intros Hg. eapply (client_gated_step _ _ _ _ _ _ _ _ Hg); [apply dispose_log|].
  case_match; by repeat constructor.
Qed.

(** Whatever runs after the checks passed. *)
Lemma authorised_tail {A} config context base (m : local W Z A) s c c0 new :
  local_emits (fun _ => True) m -> st_log s = new ++ base -> client_authorised config context new ->
  gated (client_authorised config context) new ->
  wp m (fun _ => client_gated config context base c0) (fun _ => client_gated config context base c0) (s, c).
Proof.
  intros Hm L Ha Hg.
  assert (H : forall s' c' new', st_log s' = new' ++ st_log s -> client_gated config context base c0 (s', c')).
  { intros s' c' new' L'. exists (new' ++ new). simpl. rewrite L', L, app_assoc. splits; [done| |right].
    - apply gated_app; [|done..]. intros l l'. apply client_authorised_incl. intros. apply in_or_app. auto.
    - eapply client_authorised_incl; [|exact Ha]. intros. apply in_or_app. auto. }
  apply (local_emits_wp (fun _ => True)); eauto.
Qed.

Lemma over_socket_gated config context ms m0 timer fd s c :
  wp (over_socket config context ms m0 timer fd)
    (fun _ => client_gated config context (st_log s) c) (fun _ => client_gated config context (st_log s) c) (s, c).
Proof.
  set (base := st_log s). pose proof (grown_start s : grown base [] s) as Hg0.
  unfold over_socket. cbn zeta.
  assert (HE : forall (x : exn) s' facts, grown base facts s' -> client_gated config context base c (s', c))
    by eauto using grown_client_gated.
  quiet_step. apply wp_bind. eapply prepare_ssl_wp; [eassumption| |eauto].
  intros ssl s1 facts H1 [Hsni Hhost]. apply wp_scoped_io.
  apply (wp_mono _ (fun _ => client_gated config context base c) _ (fun _ => client_gated config context base c));
    [intros ? []; apply client_gated_dispose|intros ? []; apply client_gated_dispose|].
  apply wp_bind. eapply client_handshake_wp; [eassumption| |eauto].
  intros o t s2 g H2 Ho. apply wp_bind, wp_lift_io, enforce_peer_wp.
  2: intros; eapply HE, grown_step; eauto.
  intros s3 new3 L3 F3 Hver. pose proof (grown_step _ _ _ _ _ H2 L3 F3) as H3.
  apply wp_bind, wp_lift; [|intros; by eapply HE].
  intros [] Hpol. destruct H2 as (new2 & L2 & F2 & I2).
  assert (Ha : client_authorised config context (new3 ++ new2)).
  { split; [|split]; [| |unfold authorised; splits].
    - apply in_or_app; right. apply I2. by do 2 right.
    - intros Hi. apply in_or_app; right. apply I2. do 2 right. auto.
    - apply in_or_app; right. apply I2. by right; left.
    - exists g. split; [apply in_or_app; right; apply I2; by left|].
      unfold enforce_group_policy in Hpol. rewrite <- Ho. by destruct (permits_negotiated_group _ _).
    - intros Hi. destruct (Hver Hi) as [V1 V2]. split; [apply in_or_app; by left|intros; apply in_or_app; auto]. }
  eapply (authorised_tail _ _ _ _ _ _ _ (new3 ++ new2)); [|by rewrite L3, L2, app_assoc|done|].
  2: { rewrite <- (app_nil_r (new3 ++ new2)). apply gated_quiet; [|exact I]. apply Forall_app.
       split; (eapply Forall_impl; [apply quiet_no_data|eassumption]). }
  assert (Hx : forall A P (m : io W A), emits P m -> local_emits (L := Z) (fun _ => True) (lift_io m))
    by (intros A P m Hm; apply local_emits_lift; eapply emits_mono; [|exact Hm]; done).
  unfold cache_session, reset_session.
  repeat first [ eapply Hx, emits_exchange | eapply Hx, emits_shutdown
    | by apply local_emits_pure | apply local_emits_lift; first [by auto with pqtls|by apply emits_adopt]
    | apply local_emits_bind; [|intros ?] | case_match ].
Qed.

Lemma connect_gated config context ms s c :
  wp (connect_and_exchange config context ms)
    (fun _ => client_gated config context (st_log s) c) (fun _ => client_gated config context (st_log s) c) (s, c).
Proof.
  unfold connect_and_exchange. cbn zeta. pose proof (grown_start s) as Hg0.
  assert (HE : forall (x : exn) s' facts, grown (st_log s) facts s' ->
    client_gated config context (st_log s) c (s', c)) by eauto using grown_client_gated.
  do 3 quiet_step. apply wp_bind, wp_lift_io, (emits_wp plumbing); [apply emits_tcp_connect| |].
  2: { intros x s' new L F. eapply client_gated_step; [eapply HE; eassumption|exact L|].
       eapply Forall_impl; [|exact F]. by intros []. }
  intros fd s' new L F.
  assert (H4 : client_gated config context (st_log s) c (s', c)).
  { eapply client_gated_step; [by eapply (HE OutOfFuel); eassumption|exact L|].
    eapply Forall_impl; [|exact F]. by intros []. }
  pose proof (over_socket_gated config context ms (with_identity ConnectionMetrics_default a a0 RoleClient
    (profile_id (c_common config)) (experiment_id (c_common config))) a1 fd s' c) as Ho.
  unfold wp, scoped, lift_io in *.
  destruct (over_socket _ _ _ _ _ _ (s', c)) as [r [s2 c2]].
  destruct (Socket_close_outcome fd s2) as (w & q & Hc). rewrite Hc.
  assert (Hend : client_gated config context (st_log s) c (s2, c2)).
  { assert (H5 : client_gated config context (st_log s') c (s2, c2)) by (by destruct r). clear Ho.
    destruct H4 as (n1 & L1 & G1 & _), H5 as (n2 & L2 & G2 & A2). exists (n2 ++ n1). simpl in *.
    rewrite L2, L1, app_assoc. splits; [done| |].
    - apply gated_older; [|done..]. intros l l'. apply client_authorised_incl. intros. apply in_or_app. auto.
    - destruct A2 as [A2|A2]; [by left|right]. eapply client_authorised_incl; [|exact A2].
      intros. apply in_or_app. auto. }
  assert (Hfin : client_gated config context (st_log s) c
    (mkSt w q (if fd >=? 0 then EvClose fd :: st_log s2 else st_log s2), c2)).
  { eapply (client_gated_step _ _ _ _ _ _ _ (if fd >=? 0 then [EvClose fd] else [])); [exact Hend| |].
    - by destruct (fd >=? 0).
    - destruct (fd >=? 0); repeat constructor. }
  by destruct r.
Qed.

End gate.

(** ** The exchange *)

(** What is sent: everything up to the first [close]. *)
Fixpoint conversation (messages : list Message) : list Message :=
  match messages with
  | [] => []
  | m :: rest => if bool_decide (type m = Close) then [m] else m :: conversation rest
  end.

(** The ones that are answered. *)
Definition awaiting (messages : list Message) : list Message :=
  List.filter (fun m => negb (bool_decide (type m = Close))) (conversation messages).

Section exchange.
Context {W : Type} {RA : RuntimeApi W} {J : JsonLib} {EA : EnvApi W} {SA : SocketApi W}
  {LA : SslApi W} {LL : SslLaws W} {CA : CtxApi W} {MA : MetricsApi W} {KA : ClientApi W}.

Definition serialises (m : Message) (p : string) : Prop := Message_serialize m = Ok p.

Definition parses (text : string) (m : Message) : Prop :=
  exists s s' : St W, Message_parse text s = (Ok m, s').

Lemma await_response_spec max fuel ssl d c s :
  1 <= max <= kAbsoluteMaxFrameSize -> reading max d -> counters_ok c ->
  4 + max - vec_size (pending d) <= Z.of_nat fuel ->
  match await_response fuel ssl d c s with
  | (Ok (text, d', c'), s') => reading max d' /\ counters_ok c' /\ legal max text /\
      bytes_sent c' = bytes_sent c /\ sent (st_log s') = sent (st_log s) /\
      exists data, received (st_log s') = received (st_log s) ++ data /\
        pending d ++ data = frame_of text ++ pending d'
  | (Throw x, s') => real x /\ sent (st_log s') = sent (st_log s)
  end.
Proof.
  intros Hmax. revert d c s. induction fuel as [|fuel IH]; intros d c s Hd Hc Hf; cbn [await_response].
  all: pose proof (next_frame_step max d (proj1 Hmax) Hd) as Hn.
  all: unfold mbind at 1, M_bind at 1, liftM at 1.
  all: destruct (on_decoder next_frame d) as [[[f|] d']|x]; [| |done].
  1,3: destruct Hn as (Hd' & Hl & Hp); cbn; splits; try done; exists []; by rewrite !app_nil_r.
  all: destruct Hn as (Hd' & Hp & Hshort).
  { exfalso. lia. }
  rewrite <- Hp in Hshort. unfold mbind at 1, M_bind at 1.
  pose proof (read_more_spec ssl d' c s max Hd' Hshort Hc) as Hr.
  destruct (read_more ssl d' c s) as [[[[d2 c2]|]|x] s2]; [|cbn; split; [done|apply Hr]|by destruct Hr as (? & ? & _)].
  destruct Hr as (Hc2 & Hb2 & Hd2 & Hs2 & data & Hne & Hp2 & Hr2).
  assert (Hlen : 4 + max - vec_size (pending d2) <= Z.of_nat fuel).
  { rewrite Hp2, vec_size_app, Hp. destruct data; [done|]. unfold vec_size in *. simpl in *. lia. }
  specialize (IH d2 c2 s2 Hd2 Hc2 Hlen).
  destruct (await_response fuel ssl d2 c2 s2) as [[[[t d3] c3]|x] s3].
  - destruct IH as (I1 & I2 & I3 & I4 & I5 & more & I6 & I7).
    splits; try done; [congruence|congruence|]. exists (data ++ more).
    rewrite I6, Hr2, <- I7, Hp2, Hp. by rewrite !app_assoc.
  - destruct IH as [I1 I2]. split; [done|congruence].
Qed.

(** What the loop over the messages has done when it returns. *)
Record conversed (config : ClientConfig) (ms : list Message) (d : Decoder) (s s' : St W)
    (ps texts : list string) (answers : list Message) : Prop := {
  cv_sent : Forall2 serialises (conversation ms) ps;
  cv_out : sent (st_log s') = sent (st_log s) ++ frames ps;
  cv_answers : Forall2 parses texts answers;
  cv_count : length answers = length (awaiting ms);
  cv_legal : Forall (legal (max_frame_size (c_common config))) (ps ++ texts);
  cv_in : exists got rest, received (st_log s') = received (st_log s) ++ got /\
    pending d ++ got = frames texts ++ rest
}.

Definition exchange_post (config : ClientConfig) (ms : list Message) (d : Decoder) (s : St W)
    (c : IoCounters) (m : ConnectionMetrics) (rs : list Message)
    (out : result (ConnectionMetrics * list Message * IoCounters) * St W) : Prop :=
  match out with
  | (Ok (m', rs', c'), s') => exists ps texts answers,
      conversed config ms d s s' ps texts answers /\ rs' = rs ++ answers /\
      bytes_sent c' = to_u64 (bytes_sent c + Z.of_nat (length (frames ps))) /\
      m_protocol_message_count m' = counted m (Z.of_nat (length ps + length answers))
  | (Throw x, s') => real x /\ exists k ps pre,
      Forall2 serialises (take k ms) ps /\ truncated (max_frame_size (c_common config)) pre /\
      sent (st_log s') = sent (st_log s) ++ frames ps ++ pre
  end.

Lemma counted_twice m m' a b :
  m_protocol_message_count m' = counted m a -> counted m' b = counted m (a + b).
Proof.
  intros H. unfold counted. rewrite H. unfold counted, to_u32. rewrite Z.add_mod_idemp_l by done.
  f_equal. lia.
Qed.

(** The last message was a [close]. *)
Lemma exchange_post_close config x ms d s s1 c c1 m rs p :
  type x = Close -> serialises x p -> legal (max_frame_size (c_common config)) p ->
  sent (st_log s1) = sent (st_log s) ++ frame_of p -> received (st_log s1) = received (st_log s) ->
  bytes_sent c1 = to_u64 (bytes_sent c + Z.of_nat (length (frame_of p))) ->
  exchange_post config (x :: ms) d s c m rs (Ok (count_message m, rs, c1), s1).
Proof.
  intros Ht Hser Hl Hs Hr Hb.
  assert (Hcv : conversation (x :: ms) = [x]) by (simpl; by rewrite bool_decide_eq_true_2).
  exists [p], [], []. splits.
  - constructor; rewrite ?Hcv; [by apply Forall2_cons| |constructor| |by apply Forall_singleton|].
    + rewrite Hs. unfold frames. simpl. by rewrite app_nil_r.
    + unfold awaiting. rewrite Hcv. simpl. by rewrite bool_decide_eq_true_2.
    + exists [], (pending d). by rewrite !app_nil_r.
  - by rewrite app_nil_r.
  - unfold frames. simpl. by rewrite app_nil_r.
  - apply count_message_count.
Qed.

(** A failure after [x] was sent. *)
Lemma exchange_post_fail config x ms d s s1 c m rs p e :
  real e -> serialises x p -> sent (st_log s1) = sent (st_log s) ++ frame_of p ->
  exchange_post config (x :: ms) d s c m rs (Throw e, s1).
Proof.
  intros He Hser Hs. split; [done|]. exists 1%nat, [p], []. unfold frames. simpl. rewrite !app_nil_r.
  splits; [by apply Forall2_cons|by left|done].
Qed.

(** One request and its response in front. *)
Lemma exchange_post_step config x ms d d2 s s1 c c1 m m1 rs p t r data out :
  type x <> Close -> serialises x p -> parses t r ->
  legal (max_frame_size (c_common config)) p -> legal (max_frame_size (c_common config)) t ->
  sent (st_log s1) = sent (st_log s) ++ frame_of p ->
  received (st_log s1) = received (st_log s) ++ data -> pending d ++ data = frame_of t ++ pending d2 ->
  bytes_sent c1 = to_u64 (bytes_sent c + Z.of_nat (length (frame_of p))) ->
  m_protocol_message_count m1 = counted m 2 ->
  exchange_post config ms d2 s1 c1 m1 (rs ++ [r]) out -> exchange_post config (x :: ms) d s c m rs out.
Proof.
  intros Ht Hser Hpar Hlp Hlt Hs Hr Hd Hb Hm.
  assert (Hcv : conversation (x :: ms) = x :: conversation ms)
    by (simpl; by rewrite bool_decide_eq_false_2).
  destruct out as [[[[m' rs'] c']|e] s']; simpl.
  - intros (ps & texts & answers & [C1 C2 C3 C4 C5 (got & rest & C6 & C7)] & -> & Hb' & Hm').
    exists (p :: ps), (t :: texts), (r :: answers). splits.
    + constructor; rewrite ?Hcv; try by constructor.
      * by rewrite C2, Hs, frames_cons, app_assoc.
      * unfold awaiting. rewrite Hcv. simpl. rewrite bool_decide_eq_false_2 by done. simpl. by rewrite C4.
      * apply Forall_app in C5 as [C5 C5']. apply Forall_app. split; by constructor.
      * exists (data ++ got), rest. rewrite C6, Hr, frames_cons, !app_assoc. split; [done|].
        by rewrite Hd, <- !app_assoc, C7.
    + by rewrite <- app_assoc.
    + rewrite Hb', Hb, frames_cons, length_app. unfold to_u64. rewrite Z.add_mod_idemp_l by done. f_equal. lia.
    + rewrite Hm', (counted_twice m m1 2 _ Hm). simpl. f_equal. lia.
  - intros (He & k & ps & pre & H1 & H2 & H3). split; [done|]. exists (S k), (p :: ps), pre.
    splits; [by constructor|done|]. by rewrite H3, Hs, frames_cons, !app_assoc.
Qed.

Lemma exchange_spec config ssl ms d c m rs s :
  1 <= max_frame_size (c_common config) <= kAbsoluteMaxFrameSize ->
  reading (max_frame_size (c_common config)) d -> counters_ok c ->
  is_u32 (m_protocol_message_count m) ->
  exchange_post config ms d s c m rs (exchange config ssl ms d c m rs s).
Proof.
  set (max := max_frame_size (c_common config)). intros Hmax.
  revert d c m rs s. induction ms as [|x ms IH]; intros d c m rs s Hd Hc Hm; cbn [exchange].
  { exists [], [], []. splits; [constructor; simpl; try constructor; try done| | |].
    - by rewrite app_nil_r.
    - exists [], (pending d). by rewrite !app_nil_r.
    - by rewrite app_nil_r.
    - simpl. rewrite Z.add_0_r, to_u64_small; [done|apply Hc].
    - unfold counted. simpl. by rewrite Z.add_0_r, to_u32_small. }
  pose proof (send_message_spec ssl x max c s Hmax Hc) as Hsend. fold max.
  unfold mbind at 1, M_bind at 1. destruct (send_message ssl x max c s) as [[c1|e] s1].
  2: { destruct Hsend as (He & _ & pre & Hpre & Hs). split; [done|]. exists 0%nat, [], pre. by splits. }
  destruct Hsend as (Hc1 & Hr1 & Hbr1 & p & Hser & Hlp & Hs1 & Hb1). cbn zeta.
  destruct (bool_decide (type x = Close)) eqn:Et.
  { apply bool_decide_eq_true in Et. by eapply exchange_post_close. }
  apply bool_decide_eq_false in Et. unfold mbind at 1, M_bind at 1.
  assert (Hf : 4 + max - vec_size (pending d) <= Z.of_nat (await_fuel config)).
  { unfold await_fuel. fold max. pose proof (vec_size_nonneg (pending d)). lia. }
  pose proof (await_response_spec max (await_fuel config) ssl d c1 s1 Hmax Hd Hc1 Hf) as Haw.
  destruct (await_response (await_fuel config) ssl d c1 s1) as [[[[t d2] c2]|e] s2].
  2: { destruct Haw as [He Hs2]. eapply exchange_post_fail; [done..|]. by rewrite Hs2. }
  destruct Haw as (Hd2 & Hc2 & Hlt & Hb2 & Hs2 & data & Hr2 & Hp2). unfold mbind, M_bind.
  pose proof (silent_parse t s2) as Hsil. pose proof (throws_parse t s2) as Hth.
  destruct (Message_parse t s2) as [[r|e] s3] eqn:Ep; simpl in Hsil.
  2: { eapply exchange_post_fail; [by eapply Hth|done|]. by rewrite Hsil, Hs2. }
  assert (Hm2 : m_protocol_message_count (count_message (count_message m)) = counted m 2).
  { rewrite count_message_count. apply (counted_twice m _ 1 1), count_message_count. }
  eapply (exchange_post_step config x ms d d2 s s3 c c2); try done.
  - by exists s2, s3.
  - by rewrite Hsil, Hs2.
  - by rewrite Hsil, Hr2, Hr1.
  - by rewrite Hb2.
  - apply IH; [done|done|]. rewrite Hm2. apply to_u32_ok.
Qed.

End exchange.

(** ** What a connection leaves behind *)

Section outcome.
Context {W : Type} {RA : RuntimeApi W} {J : JsonLib} {EA : EnvApi W} {SA : SocketApi W}
  {LA : SslApi W} {LL : SslLaws W} {CA : CtxApi W} {MA : MetricsApi W} {KA : ClientApi W}.

(** A step of which only the exceptions are known. *)
Lemma throws_post {S A} (P : exn -> Prop) (m : M S A) (Q : A -> S -> Prop) s :
  throws P m -> (forall a s', m s = (Ok a, s') -> Q a s') -> wp m Q (fun x _ => P x) s.
Proof.
  intros Ht HQ. specialize (Ht s). unfold wp. destruct (m s) as [[a|x] s'] eqn:E; [by apply HQ|by eapply Ht].
Qed.

Lemma throws_prepare config context fd : throws real (prepare_ssl config context fd).
Proof.
  unfold prepare_ssl. cbn zeta.
  apply throws_bind; [apply throws_lift_io; eapply throws_mono, set_timeouts_throws; apply real_network|intros _].
  repeat first [ apply throws_lift_io; first [apply throws_call|apply throws_call_ev|apply throws_drain
        |by apply throws_openssl|by apply throws_new_ssl]
    | apply throws_ret | apply throws_offer | apply throws_guarded | apply throws_bind; [|intros ?] | case_match ].
Qed.

Lemma throws_client_handshake config ssl : throws real (client_handshake config ssl).
Proof.
  unfold client_handshake.
  repeat first [ apply throws_lift_io; first [apply throws_call|apply throws_call_ev|apply throws_drain|apply throws_inspect]
    | apply throws_ret | by apply throws_throw | apply throws_bind; [|intros ?] | case_match
    | progress unfold Stopwatch_start ].
  apply throws_lift_io. unfold elapsed_ms. auto with pqtls.
Qed.

Lemma emits_over_socket config context ms m timer fd :
  local_emits inner (over_socket config context ms m timer fd).
Proof.
  assert (Hq : forall A (m : local W Z A), local_emits quiet m -> local_emits inner m)
    by (intros; eapply local_emits_mono; [apply quiet_inner|done]).
  unfold over_socket, prepare_ssl, client_handshake, cache_session, reset_session. cbn zeta.
  repeat first [ apply local_emits_bind; [|intros ?] | apply local_emits_scoped | apply local_emits_guarded
    | eapply local_emits_mono, local_emits_lift, emits_exchange; apply transfer_inner
    | apply Hq, local_emits_lift; first [apply emits_set_timeouts|apply emits_inspect|apply emits_enforce_peer
        |apply emits_shutdown|by apply emits_call_ev|by apply emits_adopt|by auto with pqtls]
    | by apply local_emits_pure | case_match ].
Qed.

Lemma live_inner new l : Forall inner new -> live (new ++ l) = live l.
Proof. induction 1 as [|e new He _ IH]; [done|]. by destruct e. Qed.

Lemma throws_peer_address P fd : throws P (peer_address (W := W) fd).
Proof.
  unfold peer_address. repeat first [apply throws_call | apply throws_ret
    | apply throws_bind; [|intros ?] | case_match].
Qed.

Lemma throws_usage P : throws P (ResourceUsage_sample (W := W)).
Proof. unfold ResourceUsage_sample. apply throws_bind; [apply throws_call|intros []; apply throws_ret]. Qed.

(** The metrics inside the loop over the messages only count. *)
Lemma exchange_metrics (P : ConnectionMetrics -> Prop) config ssl ms d c m rs s m' rs' c' s' :
  (forall m, P m -> P (count_message m)) -> P m ->
  exchange config ssl ms d c m rs s = (Ok (m', rs', c'), s') -> P m'.
Proof.
  intros HP. revert d c m rs s. induction ms as [|x ms IH]; intros d c m rs s Hm; cbn [exchange].
  { intros Heq. injection Heq as <- _ _ _. done. }
  intros (c1 & s1 & _ & H)%bind_inv. cbn zeta in H. case_match.
  { injection H as <- _ _ _. auto. }
  apply bind_inv in H as ([[t d2] c2] & s2 & _ & H). apply bind_inv in H as (r & s3 & _ & H).
  eapply IH, H. auto.
Qed.

(** A success: the policy holds of what is reported, and every message that
    expects one has its response. *)
Definition succeeded (context : TlsContext) (ms : list Message) (r : ClientResult) : Prop :=
  cr_ok r = true /\ m_success (cr_metrics r) = true /\ decided (ctx_profile context) (cr_metrics r) /\
  m_negotiated_profile (cr_metrics r) = id (ctx_profile context) /\
  length (cr_responses r) = length (awaiting ms).

Definition client_limits (config : ClientConfig) : Prop :=
  1 <= max_frame_size (c_common config) <= kAbsoluteMaxFrameSize.

(** The fields the handshake fills in, and no error yet. *)
Definition negotiated (context : TlsContext) (g : string) (m : ConnectionMetrics) : Prop :=
  m_negotiated_group m = g /\ flags_ok m /\ m_negotiated_profile m = id (ctx_profile context) /\
  m_error_message m = None.

Lemma throws_reset_session P session : throws P (reset_session (W := W) session).
Proof.
  unfold reset_session. apply throws_bind; [by intros [s c] x s' [=]|intros old].
  apply throws_bind; [apply throws_modify|intros _; apply throws_lift_io, throws_dispose].
Qed.

Lemma throws_cache_session P config ssl : throws P (cache_session config ssl).
Proof.
  unfold cache_session. case_match; [|apply throws_ret].
  apply throws_bind; [apply throws_lift_io, throws_call|intros]. case_match; [|apply throws_ret].
  apply throws_bind; [apply throws_lift_io, throws_adopt|intros _; apply throws_reset_session].
Qed.

Lemma over_socket_outcome config context ms m0 timer fd s c :
  client_limits config -> m_error_message m0 = None -> is_u32 (m_protocol_message_count m0) ->
  wp (over_socket config context ms m0 timer fd)
    (fun r _ => succeeded context ms r) (fun x _ => real x) (s, c).
Proof.
  intros Hmax Herr Hcnt. unfold over_socket. cbn zeta.
  apply wp_bind, throws_post; [apply throws_lift_io, throws_peer_address|intros peer s1 _].
  apply wp_bind, throws_post; [apply throws_prepare|intros ssl s2 _]. apply wp_scoped_io.
  apply wp_bind, throws_post; [apply throws_client_handshake|intros [o t] [s3 c3] _].
  set (m1 := with_negotiated_profile _ _).
  assert (H1 : negotiated context (ho_negotiated_group o) m1 /\ is_u32 (m_protocol_message_count m1)).
  { unfold m1, populate_negotiation_fields, negotiated, flags_ok. destruct m0. simpl in *. by splits. }
  clearbody m1. destruct H1 as [H1 Hcnt1].
  apply wp_bind, wp_lift_io, enforce_peer_wp; [intros s4 _ _ _ _|intros; by apply real_certificate].
  apply wp_bind, wp_lift; [intros [] Hpol|]; [|intros x Hx].
  2: { unfold enforce_group_policy in Hx. case_match; [done|]. by injection Hx as <-. }
  apply wp_bind, wp_lift_io, log_wp.
  apply wp_bind, throws_post; [|intros _ [s5 c5] _].
  { apply throws_cache_session. }
  rewrite Decoder_new_ok by done. apply wp_bind. unfold wp at 1. cbn [liftM]. apply wp_bind, wp_lift_io.
  assert (Hc0 : counters_ok (mkIoCounters 0 0)) by (split; unfold is_u64, u64_max; simpl; lia).
  pose proof (exchange_spec config ssl ms _ _ m1 [] s5 Hmax (reading_new _ Hmax) Hc0 Hcnt1) as He.
  unfold wp at 1.
  destruct (exchange config ssl ms _ _ m1 [] s5) as [[[[m2 rs] cs]|x] s6] eqn:Ee; [|apply He].
  apply (exchange_metrics (negotiated context (ho_negotiated_group o))) in Ee; [| |done].
  2: { intros [] Hm. exact Hm. }
  destruct He as (ps & texts & answers & [_ _ _ Hlen _ _] & -> & _).
  apply wp_bind, throws_post; [apply throws_lift_io, throws_shutdown|intros _ s7 _].
  apply wp_bind, throws_post; [apply throws_lift_io; unfold elapsed_ms; auto with pqtls|intros t2 s8 _].
  apply wp_bind, throws_post; [apply throws_lift_io, throws_usage|intros u s9 _].
  apply wp_ret. unfold enforce_group_policy in Hpol.
  destruct (permits_negotiated_group (ctx_profile context) (ho_negotiated_group o)) eqn:Hperm; [|done].
  destruct Ee as (Hg & Hfl & Hnp & Hem). rewrite <- Hg in Hperm. destruct m2.
  unfold succeeded, decided, flags_ok in *. simpl in *. splits; try done; apply Hfl.
Qed.

(** Neither a record nor a change of the open descriptors, taken together. *)
Definition no_record (e : Event) : Prop := match e with EvMetrics _ _ => False | _ => True end.

Definition settled (base : list Event) (s : St W) : Prop :=
  live (st_log s) = live base /\ exists new, st_log s = new ++ base /\ Forall no_record new.

Lemma settled_silent {A} base (m : io W A) s : silent m -> settled base s -> settled base (m s).2.
Proof. intros Hm Hs. specialize (Hm s). unfold settled in *. by rewrite Hm. Qed.

Lemma settled_log base (s : St W) level text w q :
  settled base s -> settled base (mkSt w q (EvLog level text :: st_log s)).
Proof.
  intros [Hl (new & L & F)]. split; [done|]. exists (EvLog level text :: new). simpl. rewrite L.
  split; [done|by constructor].
Qed.

(** A silent step of the client. *)
Lemma settled_step {A} base (m : io W A) (Q : A -> St W * Z -> Prop) s c :
  silent m -> throws real m -> settled base s -> (forall a s', settled base s' -> Q a (s', c)) ->
  wp (lift_io m) Q (fun x st => real x /\ settled base st.1) (s, c).
Proof.
  intros Hm Ht Hs HQ. pose proof (settled_silent base m s Hm Hs) as H. specialize (Ht s).
  unfold wp, lift_io. destruct (m s) as [[a|x] s']; simpl in *; [by apply HQ|split; [by eapply Ht|done]].
Qed.

Lemma tcp_connect_outcome host port timeout_ms s :
  match tcp_connect host port timeout_ms s with
  | (Ok fd, s') => 0 <= fd /\ live (st_log s') = fd :: live (st_log s)
  | (Throw x, s') => live (st_log s') = live (st_log s) /\ exn_category x = CatNetwork
  end.
Proof.
  unfold tcp_connect. refine (resolve_fds (fun c => connect_attempt c timeout_ms) _ (fun rc => _) (fun e => _) s _ _).
  - intros c. apply connect_attempt_fds.
  - intros c. apply connect_attempt_no_throw.
Qed.

Lemma throws_tcp_connect host port timeout_ms : throws real (tcp_connect (W := W) host port timeout_ms).
Proof.
  unfold tcp_connect. apply throws_bind; [apply throws_call|intros [rc results]].
  case_match; [by apply throws_throw|]. apply throws_bind; [|intros []; [apply throws_ret|by apply throws_throw]].
  eapply throws_mono, try_candidates_no_throw; [done|intros; apply connect_attempt_no_throw].
Qed.

(** The connected part: everything between the socket and its destructor. *)
Lemma over_socket_settled config context ms m0 timer fd base s c :
  0 <= fd -> live (st_log s) = fd :: live base -> (exists new, st_log s = new ++ base /\ Forall no_record new) ->
  settled base (scoped (lift_io (Socket_close fd)) (over_socket config context ms m0 timer fd) (s, c)).2.1.
Proof.
  intros Hfd Hl (n0 & L0 & F0). unfold scoped.
  destruct (emits_over_socket config context ms m0 timer fd s c) as (n1 & L1 & F1).
  destruct (over_socket _ _ _ _ _ _ (s, c)) as [r [s1 c1]]. cbn [fst snd] in L1.
  destruct (Socket_close_outcome fd s1) as (w & q & Hc). unfold lift_io. rewrite Hc.
  replace (fd >=? 0) with true by lia. unfold settled. cbn [fst snd st_log live].
  rewrite L1, (live_inner _ _ F1), Hl. simpl. rewrite Z.eqb_refl. split; [done|].
  exists (EvClose fd :: n1 ++ n0). rewrite L0. simpl. rewrite <- !app_assoc.
  split; [done|]. constructor; [done|]. apply Forall_app. split; [|done].
  eapply Forall_impl; [|exact F1]. by intros [].
Qed.

Lemma connect_outcome config context ms s c :
  client_limits config ->
  wp (connect_and_exchange config context ms)
    (fun r st => succeeded context ms r /\ settled (st_log s) st.1)
    (fun x st => real x /\ settled (st_log s) st.1) (s, c).
Proof.
  intros Hlim. unfold connect_and_exchange. cbn zeta.
  assert (H0 : settled (st_log s) s) by (split; [done|by exists []]).
  apply wp_bind, settled_step; [auto with pqtls|apply throws_uuid|done|intros cid s1 H1].
  apply wp_bind, settled_step; [auto with pqtls|apply throws_now|done|intros ts s2 H2].
  apply wp_bind, settled_step; [auto with pqtls|apply throws_call|done|intros timer s3 [Hl3 (n3 & L3 & F3)]].
  apply wp_bind, wp_lift_io.
  set (m0 := with_identity _ _ _ _ _ _).
  pose proof (tcp_connect_outcome (host config) (c_port config) (handshake_timeout_ms (c_common config)) s3) as Ht.
  pose proof (throws_tcp_connect (host config) (c_port config) (handshake_timeout_ms (c_common config)) s3) as Hx.
  destruct (emits_tcp_connect (host config) (c_port config) (handshake_timeout_ms (c_common config)) s3)
    as (n4 & L4 & F4).
  unfold wp at 1. destruct (tcp_connect _ _ _ s3) as [[fd|x] s4]; simpl in L4.
  all: assert (Hnew : exists new, st_log s4 = new ++ st_log s /\ Forall no_record new)
    by (exists (n4 ++ n3); rewrite L4, L3, app_assoc; split; [done|]; apply Forall_app; split; [|done];
        eapply Forall_impl; [|exact F4]; by intros []).
  2: { split; [by eapply Hx|]. split; [|done]. destruct Ht as [Ht _]. simpl. by rewrite Ht. }
  destruct Ht as [Hfd Hl4]. rewrite Hl3 in Hl4.
  pose proof (over_socket_settled config context ms m0 timer fd (st_log s) s4 c Hfd Hl4 Hnew) as Hs.
  pose proof (over_socket_outcome config context ms m0 timer fd s4 c Hlim eq_refl) as Ho.
  specialize (Ho ltac:(unfold is_u32, u32_max; simpl; lia)).
  unfold wp in Ho |- *. unfold scoped in *.
  by destruct (over_socket _ _ _ _ _ _ (s4, c)) as [[r|x] s5].
Qed.

(** [run_once] after the [try]: the identity is completed and the record
    written. *)
Definition client_identity (config : ClientConfig) (m : ConnectionMetrics) : Prop :=
  m_role m = RoleClient /\ m_requested_profile m = profile_id (c_common config) /\
  m_experiment_id m = experiment_id (c_common config).

(** A failure: nothing of the handshake survives in the record. *)
Definition gave_up (r : ClientResult) : Prop :=
  cr_ok r = false /\ cr_responses r = [] /\ m_success (cr_metrics r) = false /\
  (exists x, real x /\ m_error_category (cr_metrics r) = exn_category x /\
     m_error_message (cr_metrics r) = Some (exn_message x)) /\
  m_negotiated_group (cr_metrics r) = "" /\ m_negotiated_profile (cr_metrics r) = "" /\
  m_peer_address (cr_metrics r) = "" /\ m_protocol_message_count (cr_metrics r) = 0.

Definition concluded (context : TlsContext) (ms : list Message) (r : ClientResult) : Prop :=
  succeeded context ms r \/ gave_up r.

Lemma concluded_identity context ms r cid ts role p e :
  concluded context ms r ->
  concluded context ms (mkResult (with_identity (cr_metrics r) cid ts role p e) (cr_responses r) (cr_ok r)).
Proof.
  destruct r as [[] rs ok]. intros [H|H]; [left|right];
    unfold succeeded, gave_up, decided, flags_ok in *; simpl in *; exact H.
Qed.

Lemma try_connect_outcome config context ms s c :
  client_limits config ->
  wp (try_catch (connect_and_exchange config context ms) is_exception
        (fun x => lift_io (log_failure x) ;; mret (failed_result x)))
    (fun r st => concluded context ms r /\ settled (st_log s) st.1) (fun _ _ => False) (s, c).
Proof.
  intros Hlim. apply wp_catch. eapply wp_mono; [| |by apply connect_outcome].
  - intros r st [H1 H2]. split; [by left|done].
  - intros x [s1 c1] [Hx Hs]. cbn beta. rewrite (proj1 Hx). apply wp_bind, wp_lift_io. unfold wp at 1.
    destruct (log_failure_eq x s1) as (level & text & ->). apply wp_ret. split; [right|by apply settled_log].
    unfold gave_up. simpl. splits; try done. by exists x.
Qed.

Lemma complete_metrics_outcome config m base s c :
  settled base s ->
  wp (lift_io (L := Z) (complete_metrics config m))
    (fun m' st => settled base st.1 /\
       exists cid ts, m' = with_identity m cid ts RoleClient (profile_id (c_common config))
                             (experiment_id (c_common config)))
    (fun x st => (real x /\ ~ generator_works W) /\ settled base st.1) (s, c).
Proof.
  intros Hs. apply wp_lift_io. unfold complete_metrics.
  assert (Hstep : forall A (k : io W A) (Q : A -> St W -> Prop) s, silent k ->
    throws (fun x => real x /\ ~ generator_works W) k -> settled base s -> (forall a s', settled base s' -> Q a s') ->
    wp k Q (fun x s' => (real x /\ ~ generator_works W) /\ settled base s') s).
  { intros A k Q s0 Hk Ht H0 HQ. pose proof (settled_silent base k s0 Hk H0) as H. specialize (Ht s0).
    unfold wp. destruct (k s0) as [[a|x] s']; simpl in *; [by apply HQ|split; [by eapply Ht|done]]. }
  apply wp_bind, Hstep; [case_match; auto with pqtls|case_match; [apply throws_uuid_works|apply throws_ret]|done|].
  intros cid s1 H1.
  apply wp_bind, Hstep; [case_match; auto with pqtls|case_match; [apply throws_now|apply throws_ret]|done|].
  intros ts s2 H2. apply wp_ret. split; [done|]. eauto.
Qed.

End outcome.

(** ** Claims *)

Section claims.
Context {W : Type} {RA : RuntimeApi W} {J : JsonLib} {EA : EnvApi W} {SA : SocketApi W}
  {LA : SslApi W} {LL : SslLaws W} {CA : CtxApi W} {MA : MetricsApi W} {KA : ClientApi W}.

Lemma emits_conclude config (writer : option MetricsWriter) r :
  local_emits (W := W) (L := Z) no_data (conclude config writer r).
Proof.
  apply local_emits_bind; [apply local_emits_lift, emits_silent|intros m].
  - unfold complete_metrics. apply silent_bind; [case_match; auto with pqtls|intros].
    apply silent_bind; [case_match; auto with pqtls|auto with pqtls].
  - apply local_emits_bind; [|intros; by apply local_emits_pure].
    destruct writer as [[]|]; cbn [enabled]; [|by apply local_emits_pure|by apply local_emits_pure].
    by apply local_emits_lift, emits_metrics.
Qed.

Lemma keeps_conclude P config (writer : option MetricsWriter) r :
  keeps (W := W) P (conclude config writer r).
Proof.
  apply keeps_bind; [apply keeps_lift|intros m]. apply keeps_bind; [|intros; apply keeps_ret].
  destruct writer as [w|]; [destruct (enabled w)|]; auto with pqtls.
Qed.

Lemma conclude_gated config context writer r base c st :
  client_gated config context base c st ->
  client_gated (W := W) config context base c (conclude config writer r st).2.
Proof.
  destruct st as [s1 c1]. intros Hg. destruct (emits_conclude config writer r s1 c1) as (new & L & F).
  pose proof (keeps_conclude (fun x => x = c1) config writer r s1 c1 eq_refl) as Hk. cbn beta in Hk.
  destruct (conclude config writer r (s1, c1)) as [res [s2 c2]]. simpl in *. subst c2.
  by eapply client_gated_step.
Qed.

(** The record of a run can be serialised. *)
Definition client_serialisable (config : ClientConfig) (context : TlsContext) (ms : list Message) : Prop :=
  forall r, concluded context ms r -> client_identity config (cr_metrics r) ->
  exists line, to_jsonl_line (cr_metrics r) = Ok line.

(** An exception that leaves [run_once]. *)
Definition client_escaped (config : ClientConfig) (context : TlsContext) (ms : list Message) (x : exn) : Prop :=
  real x /\ (generator_works W -> ~ client_serialisable config context ms).

(** The record [run_once] writes. *)
Lemma conclude_outcome config context ms writer r base s c :
  settled base s -> concluded context ms r ->
  wp (conclude config writer r)
    (fun r' st => concluded context ms r' /\ client_identity config (cr_metrics r') /\
       live (st_log st.1) = live base /\ exists new, Forall no_record new /\
       if recording writer
       then exists line good, to_jsonl_line (cr_metrics r') = Ok line /\
              st_log st.1 = EvMetrics line good :: new ++ base
       else st_log st.1 = new ++ base)
    (fun x st => client_escaped config context ms x /\ settled base st.1) (s, c).
Proof.
  intros Hs Hr. unfold conclude. apply wp_bind.
  eapply wp_mono; [| |by apply (complete_metrics_outcome _ _ base)].
  2: { intros x st [[Hx Hg] H]. split; [split; [done|intros ?; by destruct Hg]|done]. }
  intros m' [s1 c1] [[Hl (new & L & F)] (cid & ts & ->)]. simpl in Hl, L.
  set (r' := mkResult _ (cr_responses r) (cr_ok r)).
  assert (Hr' : concluded context ms r' /\ client_identity config (cr_metrics r')).
  { split; [by apply concluded_identity|]. unfold r'. simpl. destruct (cr_metrics r). done. }
  apply wp_bind. unfold recording. destruct writer as [[]|]; cbn [enabled].
  2, 3: apply wp_ret, wp_ret; splits; try apply Hr'; [exact Hl|by exists new].
  apply wp_lift_io. unfold wp. pose proof (MetricsWriter_write_outcome (cr_metrics r') s1) as Hw.
  change (with_identity (cr_metrics r) cid ts RoleClient (profile_id (c_common config))
    (experiment_id (c_common config))) with (cr_metrics r').
  destruct (to_jsonl_line (cr_metrics r')) as [line|x] eqn:Ed.
  - destruct Hw as (good & s2 & -> & Lw). cbn. splits; try apply Hr'; [by rewrite Lw|].
    exists new. split; [done|]. exists line, good. by rewrite Lw, L.
  - rewrite Hw. split; [|split; [done|by exists new]]. split.
    + unfold to_jsonl_line, json_dump in Ed. case_match; [by injection Ed as <-|done].
    + intros _ Hser. destruct (Hser r') as [line Hl']; [apply Hr'..|]. congruence.
Qed.

Lemma run_once_gated config context writer ms s c :
  client_gated config context (st_log s) c (run_once config context writer ms (s, c)).2.
Proof.
  pose proof (connect_gated config context ms s c) as H. unfold run_once, try_catch, mbind, M_bind, wp in *.
  destruct (connect_and_exchange config context ms (s, c)) as [[r|x] [s1 c1]]; [by apply conclude_gated|].
  destruct (is_exception x); [|done]. unfold lift_io. destruct (log_failure_eq x s1) as (level & text & ->).
  apply conclude_gated. eapply (client_gated_step _ _ _ _ _ _ _ [_]); [exact H|done|by apply Forall_singleton].
Qed.

(** C2: The client's side of the gate.  Whatever the server, the network and
    OpenSSL do, the client sends or reads application data only after it has
    announced the server name, has (unless verification is disabled) enabled
    the check of that name and obtained a positive chain verification and the
    peer's certificate, and after a successful handshake in a group the
    profile permits.  Nor does it replace its cached session before that. *)
Theorem client_data_gated config context writer ms s c :
  exists new, st_log (run_once config context writer ms (s, c)).2.1 = new ++ st_log s /\
    gated (client_authorised config context) new /\
    ((run_once config context writer ms (s, c)).2.2 = c \/ client_authorised config context new).
Proof. exact (run_once_gated config context writer ms s c). Qed.

(** C7: The exchange terminates and pairs requests with responses.  Over any
    transport that obeys OpenSSL's contract: when the loop over the messages
    returns, exactly the messages up to the first [close] were sent, each as
    one frame and in order; there is one response for each of them but the
    [close], parsed from the received frames in order; and the message and
    byte counts agree.  Otherwise it ended with an exception of the program
    (never for lack of fuel), having sent whole frames of a prefix of the
    messages and at most a part of one more. *)
Theorem client_exchange_correct config ssl ms m s :
  1 <= max_frame_size (c_common config) <= kAbsoluteMaxFrameSize -> is_u32 (m_protocol_message_count m) ->
  let max := max_frame_size (c_common config) in
  match exchange config ssl ms (mkDecoder max [] 0) (mkIoCounters 0 0) m [] s with
  | (Ok (m', responses, counters), s') => exists ps texts got rest,
      Forall2 serialises (conversation ms) ps /\ sent (st_log s') = sent (st_log s) ++ frames ps /\
      received (st_log s') = received (st_log s) ++ got /\ got = frames texts ++ rest /\
      Forall2 (parses (W := W)) texts responses /\ length responses = length (awaiting ms) /\
      bytes_sent counters = to_u64 (Z.of_nat (length (frames ps))) /\
      m_protocol_message_count m' =
        to_u32 (m_protocol_message_count m + Z.of_nat (length ps + length responses))
  | (Throw x, s') => real x /\ exists k ps pre,
      Forall2 serialises (take k ms) ps /\ truncated max pre /\
      sent (st_log s') = sent (st_log s) ++ frames ps ++ pre
  end.
Proof.
  intros Hmax Hm max.
  assert (Hc0 : counters_ok (mkIoCounters 0 0)) by (split; unfold is_u64, u64_max; simpl; lia).
  pose proof (exchange_spec config ssl ms _ _ m [] s Hmax (reading_new _ Hmax) Hc0 Hm) as H.
  unfold exchange_post in H. fold max in H.
  destruct (exchange _ _ _ _ _ _ _ _) as [[[[m' rs] c']|x] s']; [|exact H].
  destruct H as (ps & texts & answers & [C1 C2 C3 C4 C5 (got & rest & C6 & C7)] & -> & Hb & Hn).
  exists ps, texts, got, rest. by splits.
Qed.

Lemma run_once_outcome config context writer ms s c :
  client_limits config ->
  wp (run_once config context writer ms) (fun r st =>
      concluded context ms r /\ client_identity config (cr_metrics r) /\
      live (st_log st.1) = live (st_log s) /\ exists new, Forall no_record new /\
      if recording writer
      then exists line good, to_jsonl_line (cr_metrics r) = Ok line /\
             st_log st.1 = EvMetrics line good :: new ++ st_log s
      else st_log st.1 = new ++ st_log s)
    (fun x st => client_escaped config context ms x /\ settled (st_log s) st.1) (s, c).
Proof.
  intros Hlim. unfold run_once. apply wp_bind.
  eapply wp_mono; [| |by apply try_connect_outcome]; [|done].
  intros r [s1 c1] [Hr Hs]. by apply conclude_outcome.
Qed.


End claims.

(** ** An instance: a server that answers one request *)

Definition toy_client {W : Type} : ClientApi W := {|
  SSL_set_tlsext_host_name := fun _ _ w q => (1, (w, q));
  SSL_set_hostflags := fun _ _ w q => (tt, (w, q));
  SSL_set1_host := fun _ _ w q => (1, (w, q));
  SSL_set_session := fun _ _ w q => (1, (w, q));
  SSL_get1_session := fun _ w q => (11, (w, q));
  SSL_connect := fun _ w q => (1, (w, q))
|}.

Definition small_client : ClientConfig :=
  mkClientConfig (s_common small_server) "localhost" 8443 "" "" "" 1 1 0 true 1 "".

Definition one_request : list Message :=
  [mkMessage 1 "id-1" Telemetry "t" None (JObject []); mkMessage 1 "id-2" Close "t" None (JObject [])].

Local Abbreviation toy_exchange :=
  (exchange (RA := toy_clock) (J := toy_protocol) (SA := toy_sockets) (LA := toy_ssl)
    small_client 9 one_request (mkDecoder (max_frame_size (c_common small_client)) [] 0)
    (mkIoCounters 0 0) ConnectionMetrics_default []
    (mkSt (frame_of "ping") [] [])).

Lemma client_exchange_correct_witness :
  exists ps, sent (st_log toy_exchange.2) = frames ps /\ length ps = 2%nat.
Proof.
  assert (Hr : match toy_exchange.1 with Ok (_, rs, _) => length rs = 1%nat | Throw _ => False end)
    by (vm_compute; reflexivity).
  pose proof (client_exchange_correct (RA := toy_clock) (J := toy_protocol) (SA := toy_sockets) (LA := toy_ssl)
    small_client 9 one_request ConnectionMetrics_default (mkSt (frame_of "ping") [] [])) as H.
  assert (H1 : 1 <= max_frame_size (c_common small_client) <= kAbsoluteMaxFrameSize)
    by (unfold kAbsoluteMaxFrameSize; simpl; lia).
  assert (H2 : is_u32 (m_protocol_message_count ConnectionMetrics_default))
    by (unfold is_u32, u32_max; simpl; lia).
  specialize (H H1 H2). cbv zeta in H.
  match type of H with match ?e with _ => _ end => destruct e as [[[[m' rs] c']|x] s'] end; [|destruct Hr].
  destruct H as (ps & texts & got & rest & Hps & Hs & _). exists ps. split; [exact Hs|].
  pose proof (Forall2_length Hps) as E. simpl in E. by rewrite <- E.
Defined.

Local Abbreviation toy_run_once :=
  (run_once (RA := toy_clock) (J := toy_protocol) (SA := toy_sockets) (LA := toy_ssl)
    (CA := toy_ctx "X25519MLKEM768") (MA := toy_metrics) (KA := toy_client)
    small_client (mkTlsContext 7 lab_profile) (Some true) one_request (mkSt (frame_of "ping") [] [], 0)).

