(* ===== verification/Session.v ===== *)
(** A client and a server together.

    [ClientSpec] and [ServerLoop] describe the two ends of a connection each
    against any behaviour of the other.  Here they are put together over the
    one thing TLS promises: the bytes one end reads are a prefix of the bytes
    the other wrote.  Client and server are processes of their own, with
    their own world and libraries; they share the JSON library. *)

From S2P Require Import Prelude Errors Runtime Json Framing Identifiers Message Profile ProfileYaml.
From S2P Require Import Config Transport Metrics TlsContext JsonLaws Gate Server ServerLoop.
From S2P Require Import ServerSpec Client ClientSpec.

(** ** Messages across the wire *)

(** How a message reads on the other side: integers in the payload in the
    representation the parser chooses. *)
Definition read_back (m : Message) : Message :=
  mkMessage (protocol_version m) (message_id m) (type m) (timestamp m) (status m) (json_normalize (payload m)).

Section messages.
Context {W : Type} {RA : RuntimeApi W} {J : JsonLib} {JL : JsonLaws J}.

Lemma Message_to_json_wf m :
  message_ok m -> json_wf (payload m) = true -> json_wf (Message_to_json m) = true.
Proof.
  intros Hok Hp. unfold Message_to_json. cbv zeta. rewrite (ok_version m Hok).
  case_match; (case_match; repeat apply json_set_wf; done).
Qed.

Lemma serialised_parse m text (s : St W) :
  message_ok m -> json_wf (payload m) = true -> Message_serialize m = Ok text ->
  Message_parse text s = (Ok (read_back m), s).
Proof.
  intros Hok Hp Hs. pose proof Hs as Hs'. unfold Message_serialize, json_dump in Hs'.
  destruct (json_text (Message_to_json m)) as [what|t] eqn:Et; [done|]. injection Hs' as ->.
  apply dump_utf8 in Et as Hu. destruct Hu as [Hu Hne].
  apply parse_serialised; [done|done| |done|done].
  by apply dump_parse; [apply Message_to_json_wf|].
Qed.

(** C19: Round trip.  A message within the protocol's limits that is serialised
    and parsed again comes back field for field (integers in the payload in
    the parser's canonical form), using neither clock nor random bytes, for a
    JSON library that reads back the well-formed documents it wrote. *)
Theorem message_roundtrip m text (s : St W) :
  message_ok m -> json_wf (payload m) = true -> Message_serialize m = Ok text ->
  Message_parse text s =
  (Ok (mkMessage (protocol_version m) (message_id m) (type m) (timestamp m) (status m)
         (json_normalize (payload m))), s).
Proof. apply serialised_parse. Qed.

End messages.

(** ** Frames on the wire *)

Lemma legal_absolute max p :
  1 <= max <= kAbsoluteMaxFrameSize -> legal max p -> legal kAbsoluteMaxFrameSize p.
Proof. unfold legal. lia. Qed.

Lemma legal_all max l :
  1 <= max <= kAbsoluteMaxFrameSize -> Forall (legal max) l -> Forall (legal kAbsoluteMaxFrameSize) l.
Proof. intros Hm. apply Forall_impl. intros p. by apply legal_absolute. Qed.

Lemma truncated_absolute max cut :
  1 <= max <= kAbsoluteMaxFrameSize -> truncated max cut -> truncated kAbsoluteMaxFrameSize cut.
Proof.
  intros Hm [->|(p & post & Hp & Hrest)]; [by left|right]. exists p, post.
  split; [by eapply legal_absolute, Hp|done].
Qed.

(** Frames can be told apart. *)
Lemma frame_of_inj p q a b :
  legal kAbsoluteMaxFrameSize p -> legal kAbsoluteMaxFrameSize q ->
  frame_of p ++ a = frame_of q ++ b -> p = q /\ a = b.
Proof.
  intros Hp Hq E. pose proof (next_complete _ p a Hp ltac:(done)) as Np.
  rewrite E, (next_complete _ q b Hq ltac:(done)) in Np. by injection Np as -> ->.
Qed.

Lemma frame_of_nonempty p : frame_of p <> [].
Proof. done. Qed.

(** Complete frames read from the front of frames that were sent, the last of
    which may have been cut short. *)
Lemma frames_prefix ps qs rest more cut :
  Forall (legal kAbsoluteMaxFrameSize) ps -> Forall (legal kAbsoluteMaxFrameSize) qs ->
  truncated kAbsoluteMaxFrameSize cut ->
  (frames ps ++ rest) ++ more = frames qs ++ cut -> exists qs', qs = ps ++ qs'.
Proof.
  intros Hps. revert qs. induction Hps as [|p ps Hp _ IH]; intros qs Hqs Hcut E; [by exists qs|].
  rewrite frames_cons, <- !app_assoc in E. destruct Hqs as [|q qs Hq Hqs].
  - exfalso. change (frames [] ++ cut) with cut in E. destruct Hcut as [->|(q & post & Hq & Hne & Hf)]; [by apply app_eq_nil in E as [E%frame_of_nonempty _]|].
    rewrite <- E, <- app_assoc in Hf. rewrite <- (app_nil_r (frame_of q)) in Hf.
    apply frame_of_inj in Hf as [_ Hf]; [|done..].
    by apply app_eq_nil in Hf as [_ Hf].
  - rewrite frames_cons, <- app_assoc in E. apply frame_of_inj in E as [-> E]; [|done..].
    rewrite app_assoc in E. destruct (IH qs Hqs Hcut) as [qs' ->]; [by rewrite <- app_assoc in E |- *|].
    by exists qs'.
Qed.

(** ** The two ends *)

(** What [to] has read since [t] is a prefix of what [from] has written since
    [s]. *)
Definition delivered {Wa Wb : Type} (s s' : St Wa) (t t' : St Wb) : Prop :=
  exists data more, received (st_log t') = received (st_log t) ++ data /\
    sent (st_log s') = sent (st_log s) ++ data ++ more.

(** The response to a request as the client sees it: the reply the protocol
    prescribes for the request as the server saw it, across the wire. *)
Definition response_ok (profile : SecurityProfile) (outcome : HandshakeOutcome) (request response : Message)
    : Prop :=
  exists reply, reply_ok profile outcome (read_back request) reply /\ response = read_back reply.

Section session.
Context {J : JsonLib} {JL : JsonLaws J}
  {Wc : Type} {RAc : RuntimeApi Wc} {EAc : EnvApi Wc} {SAc : SocketApi Wc} {LAc : SslApi Wc}
  {LLc : SslLaws Wc} {CAc : CtxApi Wc} {MAc : MetricsApi Wc} {KAc : ClientApi Wc}
  {Ws : Type} {RAs : RuntimeApi Ws} {EAs : EnvApi Ws} {SAs : SocketApi Ws} {LAs : SslApi Ws}
  {LLs : SslLaws Ws} {CAs : CtxApi Ws} {MAs : MetricsApi Ws} {VAs : ServerApi Ws}.

Lemma capabilities_payload_ok profile outcome :
  let p := build_capabilities_payload profile outcome in
  is_object p = true /\ depth p = 1 /\ json_wf p = true.
Proof. cbv zeta. splits; [reflexivity|reflexivity|]. by apply set_all_wf. Qed.

(** A reply to a valid request is itself valid. *)
Lemma reply_sendable profile outcome request reply :
  message_ok request -> json_wf (payload request) = true -> type request <> Close ->
  reply_ok profile outcome request reply -> message_ok reply /\ json_wf (payload reply) = true.
Proof.
  intros [Hv Hi Ho Ht Hd] Hw Hc (Hid & Hver & Hty).
  destruct (capabilities_payload_ok profile outcome) as (C1 & C2 & C3).
  unfold kMaxJsonDepth in *. split; [constructor|]; rewrite ?Hid; try done.
  all: destruct (type request); try done; destruct Hty as (Hty & _ & Hp); rewrite ?Hp, ?Hty; simpl; try done.
  all: by rewrite ?C1, ?C2.
Qed.

Lemma read_back_ok m : message_ok m -> message_ok (read_back m).
Proof.
  intros [Hv Hi Ho Ht Hd]. constructor; simpl; try done.
  - by destruct (payload m).
  - intros Hty. rewrite telemetry_ok_normalize. auto.
  - by rewrite depth_normalize.
Qed.

(** The server's answer to a frame that carries the message [m]. *)
Lemma answered_request profile outcome m p r :
  message_ok m -> json_wf (payload m) = true -> type m <> Close -> serialises m p ->
  answered (W := Ws) profile outcome (p, r) ->
  exists reply q, r = Some q /\ serialises reply q /\ reply_ok profile outcome (read_back m) reply.
Proof.
  intros Hok Hw Hc Hs (closing & peer & s & reply & s' & Hr & Hq). cbn [fst snd] in *.
  unfold respond, try_catch in Hr. unfold mbind at 1, M_bind at 1 in Hr.
  rewrite (serialised_parse m p s Hok Hw Hs) in Hr.
  destruct (handle_message_outcome (read_back m) profile outcome s) as (reply' & s1 & Hh & Hre).
  rewrite (bind_eq _ _ _ _ _ Hh) in Hr. injection Hr as <- _ _.
  destruct reply' as [reply|]; [|done]. destruct Hq as (q & -> & Hq). by exists reply, q.
Qed.

(** Requests in order, each answered by the server, and the texts the client
    read from the answers. *)
Lemma responses_paired profile outcome ms ps es texts responses :
  Forall (fun m => message_ok m /\ json_wf (payload m) = true) ms ->
  Forall2 serialises (conversation ms) ps -> Forall (answered (W := Ws) profile outcome) es ->
  (exists more, ps = requests es ++ more) -> (exists more, replies es = texts ++ more) ->
  Forall2 (parses (W := Wc)) texts responses -> length responses = length (awaiting ms) ->
  Forall2 (response_ok profile outcome) (awaiting ms) responses.
Proof.
  intros Hms. revert ps es texts responses.
  induction Hms as [|m ms [Hok Hw] _ IH]; intros ps es texts responses Hps Hes Hreq Hrep Htx Hlen.
  { destruct responses; [constructor|done]. }
  unfold awaiting in *. cbn [conversation] in *. destruct (bool_decide (type m = Close)) eqn:Ec.
  { cbn [List.filter] in *. rewrite Ec in *. by destruct responses; [constructor|]. }
  cbn [List.filter] in *. rewrite Ec in *. cbn [negb] in *. apply bool_decide_eq_false in Ec.
  destruct responses as [|r responses]; [done|]. inversion Htx as [|t r' texts' rs' Ht Htx']; subst.
  inversion Hps as [|m' p ms' ps' Hp Hps']; subst. destruct Hrep as [mrep Hrep].
  destruct es as [|[f o] es]; [done|]. destruct Hreq as [mreq Hreq].
  change (requests ((f, o) :: es)) with (f :: requests es) in Hreq. injection Hreq as <- Hreq.
  inversion Hes as [|e es' He Hes']; subst.
  destruct (answered_request profile outcome m p o Hok Hw Ec Hp He) as (reply & q & -> & Hq & Hre).
  change (replies ((p, Some q) :: es)) with (q :: replies es) in Hrep. injection Hrep as <- Hrep.
  constructor; [|by apply (IH (requests es ++ mreq) es texts'); eauto].
  exists reply. split; [done|]. destruct Ht as (s & s' & Ht).
  destruct (reply_sendable profile outcome (read_back m) reply) as [Hrok Hrw];
    [by apply read_back_ok|by apply normalize_wf|done|done|].
  rewrite (serialised_parse reply q s Hrok Hrw Hq) in Ht. by injection Ht as <- _.
Qed.

End session.

(** ** Whole connections *)

Section data.
Context {W : Type}.

(** Application data moved so far. *)
Definition moved (s : St W) : list byte * list byte := (sent (st_log s), received (st_log s)).

Lemma moved_log s s' new : st_log s' = new ++ st_log s -> Forall no_data new -> moved s' = moved s.
Proof.
  intros L F. unfold moved. rewrite L. clear L.
  induction F as [|e new He _ IH]; [done|]. by destruct e.
Qed.

Lemma moved_step {A L} base (m : local W L A) (Q : A -> St W * L -> Prop) (E : exn -> St W * L -> Prop) s c :
  local_emits no_data m -> moved s = base ->
  (forall a s' c', moved s' = base -> Q a (s', c')) -> (forall x s' c', moved s' = base -> E x (s', c')) ->
  wp m Q E (s, c).
Proof. intros Hm Hs HQ HE. apply (local_emits_wp no_data); [done|..]; eauto using moved_log, eq_trans. Qed.

Lemma moved_dispose o h s : moved (dispose o h s).2 = moved s.
Proof. eapply moved_log; [apply dispose_log|]. case_match; by repeat constructor. Qed.

Lemma moved_io {A L} base (m : io W A) (Q : A -> St W * L -> Prop) (E : exn -> St W * L -> Prop) s c :
  emits no_data m -> moved s = base ->
  (forall a s', moved s' = base -> Q a (s', c)) -> (forall x s', moved s' = base -> E x (s', c)) ->
  wp (lift_io m) Q E (s, c).
Proof. intros Hm Hs HQ HE. apply wp_lift_io, (emits_wp no_data); [done|..]; eauto using moved_log, eq_trans. Qed.

End data.

Section client_side.
Context {W : Type} {RA : RuntimeApi W} {J : JsonLib} {EA : EnvApi W} {SA : SocketApi W}
  {LA : SslApi W} {LL : SslLaws W} {CA : CtxApi W} {MA : MetricsApi W} {KA : ClientApi W}.

(** The conversation depends on the data alone. *)
Lemma conversed_moved config ms d s s1 s' s1' ps texts answers :
  moved s = moved s1 -> moved s' = moved s1' ->
  conversed config ms d s1 s1' ps texts answers -> conversed config ms d s s' ps texts answers.
Proof.
  intros [= Hs Hr] [= Hs' Hr'] [C1 C2 C3 C4 C5 C6]. by constructor; rewrite ?Hs, ?Hr, ?Hs', ?Hr'.
Qed.

(** What a successful result says of the data moved since [s]. *)
Definition spoken (config : ClientConfig) (ms : list Message) (s s' : St W) (r : ClientResult) : Prop :=
  exists ps texts, conversed config ms (mkDecoder (max_frame_size (c_common config)) [] 0) s s' ps texts (cr_responses r).

Lemma quiet_data {A} (m : io W A) : emits quiet m -> emits no_data m.
Proof. apply emits_mono. apply quiet_no_data. Qed.

Lemma emits_prepare config context fd : local_emits (L := Z) no_data (prepare_ssl config context fd).
Proof.
  unfold prepare_ssl. cbn zeta.
  repeat first [ apply local_emits_bind; [|intros ?] | apply local_emits_guarded
    | apply local_emits_lift, quiet_data; first [apply emits_set_timeouts|by apply emits_call_ev|by auto with pqtls]
    | by apply local_emits_pure | case_match ].
Qed.

Lemma emits_client_handshake config ssl : local_emits (L := Z) no_data (client_handshake config ssl).
Proof.
  unfold client_handshake.
  repeat first [ apply local_emits_bind; [|intros ?]
    | apply local_emits_lift, quiet_data; first [apply emits_inspect|by apply emits_call_ev|by auto with pqtls]
    | by apply local_emits_pure | case_match ].
Qed.

Lemma emits_cache_session config ssl : local_emits (L := Z) no_data (cache_session config ssl).
Proof.
  unfold cache_session, reset_session.
  repeat first [ apply local_emits_bind; [|intros ?]
    | apply local_emits_lift, quiet_data; first [by apply emits_adopt|by auto with pqtls]
    | by apply local_emits_pure | case_match ].
Qed.

Lemma over_socket_spoken config context ms m timer fd s c :
  client_limits config -> is_u32 (m_protocol_message_count m) ->
  wp (over_socket config context ms m timer fd) (fun r st => spoken config ms s st.1 r) (fun _ _ => True) (s, c).
Proof.
  intros Hmax Hm. unfold over_socket. cbn zeta.
  apply wp_bind, (moved_io (moved s)); [auto with pqtls|done|intros peer s1 H1|done].
  apply wp_bind, (moved_step (moved s)); [apply emits_prepare|done|intros ssl s2 c2 H2|done].
  apply wp_scoped_io. cbn [fst snd].
  apply wp_bind, (moved_step (moved s)); [apply emits_client_handshake|done|intros [o t] s3 c3 H3|done].
  set (m1 := with_negotiated_profile _ _).
  assert (Hm1 : is_u32 (m_protocol_message_count m1)) by (by destruct m). clearbody m1.
  apply wp_bind, (moved_io (moved s)); [apply quiet_data, emits_enforce_peer|done|intros _ s4 H4|done].
  apply wp_bind, wp_lift; [intros _ _|done].
  apply wp_bind, (moved_io (moved s)); [auto with pqtls|done|intros _ s4' H4'|done].
  apply wp_bind, (moved_step (moved s)); [apply emits_cache_session|done|intros _ s5 c5 H5|done].
  rewrite Decoder_new_ok by done. apply wp_bind. unfold wp at 1. cbn [liftM]. apply wp_bind, wp_lift_io.
  assert (Hc0 : counters_ok (mkIoCounters 0 0)) by (split; unfold is_u64, u64_max; simpl; lia).
  pose proof (exchange_spec config ssl ms _ _ m1 [] s5 Hmax (reading_new _ Hmax) Hc0 Hm1) as He.
  unfold wp at 1. destruct (exchange config ssl ms _ _ m1 [] s5) as [[[[m2 rs] cs]|x] s6]; [|done].
  destruct He as (ps & texts & answers & Hcv & -> & _).
  apply wp_bind, (moved_io (moved s6)); [apply quiet_data, emits_shutdown|done|intros _ s7 H7|done].
  apply wp_bind, (moved_io (moved s6)); [auto with pqtls|done|intros t2 s8 H8|done].
  apply wp_bind, (moved_io (moved s6)); [auto with pqtls|done|intros u s9 H9|done].
  apply wp_ret. exists ps, texts. eapply conversed_moved, Hcv; [done|]. by rewrite moved_dispose.
Qed.

Lemma spoken_moved config ms s s1 s' s1' r :
  moved s = moved s1 -> moved s' = moved s1' -> spoken config ms s1 s1' r -> spoken config ms s s' r.
Proof. intros H H' (ps & texts & Hc). exists ps, texts. by eapply conversed_moved. Qed.

Lemma connect_spoken config context ms s c :
  client_limits config ->
  wp (connect_and_exchange config context ms) (fun r st => spoken config ms s st.1 r) (fun _ _ => True) (s, c).
Proof.
  intros Hmax. unfold connect_and_exchange. cbn zeta.
  apply wp_bind, (moved_io (moved s)); [auto with pqtls|done|intros cid s1 H1|done].
  apply wp_bind, (moved_io (moved s)); [auto with pqtls|done|intros ts s2 H2|done].
  apply wp_bind, (moved_io (moved s)); [auto with pqtls|done|intros timer s3 H3|done].
  apply wp_bind, (moved_io (moved s)); [|done|intros fd s4 H4|done].
  { eapply emits_mono; [|apply emits_tcp_connect]. by intros []. }
  apply wp_scoped. eapply wp_mono; [| |apply over_socket_spoken]; [|done|done|].
  - intros r [s5 c5] Hr. cbn [fst snd] in *. unfold lift_io.
    destruct (Socket_close_outcome fd s5) as (w & q & ->). cbn [fst snd].
    eapply (spoken_moved _ _ _ s4 _ s5), Hr; [done|].
    unfold moved. simpl. by destruct (fd >=? 0).
  - done.
Qed.

Lemma conclude_result config writer r st r' st' :
  conclude (W := W) config writer r st = (Ok r', st') -> cr_ok r' = cr_ok r /\ cr_responses r' = cr_responses r.
Proof.
  unfold conclude. intros (m & st1 & _ & H)%bind_inv. apply bind_inv in H as ([] & st2 & _ & H).
  by injection H as <- _.
Qed.

Lemma run_once_spoken config context writer ms s c :
  client_limits config ->
  wp (run_once config context writer ms) (fun r st => cr_ok r = true -> spoken config ms s st.1 r)
    (fun _ _ => True) (s, c).
Proof.
  intros Hmax. unfold run_once. apply wp_bind, wp_catch.
  assert (Hc : forall r s1 c1, (cr_ok r = true -> spoken config ms s s1 r) ->
    wp (conclude config writer r) (fun r' st => cr_ok r' = true -> spoken config ms s st.1 r') (fun _ _ => True) (s1, c1)).
  { intros r s1 c1 Hr. destruct (emits_conclude config writer r s1 c1) as (new & L & F).
    apply moved_log in L; [|done]. unfold wp.
    destruct (conclude config writer r (s1, c1)) as [[r'|x] [s2 c2]] eqn:E; [|done]. simpl in *.
    apply conclude_result in E as [E1 E2]. intros Hok. rewrite E1 in Hok.
    destruct (Hr Hok) as (ps & texts & Hcv). exists ps, texts. rewrite E2.
    eapply conversed_moved, Hcv; done. }
  eapply wp_mono; [| |by apply connect_spoken].
  - intros r [s1 c1] Hr. by apply Hc.
  - intros x [s1 c1] _. destruct (is_exception x); [|done]. apply wp_bind, wp_lift_io.
    unfold wp at 1. destruct (log_failure_eq x s1) as (level & text & ->). by apply wp_ret, Hc.
Qed.

End client_side.

Section server_side.
Context {W : Type} {RA : RuntimeApi W} {J : JsonLib} {EA : EnvApi W} {SA : SocketApi W}
  {LA : SslApi W} {LL : SslLaws W} {CA : CtxApi W} {MA : MetricsApi W} {VA : ServerApi W}.

Lemma exchanged_moved config profile outcome d s s1 s' s1' es cut got rest :
  moved s = moved s1 -> moved s' = moved s1' ->
  exchanged config profile outcome d s1 s1' es cut got rest ->
  exchanged config profile outcome d s s' es cut got rest.
Proof.
  intros [= Hs Hr] [= Hs' Hr'] [A L I1 I2 O]. by constructor; rewrite ?Hs, ?Hr, ?Hs', ?Hr'.
Qed.

(** What the connection has done with application data since [s]. *)
Definition served (config : ServerConfig) (profile : SecurityProfile) (s s' : St W) : Prop :=
  exists outcome es cut got rest, truncated (max_frame_size (s_common config)) cut /\
    exchanged config profile outcome (mkDecoder (max_frame_size (s_common config)) [] 0) s s' es cut got rest /\
    (es = [] \/ permits_negotiated_group profile (ho_negotiated_group outcome) = true).

Lemma served_moved config profile s s1 s' s1' :
  moved s = moved s1 -> moved s' = moved s1' -> served config profile s1 s1' -> served config profile s s'.
Proof.
  intros H H' (o & es & cut & got & rest & Hc & He & Hp). exists o, es, cut, got, rest. splits; [done|by eapply exchanged_moved|done].
Qed.

(** Nothing moved. *)
Lemma served_nothing config profile s s' : moved s' = moved s -> served config profile s s'.
Proof.
  intros [= Hs Hr]. eexists (mkOutcome "" "" "" "" "" "" false false), [], [], [], _. splits; [by left| |by left].
  by apply (exchanged_nil _ _ _ _ _ _ []); rewrite ?app_nil_r.
Qed.

Lemma serve_served config context fd peer s c :
  server_limits config -> undecided c ->
  wp (serve config context fd peer) (fun _ st => served config (ctx_profile context) s st.1)
    (fun _ st => served config (ctx_profile context) s st.1) (s, c).
Proof.
  intros [Hmax Hmaxm] Hc. unfold serve. cbn zeta. apply wp_bind.
  destruct (emits_handshake config context fd peer s c) as (new & L & F).
  assert (Hmv : moved (server_handshake config context fd peer (s, c)).2.1 = moved s).
  { eapply moved_log; [exact L|]. eapply Forall_impl; [apply quiet_no_data|exact F]. }
  pose proof (server_handshake_metrics config context fd peer s c Hc) as Hh. unfold wp in Hh |- *.
  destruct (server_handshake config context fd peer (s, c)) as [[[ssl o]|x] [s1 c1]];
    simpl in Hmv; [|by apply served_nothing]. destruct Hh as [Hc1 _]. cbn [snd] in Hc1.
  assert (Hd : forall s', served config (ctx_profile context) s s' ->
    served config (ctx_profile context) s (dispose ObjSsl ssl s').2).
  { intros s' H'. by apply (served_moved _ _ s s _ s'); [|apply moved_dispose|]. }
  apply wp_scoped_io, (wp_mono _ (fun _ st => served config (ctx_profile context) s st.1) _
    (fun _ st => served config (ctx_profile context) s st.1)); [by intros; apply Hd..|].
  apply wp_bind, wp_lift; [|intros; by apply served_nothing].
  intros [] Hpol. apply wp_bind, (moved_io (moved s)); [apply quiet_data, emits_enforce_peer|done| |].
  2: intros; by apply served_nothing.
  intros _ s1' H1'. apply wp_bind, (moved_io (moved s)); [auto with pqtls|done| |].
  2: intros; by apply served_nothing.
  intros _ s2 H2. rewrite Decoder_new_ok by done. apply wp_bind. unfold wp at 1. cbn [liftM]. apply wp_bind.
  destruct Hc1 as (_ & _ & _ & _ & Hcnt).
  pose proof (server_loop_post config (ctx_profile context) o peer ssl s2 c1 Hmax Hmaxm Hcnt) as Hloop.
  assert (Hs : forall s3, (exists es cut got rest, truncated (max_frame_size (s_common config)) cut /\
    exchanged config (ctx_profile context) o (mkDecoder (max_frame_size (s_common config)) [] 0) s2 s3 es cut got rest) ->
    served config (ctx_profile context) s s3).
  { intros s3 (es & cut & got & rest & Ht & He). exists o, es, cut, got, rest. splits; [done|by eapply exchanged_moved|right].
    unfold enforce_group_policy in Hpol. by destruct (permits_negotiated_group _ _). }
  cbv zeta in Hloop. unfold wp at 1. destruct (app_loop _ _ _ _ _ _ _ _ _ _ _) as [[[c' h]|x] [s3 c3]].
  2: { apply Hs. destruct Hloop as (_ & es & cut & got & rest & Ht & He & _). by exists es, cut, got, rest. }
  destruct Hloop as (es & closed & got & rest & He & _). assert (H3 : served config (ctx_profile context) s s3).
  { apply Hs. exists es, [], got, rest. by split; [left|]. }
  apply wp_bind, log_if_wp. intros s3' new3 L3 F3.
  assert (H3' : moved s3' = moved s3)
    by (eapply moved_log; [exact L3|]; eapply Forall_impl; [|exact F3]; by intros []).
  apply wp_bind, (moved_io (moved s3)); [apply quiet_data, emits_shutdown|done| |].
  - intros _ s4 H4. apply wp_modify. by apply (served_moved _ _ s s s4 s3).
  - intros x s4 H4. by apply (served_moved _ _ s s s4 s3).
Qed.

Lemma body_served config context writer p s :
  server_limits config ->
  wp (connection_body config context writer p) (fun _ st => served config (ctx_profile context) s st.1)
    (fun _ st => served config (ctx_profile context) s st.1) (s, ConnectionMetrics_default).
Proof.
  intros Hlim. unfold connection_body.
  apply wp_bind, (moved_io (moved s)); [auto with pqtls|done|intros cid s1 H1|intros; by apply served_nothing].
  apply wp_bind, (moved_io (moved s)); [auto with pqtls|done|intros ts s2 H2|intros; by apply served_nothing].
  apply wp_bind, wp_modify.
  apply wp_bind, (moved_io (moved s)); [auto with pqtls|done|intros timer s3 H3|intros; by apply served_nothing].
  apply wp_bind, wp_catch.
  assert (Hrest : forall s4 c4, served config (ctx_profile context) s s4 ->
    wp (t ← lift_io (elapsed_ms timer); modify (fun m => with_connection_ms m t) ;;
        usage ← lift_io ResourceUsage_sample; modify (fun m => with_usage m usage) ;; write_record writer)
      (fun _ st => served config (ctx_profile context) s st.1)
      (fun _ st => served config (ctx_profile context) s st.1) (s4, c4)).
  { intros s4 c4 H4.
    assert (Hsv : forall s', moved s' = moved s4 -> served config (ctx_profile context) s s')
      by (intros; by apply (served_moved _ _ s s _ s4)).
    apply wp_bind, (moved_io (moved s4)); [auto with pqtls|done|intros t s5 H5|auto].
    apply wp_bind, wp_modify.
    apply wp_bind, (moved_io (moved s4)); [auto with pqtls|done|intros u s6 H6|auto].
    apply wp_bind, wp_modify. apply (moved_step (moved s4)); [apply emits_write_record|done|auto..]. }
  eapply wp_mono; [| |eapply (serve_served _ _ _ _ s3)]; [..|done|apply undecided_start].
  - intros _ [s4 c4] H4. apply Hrest. by apply (served_moved _ _ s s3 s4 s4).
  - intros x [s4 c4] H4. apply (served_moved _ _ s s3 s4 s4) in H4; [|done|done].
    destruct (is_exception x); [|done]. unfold wp at 1.
    destruct (record_failure_eq (pc_peer_address p) x s4 c4) as (level & text & ->). apply Hrest.
    by apply (served_moved _ _ s s _ s4).
Qed.

Lemma connection_served config context writer p s :
  server_limits config -> served config (ctx_profile context) s (handle_connection config context writer p s).2.
Proof.
  intros Hlim. unfold handle_connection, with_socket, scoped.
  pose proof (body_served config context writer p s Hlim) as Hb. unfold wp in Hb.
  destruct (connection_body config context writer p (s, ConnectionMetrics_default)) as [[u|x] [s1 m1]];
    destruct (Socket_close_outcome (pc_fd p) s1) as (w & q & ->); simpl in *;
    (eapply served_moved, Hb; [done|]; unfold moved; simpl; by destruct (pc_fd p >=? 0)).
Qed.

End server_side.

(** ** Claims *)

Section claims.
Context {J : JsonLib} {JL : JsonLaws J}
  {Wc : Type} {RAc : RuntimeApi Wc} {EAc : EnvApi Wc} {SAc : SocketApi Wc} {LAc : SslApi Wc}
  {LLc : SslLaws Wc} {CAc : CtxApi Wc} {MAc : MetricsApi Wc} {KAc : ClientApi Wc}
  {Ws : Type} {RAs : RuntimeApi Ws} {EAs : EnvApi Ws} {SAs : SocketApi Ws} {LAs : SslApi Ws}
  {LLs : SslLaws Ws} {CAs : CtxApi Ws} {MAs : MetricsApi Ws} {VAs : ServerApi Ws}.

(** C3: End to end.  A client that sends valid messages to this server, over a
    channel that delivers each way a prefix of what was written: however the
    server's connection ends, if [run_once] reports success then its responses
    are, in order and one for each message up to the first [close], the
    replies the protocol prescribes for these messages, with their ids; and
    if there is one, the server has found the negotiated group permitted by
    its own profile. *)
Theorem session_end_to_end (cc : ClientConfig) (ctxc : TlsContext) (wc : option MetricsWriter)
    (sc : ServerConfig) (ctxs : TlsContext) (ws : option MetricsWriter) (p : PendingConnection)
    (ms : list Message) (s : St Wc) (c : Z) (t : St Ws) :
  1 <= max_frame_size (c_common cc) <= kAbsoluteMaxFrameSize ->
  1 <= max_frame_size (s_common sc) <= kAbsoluteMaxFrameSize -> is_u32 (max_messages_per_connection sc) ->
  Forall (fun m => message_ok m /\ json_wf (payload m) = true) ms ->
  let client := run_once cc ctxc wc ms (s, c) in
  let server := handle_connection sc ctxs ws p t in
  delivered s client.2.1 t server.2 -> delivered t server.2 s client.2.1 ->
  match client.1 with
  | Ok r => cr_ok r = true -> exists outcome,
      Forall2 (response_ok (ctx_profile ctxs) outcome) (awaiting ms) (cr_responses r) /\
      (awaiting ms = [] \/
       permits_negotiated_group (ctx_profile ctxs) (ho_negotiated_group outcome) = true)
  | Throw _ => True
  end.
Proof.
  intros Hcm Hsm Hmm Hms client server (up & up_more & U1 & U2) (down & down_more & D1 & D2).
  pose proof (run_once_spoken cc ctxc wc ms s c Hcm) as Hc. unfold wp in Hc. fold client in Hc.
  pose proof (connection_served sc ctxs ws p t (conj Hsm Hmm)) as Hs. fold server in Hs.
  destruct client as [[r|x] [s' c']]; [|done]. simpl in *. intros Hok.
  destruct (Hc Hok) as (ps & texts & [C1 C2 C3 C4 C5 (cgot & crest & C6 & C7)]).
  destruct Hs as (outcome & es & cut & got & rest & Hcut & [A L I1 I2 O] & Hperm).
  apply Forall_app in C5 as [C5 C5'], L as [L L'].
  rewrite C2 in U2. apply app_inv_head in U2. rewrite I1 in U1. apply app_inv_head in U1 as <-.
  rewrite O in D2. apply app_inv_head in D2. rewrite C6 in D1. apply app_inv_head in D1 as <-.
  unfold pending in I2, C7. simpl in I2, C7. subst got cgot.
  destruct (frames_prefix (requests es) ps rest up_more []) as [more Hreq];
    [by eapply legal_all, L|by eapply legal_all, C5|by left|by rewrite app_nil_r|].
  destruct (frames_prefix texts (replies es) crest down_more cut) as [more' Hrep];
    [by eapply legal_all, C5'|by eapply legal_all, L'|by eapply truncated_absolute, Hcut|done|].
  exists outcome. split; [by eapply (responses_paired (Wc := Wc) (Ws := Ws) _ _ ms ps es texts); eauto|].
  destruct Hperm as [->|Hperm]; [left|by right].
  destruct texts; [|done]. apply Forall2_nil_inv_l in C3 as E. rewrite E in C4. by destruct (awaiting ms).
Qed.

End claims.

(** ** Instances *)

Definition lab_message : Message :=
  mkMessage 1 "id-1" Telemetry "2024-07-31T23:59:59.987Z" (Some "accepted")
    (JObject [("device_id", JString "d7"); ("n", JInt 3)]).

Lemma message_roundtrip_witness :
  exists text, Message_serialize (H0 := enum_json) lab_message = Ok text /\
  Message_parse (H := toy_clock) (H0 := enum_json) text (mkSt tt [] []) =
  (Ok (mkMessage 1 "id-1" Telemetry "2024-07-31T23:59:59.987Z" (Some "accepted")
         (JObject [("device_id", JString "d7"); ("n", JUInt 3)])), mkSt tt [] []).
Proof.
  destruct (Message_serialize (H0 := enum_json) lab_message) as [text|x] eqn:E; [|discriminate E].
  exists text. split; [reflexivity|].
  apply (message_roundtrip (RA := toy_clock) (J := enum_json) lab_message text (mkSt tt [] []));
    [|reflexivity|exact E]. constructor; vm_compute; (reflexivity || discriminate).
Defined.

(** A ping and a [close] to a server with room for them. *)
Definition lab_messages : list Message :=
  [mkMessage 1 "id-1" Ping "t" None (JObject []); mkMessage 1 "id-2" Close "t" None (JObject [])].

Definition lab_common : CommonConfig :=
  mkCommonConfig "hybrid-x25519-mlkem768" "" "server.pem" "server.key" "" "" "e1" 4096 10000 30000 Human
    "info" false "".

Definition lab_client_config : ClientConfig :=
  mkClientConfig lab_common "localhost" 8443 "" "" "" 1 1 0 true 1 "".

Definition lab_server_config : ServerConfig := mkServerConfig lab_common "0.0.0.0" 8443 4 4 60000 2 false.

(** The bytes each end has to read: those the other writes. *)
Definition lab_uplink : list byte :=
  frames (map (fun m => match Message_serialize (H0 := enum_json) m with Ok t => t | Throw _ => "" end) lab_messages).

Local Abbreviation lab_server_run :=
  (handle_connection (RA := toy_clock) (J := enum_json) (SA := toy_sockets) (LA := toy_ssl)
    (CA := toy_ctx "X25519MLKEM768") (MA := toy_metrics) (VA := toy_server)
    lab_server_config (mkTlsContext 7 lab_profile) None (mkPending 5 "peer") (mkSt lab_uplink [] [])).

Definition lab_downlink : list byte := Eval vm_compute in sent (st_log lab_server_run.2).

Local Abbreviation lab_client_run :=
  (run_once (RA := toy_clock) (J := enum_json) (SA := toy_sockets) (LA := toy_ssl)
    (CA := toy_ctx "X25519MLKEM768") (MA := toy_metrics) (KA := toy_client)
    lab_client_config (mkTlsContext 7 lab_profile) None lab_messages (mkSt lab_downlink [] [], 0)).

Lemma session_end_to_end_witness :
  exists r response, lab_client_run.1 = Ok r /\ cr_responses r = [response] /\
    message_id response = "id-1" /\ type response = Pong.
Proof.
  pose proof (session_end_to_end (J := enum_json) (RAc := toy_clock) (SAc := toy_sockets) (LAc := toy_ssl)
    (CAc := toy_ctx "X25519MLKEM768") (MAc := toy_metrics) (KAc := toy_client)
    (RAs := toy_clock) (SAs := toy_sockets) (LAs := toy_ssl)
    (CAs := toy_ctx "X25519MLKEM768") (MAs := toy_metrics) (VAs := toy_server)
    lab_client_config (mkTlsContext 7 lab_profile) None lab_server_config (mkTlsContext 7 lab_profile) None
    (mkPending 5 "peer") lab_messages (mkSt lab_downlink [] []) 0 (mkSt lab_uplink [] [])) as H.
  assert (H1 : 1 <= 4096 <= kAbsoluteMaxFrameSize) by (unfold kAbsoluteMaxFrameSize; lia).
  assert (H2 : is_u32 (max_messages_per_connection lab_server_config)) by (vm_compute; split; discriminate).
  assert (H3 : Forall (fun m => message_ok m /\ json_wf (payload m) = true) lab_messages)
    by (repeat constructor; vm_compute; (reflexivity || discriminate)).
  specialize (H H1 H1 H2 H3). cbv zeta in H.
  assert (Hr : match lab_client_run.1 with Ok r => cr_ok r = true | Throw _ => False end)
    by (vm_compute; reflexivity).
  match type of H with ?a -> ?b -> _ => assert (Ha : a); [|assert (Hb : b)] end.
  - exists lab_uplink, []. split; vm_compute; reflexivity.
  - exists lab_downlink, []. split; vm_compute; reflexivity.
  - specialize (H Ha Hb). destruct lab_client_run as [[r|x] st]; [|destruct Hr].
    destruct (H Hr) as (outcome & HF & _). exists r.
    destruct (cr_responses r) as [|response [|? ?]]; try (by inversion HF as [|? ? ? ? _ HF']; inversion HF').
    exists response. inversion HF as [|? ? ? ? (reply & (Hid & _ & Hty) & Heq) _]. simpl in Hty.
    destruct Hty as [Hty _]. rewrite Heq. by repeat split.
Defined.
