(* ===== verification/Bounds.v ===== *)
(** Sizes and waits of a connection: what the two handlers ask of libssl and
    of the kernel stays within the limits of a validated configuration,
    whatever the peer does. *)

From S2P Require Import Prelude Errors Runtime Json Framing Identifiers Message Profile ProfileYaml.
From S2P Require Import Config Transport Metrics TlsContext Gate Server ServerLoop ServerSpec.
From S2P Require Import Client ClientSpec.

(** ** Events within bounds *)

(** A [timeval] the kernel takes, and not the zero that means waiting for ever. *)
Definition positive (tv : timeval) : Prop :=
  0 <= tv.1 /\ 0 <= tv.2 < 1000000 /\ 0 < tv.1 * 1000000 + tv.2.

(** It lasts exactly the milliseconds of the configuration. *)
Lemma to_timeval_exact ms :
  0 < ms -> positive (to_timeval ms) /\ (to_timeval ms).1 * 1000000 + (to_timeval ms).2 = ms * 1000.
Proof. intros Hms. unfold positive, to_timeval. simpl. dlia. Qed.

(** A write has between one byte and a whole frame, and libssl takes no more
    than that; a read brings at most a chunk; no timeout is zero. *)
Definition within (max : Z) (e : Event) : Prop :=
  match e with
  | EvSslWrite data rc => 1 <= Z.of_nat (length data) <= kHeaderSize + max /\ rc <= Z.of_nat (length data)
  | EvSslRead rc data => rc <= kReadChunk /\ Z.of_nat (length data) = Z.max 0 rc
  | EvTimeouts _ r t => positive r /\ positive t
  | _ => True
  end.

(** The timeouts in force on [fd] (newest event first): a descriptor that was
    just created has none. *)
Fixpoint timeouts_of (fd : Z) (log : list Event) : option (timeval * timeval) :=
  match log with
  | [] => None
  | EvTimeouts f r t :: earlier => if f =? fd then Some (r, t) else timeouts_of fd earlier
  | EvOpen f :: earlier => if f =? fd then None else timeouts_of fd earlier
  | _ :: earlier => timeouts_of fd earlier
  end.

(** The descriptor libssl reads and writes. *)
Fixpoint bound (log : list Event) : option Z :=
  match log with
  | [] => None
  | EvSetFd _ fd _ :: _ => Some fd
  | _ :: earlier => bound earlier
  end.

(** Calls of libssl that wait for the peer. *)
Definition blocking (e : Event) : bool :=
  match e with
  | EvHandshake _ | EvSslRead _ _ | EvSslWrite _ _ | EvSslShutdown _ => true
  | _ => false
  end.

(** A call that waits does so under the configured timeouts: [::connect] under
    those set on its descriptor, libssl under those of the descriptor it was
    given. *)
Definition timely (connect_ms io_ms : Z) (e : Event) (earlier : list Event) : Prop :=
  match e with
  | EvConnect fd _ => timeouts_of fd earlier = Some (to_timeval connect_ms, to_timeval connect_ms)
  | _ => blocking e = true -> exists fd, bound earlier = Some fd /\
           timeouts_of fd earlier = Some (to_timeval io_ms, to_timeval io_ms)
  end.

Fixpoint timed (connect_ms io_ms : Z) (log : list Event) : Prop :=
  match log with
  | [] => True
  | e :: earlier => timely connect_ms io_ms e earlier /\ timed connect_ms io_ms earlier
  end.

(** Neither waits for the peer nor concerns the timeouts of a descriptor. *)
Definition calm (e : Event) : Prop :=
  match e with
  | EvTimeouts _ _ _ | EvOpen _ | EvConnect _ _ | EvSetFd _ _ _ => False
  | _ => blocking e = false
  end.

(** What happens on a descriptor that libssl was given. *)
Definition flowing (max : Z) (e : Event) : Prop :=
  match e with
  | EvTimeouts _ _ _ | EvOpen _ | EvConnect _ _ | EvSetFd _ _ _ => False
  | _ => within max e
  end.

(** Moves no data either. *)
Definition plain (e : Event) : Prop :=
  match e with
  | EvTimeouts _ _ _ | EvOpen _ | EvConnect _ _ | EvSetFd _ _ _ | EvSslRead _ _ | EvSslWrite _ _ => False
  | _ => True
  end.

Lemma plain_flowing max e : plain e -> flowing max e.
Proof. by destruct e. Qed.

Lemma flowing_within max e : flowing max e -> within max e.
Proof. by destruct e. Qed.

Lemma calm_flowing max e : calm e -> flowing max e.
Proof. by destruct e. Qed.

Lemma timeouts_later max fd l1 l2 : Forall (flowing max) l1 -> timeouts_of fd (l1 ++ l2) = timeouts_of fd l2.
Proof. induction 1 as [|[] l1 He _ IH]; simpl in *; done. Qed.

Lemma bound_later max l1 l2 : Forall (flowing max) l1 -> bound (l1 ++ l2) = bound l2.
Proof. induction 1 as [|[] l1 He _ IH]; simpl in *; done. Qed.

Lemma timed_calm cms ims l1 l2 : Forall calm l1 -> timed cms ims l2 -> timed cms ims (l1 ++ l2).
Proof.
  intros F H2. induction F as [|e l1 He F IH]; [done|]. simpl. split; [|done].
  destruct e; try done; by intros.
Qed.

Lemma timed_flowing cms ims max fd l1 l2 :
  Forall (flowing max) l1 -> bound l2 = Some fd ->
  timeouts_of fd l2 = Some (to_timeval ims, to_timeval ims) ->
  timed cms ims l2 -> timed cms ims (l1 ++ l2).
Proof.
  intros F Hb Ht H2. induction F as [|e l1 He F IH]; [done|]. simpl. split; [|done].
  destruct e; try done; intros _; exists fd; by rewrite (bound_later max), (timeouts_later max).
Qed.

(** ** Pieces *)

Lemma emits_law {W R} (P : Event -> Prop) (f : ext W R) ev :
  (forall w q, P (ev (f w q).1)) -> emits P (call_ev f ev).
Proof.
  intros HP s. specialize (HP (st_world s) (st_errq s)).
  destruct (f (st_world s) (st_errq s)) as [r [w q]] eqn:E.
  rewrite (call_ev_eq _ _ _ _ _ _ E). exists [ev r]. split; [done|by apply Forall_singleton].
Qed.

Lemma local_emits_catch {W L A} P (m : local W L A) p h :
  local_emits P m -> (forall x, local_emits P (h x)) -> local_emits P (try_catch m p h).
Proof.
  intros Hm Hh s c. destruct (Hm s c) as (n1 & L1 & F1). unfold try_catch.
  destruct (m (s, c)) as [[a|x] [s1 c1]]; simpl in *; [eauto|]. destruct (p x); [|eauto].
  destruct (Hh x s1 c1) as (n2 & L2 & F2). exists (n2 ++ n1).
  rewrite L2, L1, app_assoc. split; [done|by apply Forall_app].
Qed.

Section pieces.
Context {W : Type} {RA : RuntimeApi W} {J : JsonLib} {EA : EnvApi W} {SA : SocketApi W}
  {LA : SslApi W} {LL : SslLaws W} {CA : CtxApi W} {MA : MetricsApi W}.
Context (max : Z).

Lemma within_write_loop fuel ssl rest c :
  Z.of_nat (length rest) <= kHeaderSize + max -> emits (flowing max) (write_loop fuel ssl rest c).
Proof.
  revert rest c. induction fuel as [|fuel IH]; intros [|b rest] c Hl; cbn [write_loop]; auto with pqtls.
  set (all := b :: rest) in *. pose proof (io_chunk_pos (Z.of_nat (length all)) ltac:(simpl; lia)) as Hp.
  apply emits_bind.
  - apply emits_law. intros w q. split; [rewrite length_take; lia|apply SSL_write_bound].
  - intros n. case_match; [auto with pqtls|]. apply IH. rewrite length_drop. lia.
Qed.

Lemma within_send ssl m c : emits (flowing max) (send_message ssl m max c).
Proof.
  unfold send_message, ssl_write_all. apply emits_bind; [auto with pqtls|intros p].
  intros s. unfold mbind, M_bind, liftM. destruct (encode p max) as [f|x] eqn:E; [|by exists []].
  apply within_write_loop. apply encode_ok in E as (_ & Hl & ->).
  unfold str_size in Hl. rewrite length_app, bytes_of_string_length. unfold kHeaderSize. simpl. lia.
Qed.

Lemma within_read_more ssl d c : emits (flowing max) (read_more ssl d c).
Proof.
  unfold read_more, ssl_read_some. apply emits_bind.
  - case_match; [auto with pqtls|]. apply emits_bind.
    + apply emits_law. intros w q. pose proof (SSL_read_bound ssl (io_chunk kReadChunk) w q) as Hb.
      destruct (SSL_read ssl (io_chunk kReadChunk) w q) as [[n data] r]. simpl in *. rewrite length_take.
      change (io_chunk kReadChunk) with kReadChunk in Hb. unfold kReadChunk in *.
      destruct (decide (0 < n)) as [Hn|Hn]; [specialize (Hb Hn)|]; lia.
    + intros [n data]. case_match; [auto with pqtls|]. apply emits_bind; [auto with pqtls|intros e].
      case_match; auto with pqtls.
  - intros [data c']. case_match; [auto with pqtls|].
    apply emits_bind; [auto with pqtls|intros []; auto with pqtls].
Qed.

Lemma plain_inspect ssl : emits plain (inspect ssl).
Proof.
  apply inspect_emits; [by intros []|done].
Qed.

Ltac emitting_plain :=
  repeat first [ by auto with pqtls | by apply emits_call_ev | apply emits_bind; [|intros ?] | case_match ].

Lemma plain_enforce_peer ssl c req : emits plain (enforce_peer_verification ssl c req).
Proof. by apply enforce_peer_emits; [intros []|..]. Qed.

Lemma plain_shutdown ssl : emits plain (ssl_graceful_shutdown ssl).
Proof. unfold ssl_graceful_shutdown. emitting_plain. Qed.

(** [set_timeouts] on a descriptor sets both or throws. *)
Lemma set_timeouts_outcome fd r t s :
  0 <= fd ->
  match set_timeouts fd r t s with
  | (Ok _, s') => st_log s' = EvTimeouts fd (to_timeval r) (to_timeval t) :: st_log s
  | (Throw _, s') => st_log s' = st_log s
  end.
Proof.
  intros Hfd. unfold set_timeouts. replace (fd <? 0) with false by lia.
  assert (Hq : forall s0, st_log s0 = st_log s -> forall f text (k : io W unit),
    (forall s1, st_log s1 = st_log s -> match k s1 with
       | (Ok _, s') => st_log s' = EvTimeouts fd (to_timeval r) (to_timeval t) :: st_log s | (Throw _, s') => st_log s' = st_log s end) ->
    match (r0 ← call f; (if negb (r0 =? 0) then e ← last_socket_error; throwM (NetworkError (text +:+ e) [])
                         else mret tt) ;; k) s0 with
    | (Ok _, s') => st_log s' = EvTimeouts fd (to_timeval r) (to_timeval t) :: st_log s | (Throw _, s') => st_log s' = st_log s end).
  { intros s0 L0 f text k Hk. destruct (f (st_world s0) (st_errq s0)) as [r0 [w q]] eqn:Ef.
    rewrite (bind_eq _ _ _ _ _ (call_eq _ _ _ _ _ Ef)). destruct (negb (r0 =? 0)).
    - pose proof (silent_last_error (mkSt w q (st_log s0))) as Hs. unfold mbind, M_bind.
      by destruct (last_socket_error (mkSt w q (st_log s0))) as [[e|x] s2]; simpl in *; rewrite Hs.
    - unfold mbind at 1, M_bind at 1. cbn. by apply Hk. }
  apply Hq; [done|]. intros s1 L1. apply Hq; [done|]. intros s2 L2. simpl. by rewrite L2.
Qed.

End pieces.

(** Follows the structure of a computation whose pieces are within bounds. *)
Ltac within_step :=
  match goal with
  | |- local_emits _ _ => first [by apply local_emits_pure | apply local_emits_scoped
      | apply local_emits_guarded | apply local_emits_bind; [|intros ?]
      | apply local_emits_lift | case_match]
  | |- emits _ _ => first [ apply within_send | apply within_read_more | by apply emits_call_ev | by apply emits_adopt
      | by (eapply emits_mono; [apply plain_flowing|first [apply plain_inspect|apply plain_enforce_peer|apply plain_shutdown]])
      | by auto with pqtls | apply emits_bind; [|intros ?] | case_match ]
  end.

(** ** Since the start of a connection *)

Section since.
Context {W : Type} (max cms ims : Z) (base : list Event).

Definition kept (s : St W) : Prop :=
  exists new, st_log s = new ++ base /\ Forall (within max) new /\ timed cms ims new.

(** Timeouts of [ms] are in force on [fd]. *)
Definition armed (fd ms : Z) (s : St W) : Prop :=
  exists new, st_log s = new ++ base /\ Forall (within max) new /\ timed cms ims new /\
    timeouts_of fd new = Some (to_timeval ms, to_timeval ms).

(** libssl was given a descriptor with the timeouts for transfers. *)
Definition wired (s : St W) : Prop :=
  exists fd new, st_log s = new ++ base /\ Forall (within max) new /\ timed cms ims new /\
    bound new = Some fd /\ timeouts_of fd new = Some (to_timeval ims, to_timeval ims).

Lemma armed_kept fd ms s : armed fd ms s -> kept s.
Proof. intros (new & ? & ? & ? & _). by exists new. Qed.

Lemma wired_kept s : wired s -> kept s.
Proof. intros (fd & new & ? & ? & ? & _). by exists new. Qed.

Lemma calm_all (new : list Event) : Forall calm new -> Forall (flowing max) new.
Proof. intros H. eapply Forall_impl; [|exact H]. apply calm_flowing. Qed.

Lemma flowing_all (new : list Event) : Forall (flowing max) new -> Forall (within max) new.
Proof. intros H. eapply Forall_impl; [|exact H]. apply flowing_within. Qed.

Lemma kept_log s s' new : kept s -> st_log s' = new ++ st_log s -> Forall calm new -> kept s'.
Proof.
  intros (n & L & F & T) L' Hc. exists (new ++ n). rewrite L', L, app_assoc.
  splits; [done|apply Forall_app; split; [by apply flowing_all, calm_all|done]|by apply timed_calm].
Qed.

Lemma armed_log fd ms s s' new : armed fd ms s -> st_log s' = new ++ st_log s -> Forall calm new -> armed fd ms s'.
Proof.
  intros (n & L & F & T & A) L' Hc. exists (new ++ n). rewrite L', L, app_assoc. pose proof (calm_all new Hc).
  splits; [done|apply Forall_app; split; [by apply flowing_all|done]|by apply timed_calm|by rewrite (timeouts_later max)].
Qed.

Lemma wired_log s s' new : wired s -> st_log s' = new ++ st_log s -> Forall (flowing max) new -> wired s'.
Proof.
  intros (fd & n & L & F & T & B & A) L' Hf. exists fd, (new ++ n). rewrite L', L, app_assoc.
  splits; [done|apply Forall_app; split; [by apply flowing_all|done]|by eapply timed_flowing|
    by rewrite (bound_later max)|by rewrite (timeouts_later max)].
Qed.

(** Steps of a handler. *)
Lemma step_calm {A L} (m : local W L A) (Q : A -> St W * L -> Prop) (E : exn -> St W * L -> Prop) s c :
  local_emits calm m -> kept s ->
  (forall a s' c', kept s' -> Q a (s', c')) -> (forall x s' c', kept s' -> E x (s', c')) -> wp m Q E (s, c).
Proof. intros Hm Hs HQ HE. apply (local_emits_wp calm); eauto using kept_log. Qed.

Lemma step_armed {A L} fd ms (m : local W L A) (Q : A -> St W * L -> Prop) (E : exn -> St W * L -> Prop) s c :
  local_emits calm m -> armed fd ms s ->
  (forall a s' c', armed fd ms s' -> Q a (s', c')) -> (forall x s' c', kept s' -> E x (s', c')) -> wp m Q E (s, c).
Proof. intros Hm Hs HQ HE. apply (local_emits_wp calm); eauto using armed_log, armed_kept. Qed.

Lemma step_wired {A L} (m : local W L A) (Q : A -> St W * L -> Prop) (E : exn -> St W * L -> Prop) s c :
  local_emits (flowing max) m -> wired s ->
  (forall a s' c', wired s' -> Q a (s', c')) -> (forall x s' c', kept s' -> E x (s', c')) -> wp m Q E (s, c).
Proof. intros Hm Hs HQ HE. apply (local_emits_wp (flowing max)); eauto using wired_log, wired_kept. Qed.

(** Setting the timeouts arms the descriptor; giving it to libssl wires it. *)
Lemma arm_log fd ms s s' :
  0 < ms -> kept s -> st_log s' = EvTimeouts fd (to_timeval ms) (to_timeval ms) :: st_log s -> armed fd ms s'.
Proof.
  intros Hms (n & L & F & T) L'. destruct (to_timeval_exact ms Hms) as [Hp _].
  exists (EvTimeouts fd (to_timeval ms) (to_timeval ms) :: n). rewrite L', L.
  splits; [done|by constructor|by split|simpl; by rewrite Z.eqb_refl].
Qed.

Lemma wire_log fd ssl rc s s' :
  armed fd ims s -> st_log s' = EvSetFd ssl fd rc :: st_log s -> wired s'.
Proof.
  intros (n & L & F & T & A) L'. exists fd, (EvSetFd ssl fd rc :: n). rewrite L', L.
  splits; [done|by constructor|by split|done|done].
Qed.

Lemma step_arm `{RA : RuntimeApi W} `{SA : SocketApi W} {L} fd ms (Q : unit -> St W * L -> Prop)
    (E : exn -> St W * L -> Prop) s c :
  0 <= fd -> 0 < ms -> kept s ->
  (forall s', armed fd ms s' -> Q tt (s', c)) -> (forall x s', kept s' -> E x (s', c)) ->
  wp (lift_io (set_timeouts fd ms ms)) Q E (s, c).
Proof.
  intros Hfd Hms Hs HQ HE. apply wp_lift_io. pose proof (set_timeouts_outcome fd ms ms s Hfd) as Ho.
  unfold wp. destruct (set_timeouts fd ms ms s) as [[[]|x] s'].
  - apply HQ. by eapply arm_log.
  - apply HE. by apply (kept_log s s' [] Hs).
Qed.

Lemma step_wire `{CA : CtxApi W} {L} fd ssl (Q : Z -> St W * L -> Prop) (E : exn -> St W * L -> Prop) s c :
  armed fd ims s -> (forall rc s', wired s' -> Q rc (s', c)) ->
  wp (lift_io (call_ev (SSL_set_fd ssl fd) (EvSetFd ssl fd))) Q E (s, c).
Proof.
  intros Hs HQ. apply wp_lift_io, call_ev_wp. intros rc w q _. apply HQ. by eapply wire_log.
Qed.

(** The guard of an [SSL] object. *)
Lemma dispose_kept o h (s : St W) : kept s -> kept (dispose o h s).2.
Proof.
  intros Hs. eapply kept_log; [exact Hs|apply dispose_log|]. destruct (h =? 0); [constructor|by apply Forall_singleton].
Qed.

Lemma close_kept `{RA : RuntimeApi W} `{SA : SocketApi W} fd (s : St W) : kept s -> kept (Socket_close fd s).2.
Proof.
  intros Hs. destruct (Socket_close_outcome fd s) as (w & q & ->). simpl.
  destruct (fd >=? 0); [|by apply (kept_log s _ [] Hs)].
  by apply (kept_log s _ [EvClose fd] Hs); [|apply Forall_singleton].
Qed.

End since.

#[local] Hint Extern 1 (local_emits calm (lift_io _)) =>
  apply local_emits_lift; first [apply emits_silent; by auto with pqtls|apply emits_adopt; done] : pqtls.

(** ** The server *)

Section server.
Context {W : Type} {RA : RuntimeApi W} {J : JsonLib} {EA : EnvApi W} {SA : SocketApi W}
  {LA : SslApi W} {LL : SslLaws W} {CA : CtxApi W} {MA : MetricsApi W} {VA : ServerApi W}.
Context (config : ServerConfig).
Let max := max_frame_size (s_common config).
Let cms := handshake_timeout_ms (s_common config).
Let ims := io_timeout_ms (s_common config).

Lemma flowing_app_loop fuel p o peer ssl d c h cl :
  local_emits (flowing max) (app_loop fuel config p o peer ssl d c h cl).
Proof.
  revert d c h cl. induction fuel as [|fuel IH]; intros d c h cl; cbn [app_loop].
  all: repeat first [apply IH | within_step].
Qed.

Lemma calm_new_ssl (context : TlsContext) : emits calm (new_ssl context).
Proof.
  unfold new_ssl. apply emits_bind; [auto with pqtls|intros ssl].
  apply emits_bind; [by apply emits_adopt|intros _]. case_match; auto with pqtls.
Qed.

(** From a descriptor that has no timeouts yet. *)
Lemma serve_kept context fd peer base s c :
  0 <= fd -> 0 < ims -> kept max cms ims base s ->
  wp (serve config context fd peer) (fun _ st => kept max cms ims base st.1)
    (fun _ st => kept max cms ims base st.1) (s, c).
Proof.
  intros Hfd Hio Hs. unfold serve, server_handshake. cbn zeta. apply wp_bind, wp_bind.
  apply (step_arm max cms ims base); [done..| |done]. intros s1 Ha.
  apply wp_bind, (step_armed max cms ims base fd ims); [auto with pqtls|done| |done]. intros _ s2 c2 Ha2.
  apply wp_bind, (step_armed max cms ims base fd ims); [apply local_emits_lift, calm_new_ssl|done| |done].
  intros ssl s3 c3 Ha3. apply wp_guarded_io.
  assert (HE : forall (x : exn) (s' : St W) (c' : ConnectionMetrics), kept max cms ims base s' ->
    kept max cms ims base ((dispose ObjSsl ssl s').2, c').1) by (intros; by apply dispose_kept).
  apply wp_bind, (step_wire max cms ims base fd); [done|]. intros rc s4 Hw.
  apply (step_wired max cms ims base); [repeat within_step|done| |by eauto].
  intros [ssl' o] s5 c5 Hw5. apply (step_wired max cms ims base);
    [|done|intros _ s6 c6; apply wired_kept|done].
  repeat first [apply flowing_app_loop | within_step].
Qed.

Lemma calm_write_record (writer : option MetricsWriter) : local_emits (W := W) calm (write_record writer).
Proof.
  intros s c. unfold write_record. destruct writer as [[]|]; try by exists [].
  by apply local_emits_lift, emits_metrics.
Qed.

Lemma connection_body_kept context writer p base s c :
  0 <= pc_fd p -> 0 < ims -> kept max cms ims base s ->
  wp (connection_body config context writer p) (fun _ st => kept max cms ims base st.1)
    (fun _ st => kept max cms ims base st.1) (s, c).
Proof.
  intros Hfd Hio Hs. unfold connection_body.
  assert (Hsil : forall A (m : io W A), silent m -> local_emits (L := ConnectionMetrics) calm (lift_io m))
    by (intros; by apply local_emits_lift, emits_silent).
  do 4 (apply wp_bind; eapply step_calm;
    [first [apply Hsil; by auto with pqtls|by apply local_emits_pure]|eassumption| |done]; clear Hs; intros ? ? ? Hs).
  apply wp_bind, wp_catch. eapply wp_mono; [| |by apply serve_kept].
  2: intros x [s1 c1] Hx; destruct (is_exception x); [|done];
     (eapply step_calm; [apply emits_record_failure; by intros []|exact Hx| |done]); clear s1 c1 Hx; intros _ s1 c1 Hx.
  all: cbn beta; try intros _ [s1 c1] Hx; simpl in Hx.
  all: repeat (apply wp_bind; eapply step_calm;
    [first [apply Hsil; by auto with pqtls|by apply local_emits_pure]|exact Hx| |done]; clear Hx; intros ? ? ? Hx).
  all: eapply step_calm; [apply calm_write_record|exact Hx|done..].
Qed.

Lemma handle_connection_kept context writer p s :
  0 <= pc_fd p -> 0 < ims ->
  kept max cms ims (st_log s) (handle_connection config context writer p s).2.
Proof.
  intros Hfd Hio. unfold handle_connection, with_socket, scoped.
  assert (H0 : kept max cms ims (st_log s) s) by (by exists []).
  pose proof (connection_body_kept context writer p (st_log s) s ConnectionMetrics_default Hfd Hio H0) as H.
  unfold wp in H. destruct (connection_body _ _ _ _ _) as [[u|x] [s' c']]; cbn [snd fst] in *; by apply close_kept.
Qed.

End server.

(** ** The client *)

Section client.
Context {W : Type} {RA : RuntimeApi W} {J : JsonLib} {EA : EnvApi W} {SA : SocketApi W}
  {LA : SslApi W} {LL : SslLaws W} {CA : CtxApi W} {MA : MetricsApi W} {KA : ClientApi W}.
Context (config : ClientConfig).
Let max := max_frame_size (c_common config).
Let cms := handshake_timeout_ms (c_common config).
Let ims := io_timeout_ms (c_common config).

Lemma flowing_await fuel ssl d c : emits (flowing max) (await_response fuel ssl d c).
Proof.
  revert d c. induction fuel as [|fuel IH]; intros d c; cbn [await_response].
  all: repeat first [apply IH | within_step].
Qed.

Lemma flowing_exchange ssl ms d c m rs : emits (flowing max) (exchange config ssl ms d c m rs).
Proof.
  revert d c m rs. induction ms as [|x ms IH]; intros d c m rs; cbn [exchange]; cbv zeta.
  all: repeat first [apply IH | apply flowing_await | within_step].
Qed.

Lemma silent_kept {A} base (m : io W A) s : silent m -> kept max cms ims base s -> kept max cms ims base (m s).2.
Proof. intros Hm Hs. by apply (kept_log _ _ _ _ s _ [] Hs). Qed.

(** One address: the timeouts are set before [::connect]. *)
Lemma connect_attempt_kept base candidate s :
  0 < cms -> kept max cms ims base s -> kept max cms ims base (connect_attempt candidate cms s).2.
Proof.
  intros Hms Hs. unfold connect_attempt. destruct (open_socket_outcome candidate s) as (fd & w & q & Ho).
  rewrite (bind_eq _ _ _ _ _ Ho). set (s1 := mkSt w q _).
  assert (H1 : kept max cms ims base s1).
  { unfold s1. destruct (fd >=? 0); [|by apply (kept_log _ _ _ _ s _ [] Hs)].
    destruct Hs as (n & L & F & T). exists (EvOpen fd :: n). cbn [st_log]. rewrite L. splits; [done|by constructor|by split]. }
  destruct (fd <? 0) eqn:Efd; bool_props; [apply silent_kept; auto with pqtls|].
  assert (Hown : forall body, kept max cms ims base (body s1).2 -> kept max cms ims base (owning fd body s1).2).
  { intros body Hb. unfold owning. destruct (body s1) as [[[fd'|t]|x] s2]; simpl in *; [done|by apply close_kept..]. }
  apply Hown. pose proof (set_timeouts_outcome fd cms cms s1 Efd) as Ht.
  pose proof (set_timeouts_throws fd cms cms s1) as Hx. unfold mbind at 1, M_bind at 1, try_catch at 1.
  unfold mbind at 1, M_bind at 1. destruct (set_timeouts fd cms cms s1) as [[[]|x] s2]; cbn [mret M_ret].
  - pose proof (arm_log _ _ _ _ _ _ _ _ Hms H1 Ht) as (n & L & F & T & A). cbn [negb].
    destruct (connect fd candidate (st_world s2) (st_errq s2)) as [r [w2 q2]] eqn:Ec.
    rewrite (bind_eq _ _ _ _ _ (call_ev_eq _ _ _ _ _ _ Ec)). set (s3 := mkSt w2 q2 _).
    assert (H3 : kept max cms ims base s3).
    { exists (EvConnect fd r :: n). unfold s3. cbn [st_log]. rewrite L. splits; [done|by constructor|by split]. }
    apply silent_kept; [destruct (r =? 0); auto with pqtls|done].
  - destruct (Hx _ _ eq_refl) as [-> _]. cbn. apply (kept_log _ _ _ _ s1 _ [] H1); [done|constructor].
Qed.

Lemma candidates_kept base results err s :
  0 < cms -> kept max cms ims base s ->
  kept max cms ims base (try_candidates (fun c => connect_attempt c cms) results err s).2.
Proof.
  intros Hms. revert err s. induction results as [|c cs IH]; intros err s Hs; simpl; [done|].
  pose proof (connect_attempt_kept base c s Hms Hs) as H1. unfold mbind, M_bind.
  destruct (connect_attempt c cms s) as [[[fd|t]|x] s1]; simpl in *; auto.
Qed.

Lemma tcp_connect_kept base h port s :
  0 < cms -> kept max cms ims base s -> kept max cms ims base (tcp_connect h port cms s).2.
Proof.
  intros Hms Hs. unfold tcp_connect. unfold mbind at 1, M_bind at 1.
  pose proof (silent_kept base (call (getaddrinfo h (std_to_string port) false)) s ltac:(auto with pqtls) Hs) as H1.
  destruct (call _ s) as [[[rc results]|x] s1]; [|done]. simpl in H1. case_match; [done|].
  pose proof (candidates_kept base results "no addresses were returned" s1 Hms H1) as Ht. unfold mbind, M_bind.
  by destruct (try_candidates _ _ _ s1) as [[[fd|t]|x] s2].
Qed.

Lemma over_socket_kept context ms m timer fd base s c :
  0 <= fd -> 0 < ims -> kept max cms ims base s ->
  wp (over_socket config context ms m timer fd) (fun _ st => kept max cms ims base st.1)
    (fun _ st => kept max cms ims base st.1) (s, c).
Proof.
  intros Hfd Hio Hs. unfold over_socket. cbn zeta.
  apply wp_bind, (step_calm max cms ims base); [auto with pqtls|done| |done].
  intros peer s1 c1 H1. unfold prepare_ssl. cbn zeta. apply wp_bind, wp_bind.
  apply (step_arm max cms ims base); [done..| |done]. intros s2 H2.
  apply wp_bind, (step_armed max cms ims base fd ims); [apply local_emits_lift, calm_new_ssl|done| |done].
  intros ssl s3 c3 H3. apply wp_guarded_io.
  assert (HE : forall (x : exn) (s' : St W) (c' : Z), kept max cms ims base s' ->
    kept max cms ims base ((dispose ObjSsl ssl s').2, c').1) by (intros; by apply dispose_kept).
  apply wp_bind, (step_wire max cms ims base fd); [done|]. intros rc s4 Hw.
  apply (step_wired max cms ims base); [repeat within_step|done| |by eauto]. intros ssl' s5 c5 H5.
  apply (step_wired max cms ims base); [|done|intros _ s6 c6; apply wired_kept|done].
  unfold client_handshake, cache_session, reset_session. repeat first [apply flowing_exchange | within_step].
Qed.

Lemma connect_kept context ms s c :
  0 < cms -> 0 < ims ->
  wp (connect_and_exchange config context ms) (fun _ st => kept max cms ims (st_log s) st.1)
    (fun _ st => kept max cms ims (st_log s) st.1) (s, c).
Proof.
  intros Hcms Hims. unfold connect_and_exchange. cbn zeta.
  assert (H0 : kept max cms ims (st_log s) s) by (by exists []).
  apply wp_bind, (step_calm max cms ims (st_log s)); [auto with pqtls|done| |done]. intros cid s1 c1 H1.
  apply wp_bind, (step_calm max cms ims (st_log s)); [auto with pqtls|done| |done]. intros ts s2 c2 H2.
  apply wp_bind, (step_calm max cms ims (st_log s)); [auto with pqtls|done| |done]. intros timer s3 c3 H3.
  apply wp_bind, wp_lift_io.
  pose proof (tcp_connect_outcome (host config) (c_port config) cms s3) as Ht.
  pose proof (tcp_connect_kept (st_log s) (host config) (c_port config) s3 Hcms H3) as H4.
  unfold wp at 1. fold cms. destruct (tcp_connect (host config) (c_port config) cms s3) as [[fd|x] s4]; [|done].
  destruct Ht as [Hfd _]. simpl in H4. apply wp_scoped.
  eapply wp_mono; [| |by apply over_socket_kept]; intros ? [s5 c5] H5; rewrite lift_io_state; by apply close_kept.
Qed.

Lemma calm_conclude (writer : option MetricsWriter) r :
  local_emits (W := W) (L := Z) calm (conclude config writer r).
Proof.
  apply local_emits_bind; [apply local_emits_lift, emits_silent|intros m].
  - unfold complete_metrics. apply silent_bind; [case_match; auto with pqtls|intros].
    apply silent_bind; [case_match; auto with pqtls|auto with pqtls].
  - apply local_emits_bind; [|intros; by apply local_emits_pure].
    destruct writer as [[]|]; cbn [enabled]; [|by apply local_emits_pure|by apply local_emits_pure].
    by apply local_emits_lift, emits_metrics.
Qed.

Lemma run_once_kept context writer ms s c :
  0 < cms -> 0 < ims -> kept max cms ims (st_log s) (run_once config context writer ms (s, c)).2.1.
Proof.
  intros Hcms Hims.
  assert (H : wp (run_once config context writer ms) (fun _ st => kept max cms ims (st_log s) st.1)
    (fun _ st => kept max cms ims (st_log s) st.1) (s, c)).
  { unfold run_once. apply wp_bind, wp_catch. eapply wp_mono; [| |by apply connect_kept].
    2: intros x [s1 c1] Hx; destruct (is_exception x); [apply wp_bind|done];
       (eapply step_calm; [apply local_emits_lift, emits_log_failure; by intros []|exact Hx| |done]);
       clear s1 c1 Hx; intros _ s1 c1 Hx; apply wp_ret.
    all: cbn beta; try intros r [s1 c1] Hx; simpl in Hx.
    all: eapply step_calm; [apply calm_conclude|exact Hx|done..]. }
  unfold wp in H. by destruct (run_once _ _ _ _ _) as [[r|x] [s1 c1]].
Qed.

End client.

(** ** Counters *)

Lemma frames_size max ps :
  Forall (legal max) ps -> Z.of_nat (length (frames ps)) <= Z.of_nat (length ps) * (kHeaderSize + max).
Proof.
  induction 1 as [|p ps [_ Hp] _ IH]; [done|]. unfold str_size, kHeaderSize in *. rewrite frames_cons, length_app.
  unfold frame_of. rewrite length_app, bytes_of_string_length.
  change (length (header_bytes _)) with 4%nat. cbn [length]. lia.
Qed.

Lemma replies_length es : (length (replies es) <= length es)%nat.
Proof. induction es as [|[f [r|]] es IH]; simpl; lia. Qed.

(** What a validated server can send or read on one connection fits in 64 bits. *)
Lemma frames_fit config ps extra :
  1 <= max_frame_size (s_common config) <= kAbsoluteMaxFrameSize ->
  is_u32 (max_messages_per_connection config) ->
  Forall (legal (max_frame_size (s_common config))) ps ->
  Z.of_nat (length ps) <= max_messages_per_connection config ->
  0 <= extra <= 4294967296 -> is_u64 (Z.of_nat (length (frames ps)) + extra).
Proof.
  unfold is_u32, is_u64, u32_max, u64_max, kAbsoluteMaxFrameSize. intros Hmax Hm Hl He Hx.
  pose proof (frames_size _ _ Hl) as Hs. unfold kHeaderSize in Hs.
  split; [lia|]. transitivity (4294967295 * (4 + 67108864) + 4294967296); [|lia].
  assert (Z.of_nat (length ps) * (4 + max_frame_size (s_common config)) <= 4294967295 * (4 + 67108864))
    by (apply Z.mul_le_mono_nonneg; lia). lia.
Qed.

(** ** Claim *)

Section claim.
Context {J : JsonLib}
  {Ws : Type} {RAs : RuntimeApi Ws} {SAs : SocketApi Ws} {LAs : SslApi Ws}
  {LLs : SslLaws Ws} {CAs : CtxApi Ws} {MAs : MetricsApi Ws} {VAs : ServerApi Ws}
  {Wc : Type} {RAc : RuntimeApi Wc} {SAc : SocketApi Wc} {LAc : SslApi Wc}
  {LLc : SslLaws Wc} {CAc : CtxApi Wc} {MAc : MetricsApi Wc} {KAc : ClientApi Wc}.


End claim.

