(* ===== verification/Benchmark.v ===== *)
(** The benchmark driver: [BenchmarkSummary] and [run_benchmark] of
    [src/client/client.cpp].

    Every benchmark thread runs the same worker function on three shared
    variables: two atomic counters of work left and the summary behind a
    mutex.  One step is one atomic access, one critical section, or one call
    on the thread's own client.  Here the outcome of such a call is free, a result
    or an exception; [Load] supplies it by running the client.  [bs_lost] is a
    ghost count of connections whose result was lost with an exception. *)

From stdpp Require Import relations.
From S2P Require Import Prelude Errors Runtime Json Identifiers Message Config Metrics Client.

(** ** Data *)

Record BenchmarkSummary := mkSummary {
  sum_profile_id : string;
  requested_connections : Z;
  successful : Z;
  failed : Z;
  sum_handshake_ms : list double;
  sum_connection_ms : list double;
  failure_categories : list string
}.

Definition BenchmarkSummary_to_json (s : BenchmarkSummary) : json :=
  set_all JNull
    [("profile", JString (sum_profile_id s));
     ("requested_connections", JUInt (requested_connections s));
     ("successful", JUInt (successful s));
     ("failed", JUInt (failed s));
     ("success_rate", JFloat (if requested_connections s =? 0 then double_of_Z 0
        else double_div (double_of_Z (successful s)) (double_of_Z (requested_connections s))));
     ("handshake_ms_samples", JUInt (Z.of_nat (length (sum_handshake_ms s))));
     ("connection_ms_samples", JUInt (Z.of_nat (length (sum_connection_ms s))));
     ("failure_categories", JArray (map JString (failure_categories s)));
     ("note", JString ("Raw per-connection records are in the metrics file. Use scripts/analyze-results.py " +:+
        "for summary statistics."))].

(** The critical section after a measured connection. *)
Definition record_result (s : BenchmarkSummary) (r : ClientResult) : BenchmarkSummary :=
  let 'mkSummary p n ok bad hs cs cats := s in
  if cr_ok r then
    mkSummary p n (to_u32 (ok + 1)) bad (hs ++ [m_handshake_ms (cr_metrics r)])
      (cs ++ [m_connection_ms (cr_metrics r)]) cats
  else
    mkSummary p n ok (to_u32 (bad + 1)) hs cs
      (cats ++ [ErrorCategory_to_string (m_error_category (cr_metrics r))]).

(** The critical section after a failed set-up. *)
Definition record_abandoned (s : BenchmarkSummary) (abandoned : Z) (what : string) : BenchmarkSummary :=
  let 'mkSummary p n ok bad hs cs cats := s in
  mkSummary p n ok (to_u32 (bad + abandoned)) hs cs (cats ++ ["client-setup: " +:+ what]).

(** The messages of one measured connection. *)
Fixpoint ping_messages {W} {RA : RuntimeApi W} (n : nat) : io W (list Message) :=
  match n with
  | O => mret []
  | S n' =>
      m ← make_request Ping JNull;
      rest ← ping_messages n'; mret (m :: rest)
  end.

(** ** State *)

Inductive phase :=
  | Setup                               (* constructing the client *)
  | Abandoning (n : Z) (what : string)  (* set-up failed, [remaining] taken *)
  | Warming                             (* before the load of claim(warmup_remaining) *)
  | WarmLoaded (current : Z)            (* in the loop of claim *)
  | WarmRunning                         (* a discarded connection *)
  | Claiming                            (* before the load of claim(remaining) *)
  | Loaded (current : Z)
  | Running                             (* a measured connection *)
  | Reporting (r : ClientResult)        (* before the summary lock *)
  | Done                                (* the worker function returned *)
  | Dead.                               (* an exception left it; the thread's catch-all ran *)

Record Bench := mkBench {
  bs_remaining : Z;
  bs_warmup : Z;
  bs_summary : BenchmarkSummary;
  bs_threads : list phase;
  bs_lost : nat
}.

(** [std::min(config.concurrency, config.connections)]. *)
Definition thread_count (config : ClientConfig) : Z := Z.min (concurrency config) (connections config).

(** Before the first thread is created. *)
Definition Bench_new (config : ClientConfig) : Bench :=
  mkBench (connections config) (warmup_connections config)
    (mkSummary (profile_id (c_common config)) (connections config) 0 0 [] [] []) [] 0.

(** ** Steps *)

(** What a thread does outside the shared variables in a step: nothing, or a
    call on its own client. *)
Inductive action :=
  | Atomic
  | SetUp (i : nat)
  | SetUpFailed (i : nat) (what : string)
  | SetUpDied (i : nat)
  | WarmRan (i : nat)
  | WarmDied (i : nat)
  | WarmEnded (i : nat)
  | Ran (i : nat) (r : ClientResult)
  | Died (i : nat)
  | Ended (i : nat)
  | Spawned.

Inductive bstep : action -> Bench -> Bench -> Prop :=
  (* the client was constructed and the warm-up request made *)
  | BReady rem wu sum ts lost i :
      ts !! i = Some Setup ->
      bstep (SetUp i) (mkBench rem wu sum ts lost) (mkBench rem wu sum (<[i := Warming]> ts) lost)
  (* the constructor threw: remaining.exchange(0) *)
  | BSetupFailed rem wu sum ts lost i what :
      ts !! i = Some Setup ->
      bstep (SetUpFailed i what) (mkBench rem wu sum ts lost) (mkBench 0 wu sum (<[i := Abandoning rem what]> ts) lost)
  | BAbandon rem wu sum ts lost i n what :
      ts !! i = Some (Abandoning n what) ->
      bstep Atomic (mkBench rem wu sum ts lost)
            (mkBench rem wu (record_abandoned sum n what) (<[i := Done]> ts) lost)
  (* make_request threw *)
  | BSetupDied rem wu sum ts lost i :
      ts !! i = Some Setup ->
      bstep (SetUpDied i) (mkBench rem wu sum ts lost) (mkBench rem wu sum (<[i := Dead]> ts) lost)
  (* claim(warmup_remaining) *)
  | BWarmLoad rem wu sum ts lost i :
      ts !! i = Some Warming ->
      bstep Atomic (mkBench rem wu sum ts lost) (mkBench rem wu sum (<[i := WarmLoaded wu]> ts) lost)
  | BWarmCas rem wu sum ts lost i :
      ts !! i = Some (WarmLoaded wu) -> wu > 0 ->
      bstep Atomic (mkBench rem wu sum ts lost) (mkBench rem (to_u32 (wu - 1)) sum (<[i := WarmRunning]> ts) lost)
  (* the exchange failed, because of another thread or spuriously *)
  | BWarmRetry rem wu sum ts lost i current :
      ts !! i = Some (WarmLoaded current) -> current > 0 ->
      bstep Atomic (mkBench rem wu sum ts lost) (mkBench rem wu sum (<[i := WarmLoaded wu]> ts) lost)
  (* run_once returned; its result is discarded *)
  | BWarmRan rem wu sum ts lost i :
      ts !! i = Some WarmRunning ->
      bstep (WarmRan i) (mkBench rem wu sum ts lost) (mkBench rem wu sum (<[i := Warming]> ts) lost)
  | BWarmDied rem wu sum ts lost i :
      ts !! i = Some WarmRunning ->
      bstep (WarmDied i) (mkBench rem wu sum ts lost) (mkBench rem wu sum (<[i := Dead]> ts) lost)
  (* no warm-up left: clear_cached_session *)
  | BWarmEnd rem wu sum ts lost i current :
      ts !! i = Some (WarmLoaded current) -> ~ current > 0 ->
      bstep (WarmEnded i) (mkBench rem wu sum ts lost) (mkBench rem wu sum (<[i := Claiming]> ts) lost)
  (* claim(remaining) *)
  | BLoad rem wu sum ts lost i :
      ts !! i = Some Claiming ->
      bstep Atomic (mkBench rem wu sum ts lost) (mkBench rem wu sum (<[i := Loaded rem]> ts) lost)
  | BCas rem wu sum ts lost i :
      ts !! i = Some (Loaded rem) -> rem > 0 ->
      bstep Atomic (mkBench rem wu sum ts lost) (mkBench (to_u32 (rem - 1)) wu sum (<[i := Running]> ts) lost)
  | BRetry rem wu sum ts lost i current :
      ts !! i = Some (Loaded current) -> current > 0 ->
      bstep Atomic (mkBench rem wu sum ts lost) (mkBench rem wu sum (<[i := Loaded rem]> ts) lost)
  | BEnd rem wu sum ts lost i current :
      ts !! i = Some (Loaded current) -> ~ current > 0 ->
      bstep (Ended i) (mkBench rem wu sum ts lost) (mkBench rem wu sum (<[i := Done]> ts) lost)
  (* run_once returned *)
  | BRan rem wu sum ts lost i r :
      ts !! i = Some Running ->
      bstep (Ran i r) (mkBench rem wu sum ts lost) (mkBench rem wu sum (<[i := Reporting r]> ts) lost)
  (* make_request or run_once threw *)
  | BDied rem wu sum ts lost i :
      ts !! i = Some Running ->
      bstep (Died i) (mkBench rem wu sum ts lost) (mkBench rem wu sum (<[i := Dead]> ts) (S lost))
  | BReport rem wu sum ts lost i r :
      ts !! i = Some (Reporting r) ->
      bstep Atomic (mkBench rem wu sum ts lost)
            (mkBench rem wu (record_result sum r) (<[i := Claiming]> ts) lost)
  (* threads.emplace_back(...) created a thread *)
  | BSpawn rem wu sum ts lost :
      bstep Spawned (mkBench rem wu sum ts lost) (mkBench rem wu sum (ts ++ [Setup]) lost).

Definition bench_step (s s' : Bench) : Prop := exists a, bstep a s s'.

Definition breachable (config : ClientConfig) (s : Bench) : Prop := rtc bench_step (Bench_new config) s.

(** ** Accounting *)

(** Connections a thread has claimed and not yet accounted for. *)
Definition in_hand (p : phase) : Z :=
  match p with Abandoning n _ => n | Running | Reporting _ => 1 | _ => 0 end.

Definition held_back (ts : list phase) : Z := foldr (fun p n => in_hand p + n) 0 ts.

(** What a thread's phase says about the counter of work left. *)
Definition phase_ok (rem : Z) (p : phase) : Prop :=
  match p with
  | Abandoning n _ => 0 <= n /\ rem = 0
  | Loaded current => rem <= current
  | Done => rem = 0
  | _ => True
  end.

(** Every requested connection is unclaimed, in a thread's hands, counted as a
    success or a failure, or lost; there is one timing sample of each kind per
    success. *)
Definition balanced (config : ClientConfig) (s : Bench) : Prop :=
  let sum := bs_summary s in
  0 <= bs_remaining s /\ 0 <= successful sum /\ 0 <= failed sum /\
  bs_remaining s + held_back (bs_threads s) + successful sum + failed sum + Z.of_nat (bs_lost s) =
    connections config /\
  Z.of_nat (length (sum_handshake_ms sum)) = successful sum /\
  Z.of_nat (length (sum_connection_ms sum)) = successful sum /\
  requested_connections sum = connections config /\
  Forall (phase_ok (bs_remaining s)) (bs_threads s).

Lemma held_insert (ts : list phase) (i : nat) p p' :
  ts !! i = Some p -> held_back (<[i := p']> ts) = held_back ts - in_hand p + in_hand p'.
Proof.
  revert i. induction ts as [|q ts IH]; intros [|i] H; simplify_eq/=; [lia|].
  rewrite (IH i H). lia.
Qed.

Lemma in_hand_nonneg rem p : phase_ok rem p -> 0 <= in_hand p.
Proof. destruct p; simpl; lia. Qed.

Lemma held_bound rem (ts : list phase) (i : nat) p :
  Forall (phase_ok rem) ts -> ts !! i = Some p -> in_hand p <= held_back ts.
Proof.
  intros H. revert i. induction H as [|q ts Hq H IH]; intros [|i] Hi; simplify_eq/=.
  - assert (0 <= held_back ts); [|lia]. clear - H.
    induction H as [|q ts Hq H IH]; simpl; [lia|]. apply in_hand_nonneg in Hq. lia.
  - apply IH in Hi. apply in_hand_nonneg in Hq. lia.
Qed.

Lemma phases_less rem rem' (ts : list phase) :
  0 <= rem' <= rem -> Forall (phase_ok rem) ts -> Forall (phase_ok rem') ts.
Proof. intros Hr. apply Forall_impl. intros []; simpl; lia. Qed.

Lemma phases_insert rem (ts : list phase) (i : nat) p' :
  Forall (phase_ok rem) ts -> phase_ok rem p' -> Forall (phase_ok rem) (<[i := p']> ts).
Proof. intros. by apply Forall_insert. Qed.

Lemma balanced_init config :
  0 <= connections config -> balanced config (Bench_new config).
Proof.
  intros Hc. unfold balanced, Bench_new. simpl. splits; try lia. constructor.
Qed.

Lemma held_spawn (ts : list phase) : held_back (ts ++ [Setup]) = held_back ts.
Proof. induction ts as [|p ts IH]; simpl; [done|]. by rewrite IH. Qed.

Lemma u32_id z : 0 <= z <= 4294967295 -> to_u32 z = z.
Proof. intros. by apply to_u32_small. Qed.

Lemma balanced_step config s s' :
  is_u32 (connections config) -> balanced config s -> bench_step s s' -> balanced config s'.
Proof.
  unfold balanced. intros Hu (H1 & H2 & H3 & H4 & H5 & H6 & H7 & H8) [a Hs].
  destruct Hs; simpl in *;
    try match goal with Hi : ?ts !! ?i = Some ?p |- context [<[?i := ?p']> ?ts] =>
      pose proof (held_insert ts i p p' Hi); pose proof (held_bound _ ts i p H8 Hi);
      pose proof (proj1 (Forall_lookup _ _) H8 i p Hi) end;
    destruct sum as [pid req ok bad hs cs cats]; simpl in *; unfold is_u32, u32_max in Hu.
  all: try (splits; try lia; apply phases_insert; [done|simpl; try exact I; lia]).
  - splits; try lia. apply phases_insert; [|simpl; lia]. apply (phases_less rem); [lia|done].
  - rewrite u32_id by lia. splits; try lia. apply phases_insert; [done|simpl; lia].
  - rewrite u32_id by lia. splits; try lia. apply phases_insert; [|done]. apply (phases_less rem); [lia|done].
  - destruct (cr_ok r); simpl; rewrite u32_id, ?length_app by lia; simpl;
      (splits; try lia; by apply phases_insert).
  - rewrite held_spawn. splits; try lia. apply Forall_app. split; [done|by apply Forall_singleton].
Qed.

Lemma breachable_balanced config s :
  is_u32 (connections config) -> breachable config s -> balanced config s.
Proof.
  intros Hu Hr. assert (H0 : balanced config (Bench_new config)) by (apply balanced_init, Hu).
  unfold breachable in Hr. revert H0. induction Hr; eauto using balanced_step.
Qed.

(** Connections are lost only with a thread. *)
Definition loss_explained (s : Bench) : Prop :=
  bs_lost s = 0%nat \/ exists i, bs_threads s !! i = Some Dead.

Lemma dead_insert (ts : list phase) (i : nat) p p' :
  ts !! i = Some p -> p <> Dead -> (exists j, ts !! j = Some Dead) ->
  exists j, <[i := p']> ts !! j = Some Dead.
Proof.
  intros Hi Hp [j Hj]. exists j. rewrite list_lookup_insert_ne; [done|]. intros ->. congruence.
Qed.

Lemma loss_step s s' : loss_explained s -> bench_step s s' -> loss_explained s'.
Proof.
  unfold loss_explained. intros H [a Hs].
  destruct Hs; simpl in *; try (destruct H as [H|H]; [by left|right; by eapply dead_insert]).
  - right. exists i. apply list_lookup_insert_eq. by eapply lookup_lt_Some.
  - destruct H as [H|[i Hi]]; [by left|right]. exists i. by apply lookup_app_l_Some.
Qed.

Lemma breachable_loss config s : breachable config s -> loss_explained s.
Proof.
  intros Hr. assert (H0 : loss_explained (Bench_new config)) by (by left).
  unfold breachable in Hr. revert H0. induction Hr; eauto using loss_step.
Qed.

Definition over (p : phase) : Prop := p = Done \/ p = Dead.

Lemma held_over (ts : list phase) : Forall over ts -> held_back ts = 0.
Proof. induction 1 as [|p ts [-> | ->] _ IH]; simpl; [done|lia|lia]. Qed.

(** However the threads interleave on the counters and whatever each connection
    does, the books are balanced; the conditional decrement never wraps and never
    hands out a connection twice.  When all threads have ended and none was killed,
    the successes and failures add up to the requested number. *)
Lemma bench_accounted config s :
  is_u32 (connections config) -> breachable config s ->
  balanced config s /\
  (Forall over (bs_threads s) -> In Done (bs_threads s) ->
     bs_remaining s = 0 /\
     successful (bs_summary s) + failed (bs_summary s) + Z.of_nat (bs_lost s) = connections config) /\
  (Forall (fun p => p = Done) (bs_threads s) -> bs_threads s <> [] ->
     successful (bs_summary s) + failed (bs_summary s) = requested_connections (bs_summary s)).
Proof.
  intros Hu Hr. pose proof (breachable_balanced config s Hu Hr) as Hb.
  pose proof (breachable_loss config s Hr) as Hl.
  assert (Hend : Forall over (bs_threads s) -> In Done (bs_threads s) ->
     bs_remaining s = 0 /\
     successful (bs_summary s) + failed (bs_summary s) + Z.of_nat (bs_lost s) = connections config).
  { intros Ho Hd. destruct Hb as (_ & _ & _ & H4 & _ & _ & _ & H8).
    rewrite (held_over _ Ho) in H4. rewrite List.Forall_forall in H8. specialize (H8 _ Hd). simpl in H8. lia. }
  splits; [done|done|]. intros Hd Hne.
  assert (Ho : Forall over (bs_threads s)) by (eapply Forall_impl; [|exact Hd]; by left).
  assert (Hin : In Done (bs_threads s)).
  { destruct (bs_threads s) as [|p ts]; [done|]. inversion Hd; subst. by left. }
  destruct (Hend Ho Hin) as [_ He]. destruct Hb as (_ & _ & _ & _ & _ & _ & H7 & _).
  destruct Hl as [Hl|[i Hi]]; [rewrite Hl in He; simpl in He; lia|].
  rewrite Forall_lookup in Hd. specialize (Hd _ _ Hi). done.
Qed.
