(* ===== verification/Output.v ===== *)
(** What the two programs print: the usage texts and the reports of
    [src/client/main.cpp] and [src/server/main.cpp], the banner of
    [cli_support.hpp], and the number format of [std::ostream].

    Log lines of spdlog have no counterpart. *)

From Stdlib Require Import Floats.SpecFloat.
From S2P Require Import Prelude Errors Runtime Json Message Profile Config Metrics Capabilities Client.
From S2P Require Import Benchmark.

(** ** Numbers

    [operator<<] for a double with the default format and precision, which is
    [%g] of [printf]: six significant digits, correctly rounded, without
    trailing zeros, with an exponent when it is below -4 or above 5. *)

Definition kPrecision : Z := 6.

(** Ten or more is divided, less than one multiplied by ten: the fraction
    [n / d] becomes [n' / d' * 10 ^ k] with one digit before the point. *)
Fixpoint scale_down (fuel : nat) (n d k : Z) : Z * Z * Z :=
  match fuel with
  | O => (n, d, k)
  | S fuel' => if 10 * d <=? n then scale_down fuel' n (10 * d) (k + 1) else (n, d, k)
  end.

Fixpoint scale_up (fuel : nat) (n d k : Z) : Z * Z * Z :=
  match fuel with
  | O => (n, d, k)
  | S fuel' => if n <? d then scale_up fuel' (10 * n) d (k - 1) else (n, d, k)
  end.

(** Doubles are between 10^-324 and 10^309. *)
Definition scale_fuel : nat := 330.

Definition normalise (n d : Z) : Z * Z * Z :=
  if n <? d then scale_up scale_fuel n d 0 else scale_down scale_fuel n d 0.

Definition round_half_even (n d : Z) : Z :=
  let q := n / d in
  match Z.compare (2 * (n mod d)) d with
  | Lt => q
  | Gt => q + 1
  | Eq => if Z.even q then q else q + 1
  end.

(** Six digits and the decimal exponent of the first. *)
Definition six_digits (n d : Z) : Z * Z :=
  let '(n', d', k) := normalise n d in
  let digits := round_half_even (n' * 10 ^ (kPrecision - 1)) d' in
  if digits =? 10 ^ kPrecision then (10 ^ (kPrecision - 1), k + 1) else (digits, k).

Fixpoint strip_zeros (s : string) : string :=
  match s with
  | EmptyString => EmptyString
  | String c s' =>
      match strip_zeros s' with
      | EmptyString => if Ascii.eqb c "0" then EmptyString else String c EmptyString
      | r => String c r
      end
  end.

Definition with_point (whole fraction : string) : string :=
  match strip_zeros fraction with
  | EmptyString => whole
  | f => whole +:+ "." +:+ f
  end.

Fixpoint zeros (n : nat) : string := match n with O => "" | S n' => String "0" (zeros n') end.

Definition layout (digits exponent : Z) : string :=
  let text := std_to_string digits in
  if (exponent <? -4) || (kPrecision <=? exponent) then
    with_point (String.substring 0 1 text) (String.substring 1 5 text) +:+
    (if exponent <? 0 then "e-" else "e+") +:+
    (if Z.abs exponent <? 10 then "0" else "") +:+ std_to_string (Z.abs exponent)
  else if 0 <=? exponent then
    with_point (String.substring 0 (Z.to_nat (exponent + 1)) text)
      (String.substring (Z.to_nat (exponent + 1)) (Z.to_nat (5 - exponent)) text)
  else with_point "0" (zeros (Z.to_nat (- exponent - 1)) +:+ text).

Definition print_positive (m : positive) (e : Z) : string :=
  let '(digits, exponent) :=
    if 0 <=? e then six_digits (Z.pos m * 2 ^ e) 1 else six_digits (Z.pos m) (2 ^ (- e)) in
  layout digits exponent.

Definition print_double (f : double) : string :=
  let sign (s : bool) (text : string) := if s then "-" +:+ text else text in
  match f with
  | S754_zero s => sign s "0"
  | S754_infinity s => sign s "inf"
  | S754_nan => "nan"
  | S754_finite s m e => sign s (print_positive m e)
  end.

(** ** Fixed texts *)

Definition client_usage : string :=
"pqtls-client - TLS 1.3 research client with selectable key-establishment profiles

USAGE
  pqtls-client connect [options]
  pqtls-client benchmark [options]
  pqtls-client capabilities [--json]
  pqtls-client --version
  pqtls-client --help

COMMANDS
  connect        Open one connection, send a message, print the response.
  benchmark      Open many connections and append one JSONL record per connection.
  capabilities   Report what this OpenSSL build can actually do, and which
                 project profiles are usable as a result.

CONNECTION OPTIONS
  --host <host>              Destination host (default localhost)
  --port <n>                 Destination port (default 8443)
  --server-name <name>       SNI and hostname-verification name (defaults to --host)
  --profile <id>             Security profile (default classical-x25519)
  --profiles-file <path>     YAML file extending the built-in profile catalogue
  --ca-certificate <path>    CA bundle used to verify the server certificate
  --certificate <path>       Client certificate for mutual TLS
  --private-key <path>       Client private key for mutual TLS
  --message <json>           Inline JSON message body
  --message-file <path>      Read the JSON message body from a file
  --metrics <path>           Append one JSONL record per connection
  --experiment-id <id>       Value recorded in the experiment_id metric field
  --max-frame-size <bytes>   Maximum accepted application frame (default 1048576)
  --handshake-timeout <ms>   Handshake deadline (default 10000)
  --io-timeout <ms>          Per-read/write deadline (default 30000)
  --config <path>            YAML configuration file; flags override it
  --log-level <level>        trace|debug|info|warn|error|off (default info)
  --json                     Machine-readable output on stdout

BENCHMARK OPTIONS
  --connections <n>          Total connections to open (default 1)
  --concurrency <n>          Connections in flight at once (default 1)
  --warmup <n>               Discarded warm-up connections (default 0)
  --messages-per-connection <n>  Messages per connection (default 1)
  --reuse-session            Attempt TLS session resumption
  --output <path>            Metrics destination for this run

DEVELOPMENT-ONLY OPTIONS
  --insecure-development-mode  Disable peer verification. Prints a warning and is
                               refused when PQTLS_ENV=production.
  --keylog-file <path>         Write TLS secrets for Wireshark. Same restrictions.

EXIT CODES
  0 success   2 configuration   3 capability   4 certificate   5 tls-policy
  6 handshake 7 network         8 protocol     9 timeout      70 internal".

Definition server_usage : string :=
"pqtls-server - TLS 1.3 research server with selectable key-establishment profiles

USAGE
  pqtls-server serve [options]
  pqtls-server capabilities [--json]
  pqtls-server validate-config --config <file>
  pqtls-server --version
  pqtls-server --help

COMMANDS
  serve             Listen for TLS 1.3 connections and answer framed JSON messages.
  capabilities      Report what this OpenSSL build can actually do, and which
                    project profiles are usable as a result.
  validate-config   Parse and validate a configuration file without listening.

SERVE OPTIONS
  --listen <addr>            Bind address (default 0.0.0.0)
  --port <n>                 Bind port (default 8443; 0 lets the kernel choose)
  --profile <id>             Security profile (default classical-x25519)
  --profiles-file <path>     YAML file extending the built-in profile catalogue
  --certificate <path>       Server certificate chain, PEM (required)
  --private-key <path>       Server private key, PEM (required)
  --ca-certificate <path>    CA bundle used to verify client certificates
  --require-client-cert      Require a client certificate (mutual TLS)
  --metrics <path>           Append one JSONL record per connection
  --experiment-id <id>       Value recorded in the experiment_id metric field
  --max-connections <n>      Worker pool size and accept-queue bound (default 256)
  --backlog <n>              TCP listen backlog (default 128)
  --max-frame-size <bytes>   Maximum accepted application frame (default 1048576)
  --handshake-timeout <ms>   Handshake deadline (default 10000)
  --io-timeout <ms>          Per-read/write deadline (default 30000)
  --max-messages <n>         Messages accepted per connection (default 1024)
  --config <path>            YAML configuration file; flags override it
  --log-level <level>        trace|debug|info|warn|error|off (default info)
  --json                     Machine-readable output on stdout

DEVELOPMENT-ONLY OPTIONS
  --insecure-development-mode  Disable peer verification. Prints a warning and is
                               refused when PQTLS_ENV=production.
  --keylog-file <path>         Write TLS secrets for Wireshark. Same restrictions.

EXIT CODES
  0 success   2 configuration   3 capability   4 certificate   5 tls-policy
  6 handshake 7 network         8 protocol     9 timeout      70 internal".

Definition insecure_mode_banner : string :=
"
  ############################################################
  #  WARNING: INSECURE DEVELOPMENT MODE                       #
  #                                                          #
  #  Certificate and hostname verification are DISABLED.     #
  #  This connection is NOT authenticated and offers NO      #
  #  protection against an active man-in-the-middle.         #
  #                                                          #
  #  Never use this outside local development.               #
  ############################################################

".

(** [std::puts] ends with a line break. *)
Definition usage_output (usage : string) : string := usage +:+ nl.

(** ** Reports *)

Definition yes_no (b : bool) : string := if b then "yes" else "no".

(** [print_connection_result], machine-readable. *)
Definition connection_document (result : ClientResult) : json :=
  set_all JNull
    [("metrics", ConnectionMetrics_to_json (cr_metrics result));
     ("responses", JArray (map Message_to_json (cr_responses result)))].

(** The same for a reader, up to the responses. *)
Definition connection_lines (result : ClientResult) : string :=
  let metrics := cr_metrics result in
  "connection " +:+ (if cr_ok result then "succeeded" else "FAILED") +:+ nl +:+
  "  peer              : " +:+ m_peer_address metrics +:+ nl +:+
  "  requested profile : " +:+ m_requested_profile metrics +:+ nl +:+
  "  TLS version       : " +:+ m_tls_version metrics +:+ nl +:+
  "  negotiated group  : " +:+ m_negotiated_group metrics +:+ nl +:+
  "  cipher suite      : " +:+ m_cipher_suite metrics +:+ nl +:+
  "  authentication    : " +:+ m_authentication metrics +:+ nl +:+
  "  session reused    : " +:+ yes_no (m_session_reused metrics) +:+ nl +:+
  "  handshake         : " +:+ print_double (m_handshake_ms metrics) +:+ " ms" +:+ nl +:+
  "  connection        : " +:+ print_double (m_connection_ms metrics) +:+ " ms" +:+ nl +:+
  "  bytes sent/recv   : " +:+ std_to_string (m_application_bytes_sent metrics) +:+ " / " +:+
    std_to_string (m_application_bytes_received metrics) +:+ nl +:+
  "  PQ key establishment : " +:+ yes_no (m_pq_key_establishment metrics) +:+
  (if m_pq_key_establishment metrics then
     if m_hybrid_key_establishment metrics then " (hybrid)" else " (pure ML-KEM)"
   else "") +:+ nl +:+
  "  PQ authentication    : " +:+ yes_no (m_pq_authentication metrics) +:+ nl +:+
  (if m_pq_key_establishment metrics && negb (m_pq_authentication metrics) then
     "  note: the key exchange is post-quantum but the server authenticated with a" +:+ nl +:+
     "        classical signature. This connection is not end-to-end quantum-safe." +:+ nl
   else "") +:+
  (if cr_ok result then ""
   else "  error category    : " +:+ ErrorCategory_to_string (m_error_category metrics) +:+ nl +:+
     match m_error_message metrics with
     | Some text => "  error             : " +:+ text +:+ nl
     | None => ""
     end).

Definition response_line (text : string) : string := "  response          : " +:+ text +:+ nl.

(** The report of [command_benchmark] for a reader. *)
Definition benchmark_lines (summary : BenchmarkSummary) (metrics_file : string) : string :=
  "benchmark complete" +:+ nl +:+
  "  profile     : " +:+ sum_profile_id summary +:+ nl +:+
  "  requested   : " +:+ std_to_string (requested_connections summary) +:+ nl +:+
  "  successful  : " +:+ std_to_string (successful summary) +:+ nl +:+
  "  failed      : " +:+ std_to_string (failed summary) +:+ nl +:+
  "  raw records : " +:+ metrics_file +:+ nl +:+ nl +:+
  "Summary statistics are computed from the raw records:" +:+ nl +:+
  "  python3 scripts/analyze-results.py " +:+ metrics_file +:+ nl.

(** The reports of [command_validate_config]. *)
Definition usable_here (availability : option ProfileAvailability) : bool :=
  match availability with Some a => usable a | None => false end.

Definition blocking (availability : option ProfileAvailability) : option string :=
  match availability with
  | Some a => if usable a then None else Some (blocking_reason a)
  | None => None
  end.

Definition config_document (config_file : string) (profile : SecurityProfile)
    (availability : option ProfileAvailability) : json :=
  set_all JNull
    ([("config", JString config_file); ("valid", JBool true); ("profile", JString (id profile));
      ("profile_usable", JBool (usable_here availability))] ++
     match blocking availability with Some reason => [("blocking_reason", JString reason)] | None => [] end).

Definition config_lines (config_file : string) (profile : SecurityProfile)
    (availability : option ProfileAvailability) : string :=
  "configuration '" +:+ config_file +:+ "' is valid" +:+ nl +:+
  "  profile      : " +:+ id profile +:+ nl +:+
  "  description  : " +:+ description profile +:+ nl +:+
  "  groups       : " +:+ openssl_groups_list profile +:+ nl +:+
  "  cipher suites: " +:+ openssl_ciphersuites_list profile +:+ nl +:+
  "  usable here  : " +:+ (if usable_here availability then "yes" else "NO") +:+ nl +:+
  match blocking availability with Some reason => "  reason       : " +:+ reason +:+ nl | None => "" end.

(** The line of the top-level handlers. *)
Definition error_line (x : exn) : string :=
  match x with
  | Raise _ e => Error_format e +:+ nl
  | _ => "error(internal): " +:+ exn_what x +:+ nl
  end.

(** ** The digits of a number *)

Lemma scale_down_spec fuel n d k :
  0 < d -> d <= n -> n < 10 * 10 ^ Z.of_nat fuel * d ->
  let '(n', d', k') := scale_down fuel n d k in
  n' = n /\ k <= k' <= k + Z.of_nat fuel /\ d' = d * 10 ^ (k' - k) /\ d' <= n < 10 * d'.
Proof.
  revert d k. induction fuel as [|fuel IH]; intros d k Hd Hn Hf; cbn [scale_down].
  { rewrite Z.sub_diag. simpl in *. lia. }
  destruct (Z.leb_spec (10 * d) n) as [H|H].
  - specialize (IH (10 * d) (k + 1) ltac:(lia) H). rewrite Nat2Z.inj_succ, Z.pow_succ_r in Hf by lia.
    specialize (IH ltac:(nia)). destruct (scale_down fuel n (10 * d) (k + 1)) as [[n' d'] k'].
    destruct IH as (-> & Hk & -> & Hr).
    replace (d * 10 ^ (k' - k)) with (10 * d * 10 ^ (k' - (k + 1))); [lia|].
    replace (k' - k) with (1 + (k' - (k + 1))) by lia. rewrite Z.pow_add_r by lia. lia.
  - rewrite Z.sub_diag. lia.
Qed.

Lemma scale_up_spec fuel n d k :
  0 < n -> n < 10 * d -> d <= 10 ^ Z.of_nat fuel * n ->
  let '(n', d', k') := scale_up fuel n d k in
  d' = d /\ k - Z.of_nat fuel <= k' <= k /\ n' = n * 10 ^ (k - k') /\ d <= n' < 10 * d.
Proof.
  revert n k. induction fuel as [|fuel IH]; intros n k Hn Hd Hf; cbn [scale_up].
  { rewrite Z.sub_diag. simpl in *. lia. }
  destruct (Z.ltb_spec n d) as [H|H].
  - rewrite Nat2Z.inj_succ, Z.pow_succ_r in Hf by lia.
    specialize (IH (10 * n) (k - 1) ltac:(lia) ltac:(lia) ltac:(nia)).
    destruct (scale_up fuel (10 * n) d (k - 1)) as [[n' d'] k'].
    destruct IH as (-> & Hk & -> & Hr).
    replace (n * 10 ^ (k - k')) with (10 * n * 10 ^ (k - 1 - k')); [lia|].
    replace (k - k') with (1 + (k - 1 - k')) by lia. rewrite Z.pow_add_r by lia. lia.
  - rewrite Z.sub_diag. lia.
Qed.

Lemma round_half_even_spec n d :
  0 < d -> 2 * Z.abs (round_half_even n d * d - n) <= d.
Proof.
  intros Hd. unfold round_half_even. pose proof (Z.div_mod n d ltac:(lia)) as E.
  pose proof (Z.mod_pos_bound n d Hd) as Hb. set (q := n / d) in *. set (r := n mod d) in *.
  destruct (Z.compare_spec (2 * r) d) as [H|H|H]; [destruct (Z.even q)|..]; nia.
Qed.

(** Within the range the fuel covers, [g * 10 ^ (k - 5)] is the fraction rounded to
    six digits. *)
Definition rounded_to (n d g k : Z) : Prop :=
  10 ^ 5 <= g < 10 ^ 6 /\
  2 * Z.abs (g * 10 ^ Z.max 0 (k - 5) * d - n * 10 ^ Z.max 0 (5 - k)) <= 10 ^ Z.max 0 (k - 5) * d.

Lemma scaled_round n d n' d' k :
  0 < d -> d' <= n' < 10 * d' ->
  (0 <= k /\ n' = n /\ d' = d * 10 ^ k) \/ (k <= 0 /\ d' = d /\ n' = n * 10 ^ (- k)) ->
  let g := round_half_even (n' * 10 ^ 5) d' in
  10 ^ 5 <= g <= 10 ^ 6 /\
  2 * Z.abs (g * 10 ^ Z.max 0 (k - 5) * d - n * 10 ^ Z.max 0 (5 - k)) <= 10 ^ Z.max 0 (k - 5) * d.
Proof.
  intros Hd Hn Hc. assert (Hd' : 0 < d').
  { destruct Hc as [(? & _ & ->)|(? & -> & _)]; [|done]. pose proof (Z.pow_pos_nonneg 10 k). nia. }
  pose proof (round_half_even_spec (n' * 10 ^ 5) d' Hd') as Hr. set (g := round_half_even _ _) in *.
  cbv zeta. split; [change (10 ^ 5) with 100000 in *; change (10 ^ 6) with 1000000; nia|].
  destruct Hc as [(Hk & -> & ->)|(Hk & -> & ->)].
  - destruct (Z.le_gt_cases 5 k) as [H5|H5].
    + replace (Z.max 0 (k - 5)) with (k - 5) by lia. replace (Z.max 0 (5 - k)) with 0 by lia.
      replace (10 ^ k) with (10 ^ (k - 5) * 10 ^ 5) in Hr by (rewrite <- Z.pow_add_r by lia; f_equal; lia).
      pose proof (Z.pow_pos_nonneg 10 (k - 5)). change (10 ^ 5) with 100000 in *. change (10 ^ 0) with 1.
      set (u := 10 ^ (k - 5)) in *. nia.
    + replace (Z.max 0 (k - 5)) with 0 by lia. replace (Z.max 0 (5 - k)) with (5 - k) by lia.
      replace (10 ^ 5) with (10 ^ k * 10 ^ (5 - k)) in Hr by (rewrite <- Z.pow_add_r by lia; f_equal; lia).
      pose proof (Z.pow_pos_nonneg 10 k). change (10 ^ 0) with 1. set (u := 10 ^ k) in *. nia.
  - replace (Z.max 0 (k - 5)) with 0 by lia. replace (Z.max 0 (5 - k)) with (5 - k) by lia.
    replace (10 ^ (5 - k)) with (10 ^ (- k) * 10 ^ 5) by (rewrite <- Z.pow_add_r by lia; f_equal; lia).
    change (10 ^ 0) with 1. lia.
Qed.

Lemma six_digits_correct n d :
  0 < n -> 0 < d -> n < 10 ^ 331 * d -> d <= 10 ^ 330 * n ->
  let '(g, k) := six_digits n d in rounded_to n d g k.
Proof.
  intros Hn Hd H1 H2. unfold six_digits, normalise. change (kPrecision - 1) with 5. change kPrecision with 6.
  destruct (if n <? d then _ else _) as [[n' d'] k] eqn:E.
  assert (Hs : d' <= n' < 10 * d' /\
    ((0 <= k /\ n' = n /\ d' = d * 10 ^ k) \/ (k <= 0 /\ d' = d /\ n' = n * 10 ^ (- k)))).
  { destruct (Z.ltb_spec n d) as [H|H].
    - pose proof (scale_up_spec scale_fuel n d 0 Hn ltac:(lia) H2) as Hu. rewrite E in Hu.
      destruct Hu as (-> & Hk & -> & Hr). rewrite Z.sub_0_l in *. split; [lia|right]. lia.
    - pose proof (scale_down_spec scale_fuel n d 0 Hd H) as Hu.
      specialize (Hu ltac:(replace (10 * 10 ^ Z.of_nat scale_fuel) with (10 ^ 331) by reflexivity; exact H1)).
      rewrite E in Hu. destruct Hu as (-> & Hk & -> & Hr). rewrite Z.sub_0_r in *. split; [lia|left]. lia. }
  destruct Hs as [Hr Hc]. destruct (scaled_round n d n' d' k Hd Hr Hc) as [Hg He].
  set (g := round_half_even _ _) in *. unfold rounded_to. destruct (Z.eqb_spec g (10 ^ 6)) as [->|Hne].
  - split; [split; [done|reflexivity]|]. destruct (Z.le_gt_cases 5 k) as [H5|H5].
    + replace (Z.max 0 (k - 5)) with (k - 5) in He by lia. replace (Z.max 0 (5 - k)) with 0 in He by lia.
      replace (Z.max 0 (k + 1 - 5)) with (k - 5 + 1) by lia. replace (Z.max 0 (5 - (k + 1))) with 0 by lia.
      rewrite Z.pow_add_r by lia. pose proof (Z.pow_pos_nonneg 10 (k - 5)). change (10 ^ 6) with 1000000 in He.
      change (10 ^ 5) with 100000. change (10 ^ 1) with 10. change (10 ^ 0) with 1 in *.
      set (u := 10 ^ (k - 5)) in *. nia.
    + replace (Z.max 0 (k - 5)) with 0 in He by lia. replace (Z.max 0 (5 - k)) with (4 - k + 1) in He by lia.
      replace (Z.max 0 (k + 1 - 5)) with 0 by lia. replace (Z.max 0 (5 - (k + 1))) with (4 - k) by lia.
      rewrite Z.pow_add_r in He by lia. change (10 ^ 6) with 1000000 in He.
      change (10 ^ 5) with 100000. change (10 ^ 1) with 10 in He. change (10 ^ 0) with 1 in *.
      set (u := 10 ^ (4 - k)) in *. lia.
  - split; [lia|exact He].
Qed.

(** A binary64 number that is not zero, infinite or NaN. *)
Lemma binary64_range m e :
  bounded 53 1024 m e = true -> Z.pos m < 2 ^ 53 /\ -1074 <= e <= 971.
Proof.
  unfold bounded, canonical_mantissa, fexp, emin. intros [H1%Zeq_bool_eq H2%Z.leb_le]%andb_prop.
  assert (Hm : Z.pos m < 2 ^ Z.pos (digits2_pos m)).
  { change (digits2_pos m) with (Pos.size m). rewrite <- Pos2Z.inj_pow. apply Pos2Z.pos_lt_pos, Pos.size_gt. }
  split; [|lia]. eapply Z.lt_le_trans; [exact Hm|]. apply Z.pow_le_mono_r; lia.
Qed.

(** Large powers as variables, for [nia]. *)
Ltac revert_powers :=
  generalize dependent (10 ^ 331); generalize dependent (10 ^ 330); generalize dependent (2 ^ 971);
  generalize dependent (2 ^ 1074); generalize dependent (2 ^ 53); intros.

(** A finite number is printed as its first six digits, correctly rounded. *)
Lemma print_double_digits s m e :
  bounded 53 1024 m e = true ->
  exists g k, rounded_to (Z.pos m * 2 ^ Z.max 0 e) (2 ^ Z.max 0 (- e)) g k /\
    print_double (S754_finite s m e) = (if s then "-" else "") +:+ layout g k.
Proof.
  intros [Hm He]%binary64_range. unfold print_double, print_positive.
  assert (H : let '(g, k) := if 0 <=? e then six_digits (Z.pos m * 2 ^ e) 1 else six_digits (Z.pos m) (2 ^ (- e)) in
              rounded_to (Z.pos m * 2 ^ Z.max 0 e) (2 ^ Z.max 0 (- e)) g k).
  { destruct (Z.leb_spec 0 e) as [H|H].
    - replace (Z.max 0 e) with e by lia. replace (Z.max 0 (- e)) with 0 by lia.
      assert (2 ^ e <= 2 ^ 971) by (apply Z.pow_le_mono_r; lia). pose proof (Z.pow_pos_nonneg 2 e).
      assert (2 ^ 53 * 2 ^ 971 < 10 ^ 331) by reflexivity. assert (1 <= 10 ^ 330) by (apply Z.leb_le; reflexivity).
      apply six_digits_correct; revert_powers; nia.
    - replace (Z.max 0 e) with 0 by lia. replace (Z.max 0 (- e)) with (- e) by lia.
      assert (2 ^ (- e) <= 2 ^ 1074) by (apply Z.pow_le_mono_r; lia). pose proof (Z.pow_pos_nonneg 2 (- e)).
      assert (2 ^ 1074 <= 10 ^ 330) by (apply Z.leb_le; reflexivity). assert (2 ^ 53 < 10 ^ 331) by reflexivity.
      change (2 ^ 0) with 1. rewrite Z.mul_1_r. apply six_digits_correct; revert_powers; nia. }
  destruct (if 0 <=? e then _ else _) as [g k]. exists g, k. split; [exact H|]. by destruct s.
Qed.
