(* ===== verification/Cli.v ===== *)
(** Command-line arguments: [src/common/cli_support.hpp].

    [argv] is the list of arguments after the program name.  The options are a
    [std::map], an ordered association list.  [configure_logging] leaves in the
    log where the default logger writes from then on, and from which level. *)

From S2P Require Import Prelude Errors Runtime Json Profile.

Record Arguments := mkArguments {
  command : string;
  options : list (string * string);
  positional : list string
}.

Definition has (args : Arguments) (name : string) : bool :=
  match obj_find (options args) name with Some _ => true | None => false end.

Definition value (args : Arguments) (name : string) : option string := obj_find (options args) name.

Definition apply_string (args : Arguments) (name : string) (target : string) : string :=
  match value args name with Some v => v | None => target end.

Definition apply_bool (args : Arguments) (name : string) (target : bool) : result bool :=
  match value args name with
  | None => Ok target
  | Some v =>
      if String.eqb v "true" || String.eqb v "1" || str_empty v then Ok true
      else if String.eqb v "false" || String.eqb v "0" then Ok false
      else Throw (ConfigurationError ("--" +:+ name +:+ " expects true or false, got '" +:+ v +:+ "'"))
  end.

(** [std::from_chars] on an unsigned 64-bit integer in base ten, with the
    requirement that it consumes the whole text: decimal digits only, at least
    one, and a value that fits. *)
Definition is_digit (c : ascii) : bool := (48 <=? N_of_ascii c)%N && (N_of_ascii c <=? 57)%N.

Fixpoint decimal (s : string) (acc : Z) : option Z :=
  match s with
  | EmptyString => Some acc
  | String c s' =>
      if is_digit c then decimal s' (10 * acc + (Z.of_N (N_of_ascii c) - 48)) else None
  end.

Definition from_chars_u64 (s : string) : option Z :=
  if str_empty s then None
  else match decimal s 0 with
       | Some z => if z <=? u64_max then Some z else None
       | None => None
       end.

(** [max] is the largest value of the target's type. *)
Definition apply_integer (max : Z) (args : Arguments) (name : string) (target : Z) : result Z :=
  match value args name with
  | None => Ok target
  | Some v =>
      match from_chars_u64 v with
      | None => Throw (ConfigurationError ("--" +:+ name +:+ " expects a non-negative integer, got '" +:+ v +:+ "'"))
      | Some parsed =>
          if parsed >? max then
            Throw (ConfigurationError ("--" +:+ name +:+ " value " +:+ v +:+ " is out of range"))
          else Ok parsed
      end
  end.

(** [token.find('=')] and the two halves. *)
Fixpoint split_equals (s : string) : option (string * string) :=
  match s with
  | EmptyString => None
  | String c s' =>
      if Ascii.eqb c "=" then Some (EmptyString, s')
      else match split_equals s' with
           | Some (name, v) => Some (String c name, v)
           | None => None
           end
  end.

(** [token.erase(0, 2)]. *)
Definition erase2 (s : string) : string :=
  match s with String _ (String _ s') => s' | String _ EmptyString | EmptyString => EmptyString end.

Definition is_flag (known_flags : list string) (name : string) : bool :=
  any_of known_flags (fun f => String.eqb f name).

(** The loop over the tokens after the command. *)
Fixpoint parse_tokens (known_flags : list string) (tokens : list string) (args : Arguments)
    : result Arguments :=
  match tokens with
  | [] => Ok args
  | token :: rest =>
      let set name v rest' :=
        parse_tokens known_flags rest' (mkArguments (command args) (obj_set (options args) name v) (positional args)) in
      if negb (starts_with token "--") then
        parse_tokens known_flags rest (mkArguments (command args) (options args) (positional args ++ [token]))
      else
        let token := erase2 token in
        match split_equals token with
        | Some (name, v) => set name v rest
        | None =>
            if is_flag known_flags token then set token "true" rest
            else match rest with
                 | [] => Throw (ConfigurationError ("option --" +:+ token +:+ " requires a value"))
                 | v :: rest' => set token v rest'
                 end
        end
  end.

Definition parse (known_flags : list string) (argv : list string) : result Arguments :=
  match argv with
  | first :: rest =>
      if negb (starts_with first "--") then parse_tokens known_flags rest (mkArguments first [] [])
      else parse_tokens known_flags argv (mkArguments "" [] [])
  | [] => Ok (mkArguments "" [] [])
  end.

Definition reject_unknown_options (args : Arguments) (accepted : list string) : result unit :=
  for_each (options args) (fun kv =>
    throw_if (negb (any_of accepted (fun a => String.eqb a kv.1)))
      (ConfigurationError ("unknown option --" +:+ kv.1 +:+
         ". Run with --help for the accepted options; unknown options are rejected so " +:+
         "that a typo cannot leave a different security policy in effect."))).

Definition parse_log_level (level : string) : result LogLevel :=
  if String.eqb level "trace" then Ok LevelTrace
  else if String.eqb level "debug" then Ok LevelDebug
  else if String.eqb level "info" then Ok LevelInfo
  else if String.eqb level "warn" then Ok LevelWarn
  else if String.eqb level "error" then Ok LevelErr
  else if String.eqb level "off" then Ok LevelOff
  else Throw (ConfigurationError ("unknown log level '" +:+ level +:+
                "'; expected trace, debug, info, warn, error or off")).

(** The logger is moved before the level is looked at. *)
Definition configure_logging {W} (level : string) (json_output : bool) : io W unit :=
  (if json_output then emit EvLogStderr else mret tt) ;;
  l ← liftM (parse_log_level level);
  emit (EvLogLevel l).

(** ** Lemmas *)

(** The ways to write an option, and a word that is none. *)
Inductive item :=
  | Assign (name v : string)     (* --name=v *)
  | Separate (name v : string)   (* --name v *)
  | Flag (name : string)         (* --name *)
  | Word (w : string).

Definition item_tokens (i : item) : list string :=
  match i with
  | Assign name v => ["--" +:+ name +:+ "=" +:+ v]
  | Separate name v => ["--" +:+ name; v]
  | Flag name => ["--" +:+ name]
  | Word w => [w]
  end.

Definition item_ok (known_flags : list string) (i : item) : Prop :=
  match i with
  | Assign name _ => split_equals name = None
  | Separate name _ => split_equals name = None /\ is_flag known_flags name = false
  | Flag name => split_equals name = None /\ is_flag known_flags name = true
  | Word w => starts_with w "--" = false
  end.

Definition item_setting (i : item) : option (string * string) :=
  match i with
  | Assign name v | Separate name v => Some (name, v)
  | Flag name => Some (name, "true")
  | Word _ => None
  end.

Definition words (items : list item) : list string :=
  omap (fun i => match i with Word w => Some w | _ => None end) items.

(** The last setting of a name wins. *)
Fixpoint last_setting (items : list item) (name : string) : option string :=
  match items with
  | [] => None
  | i :: rest =>
      match last_setting rest name with
      | Some v => Some v
      | None => match item_setting i with
                | Some (n, v) => if String.eqb n name then Some v else None
                | None => None
                end
      end
  end.

Lemma split_equals_app name v :
  split_equals name = None -> split_equals (name +:+ "=" +:+ v) = Some (name, v).
Proof.
  induction name as [|c name IH]; simpl; [done|]. destruct (Ascii.eqb c "="); [done|].
  destruct (split_equals name) as [[]|]; [done|]. intros _. by rewrite IH.
Qed.

Lemma starts_dashes s : starts_with ("--" +:+ s) "--" = true.
Proof. unfold starts_with. simpl. by destruct s. Qed.

Lemma erase2_dashes s : erase2 ("--" +:+ s) = s.
Proof. done. Qed.

(** One item. *)
Lemma parse_item flags i rest args :
  item_ok flags i ->
  parse_tokens flags (item_tokens i ++ rest) args =
  parse_tokens flags rest
    (match item_setting i with
     | Some (n, v) => mkArguments (command args) (obj_set (options args) n v) (positional args)
     | None => mkArguments (command args) (options args)
                 (positional args ++ match i with Word w => [w] | _ => [] end)
     end).
Proof.
  destruct i as [n v|n v|n|w]; cbn [item_tokens item_ok item_setting app]; intros Hok; cbn [parse_tokens].
  - rewrite starts_dashes. cbn [negb]. rewrite erase2_dashes, split_equals_app by done. done.
  - rewrite starts_dashes. cbn [negb]. rewrite erase2_dashes. destruct Hok as [-> ->]. done.
  - rewrite starts_dashes. cbn [negb]. rewrite erase2_dashes. destruct Hok as [-> ->]. done.
  - by rewrite Hok.
Qed.

Lemma parse_items flags items args :
  Forall (item_ok flags) items ->
  exists args', parse_tokens flags (concat (map item_tokens items)) args = Ok args' /\
    command args' = command args /\ positional args' = positional args ++ words items /\
    forall n, value args' n = match last_setting items n with Some v => Some v | None => value args n end.
Proof.
  intros H. revert args. induction H as [|i items Hi _ IH]; intros args.
  { exists args. simpl. by rewrite app_nil_r. }
  simpl. rewrite parse_item by done. edestruct IH as (args' & Hp & Hc & Hpos & Hv).
  exists args'. split; [exact Hp|]. rewrite Hc, Hpos. clear Hp IH.
  destruct (item_setting i) as [[n v]|] eqn:Es; simpl.
  - splits; [done|by destruct i|]. intros m. rewrite Hv. destruct (last_setting items m); [done|].
    unfold value. simpl. rewrite obj_find_set. by destruct (String.eqb n m).
  - splits; [done|destruct i; try done; simpl; by rewrite <- app_assoc|]. intros m. rewrite Hv.
    by destruct (last_setting items m).
Qed.

Lemma obj_find_In {A} (o : list (string * A)) k :
  (exists v, In (k, v) o) <-> exists v, obj_find o k = Some v.
Proof.
  induction o as [|[k0 v0] o IH]; simpl; [by split; intros []|].
  destruct (String.eqb_spec k0 k) as [->|Hne].
  - split; [eauto|]. intros _. exists v0. by left.
  - rewrite <- IH. split; intros [v Hv]; exists v; [|by right]. destruct Hv as [Hv|Hv]; [congruence|done].
Qed.

Lemma reject_exact args accepted :
  reject_unknown_options args accepted = Ok tt <-> forall n, has args n = true -> In n accepted.
Proof.
  unfold reject_unknown_options. rewrite for_each_ok. split.
  - intros H n Hn. unfold has in Hn. destruct (obj_find (options args) n) as [v|] eqn:E; [|done].
    destruct (proj2 (obj_find_In (options args) n)) as [v' Hv]; [eauto|].
    apply H, throw_if_ok in Hv. bool_props. apply any_of_true in Hv as (a & Ha & Heq).
    apply String.eqb_eq in Heq. simpl in Heq. by subst.
  - intros H [n v] Hin. apply throw_if_ok. apply negb_false_iff, any_of_true. exists n. simpl.
    split; [|apply String.eqb_refl]. apply H. unfold has.
    destruct (proj1 (obj_find_In (options args) n)) as [v' ->]; [eauto|done].
Qed.

Lemma reject_cases args accepted (P : string -> Prop) :
  (forall n, has args n = true <-> P n) ->
  match reject_unknown_options args accepted with
  | Ok _ => forall n, P n -> In n accepted
  | Throw x => exn_category x = CatConfiguration /\ exists n, P n /\ ~ In n accepted
  end.
Proof.
  intros HP. destruct (reject_unknown_options args accepted) as [[]|x] eqn:E.
  - intros n Hn. apply (proj1 (reject_exact args accepted) E), HP, Hn.
  - unfold reject_unknown_options in E. revert E.
    assert (Hin : forall kv, In kv (options args) -> P kv.1).
    { intros [k v] Hkv. apply HP. unfold has. simpl.
      destruct (proj1 (obj_find_In (options args) k)) as [v' ->]; [eauto|done]. }
    revert Hin. generalize (options args). induction l as [|[k v] l IH]; intros Hin E; [done|].
    cbn in E. destruct (any_of accepted (fun a => String.eqb a k)) eqn:Ea; cbn in E.
    + apply IH; [|exact E]. intros kv Hkv. apply Hin. by right.
    + injection E as <-. split; [done|]. exists k. split; [apply (Hin (k, v)); by left|].
      intros Hk. apply not_true_iff_false in Ea. apply Ea, any_of_true. exists k.
      split; [done|apply String.eqb_refl].
Qed.

(** The items in front of further tokens. *)
Lemma parse_items_app flags items rest args :
  Forall (item_ok flags) items -> exists args',
  parse_tokens flags (concat (map item_tokens items) ++ rest) args = parse_tokens flags rest args'.
Proof.
  intros H. revert args. induction H as [|i items Hi _ IH]; intros args; simpl; [eauto|].
  rewrite <- app_assoc, parse_item by done. apply IH.
Qed.

(** ** Claim *)

(** C38: The command line is read as written.  For a command and any sequence of
    options in any of the accepted spellings ([--name=v], [--name v] for a
    name that is not a flag, [--flag]) mixed with other words, [parse] returns
    the command, the words in order, and for every name the value of its last
    setting; a value may itself begin with dashes.  A trailing option that
    lacks its value is a configuration error.  [reject_unknown_options] then
    accepts exactly the command lines whose options are all declared, and
    otherwise raises a configuration error. *)
Theorem cli_parse_exact (flags : list string) (cmd : string) (items : list item) :
  starts_with cmd "--" = false -> Forall (item_ok flags) items ->
  (exists args, parse flags (cmd :: concat (map item_tokens items)) = Ok args /\
     command args = cmd /\ positional args = words items /\
     (forall n, value args n = last_setting items n) /\
     forall accepted,
       match reject_unknown_options args accepted with
       | Ok _ => forall n, last_setting items n <> None -> In n accepted
       | Throw x => exn_category x = CatConfiguration /\
           exists n, last_setting items n <> None /\ ~ In n accepted
       end) /\
  (forall n, split_equals n = None -> is_flag flags n = false ->
     parse flags (cmd :: concat (map item_tokens items) ++ ["--" +:+ n]) =
     Throw (ConfigurationError ("option --" +:+ n +:+ " requires a value"))).
Proof.
  intros Hc Hok. split.
  - destruct (parse_items flags items (mkArguments cmd [] []) Hok) as (args & Hp & H1 & H2 & H3).
    exists args. unfold parse. rewrite Hc. simpl.
    assert (Hv : forall n, value args n = last_setting items n)
      by (intros n; rewrite H3; by destruct (last_setting items n)).
    splits; try done. intros accepted. apply reject_cases. intros n.
    rewrite <- Hv. unfold has, value. by destruct (obj_find (options args) n).
  - intros n Hn Hf. unfold parse. rewrite Hc. simpl.
    destruct (parse_items_app flags items ["--" +:+ n] (mkArguments cmd [] []) Hok) as [args' ->].
    cbn [parse_tokens]. rewrite starts_dashes. cbn [negb].
    by rewrite erase2_dashes, Hn, Hf.
Qed.

Lemma cli_parse_exact_witness :
  exists args, parse ["json"] ["connect"; "--profile"; "a"; "--json"; "--profile=--b"] = Ok args /\
    value args "profile" = Some "--b" /\ value args "json" = Some "true".
Proof.
  destruct (cli_parse_exact ["json"] "connect" [Separate "profile" "a"; Flag "json"; Assign "profile" "--b"])
    as [(args & Hp & _ & _ & Hv & _) _].
  - reflexivity.
  - repeat constructor.
  - exists args. split; [exact Hp|]. split; rewrite Hv; reflexivity.
Defined.
