(* ===== verification/Main.v ===== *)
(** The two programs: [src/client/main.cpp] and [src/server/main.cpp].

    A program is its exit status and what it did, what it printed included
    ([EvOut], [EvErr]; the texts are in [Output]).  Logging and the
    installation of the signal handler have no counterpart.  [run_benchmark] and
    [PqTlsServer::run] are multithreaded and modelled as step relations
    ([Benchmark], [ServerPool]); here they are arguments of the commands that
    call them, any computations that end with a summary, or return, or throw.
    So is [build_info.hpp], which the build generates. *)

From S2P Require Import Prelude Errors Runtime Json Framing Identifiers Message Profile ProfileYaml.
From S2P Require Import Config Transport Metrics TlsContext Capabilities Server Client Benchmark.
From S2P Require Import Output Cli.

(** ** Options *)

Definition client_kFlags : list string :=
  ["json"; "help"; "version"; "insecure-development-mode"; "reuse-session"].

Definition client_kAcceptedOptions : list string :=
  ["host"; "port"; "server-name"; "profile"; "profiles-file"; "ca-certificate"; "certificate";
   "private-key"; "message"; "message-file"; "metrics"; "experiment-id"; "max-frame-size";
   "handshake-timeout"; "io-timeout"; "config"; "log-level"; "json"; "help"; "version";
   "insecure-development-mode"; "keylog-file"; "connections"; "concurrency"; "warmup";
   "messages-per-connection"; "reuse-session"; "output"].

(** [build_config] after the file was loaded. *)
Definition client_apply_options (args : Arguments) (config : ClientConfig) : result ClientConfig :=
  let c := c_common config in
  v_port ← apply_integer u16_max args "port" (c_port config);
  v_insecure ← apply_bool args "insecure-development-mode" (insecure_development_mode c);
  v_reuse ← apply_bool args "reuse-session" (reuse_session config);
  v_frame ← apply_integer u32_max args "max-frame-size" (max_frame_size c);
  v_handshake ← apply_integer u32_max args "handshake-timeout" (handshake_timeout_ms c);
  v_io ← apply_integer u32_max args "io-timeout" (io_timeout_ms c);
  v_connections ← apply_integer u32_max args "connections" (connections config);
  v_concurrency ← apply_integer u32_max args "concurrency" (concurrency config);
  v_warmup ← apply_integer u32_max args "warmup" (warmup_connections config);
  v_messages ← apply_integer u32_max args "messages-per-connection" (messages_per_connection config);
  let v_output := apply_string args "output" (benchmark_output config) in
  let v_metrics := apply_string args "metrics" (metrics_file c) in
  Ok (mkClientConfig
        (mkCommonConfig (apply_string args "profile" (profile_id c))
           (apply_string args "profiles-file" (profiles_file c))
           (apply_string args "certificate" (certificate_file c))
           (apply_string args "private-key" (private_key_file c))
           (apply_string args "ca-certificate" (ca_certificate_file c))
           (if negb (str_empty v_output) && str_empty v_metrics then v_output else v_metrics)
           (apply_string args "experiment-id" (experiment_id c))
           v_frame v_handshake v_io
           (if has args "json" then Config.Json else output_format c)
           (apply_string args "log-level" (log_level c)) v_insecure
           (apply_string args "keylog-file" (keylog_file c)))
        (apply_string args "host" (host config)) v_port
        (apply_string args "server-name" (server_name config))
        (apply_string args "message" (message config))
        (apply_string args "message-file" (message_file config))
        v_connections v_concurrency v_warmup v_reuse v_messages v_output).

Definition server_kFlags : list string :=
  ["json"; "help"; "version"; "insecure-development-mode"; "require-client-cert"].

Definition server_kAcceptedOptions : list string :=
  ["listen"; "port"; "profile"; "profiles-file"; "certificate"; "private-key"; "ca-certificate";
   "require-client-cert"; "metrics"; "experiment-id"; "max-connections"; "backlog";
   "max-frame-size"; "handshake-timeout"; "io-timeout"; "max-messages"; "config"; "log-level";
   "json"; "help"; "version"; "insecure-development-mode"; "keylog-file"].

Definition server_apply_options (args : Arguments) (config : ServerConfig) : result ServerConfig :=
  let c := s_common config in
  v_port ← apply_integer u16_max args "port" (s_port config);
  v_require ← apply_bool args "require-client-cert" (s_require_client_certificate config);
  v_insecure ← apply_bool args "insecure-development-mode" (insecure_development_mode c);
  v_max ← apply_integer u32_max args "max-connections" (max_connections config);
  v_backlog ← apply_integer u32_max args "backlog" (backlog config);
  v_frame ← apply_integer u32_max args "max-frame-size" (max_frame_size c);
  v_handshake ← apply_integer u32_max args "handshake-timeout" (handshake_timeout_ms c);
  v_io ← apply_integer u32_max args "io-timeout" (io_timeout_ms c);
  v_messages ← apply_integer u32_max args "max-messages" (max_messages_per_connection config);
  Ok (mkServerConfig
        (mkCommonConfig (apply_string args "profile" (profile_id c))
           (apply_string args "profiles-file" (profiles_file c))
           (apply_string args "certificate" (certificate_file c))
           (apply_string args "private-key" (private_key_file c))
           (apply_string args "ca-certificate" (ca_certificate_file c))
           (apply_string args "metrics" (metrics_file c))
           (apply_string args "experiment-id" (experiment_id c))
           v_frame v_handshake v_io
           (if has args "json" then Config.Json else output_format c)
           (apply_string args "log-level" (log_level c)) v_insecure
           (apply_string args "keylog-file" (keylog_file c)))
        (apply_string args "listen" (listen_address config)) v_port v_max v_backlog
        (idle_timeout_ms config) v_messages v_require).

(** ** Commands *)

(** Files the client reads. *)
Class FileApi (W : Type) := {
  read_file : string -> ext W (option string)
}.

Section main.
Context {W : Type} {RA : RuntimeApi W} {J : JsonLib} {Y : YamlLib W} {EA : EnvApi W} {SA : SocketApi W}
  {LA : SslApi W} {CA : CtxApi W} {PA : CapApi W} {MA : MetricsApi W} {KA : ClientApi W} {FA : FileApi W}.

(** The arguments that stand for the multithreaded parts. *)
Context (run_benchmark : ClientConfig -> ProfileRegistry -> MetricsWriter -> io W BenchmarkSummary)
  (server_run : ServerConfig -> TlsContext -> option MetricsWriter -> io W unit).

Definition load_registry (profiles_file : string) : io W ProfileRegistry :=
  if str_empty profiles_file then liftM registry_builtin else registry_from_yaml_file profiles_file.

(** Warnings of a configuration file. *)
Fixpoint log_warnings (warnings : list string) : io W unit :=
  match warnings with
  | [] => mret tt
  | warning :: rest => log_at LevelWarn warning ;; log_warnings rest
  end.

Definition client_build_config (args : Arguments) : io W ClientConfig :=
  config ← match value args "config" with
           | Some config_file =>
               '(config, warnings) ← load_client_yaml config_file ClientConfig_default [];
               log_warnings warnings ;; mret config
           | None => mret ClientConfig_default
           end;
  liftM (client_apply_options args config).

Definition server_build_config (args : Arguments) : io W ServerConfig :=
  config ← match value args "config" with
           | Some config_file =>
               '(config, warnings) ← load_server_yaml config_file ServerConfig_default [];
               log_warnings warnings ;; mret config
           | None => mret ServerConfig_default
           end;
  liftM (server_apply_options args config).

Definition build_message (config : ClientConfig) : io W Message :=
  body ← (if negb (str_empty (message_file config)) then
            content ← call (read_file (message_file config));
            match content with
            | Some text => mret text
            | None => throwM (ConfigurationError ("cannot read the message file '" +:+ message_file config +:+ "'"))
            end
          else mret (message config));
  if str_empty body then make_request Ping JNull
  else
    doc ← liftM (match json_parse body with
                 | Parsed doc => Ok doc
                 | ParseError what => Throw (ConfigurationError ("--message is not valid JSON: " +:+ what))
                 | ParseException what => Throw (RaiseStd what)
                 end);
    liftM (throw_if (negb (is_object doc)) (ConfigurationError "--message must be a JSON object")) ;;
    let doc := if json_contains doc "protocol_version" then doc
               else json_set doc "protocol_version" (JInt kProtocolVersion) in
    doc ← (if json_contains doc "message_id" then mret doc
           else u ← generate_uuid_v4; mret (json_set doc "message_id" (JString u)));
    doc ← (if json_contains doc "timestamp" then mret doc
           else t ← iso8601_now; mret (json_set doc "timestamp" (JString t)));
    text ← liftM (json_dump doc);
    Message_parse text.

(** [std::cout], and [stderr] through [std::fputs]. *)
Definition print_out (text : string) : io W unit := emit (EvOut text).
Definition print_err (text : string) : io W unit := emit (EvErr text).

Definition print_document (doc : json) : io W unit :=
  text ← liftM (json_pretty doc); print_out (text +:+ nl).

Definition print_insecure_mode_banner : io W unit := print_err insecure_mode_banner.

Definition warn_if_insecure (common : CommonConfig) : io W unit :=
  if insecure_development_mode common then print_insecure_mode_banner else mret tt.

Fixpoint print_responses (responses : list Message) : io W unit :=
  match responses with
  | [] => mret tt
  | response :: rest =>
      text ← liftM (Message_serialize response);
      print_out (response_line text) ;; print_responses rest
  end.

Definition print_connection_result (result : ClientResult) (config : ClientConfig) : io W unit :=
  match output_format (c_common config) with
  | Config.Json => print_document (connection_document result)
  | Human => print_out (connection_lines result) ;; print_responses (cr_responses result)
  end.

Definition command_capabilities (args : Arguments) : io W Z :=
  registry ← load_registry (default "" (value args "profiles-file"));
  capabilities ← Capabilities_detect registry;
  (if has args "json" then print_document (Capabilities_to_json capabilities)
   else print_out (to_human_readable capabilities)) ;;
  mret (exit_code_int ExitSuccess).

Definition command_connect (args : Arguments) : io W Z :=
  config ← client_build_config args;
  validate_client config ;;
  warn_if_insecure (c_common config) ;;
  registry ← load_registry (profiles_file (c_common config));
  message ← build_message config;
  writer ← (if negb (str_empty (metrics_file (c_common config))) then
              w ← MetricsWriter_new (metrics_file (c_common config)); mret (Some w)
            else mret None);
  context ← PqTlsClient_new config registry;
  with_client context (
    result ← run_once config context writer
               (repeat message (Z.to_nat (messages_per_connection config)));
    lift_io (print_connection_result result config ;;
             mret (exit_code_int (if cr_ok result then ExitSuccess
                                  else exit_code_for (m_error_category (cr_metrics result)))))).

Definition with_connections (config : ClientConfig) (n : Z) : ClientConfig :=
  mkClientConfig (c_common config) (host config) (c_port config) (server_name config) (message config)
    (message_file config) n (concurrency config) (warmup_connections config) (reuse_session config)
    (messages_per_connection config) (benchmark_output config).

Definition command_benchmark (args : Arguments) : io W Z :=
  config ← client_build_config args;
  let config := if connections config <? 1 then with_connections config 1 else config in
  validate_client config ;;
  liftM (throw_if (str_empty (metrics_file (c_common config)))
    (ConfigurationError
      ("benchmark requires --output (or --metrics) so that raw per-connection measurements " +:+
       "are preserved. Summary statistics without the underlying data are not reproducible."))) ;;
  registry ← load_registry (profiles_file (c_common config));
  writer ← MetricsWriter_new (metrics_file (c_common config));
  log_at LevelInfo ("benchmarking profile '" +:+ profile_id (c_common config) +:+ "': " +:+
    std_to_string (connections config) +:+ " connections at concurrency " +:+
    std_to_string (concurrency config)) ;;
  summary ← run_benchmark config registry writer;
  MetricsWriter_flush writer ;;
  (match output_format (c_common config) with
   | Config.Json => print_document (BenchmarkSummary_to_json summary)
   | Human => print_out (benchmark_lines summary (metrics_file (c_common config)))
   end) ;;
  mret (exit_code_int (if successful summary =? 0 then ExitHandshakeError else ExitSuccess)).

Definition command_validate_config (args : Arguments) : io W Z :=
  match value args "config" with
  | None => throwM (ConfigurationError "validate-config requires --config <file>")
  | Some config_file =>
      config ← server_build_config args;
      validate_server config ;;
      registry ← load_registry (profiles_file (s_common config));
      profile ← liftM (registry_get registry (profile_id (s_common config)));
      capabilities ← Capabilities_detect registry;
      let availability := Capabilities_profile capabilities (id profile) in
      (if has args "json" then print_document (config_document config_file profile availability)
       else print_out (config_lines config_file profile availability)) ;;
      mret (exit_code_int (if usable_here availability then ExitSuccess else ExitCapabilityError))
  end.

Definition command_serve (args : Arguments) : io W Z :=
  config ← server_build_config args;
  validate_server config ;;
  warn_if_insecure (s_common config) ;;
  registry ← load_registry (profiles_file (s_common config));
  capabilities ← Capabilities_detect registry;
  (match Capabilities_profile capabilities (profile_id (s_common config)) with
   | Some a =>
       if usable a then mret tt
       else throwM (CapabilityError ("profile '" +:+ profile_id (s_common config) +:+
                      "' cannot be used on this host: " +:+ blocking_reason a)
                      ["run 'pqtls-server capabilities' for the full picture"])
   | None => mret tt
   end) ;;
  writer ← (if negb (str_empty (metrics_file (s_common config))) then
              w ← MetricsWriter_new (metrics_file (s_common config)); mret (Some w)
            else mret None);
  context ← PqTlsServer_new config registry;
  scoped (dispose ObjCtx (ctx_handle context)) (
    server_run config context writer ;;
    mret (exit_code_int ExitSuccess)).

(** ** The programs *)

(** What [build_info.hpp] says about the build. *)
Context (info : BuildInfo).

(** The part of [main] both programs share; [dispatch] runs a command. *)
Definition program (usage : string) (flags accepted : list string) (dispatch : Arguments -> io W Z)
    (argv : list string) : io W Z :=
  args ← liftM (parse flags argv);
  if has args "help" || String.eqb (command args) "help" || str_empty (command args) then
    print_out (usage_output usage) ;;
    mret (exit_code_int (if str_empty (command args) && negb (has args "help")
                         then ExitConfigurationError else ExitSuccess))
  else if has args "version" then
    print_out (version_banner info +:+ nl) ;;
    mret (exit_code_int ExitSuccess)
  else
    liftM (reject_unknown_options args accepted) ;;
    configure_logging (apply_string args "log-level" "info") (has args "json") ;;
    dispatch args.

(** The handlers around it: a project error is printed and exits with the code
    of its category, any other exception with 70. *)
Definition top_level (body : io W Z) : io W Z :=
  try_catch body is_exception (fun x =>
    print_err (error_line x) ;;
    mret (exit_code_int (if is_Error x then exit_code_for (exn_category x) else ExitInternalError))).

Definition client_dispatch (args : Arguments) : io W Z :=
  if String.eqb (command args) "capabilities" then command_capabilities args
  else if String.eqb (command args) "connect" then command_connect args
  else if String.eqb (command args) "benchmark" then command_benchmark args
  else throwM (ConfigurationError ("unknown command '" +:+ command args +:+
                 "'. Expected connect, benchmark or capabilities.")).

Definition server_dispatch (args : Arguments) : io W Z :=
  if String.eqb (command args) "capabilities" then command_capabilities args
  else if String.eqb (command args) "validate-config" then command_validate_config args
  else if String.eqb (command args) "serve" then command_serve args
  else throwM (ConfigurationError ("unknown command '" +:+ command args +:+
                 "'. Expected serve, capabilities or validate-config.")).

Definition client_main (argv : list string) : io W Z :=
  top_level (program client_usage client_kFlags client_kAcceptedOptions client_dispatch argv).

Definition server_main (argv : list string) : io W Z :=
  top_level (program server_usage server_kFlags server_kAcceptedOptions server_dispatch argv).

End main.
