(* ===== verification/MainSpec.v ===== *)
(** Theorems on the two programs: what the command line does to a
    configuration, and that a run that starts no threads ends with a documented
    exit status. *)

From S2P Require Import Prelude Errors Runtime Json Framing Identifiers Message Profile ProfileYaml.
From S2P Require Import Config Transport Metrics TlsContext Gate Capabilities Server ServerLoop.
From S2P Require Import ServerSpec Client ClientSpec Benchmark Output Cli Main.

(** ** Precedence of the settings *)

(** An option given on the command line replaces what was there. *)
Definition chosen_string (args : Arguments) (name old new : string) : Prop :=
  new = match value args name with Some v => v | None => old end.

Definition chosen_integer (max : Z) (args : Arguments) (name : string) (old new : Z) : Prop :=
  match value args name with
  | Some v => from_chars_u64 v = Some new /\ new <= max
  | None => new = old
  end.

Definition chosen_bool (args : Arguments) (name : string) (old new : bool) : Prop :=
  match value args name with
  | Some v => if new then v = "true" \/ v = "1" \/ v = "" else v = "false" \/ v = "0"
  | None => new = old
  end.

Lemma apply_integer_ok max args name old new :
  apply_integer max args name old = Ok new -> chosen_integer max args name old new.
Proof.
  unfold apply_integer, chosen_integer. destruct (value args name) as [v|]; [|by intros [= ->]].
  destruct (from_chars_u64 v) as [z|]; [|done]. destruct (z >? max) eqn:E; [done|].
  intros [= <-]. split; [done|]. lia.
Qed.

Lemma apply_bool_ok args name old new :
  apply_bool args name old = Ok new -> chosen_bool args name old new.
Proof.
  unfold apply_bool, chosen_bool. destruct (value args name) as [v|]; [|by intros [= ->]].
  destruct (String.eqb_spec v "true"), (String.eqb_spec v "1"), (str_empty v) eqn:E; simpl;
    try (intros [= <-]; bool_props; by auto).
  destruct (String.eqb_spec v "false"), (String.eqb_spec v "0"); simpl; try done; intros [= <-]; auto.
Qed.

Lemma decimal_nonneg s acc z : 0 <= acc -> decimal s acc = Some z -> 0 <= z.
Proof.
  revert acc. induction s as [|c s IH]; simpl; intros acc Ha; [by intros [= <-]|].
  destruct (is_digit c) eqn:E; [|done]. apply IH. unfold is_digit in E. bool_props.
  apply N.leb_le in H. lia.
Qed.

Lemma chosen_integer_range max args name old new :
  0 <= old <= max -> chosen_integer max args name old new -> 0 <= new <= max.
Proof.
  unfold chosen_integer. intros Ho. destruct (value args name) as [v|]; [|by intros ->].
  intros [Hf Hm]. split; [|done]. unfold from_chars_u64 in Hf.
  destruct (str_empty v); [done|]. destruct (decimal v 0) as [z|] eqn:E; [|done].
  destruct (z <=? u64_max); [|done]. injection Hf as <-. eapply decimal_nonneg, E. lia.
Qed.

(** An option that is given but cannot be read: [numbers] with their largest
    values, [switches]. *)
Definition misread (numbers : list (string * Z)) (switches : list string) (args : Arguments) : Prop :=
  (exists name max v, In (name, max) numbers /\ value args name = Some v /\
     match from_chars_u64 v with Some z => max < z | None => True end) \/
  (exists name v, In name switches /\ value args name = Some v /\ ~ In v ["true"; "1"; ""; "false"; "0"]).

Definition client_numbers : list (string * Z) :=
  [("port", u16_max); ("max-frame-size", u32_max); ("handshake-timeout", u32_max); ("io-timeout", u32_max);
   ("connections", u32_max); ("concurrency", u32_max); ("warmup", u32_max); ("messages-per-connection", u32_max)].

Definition client_switches : list string := ["insecure-development-mode"; "reuse-session"].

Definition server_numbers : list (string * Z) :=
  [("port", u16_max); ("max-connections", u32_max); ("backlog", u32_max); ("max-frame-size", u32_max);
   ("handshake-timeout", u32_max); ("io-timeout", u32_max); ("max-messages", u32_max)].

Definition server_switches : list string := ["require-client-cert"; "insecure-development-mode"].

Lemma apply_integer_throw numbers switches max args name old x :
  In (name, max) numbers -> apply_integer max args name old = Throw x ->
  exn_category x = CatConfiguration /\ misread numbers switches args.
Proof.
  unfold apply_integer. intros Hin. destruct (value args name) as [v|] eqn:E; [|done].
  destruct (from_chars_u64 v) as [z|] eqn:Ez.
  - destruct (z >? max) eqn:Em; [|done]. intros [= <-]. split; [done|]. left. exists name, max, v.
    rewrite Ez. splits; [done|done|lia].
  - intros [= <-]. split; [done|]. left. exists name, max, v. by rewrite Ez.
Qed.

Lemma apply_bool_throw numbers switches args name old x :
  In name switches -> apply_bool args name old = Throw x ->
  exn_category x = CatConfiguration /\ misread numbers switches args.
Proof.
  unfold apply_bool. intros Hin. destruct (value args name) as [v|] eqn:E; [|done].
  destruct (String.eqb_spec v "true"), (String.eqb_spec v "1"), (str_empty v) eqn:Ee; simpl; try done.
  destruct (String.eqb_spec v "false"), (String.eqb_spec v "0"); simpl; try done.
  intros [= <-]. split; [done|]. right. exists name, v. splits; [done|done|].
  apply str_empty_false in Ee. simpl. intuition congruence.
Qed.

Lemma result_bind_throw {A B} (r : result A) (k : A -> result B) x (P : Prop) :
  (r = Throw x -> P) -> (forall a, k a = Throw x -> P) -> r ≫= k = Throw x -> P.
Proof. destruct r as [a|e]; intros Hr Hk H; [by eapply Hk|injection H as ->; by apply Hr]. Qed.

Ltac misread_option :=
  apply result_bind_throw; [first [apply apply_integer_throw|apply apply_bool_throw]; simpl; tauto|intros ?].

Lemma client_apply_options_throw args old x :
  client_apply_options args old = Throw x ->
  exn_category x = CatConfiguration /\ misread client_numbers client_switches args.
Proof. unfold client_apply_options. cbv zeta. repeat misread_option. discriminate. Qed.

Lemma server_apply_options_throw args old x :
  server_apply_options args old = Throw x ->
  exn_category x = CatConfiguration /\ misread server_numbers server_switches args.
Proof. unfold server_apply_options. cbv zeta. repeat misread_option. discriminate. Qed.

(** Every field of a client configuration against the one it started from. *)
Record client_overridden (args : Arguments) (old new : ClientConfig) : Prop := {
  co_profile : chosen_string args "profile" (profile_id (c_common old)) (profile_id (c_common new));
  co_profiles_file : chosen_string args "profiles-file" (profiles_file (c_common old)) (profiles_file (c_common new));
  co_certificate : chosen_string args "certificate" (certificate_file (c_common old)) (certificate_file (c_common new));
  co_private_key : chosen_string args "private-key" (private_key_file (c_common old)) (private_key_file (c_common new));
  co_ca : chosen_string args "ca-certificate" (ca_certificate_file (c_common old)) (ca_certificate_file (c_common new));
  co_experiment : chosen_string args "experiment-id" (experiment_id (c_common old)) (experiment_id (c_common new));
  co_keylog : chosen_string args "keylog-file" (keylog_file (c_common old)) (keylog_file (c_common new));
  co_log : chosen_string args "log-level" (log_level (c_common old)) (log_level (c_common new));
  co_host : chosen_string args "host" (host old) (host new);
  co_server_name : chosen_string args "server-name" (server_name old) (server_name new);
  co_message : chosen_string args "message" (message old) (message new);
  co_message_file : chosen_string args "message-file" (message_file old) (message_file new);
  co_output : chosen_string args "output" (benchmark_output old) (benchmark_output new);
  (* --output stands in for --metrics when that is empty *)
  co_metrics : exists m, chosen_string args "metrics" (metrics_file (c_common old)) m /\
    metrics_file (c_common new) = if str_empty m then benchmark_output new else m;
  co_insecure : chosen_bool args "insecure-development-mode"
    (insecure_development_mode (c_common old)) (insecure_development_mode (c_common new));
  co_reuse : chosen_bool args "reuse-session" (reuse_session old) (reuse_session new);
  co_port : chosen_integer u16_max args "port" (c_port old) (c_port new);
  co_frame : chosen_integer u32_max args "max-frame-size" (max_frame_size (c_common old)) (max_frame_size (c_common new));
  co_handshake : chosen_integer u32_max args "handshake-timeout"
    (handshake_timeout_ms (c_common old)) (handshake_timeout_ms (c_common new));
  co_io : chosen_integer u32_max args "io-timeout" (io_timeout_ms (c_common old)) (io_timeout_ms (c_common new));
  co_connections : chosen_integer u32_max args "connections" (connections old) (connections new);
  co_concurrency : chosen_integer u32_max args "concurrency" (concurrency old) (concurrency new);
  co_warmup : chosen_integer u32_max args "warmup" (warmup_connections old) (warmup_connections new);
  co_messages : chosen_integer u32_max args "messages-per-connection"
    (messages_per_connection old) (messages_per_connection new);
  co_format : output_format (c_common new) = if has args "json" then Config.Json else output_format (c_common old)
}.

Lemma client_apply_options_ok args old new :
  client_apply_options args old = Ok new -> client_overridden args old new.
Proof.
  unfold client_apply_options. cbv zeta. intros H.
  repeat (apply result_bind_ok in H as (? & ? & H)). injection H as <-.
  constructor; simpl; try reflexivity; try (by apply apply_integer_ok); try (by apply apply_bool_ok).
  exists (apply_string args "metrics" (metrics_file (c_common old))). split; [done|].
  destruct (str_empty (apply_string args "metrics" _)) eqn:E; [|by rewrite andb_false_r].
  destruct (str_empty (apply_string args "output" _)) eqn:E2; simpl; [|done].
  bool_props. congruence.
Qed.

(** Every field of a server configuration. *)
Record server_overridden (args : Arguments) (old new : ServerConfig) : Prop := {
  so_profile : chosen_string args "profile" (profile_id (s_common old)) (profile_id (s_common new));
  so_profiles_file : chosen_string args "profiles-file" (profiles_file (s_common old)) (profiles_file (s_common new));
  so_certificate : chosen_string args "certificate" (certificate_file (s_common old)) (certificate_file (s_common new));
  so_private_key : chosen_string args "private-key" (private_key_file (s_common old)) (private_key_file (s_common new));
  so_ca : chosen_string args "ca-certificate" (ca_certificate_file (s_common old)) (ca_certificate_file (s_common new));
  so_metrics : chosen_string args "metrics" (metrics_file (s_common old)) (metrics_file (s_common new));
  so_experiment : chosen_string args "experiment-id" (experiment_id (s_common old)) (experiment_id (s_common new));
  so_keylog : chosen_string args "keylog-file" (keylog_file (s_common old)) (keylog_file (s_common new));
  so_log : chosen_string args "log-level" (log_level (s_common old)) (log_level (s_common new));
  so_listen : chosen_string args "listen" (listen_address old) (listen_address new);
  so_insecure : chosen_bool args "insecure-development-mode"
    (insecure_development_mode (s_common old)) (insecure_development_mode (s_common new));
  so_require : chosen_bool args "require-client-cert"
    (s_require_client_certificate old) (s_require_client_certificate new);
  so_port : chosen_integer u16_max args "port" (s_port old) (s_port new);
  so_max : chosen_integer u32_max args "max-connections" (max_connections old) (max_connections new);
  so_backlog : chosen_integer u32_max args "backlog" (backlog old) (backlog new);
  so_frame : chosen_integer u32_max args "max-frame-size" (max_frame_size (s_common old)) (max_frame_size (s_common new));
  so_handshake : chosen_integer u32_max args "handshake-timeout"
    (handshake_timeout_ms (s_common old)) (handshake_timeout_ms (s_common new));
  so_io : chosen_integer u32_max args "io-timeout" (io_timeout_ms (s_common old)) (io_timeout_ms (s_common new));
  so_messages : chosen_integer u32_max args "max-messages"
    (max_messages_per_connection old) (max_messages_per_connection new);
  (* no option sets the idle timeout *)
  so_idle : idle_timeout_ms new = idle_timeout_ms old;
  so_format : output_format (s_common new) = if has args "json" then Config.Json else output_format (s_common old)
}.

Lemma server_apply_options_ok args old new :
  server_apply_options args old = Ok new -> server_overridden args old new.
Proof.
  unfold server_apply_options. cbv zeta. intros H.
  repeat (apply result_bind_ok in H as (? & ? & H)). injection H as <-.
  constructor; simpl; first [reflexivity|by apply apply_integer_ok|by apply apply_bool_ok].
Qed.

Lemma server_overridden_typed args old new :
  server_typed old -> server_overridden args old new -> server_typed new.
Proof.
  intros [[] ] []. constructor; [constructor|..]; unfold is_u16, is_u32 in *;
    try (eapply chosen_integer_range; [|eassumption]; done). congruence.
Qed.

Lemma client_overridden_typed args old new :
  client_typed old -> client_overridden args old new -> client_typed new.
Proof.
  intros [[] ] []. constructor; [constructor|..]; unfold is_u16, is_u32 in *;
    (eapply chosen_integer_range; [|eassumption]; done).
Qed.

Section config.
Context {W : Type} {Y : YamlLib W}.

(** The configuration the options are applied to. *)
Definition client_base (args : Arguments) (s : St W) (base : ClientConfig) : Prop :=
  match value args "config" with
  | None => base = ClientConfig_default
  | Some path => exists w s1, load_client_yaml path ClientConfig_default [] s = (Ok (base, w), s1)
  end.

Lemma client_build_config_ok args s new s' :
  as_uint32_typed -> client_build_config args s = (Ok new, s') ->
  exists base, client_base args s base /\ client_overridden args base new /\ client_typed new.
Proof.
  intros Ht H. unfold client_build_config in H. apply bind_inv in H as (base & s1 & Hb & H).
  injection H as H _. apply client_apply_options_ok in H. exists base.
  assert (Hbase : client_base args s base /\ client_typed base).
  { unfold client_base. destruct (value args "config") as [path|].
    - apply bind_inv in Hb as ([c w] & s2 & Hl & Hb). apply bind_inv in Hb as (u & s3 & _ & Hb).
      injection Hb as <- <-. split; [eauto|].
      eapply load_client_yaml_outcome; [done|apply default_client_typed|exact Hl].
    - injection Hb as <- _. split; [done|apply default_client_typed]. }
  destruct Hbase. splits; [done|done|by eapply client_overridden_typed].
Qed.

Definition server_base (args : Arguments) (s : St W) (base : ServerConfig) : Prop :=
  match value args "config" with
  | None => base = ServerConfig_default
  | Some path => exists w s1, load_server_yaml path ServerConfig_default [] s = (Ok (base, w), s1)
  end.

Lemma default_server_typed : server_typed ServerConfig_default.
Proof. constructor; [constructor|..]; vm_compute; split; discriminate. Qed.

Lemma server_build_config_ok args s new s' :
  as_uint32_typed -> server_build_config args s = (Ok new, s') ->
  exists base, server_base args s base /\ server_overridden args base new /\ server_typed new.
Proof.
  intros Ht H. unfold server_build_config in H. apply bind_inv in H as (base & s1 & Hb & H).
  injection H as H _. apply server_apply_options_ok in H. exists base.
  assert (Hbase : server_base args s base /\ server_typed base).
  { unfold server_base. destruct (value args "config") as [path|].
    - apply bind_inv in Hb as ([c w] & s2 & Hl & Hb). apply bind_inv in Hb as (u & s3 & _ & Hb).
      injection Hb as <- <-. split; [eauto|].
      eapply load_server_yaml_outcome; [done|apply default_server_typed|exact Hl].
    - injection Hb as <- _. split; [done|apply default_server_typed]. }
  destruct Hbase. splits; [done|done|by eapply server_overridden_typed].
Qed.

(** C37: The command line has the last word, and no more than that.  Two command
    lines of a program that name the same configuration file (or none) and are
    both accepted start from the same configuration, whatever it is: of either
    result, every setting is the one of its option where that was given, and
    otherwise the one they start from, so that an option changes its own
    setting only ([--output] also stands in for an empty metrics file, and no
    option sets the server's idle timeout).  Numbers were written as decimal
    digits and fit their field, switches as true or false; options are
    refused, with a configuration error, only if one of them is not
    written so. *)
Theorem command_line_decides args args' s :
  value args "config" = value args' "config" ->
  (forall new new' s1 s2, client_build_config args s = (Ok new, s1) -> client_build_config args' s = (Ok new', s2) ->
     exists lower, client_overridden args lower new /\ client_overridden args' lower new') /\
  (forall new new' s1 s2, server_build_config args s = (Ok new, s1) -> server_build_config args' s = (Ok new', s2) ->
     exists lower, server_overridden args lower new /\ server_overridden args' lower new') /\
  (forall lower x, client_apply_options args lower = Throw x ->
     exn_category x = CatConfiguration /\ misread client_numbers client_switches args) /\
  (forall lower x, server_apply_options args lower = Throw x ->
     exn_category x = CatConfiguration /\ misread server_numbers server_switches args).
Proof.
  intros Hc. splits.
  - intros new new' s1 s2 H H'. unfold client_build_config in H, H'. rewrite <- Hc in H'.
    apply bind_inv in H as (base & s3 & Hb & H). apply bind_inv in H' as (base' & s3' & Hb' & H').
    rewrite Hb in Hb'. injection Hb' as <- <-. injection H as H _. injection H' as H' _.
    exists base. split; by apply client_apply_options_ok.
  - intros new new' s1 s2 H H'. unfold server_build_config in H, H'. rewrite <- Hc in H'.
    apply bind_inv in H as (base & s3 & Hb & H). apply bind_inv in H' as (base' & s3' & Hb' & H').
    rewrite Hb in Hb'. injection Hb' as <- <-. injection H as H _. injection H' as H' _.
    exists base. split; by apply server_apply_options_ok.
  - apply client_apply_options_throw.
  - apply server_apply_options_throw.
Qed.

End config.

Lemma client_yaml_typed {W : Type} : as_uint32_typed (W := W) (Y := client_yaml).
Proof.
  intros n z. simpl. destruct n; try discriminate.
  destruct ((0 <=? z0) && (z0 <=? u32_max)) eqn:E; [|discriminate].
  intros [= <-]. bool_props. done.
Qed.

Definition lab_arguments : Arguments :=
  mkArguments "connect" [("config", "c.yaml"); ("max-frame-size", "4096")] [].

(** The same file with another command line. *)
Definition other_arguments : Arguments :=
  mkArguments "connect" [("config", "c.yaml"); ("host", "lab.example")] [].

Lemma command_line_decides_witness :
  exists lower new new', client_overridden lab_arguments lower new /\ client_overridden other_arguments lower new' /\
    c_port lower = 9443 /\ max_frame_size (c_common new) = 4096 /\ host new' = "lab.example".
Proof.
  assert (Hr : match client_build_config (Y := client_yaml) lab_arguments (mkSt tt [] []),
                     client_build_config (Y := client_yaml) other_arguments (mkSt tt [] []) with
               | (Ok c, _), (Ok c', _) => c_port c = 9443 /\ max_frame_size (c_common c) = 4096 /\ host c' = "lab.example"
               | _, _ => False
               end) by (vm_compute; splits; reflexivity).
  destruct (client_build_config (Y := client_yaml) lab_arguments (mkSt tt [] [])) as [[c|x] s1] eqn:E; [|destruct Hr].
  destruct (client_build_config (Y := client_yaml) other_arguments (mkSt tt [] [])) as [[c'|x'] s2] eqn:E'; [|destruct Hr].
  destruct Hr as (Hp & Hf & Hh).
  destruct (proj1 (command_line_decides (Y := client_yaml) lab_arguments other_arguments (mkSt tt [] []) eq_refl)
    c c' s1 s2 E E') as (lower & H & H').
  exists lower, c, c'. split; [exact H|]. split; [exact H'|]. split; [|split; [exact Hf|exact Hh]].
  rewrite <- Hp. symmetry. exact (co_port _ _ _ H).
Defined.

(** ** Every exception is one of the program *)

Definition raises {A} (r : result A) : Prop := forall x, r = Throw x -> real x.

Lemma raises_ok {A} (a : A) : raises (Ok a).
Proof. by intros x [=]. Qed.

Lemma raises_throw {A} x : real x -> raises (A := A) (Throw x).
Proof. by intros Hx y [= <-]. Qed.

Lemma raises_bind {A B} (r : result A) (k : A -> result B) :
  raises r -> (forall a, raises (k a)) -> raises (r ≫= k).
Proof. intros Hr Hk x. destruct r as [a|y]; simpl; [apply Hk|]. intros [= <-]. by apply Hr. Qed.

Lemma raises_throw_if b x : real x -> raises (throw_if b x).
Proof. intros Hx. destruct b; [by apply raises_throw|apply raises_ok]. Qed.

Lemma raises_for_each {A} (l : list A) body : (forall a, raises (body a)) -> raises (for_each l body).
Proof. intros Hb. induction l as [|a l IH]; simpl; [apply raises_ok|by apply raises_bind]. Qed.

Lemma raises_map_result {A B} (f : A -> result B) l : (forall a, raises (f a)) -> raises (map_result f l).
Proof.
  intros Hf. induction l as [|a l IH]; simpl; [apply raises_ok|].
  apply raises_bind; [done|intros]. apply raises_bind; [done|intros; apply raises_ok].
Qed.

Lemma raises_yaml_get {A} (r : string + A) : raises (yaml_get r).
Proof. destruct r; [by apply raises_throw|apply raises_ok]. Qed.

(** Follows the structure of a computation in the result monad. *)
Ltac raising :=
  repeat first
    [ apply raises_ok | by apply raises_throw | by apply raises_throw_if | apply raises_yaml_get
    | apply raises_for_each; intros ? | apply raises_map_result; intros ?
    | apply raises_bind; [|intros ?] | eassumption | case_match ].

Lemma raises_apply_integer max args name old : raises (apply_integer max args name old).
Proof. unfold apply_integer. raising. Qed.

Lemma raises_apply_bool args name old : raises (apply_bool args name old).
Proof. unfold apply_bool. raising. Qed.

Lemma raises_client_options args c : raises (client_apply_options args c).
Proof.
  unfold client_apply_options. cbv zeta.
  repeat (apply raises_bind; [first [apply raises_apply_integer|apply raises_apply_bool]|intros ?]).
  apply raises_ok.
Qed.

Lemma raises_server_options args c : raises (server_apply_options args c).
Proof.
  unfold server_apply_options. cbv zeta.
  repeat (apply raises_bind; [first [apply raises_apply_integer|apply raises_apply_bool]|intros ?]).
  apply raises_ok.
Qed.

Lemma raises_parse_tokens flags n tokens args :
  (length tokens <= n)%nat -> raises (parse_tokens flags tokens args).
Proof.
  revert tokens args. induction n as [|n IH]; intros [|t tokens] args Hn; simpl in Hn;
    try (exfalso; lia); cbn [parse_tokens]; try apply raises_ok.
  case_match; [apply IH; lia|]. case_match; [case_match; apply IH; lia|].
  case_match; [apply IH; lia|]. destruct tokens as [|v tokens]; [by apply raises_throw|].
  simpl in Hn. apply IH. lia.
Qed.

Lemma raises_parse flags argv : raises (parse flags argv).
Proof.
  unfold parse. destruct argv as [|a argv]; [apply raises_ok|].
  case_match; by eapply raises_parse_tokens.
Qed.

Lemma raises_reject args accepted : raises (reject_unknown_options args accepted).
Proof. unfold reject_unknown_options. raising. Qed.

Lemma raises_log_level level : raises (parse_log_level level).
Proof. unfold parse_log_level. raising. Qed.

Lemma raises_json_dump `{JsonLib} j : raises (json_dump j).
Proof. unfold json_dump. raising. Qed.

Lemma raises_json_pretty `{JsonLib} j : raises (json_pretty j).
Proof. unfold json_pretty. raising. Qed.

Section yaml.
Context {W : Type} {Y : YamlLib W}.

Lemma raises_at_key node key : raises (at_key node key).
Proof. apply raises_yaml_get. Qed.

Lemma raises_read_key {A} (conv : ynode -> string + A) node key old : raises (read_key conv node key old).
Proof. unfold read_key, at_key. raising. Qed.

Lemma raises_assign {A} (conv : ynode -> string + A) node key old : raises (assign_if_present conv node key old).
Proof. unfold assign_if_present. case_match; [apply raises_read_key|apply raises_ok]. Qed.

Lemma raises_unknown_keys node known context : raises (reject_unknown_keys node known context).
Proof. unfold reject_unknown_keys. raising. Qed.

Lemma raises_warn node known context w : raises (warn_unknown_keys node known context w).
Proof. unfold warn_unknown_keys. raising. Qed.

(** A reader built from the pieces above. *)
Ltac reading_yaml :=
  repeat first
    [ apply raises_assign | apply raises_read_key | apply raises_unknown_keys | apply raises_warn
    | apply raises_at_key | progress raising ].

Lemma raises_read_common path root c w : raises (read_common path root c w).
Proof. unfold read_common, section_or_root, read_output_format. reading_yaml. Qed.

Lemma raises_read_client path root c w : raises (read_client path root c w).
Proof. unfold read_client, section_or_root, parse_port. reading_yaml. Qed.

Lemma raises_read_server path root c w : raises (read_server path root c w).
Proof. unfold read_server, section_or_root, parse_port. reading_yaml. Qed.

Lemma raises_create d : raises (SecurityProfile_create d).
Proof. unfold SecurityProfile_create. cbv zeta. raising. Qed.

Lemma raises_profile_node node : raises (parse_profile_node node).
Proof.
  unfold parse_profile_node. apply raises_bind; [|intros; apply raises_create].
  unfold parse_definition, read_tls_section, read_tls_version, read_string_list,
    read_authentication_section, read_fallback_section. reading_yaml.
Qed.

Lemma raises_load_profiles nodes registry : raises (load_profiles registry nodes).
Proof.
  revert registry. induction nodes as [|n nodes IH]; intros registry; simpl; [apply raises_ok|].
  apply raises_bind; [apply raises_profile_node|intros; apply IH].
Qed.

End yaml.

(** ** The commands *)

Section programs.
Context {W : Type} {RA : RuntimeApi W} {J : JsonLib} {Y : YamlLib W} {EA : EnvApi W} {SA : SocketApi W}
  {LA : SslApi W} {LL : SslLaws W} {CA : CtxApi W} {PA : CapApi W} {MA : MetricsApi W} {KA : ClientApi W}
  {FA : FileApi W}.

Lemma throws_raises {A} (r : result A) : raises r -> throws (S := St W) real (liftM r).
Proof. intros Hr. by apply throws_lift. Qed.

(** Follows the structure of an effectful computation. *)
Ltac throwing :=
  repeat first
    [ apply throws_call | apply throws_call_ev | apply throws_drain | apply throws_ret
    | by apply throws_throw | by apply throws_openssl | apply throws_uuid | apply throws_now
    | apply throws_log | apply throws_experimental
    | apply throws_parse | apply throws_bind; [|intros ?] | eassumption | case_match ].

Lemma throws_load_yaml path : throws real (load_yaml path).
Proof. unfold load_yaml. throwing. Qed.

Lemma throws_load_client path c w : throws real (load_client_yaml path c w).
Proof.
  unfold load_client_yaml, load_common_yaml.
  apply throws_bind; [|intros [c' w']]; (apply throws_bind; [apply throws_load_yaml|intros root]);
    apply throws_raises; [apply raises_read_common|apply raises_read_client].
Qed.

Lemma throws_load_server path c w : throws real (load_server_yaml path c w).
Proof.
  unfold load_server_yaml, load_common_yaml.
  apply throws_bind; [|intros [c' w']]; (apply throws_bind; [apply throws_load_yaml|intros root]);
    apply throws_raises; [apply raises_read_common|apply raises_read_server].
Qed.

Lemma throws_logging level json : throws (S := St W) real (configure_logging level json).
Proof.
  unfold configure_logging. apply throws_bind; [case_match; [apply throws_emit|apply throws_ret]|intros _].
  apply throws_bind; [|intros; apply throws_emit].
  apply throws_raises, raises_log_level.
Qed.

Lemma throws_log_warnings P ws : throws (S := St W) P (log_warnings ws).
Proof. induction ws; simpl; [apply throws_ret|]. apply throws_bind; [apply throws_log|done]. Qed.

Lemma throws_client_config args : throws real (client_build_config args).
Proof.
  unfold client_build_config. apply throws_bind; [|intros; apply throws_raises, raises_client_options].
  case_match; [|apply throws_ret]. apply throws_bind; [apply throws_load_client|intros []].
  apply throws_bind; [apply throws_log_warnings|intros; apply throws_ret].
Qed.

Lemma throws_server_config args : throws real (server_build_config args).
Proof.
  unfold server_build_config. apply throws_bind; [|intros; apply throws_raises, raises_server_options].
  case_match; [|apply throws_ret]. apply throws_bind; [apply throws_load_server|intros []].
  apply throws_bind; [apply throws_log_warnings|intros; apply throws_ret].
Qed.

Lemma throws_load_registry path : throws real (load_registry path).
Proof.
  unfold load_registry. case_match; [apply throws_raises; apply raises_map_result; apply raises_create|].
  unfold registry_from_yaml_file.
  apply throws_bind; [apply throws_raises, raises_map_result, raises_create|intros r].
  apply throws_bind; [apply throws_call|intros l]. apply throws_bind; [throwing|intros root].
  apply throws_bind; [apply throws_raises, raises_unknown_keys|intros _].
  apply throws_bind; [apply throws_raises, raises_at_key|intros ps].
  apply throws_bind; [throwing|intros _]. apply throws_raises, raises_load_profiles.
Qed.

Lemma throws_policy c : throws real (enforce_insecure_mode_policy c).
Proof. unfold enforce_insecure_mode_policy, production_environment. throwing. Qed.

Lemma raises_validate_common c : raises (validate_common c).
Proof. unfold validate_common. raising. Qed.

Lemma throws_validate_client c : throws real (validate_client c).
Proof.
  unfold validate_client. apply throws_bind; [|intros; apply throws_policy]. apply throws_raises.
  unfold validate_client_fields. apply raises_bind; [apply raises_validate_common|intros]. raising.
Qed.

Lemma throws_validate_server c : throws real (validate_server c).
Proof.
  unfold validate_server. apply throws_bind; [|intros; apply throws_policy]. apply throws_raises.
  unfold validate_server_fields. apply raises_bind; [apply raises_validate_common|intros]. raising.
Qed.

Lemma throws_writer path : throws real (MetricsWriter_new path).
Proof. unfold MetricsWriter_new. throwing. Qed.

Lemma throws_flush w : throws real (MetricsWriter_flush w).
Proof. unfold MetricsWriter_flush. throwing. Qed.

Lemma throws_opt_writer path :
  throws real (if negb (str_empty path) then w ← MetricsWriter_new path; mret (Some w) else mret None).
Proof. case_match; [|apply throws_ret]. apply throws_bind; [apply throws_writer|intros; apply throws_ret]. Qed.

Lemma throws_ctx_set ctx what : throws real (ctx_set ctx what).
Proof. apply throws_call_ev. Qed.

Lemma throws_init : throws real initialize_openssl.
Proof. unfold initialize_openssl. throwing. Qed.

Lemma throws_keylog ctx path : throws real (install_keylog_callback ctx path).
Proof. unfold install_keylog_callback, production_environment, ctx_set. throwing. Qed.

Lemma throws_common_policy ctx p c : throws real (apply_common_policy ctx p c).
Proof.
  unfold apply_common_policy, install_keylog_callback, ctx_require, ctx_set, production_environment. cbv zeta.
  throwing.
Qed.

Lemma throws_trust ctx c : throws real (load_trust_store ctx c).
Proof. unfold load_trust_store, ctx_require, ctx_set. throwing. Qed.

Lemma throws_certificate ctx c b : throws real (load_certificate_material ctx c b).
Proof. unfold load_certificate_material, ctx_require, ctx_set. throwing. Qed.

Lemma throws_create_client p c : throws real (create_client p c).
Proof.
  unfold create_client.
  repeat first [ apply throws_init | apply throws_policy | apply throws_common_policy | apply throws_keylog | apply throws_trust
    | apply throws_certificate | apply throws_ctx_set | apply throws_adopt | apply throws_guarded | progress throwing ].
Qed.

Lemma throws_create_server p c b : throws real (create_server p c b).
Proof.
  unfold create_server.
  repeat first [ apply throws_init | apply throws_policy | apply throws_common_policy | apply throws_keylog | apply throws_trust
    | apply throws_certificate | apply throws_ctx_set | apply throws_adopt | apply throws_guarded | progress throwing ].
Qed.

Lemma raises_registry_get r k : raises (registry_get r k).
Proof. unfold registry_get. raising. Qed.

Lemma throws_new_client config registry : throws real (PqTlsClient_new config registry).
Proof.
  apply throws_bind; [apply throws_raises, raises_registry_get|intros p].
  apply throws_bind; [apply throws_create_client|intros]. apply throws_bind; [apply throws_emit|intros _; throwing].
Qed.

Lemma throws_new_server config registry : throws real (PqTlsServer_new config registry).
Proof.
  apply throws_bind; [apply throws_raises, raises_registry_get|intros p].
  apply throws_bind; [apply throws_create_server|intros]. apply throws_bind; [apply throws_emit|intros _; throwing].
Qed.

Lemma throws_build_message c : throws real (build_message c).
Proof.
  unfold build_message. apply throws_bind; [throwing|intros body].
  case_match; [unfold make_request; throwing|].
  apply throws_bind; [apply throws_raises; raising|intros doc].
  apply throws_bind; [apply throws_raises; raising|intros _]. cbv zeta.
  apply throws_bind; [throwing|intros d1]. apply throws_bind; [throwing|intros d2].
  apply throws_bind; [apply throws_raises, raises_json_dump|intros]. apply throws_parse.
Qed.

Lemma throws_probe (m : io W Z) : throws real m -> throws real (probe m).
Proof. intros Hm. apply throws_bind; [done|intros]. throwing. Qed.

Lemma throws_probe_all (p : string -> io W bool) names :
  (forall n, throws real (p n)) -> throws real (probe_all p names).
Proof.
  intros Hp. induction names as [|n names IH]; simpl; [apply throws_ret|].
  apply throws_bind; [done|intros]. apply throws_bind; [done|intros; apply throws_ret].
Qed.

Lemma throws_detect r : throws real (Capabilities_detect r).
Proof.
  unfold Capabilities_detect, loaded_providers, probe_tls13, openssl_supports_algorithm, probe_cipher_suite,
    probe_signature_algorithm.
  repeat first [ apply throws_init | apply throws_probe | apply throws_probe_all; intros ?
    | apply throws_ctx_set | apply throws_adopt | apply throws_dispose | apply throws_scoped | progress throwing ].
Qed.

Lemma throws_document doc : throws (S := St W) real (print_document doc).
Proof. apply throws_bind; [apply throws_raises, raises_json_pretty|intros; apply throws_emit]. Qed.

Lemma throws_warn c : throws (S := St W) real (warn_if_insecure c).
Proof. unfold warn_if_insecure. case_match; [apply throws_emit|apply throws_ret]. Qed.

Lemma throws_print r c : throws (S := St W) real (print_connection_result r c).
Proof.
  unfold print_connection_result. case_match; [|apply throws_document].
  apply throws_bind; [apply throws_emit|intros _].
  induction (cr_responses r) as [|m ms IH]; simpl; [apply throws_ret|].
  apply throws_bind; [apply throws_raises, raises_json_dump|intros text].
  apply throws_bind; [apply throws_emit|done].
Qed.

Lemma validated_client_limits c s u s' :
  client_typed c -> validate_client c s = (Ok u, s') -> client_limits c.
Proof.
  intros Hc Hv. pose proof (validate_seq_outcome _ (c_common c) _ s (validate_client_checks c Hc)) as H.
  unfold validate_client in Hv. rewrite Hv in H. apply H.
Qed.

(** How a [connect] that returns came to its status. *)
Definition connected (code : Z) : Prop :=
  exists config context writer ms s1 r s2,
    run_once config context writer ms (s1, 0) = (Ok r, s2) /\ concluded context ms r /\
    code = exit_code_int (if cr_ok r then ExitSuccess else exit_code_for (m_error_category (cr_metrics r))).

Lemma command_connect_outcome args s :
  as_uint32_typed -> wp (command_connect args) (fun code _ => connected code) (fun x _ => real x) s.
Proof.
  intros Hy. unfold command_connect.
  apply wp_bind, throws_post; [apply throws_client_config|intros config s1 Hc].
  apply client_build_config_ok in Hc as (base & _ & _ & Ht); [|done].
  apply wp_bind, throws_post; [apply throws_validate_client|intros [] s2 Hv].
  apply validated_client_limits in Hv; [|done].
  apply wp_bind, throws_post; [apply throws_warn|intros [] s2' _].
  apply wp_bind, throws_post; [apply throws_load_registry|intros registry s3 _].
  apply wp_bind, throws_post; [apply throws_build_message|intros m s4 _].
  apply wp_bind, throws_post; [apply throws_opt_writer|intros writer s5 _].
  apply wp_bind, throws_post; [apply throws_new_client|intros context s6 _].
  set (ms := repeat m _). clearbody ms. apply wp_with_client, wp_bind.
  pose proof (run_once_outcome config context writer ms s6 0 Hv) as Hr.
  unfold wp at 1. unfold wp in Hr.
  destruct (run_once config context writer ms (s6, 0)) as [[r|x] [s7 c7]] eqn:Eo; [|apply Hr].
  apply wp_lift_io, wp_bind, throws_post; [apply throws_print|intros [] s9 _].
  apply wp_ret. exists config, context, writer, ms, s6, r, (s7, c7). splits; [done|apply Hr|done].
Qed.

(** A computation that ends with an exit status of the table, or throws. *)
Definition exits (m : io W Z) : Prop :=
  forall s, wp m (fun code _ => exists e, code = exit_code_int e) (fun x _ => real x) s.

Lemma exits_ret e : exits (mret (exit_code_int e)).
Proof. intros s. apply wp_ret. by exists e. Qed.

Lemma exits_throw x : real x -> exits (throwM x).
Proof. intros Hx s. by apply wp_throw. Qed.

Lemma exits_bind {A} (m : io W A) k : throws real m -> (forall a, exits (k a)) -> exits (m ≫= k).
Proof. intros Hm Hk s. apply wp_bind, throws_post; [done|intros; apply Hk]. Qed.

Lemma exits_parsed {A} (r : result A) k :
  raises r -> (forall a, r = Ok a -> exits (k a)) -> exits (liftM r ≫= k).
Proof.
  intros Hr Hk s. apply wp_bind. unfold wp at 1, liftM. destruct r as [a|x]; [by apply Hk|by apply Hr].
Qed.

Lemma exits_capabilities args : exits (command_capabilities args).
Proof.
  unfold command_capabilities. apply exits_bind; [apply throws_load_registry|intros r].
  apply exits_bind; [apply throws_detect|intros caps]. apply exits_bind; [|intros; apply exits_ret].
  case_match; [apply throws_document|apply throws_emit].
Qed.

Lemma exits_validate_config args : exits (command_validate_config args).
Proof.
  unfold command_validate_config. case_match; [|by apply exits_throw].
  apply exits_bind; [apply throws_server_config|intros config].
  apply exits_bind; [apply throws_validate_server|intros _].
  apply exits_bind; [apply throws_load_registry|intros r].
  apply exits_bind; [apply throws_raises, raises_registry_get|intros p].
  apply exits_bind; [apply throws_detect|intros caps]. cbv zeta.
  apply exits_bind; [|intros; apply exits_ret]. case_match; [apply throws_document|apply throws_emit].
Qed.

Lemma exits_connect args : as_uint32_typed -> exits (command_connect args).
Proof.
  intros Hy s. eapply wp_mono; [| |by apply command_connect_outcome]; [|done].
  intros code s' (config & context & writer & ms & s1 & r & s2 & _ & _ & ->). eauto.
Qed.

Lemma exits_scoped (d : io W unit) m : exits m -> exits (scoped d m).
Proof. intros Hm s. apply wp_scoped. eapply wp_mono, Hm; naive_solver. Qed.

(** The two commands that hand over to threads, which are what the parameters
    of [Main] stand for: whatever these do, as long as they come back. *)
Lemma exits_benchmark run_benchmark args :
  (forall c r w, throws real (run_benchmark c r w)) -> exits (command_benchmark run_benchmark args).
Proof.
  intros Hbench. unfold command_benchmark. apply exits_bind; [apply throws_client_config|intros config]. cbv zeta.
  apply exits_bind; [apply throws_validate_client|intros _].
  apply exits_bind; [apply throws_raises; by apply raises_throw_if|intros _].
  apply exits_bind; [apply throws_load_registry|intros r].
  apply exits_bind; [apply throws_writer|intros w]. apply exits_bind; [apply throws_log|intros _].
  apply exits_bind; [done|intros summary].
  apply exits_bind; [apply throws_flush|intros _].
  apply exits_bind; [|intros _; apply exits_ret]. case_match; [apply throws_emit|apply throws_document].
Qed.

Lemma exits_serve server_run args :
  (forall c t w, throws real (server_run c t w)) -> exits (command_serve server_run args).
Proof.
  intros Hrun. unfold command_serve. apply exits_bind; [apply throws_server_config|intros config].
  apply exits_bind; [apply throws_validate_server|intros _]. apply exits_bind; [apply throws_warn|intros _].
  apply exits_bind; [apply throws_load_registry|intros r].
  apply exits_bind; [apply throws_detect|intros caps]. apply exits_bind; [throwing|intros _].
  apply exits_bind; [apply throws_opt_writer|intros w].
  apply exits_bind; [apply throws_new_server|intros context].
  apply exits_scoped, exits_bind; [done|intros; apply exits_ret].
Qed.

(** The command line names another command, or none. *)
Definition spares (flags : list string) (name : string) (argv : list string) : Prop :=
  forall args, parse flags argv = Ok args -> command args <> name.

Lemma spares_parsed flags name argv :
  match parse flags argv with Ok a => String.eqb (command a) name | Throw _ => false end = false ->
  spares flags name argv.
Proof. intros H args Hp. rewrite Hp in H. by apply String.eqb_neq. Qed.

Section threads.
Context (run_benchmark : ClientConfig -> ProfileRegistry -> MetricsWriter -> io W BenchmarkSummary)
  (server_run : ServerConfig -> TlsContext -> option MetricsWriter -> io W unit)
  (info : BuildInfo).

Lemma exits_program usage flags accepted dispatch argv :
  (forall args, parse flags argv = Ok args -> exits (dispatch args)) ->
  exits (program info usage flags accepted dispatch argv).
Proof.
  intros Hd. unfold program. apply exits_parsed; [apply raises_parse|intros args Hp]. specialize (Hd args Hp).
  case_match; [apply exits_bind; [apply throws_emit|intros; apply exits_ret]|].
  case_match; [apply exits_bind; [apply throws_emit|intros; apply exits_ret]|].
  apply exits_bind; [apply throws_raises, raises_reject|intros _].
  by apply exits_bind; [apply throws_logging|intros _].
Qed.

(** The handlers turn every outcome into a status. *)
Lemma top_level_total body s :
  exits body -> exists e s', top_level body s = (Ok (exit_code_int e), s').
Proof.
  intros Hb. specialize (Hb s). unfold top_level, try_catch. unfold wp in Hb.
  destruct (body s) as [[code|x] s']; [destruct Hb as [e ->]; eauto|].
  destruct Hb as [Hx _]. rewrite Hx. unfold mbind, M_bind, print_err, emit, mret, M_ret. eauto.
Qed.

(** A command line that is refused before anything is done. *)
Definition undeclared (accepted : list string) (args : Arguments) : Prop :=
  has args "help" = false /\ has args "version" = false /\ command args <> "" /\ command args <> "help" /\
  exists n, has args n = true /\ ~ In n accepted.

Lemma undeclared_rejected usage flags accepted dispatch argv args (s : St W) :
  parse flags argv = Ok args -> undeclared accepted args ->
  exists text, top_level (program info usage flags accepted dispatch argv) s =
    (Ok (exit_code_int ExitConfigurationError), mkSt (st_world s) (st_errq s) (EvErr text :: st_log s)).
Proof.
  intros Hp (Hh & Hv & Hc & Hc' & n & Hn & Hna). unfold top_level, program, try_catch.
  unfold mbind, M_bind, liftM. rewrite Hp, Hh, Hv. apply str_empty_false in Hc as ->.
  apply String.eqb_neq in Hc' as ->. simpl.
  pose proof (reject_cases args accepted (fun n => has args n = true) ltac:(done)) as Hr.
  destruct (reject_unknown_options args accepted) as [u|x] eqn:E; [by destruct (Hna (Hr n Hn))|].
  destruct Hr as [Hx _]. pose proof (raises_reject args accepted x E) as [He _].
  destruct x as [b e| |]; try done. simpl in *. rewrite Hx. by eexists.
Qed.

(** The commands that start no thread. *)
Lemma client_dispatch_exits args :
  as_uint32_typed -> command args <> "benchmark" -> exits (client_dispatch run_benchmark args).
Proof.
  intros Hy Hc. unfold client_dispatch. case_match; [apply exits_capabilities|].
  case_match; [by apply exits_connect|].
  destruct (String.eqb_spec (command args) "benchmark"); [done|by apply exits_throw].
Qed.

Lemma server_dispatch_exits args : command args <> "serve" -> exits (server_dispatch server_run args).
Proof.
  intros Hc. unfold server_dispatch. case_match; [apply exits_capabilities|].
  case_match; [apply exits_validate_config|].
  destruct (String.eqb_spec (command args) "serve"); [done|by apply exits_throw].
Qed.

Lemma exit_code_zero e : exit_code_int e = 0 -> e = ExitSuccess.
Proof. by destruct e. Qed.

(** Status zero is a success: no exception has the category of one. *)
Lemma connected_zero :
  connected 0 -> exists config context writer ms s1 r s2,
    run_once config context writer ms (s1, 0) = (Ok r, s2) /\ succeeded context ms r.
Proof.
  intros (config & context & writer & ms & s1 & r & s2 & Hr & [Hc|Hc] & Hcode).
  - by exists config, context, writer, ms, s1, r, s2.
  - exfalso. destruct Hc as (Hok & _ & _ & (x & [_ Hx] & Hcat & _) & _). rewrite Hok, Hcat in Hcode.
    symmetry in Hcode. apply exit_code_zero in Hcode. by destruct (exn_category x).
Qed.

Lemma error_exit_nonzero x :
  real x -> exit_code_int (if is_Error x then exit_code_for (exn_category x) else ExitInternalError) <> 0.
Proof.
  intros [_ Hx] H. apply exit_code_zero in H. by destruct (is_Error x), (exn_category x).
Qed.

Lemma connect_zero argv args s s' :
  as_uint32_typed -> parse client_kFlags argv = Ok args -> command args = "connect" ->
  has args "help" = false -> has args "version" = false ->
  client_main run_benchmark info argv s = (Ok 0, s') -> connected 0.
Proof.
  intros Hy Hp Hc Hh Hv. unfold client_main, top_level, try_catch.
  assert (Hb : wp (program info client_usage client_kFlags client_kAcceptedOptions (client_dispatch run_benchmark) argv)
                 (fun code _ => connected code) (fun x _ => real x) s).
  { unfold program. apply wp_bind. unfold wp at 1, liftM. rewrite Hp, Hh, Hv, Hc. simpl.
    apply wp_bind, throws_post; [apply throws_raises, raises_reject|intros _ s1 _].
    apply wp_bind, throws_post; [apply throws_logging|intros _ s2 _].
    unfold client_dispatch. rewrite Hc. simpl. by apply command_connect_outcome. }
  unfold wp in Hb. destruct (program _ _ _ _ _ _ s) as [[code|x] s1]; [by intros [= -> _]|].
  rewrite (proj1 Hb). intros [= H _]. by destruct (error_exit_nonzero x Hb).
Qed.


(** [--version] with no command, as the usage text shows it, is refused. *)
Example version_alone_refused s : client_main run_benchmark info ["--version"] s =
  (Ok 2, mkSt (st_world s) (st_errq s) (EvOut (usage_output client_usage) :: st_log s)).
Proof. reflexivity. Qed.

End threads.
End programs.

(** ** An instance *)

Definition no_files {W : Type} : FileApi W := {| read_file := fun _ w q => (None, (w, q)) |}.

Definition lab_build : BuildInfo := mkBuildInfo "1.0.0" "unknown" "Release" "GNU" "13.2".

Definition lab_argv : list string :=
  ["connect"; "--insecure-development-mode"; "--profile"; "hybrid-x25519-mlkem768"].

(** Stands for a benchmark that is refused, and a server that is stopped. *)
Definition no_benchmark {W : Type} (_ : ClientConfig) (_ : ProfileRegistry) (_ : MetricsWriter)
    : io W BenchmarkSummary :=
  throwM (ConfigurationError "no benchmark").

Definition no_server {W : Type} (_ : ServerConfig) (_ : TlsContext) (_ : option MetricsWriter) : io W unit :=
  mret tt.

Local Abbreviation lab_start := (mkSt (frame_of "ping") [] []).

