(* ===== verification/Usage.v ===== *)
(** The usage texts of the two programs ([print_usage] of [src/client/main.cpp]
    and [src/server/main.cpp]) against what the programs do.  The texts are read
    the way a reader does: options are the words that start with two dashes, an
    option line says whether a value follows and may end with a default, and the
    last lines are the table of exit codes. *)

From S2P Require Import Prelude Errors Runtime Json Profile ProfileYaml Config Transport Metrics.
From S2P Require Import TlsContext Capabilities Server Client Benchmark.
From S2P Require Import Output Cli Main MainSpec.

(** ** Reading a text *)

Fixpoint split_on (sep : ascii -> bool) (s : string) : list string :=
  match s with
  | EmptyString => [""]
  | String c s' =>
      match split_on sep s' with
      | w :: ws => if sep c then "" :: w :: ws else String c w :: ws
      | [] => []
      end
  end.

Definition is_char (l : string) (c : ascii) : bool :=
  existsb (Ascii.eqb c) (String.list_ascii_of_string l).

Definition text_lines (s : string) : list string := split_on (is_char nl) s.

Definition words (s : string) : list string :=
  List.filter (fun w => negb (str_empty w)) (split_on (is_char (" ()[];." +:+ nl)) s).

Definition after_dashes (w : string) : option string :=
  match w with
  | String a (String b name) =>
      if Ascii.eqb a "-" && Ascii.eqb b "-" then Some name else None
  | _ => None
  end.

(** Every option a text mentions. *)
Definition option_names (usage : string) : list string := omap after_dashes (words usage).

(** The lines that describe an option: its name, and whether it takes a
    value. *)
Definition option_line (line : string) : option (string * bool) :=
  if starts_with line "  --" then
    match words line with
    | w :: rest =>
        name ← after_dashes w;
        Some (name, match rest with v :: _ => starts_with v "<" | [] => false end)
    | [] => None
    end
  else None.

Definition option_lines (usage : string) : list (string * bool) := omap option_line (text_lines usage).

(** The value after "(default", up to the end of the bracket or a remark. *)
Fixpoint default_value (s : string) : option string :=
  match s with
  | EmptyString => None
  | String _ s' =>
      if starts_with s "(default " then
        head (split_on (is_char ");") (String.substring 9 (String.length s) s))
      else default_value s'
  end.

Definition documented_default (line : string) : option (string * string) :=
  '(name, _) ← option_line line; v ← default_value line; Some (name, v).

Definition documented_defaults (usage : string) : list (string * string) :=
  omap documented_default (text_lines usage).

(** The choices of [--log-level], written between bars. *)
Definition documented_levels (usage : string) : list string :=
  concat (omap (fun line =>
    '(name, _) ← option_line line;
    if String.eqb name "log-level" then
      w ← List.find (fun w => is_char w "|") (words line); Some (split_on (is_char "|") w)
    else None) (text_lines usage)).

(** The word after the program name, where it is no option. *)
Definition documented_command (program line : string) : option string :=
  match words line with
  | w :: c :: _ =>
      if starts_with line "  " && String.eqb w program && negb (starts_with c "--") then Some c else None
  | _ => None
  end.

Definition documented_commands (program usage : string) : list string :=
  omap (documented_command program) (text_lines usage).

(** The table at the end: a number and a name, in turn. *)
Fixpoint pairs (l : list string) : list (string * string) :=
  match l with a :: b :: l' => (a, b) :: pairs l' | _ => [] end.

Fixpoint after_line (header : string) (ls : list string) : list string :=
  match ls with
  | [] => []
  | l :: ls' => if String.eqb l header then ls' else after_line header ls'
  end.

Definition exit_table (usage : string) : list (string * string) :=
  pairs (words (String.concat nl (after_line "EXIT CODES" (text_lines usage)))).

(** ** What a usage text says is so *)

Definition same_members (l l' : list string) : bool :=
  forallb (fun a => existsb (String.eqb a) l') l && forallb (fun a => existsb (String.eqb a) l) l'.

Lemma same_members_spec l l' : same_members l l' = true -> forall n, In n l <-> In n l'.
Proof.
  unfold same_members. intros [H1 H2]%andb_prop n. rewrite forallb_forall in H1, H2.
  split; intros Hn; [specialize (H1 n Hn)|specialize (H2 n Hn)];
    apply existsb_exists in H1 as (m & Hm & E) || apply existsb_exists in H2 as (m & Hm & E);
    apply String.eqb_eq in E as ->; done.
Qed.

(** A single option on the command line. *)
Definition only (name v : string) : Arguments := mkArguments "" [(name, v)] [].

Lemma reject_only name v accepted :
  reject_unknown_options (only name v) accepted = Ok tt <-> In name accepted.
Proof.
  unfold reject_unknown_options, only. simpl. unfold any_of.
  destruct (existsb (fun a => String.eqb a name) accepted) eqn:E; simpl.
  - split; [intros _|done]. apply existsb_exists in E as (a & Ha & ->%String.eqb_eq). done.
  - split; [done|]. intros Hin. exfalso.
    assert (existsb (fun a => String.eqb a name) accepted = true); [|congruence].
    apply existsb_exists. exists name. by rewrite String.eqb_refl.
Qed.

Definition levels : list string := ["trace"; "debug"; "info"; "warn"; "error"; "off"].

(** The level is accepted, wherever the logger writes. *)
Definition accepts_level {W} (s : St W) (level : string) : Prop :=
  forall json, exists s', configure_logging level json s = (Ok tt, s').

Lemma logging_levels {W} (s : St W) level : accepts_level s level <-> In level levels.
Proof.
  assert (H : accepts_level s level <-> exists l, parse_log_level level = Ok l).
  { unfold accepts_level, configure_logging, mbind, M_bind, liftM. split.
    - intros Ha. destruct (Ha true) as [s' Hs]. destruct (parse_log_level level); [eauto|discriminate Hs].
    - intros [l Hl] json. rewrite Hl. by destruct json; eexists. }
  rewrite H. unfold parse_log_level, levels. split.
  - intros [l Hl]. repeat match type of Hl with context [String.eqb level ?t] =>
      destruct (String.eqb_spec level t) as [->|_]; [simpl; tauto|] end. discriminate Hl.
  - intros Hin. repeat (destruct Hin as [<-|Hin]; [by eexists|]). done.
Qed.

(** The table is the one of [exit_code_for]. *)
Definition code_table : list (string * string) :=
  map (fun c => (std_to_string (exit_code_int (exit_code_for c)),
                 match c with CatNone => "success" | _ => ErrorCategory_to_string c end)) all_error_categories.

(** Each documented default, as an option, changes nothing. *)
Lemma client_defaults name v :
  In (name, v) (documented_defaults client_usage) ->
  client_apply_options (only name v) ClientConfig_default = Ok ClientConfig_default.
Proof.
  let l := eval vm_compute in (documented_defaults client_usage) in
    replace (documented_defaults client_usage) with l by (vm_compute; reflexivity).
  intros Hin. repeat (destruct Hin as [[= <- <-]|Hin]; [vm_compute; reflexivity|]). destruct Hin.
Qed.

Lemma server_defaults name v :
  In (name, v) (documented_defaults server_usage) ->
  server_apply_options (only name v) ServerConfig_default = Ok ServerConfig_default.
Proof.
  let l := eval vm_compute in (documented_defaults server_usage) in
    replace (documented_defaults server_usage) with l by (vm_compute; reflexivity).
  intros Hin. repeat (destruct Hin as [[= <- <-]|Hin]; [vm_compute; reflexivity|]). destruct Hin.
Qed.

Section commands.
Context {W : Type} {RA : RuntimeApi W} {J : JsonLib} {Y : YamlLib W} {EA : EnvApi W} {SA : SocketApi W}
  {LA : SslApi W} {CA : CtxApi W} {PA : CapApi W} {MA : MetricsApi W} {KA : ClientApi W} {FA : FileApi W}.
Context (run_benchmark : ClientConfig -> ProfileRegistry -> MetricsWriter -> io W BenchmarkSummary)
  (server_run : ServerConfig -> TlsContext -> option MetricsWriter -> io W unit)
  (info : BuildInfo).

(** The commands and the functions behind them. *)
Definition client_commands : list (string * (Arguments -> io W Z)) :=
  [("connect", command_connect); ("benchmark", command_benchmark run_benchmark);
   ("capabilities", command_capabilities)].

Definition server_commands : list (string * (Arguments -> io W Z)) :=
  [("serve", command_serve server_run); ("capabilities", command_capabilities);
   ("validate-config", command_validate_config)].

(** [dispatch] calls the function of a command of the table, and refuses any
    other. *)
Definition dispatches (table : list (string * (Arguments -> io W Z))) (dispatch : Arguments -> io W Z)
    (refused : io W Z -> Prop) : Prop :=
  forall args, (forall f, In (command args, f) table -> dispatch args = f args) /\
    (~ In (command args) (map fst table) -> refused (dispatch args)).

(** A command that is refused without any effect. *)
Definition refused (m : io W Z) : Prop := exists text, forall s, m s = (Throw (ConfigurationError text), s).

Lemma client_unknown args :
  ~ In (command args) ["connect"; "benchmark"; "capabilities"] -> refused (client_dispatch run_benchmark args).
Proof.
  intros Hn. unfold client_dispatch, refused.
  destruct (String.eqb_spec (command args) "capabilities") as [E|_]; [exfalso; rewrite E in Hn; simpl in Hn; tauto|].
  destruct (String.eqb_spec (command args) "connect") as [E|_]; [exfalso; rewrite E in Hn; simpl in Hn; tauto|].
  destruct (String.eqb_spec (command args) "benchmark") as [E|_]; [exfalso; rewrite E in Hn; simpl in Hn; tauto|].
  by eexists.
Qed.

Lemma server_unknown args :
  ~ In (command args) ["serve"; "capabilities"; "validate-config"] -> refused (server_dispatch server_run args).
Proof.
  intros Hn. unfold server_dispatch, refused.
  destruct (String.eqb_spec (command args) "capabilities") as [E|_]; [exfalso; rewrite E in Hn; simpl in Hn; tauto|].
  destruct (String.eqb_spec (command args) "validate-config") as [E|_]; [exfalso; rewrite E in Hn; simpl in Hn; tauto|].
  destruct (String.eqb_spec (command args) "serve") as [E|_]; [exfalso; rewrite E in Hn; simpl in Hn; tauto|].
  by eexists.
Qed.

Lemma client_dispatches : dispatches client_commands (client_dispatch run_benchmark) refused.
Proof.
  intros args. split; [|apply client_unknown]. intros f Hin. unfold client_dispatch.
  repeat (destruct Hin as [[= <- <-]|Hin]; [reflexivity|]). destruct Hin.
Qed.

Lemma server_dispatches : dispatches server_commands (server_dispatch server_run) refused.
Proof.
  intros args. split; [|apply server_unknown]. intros f Hin. unfold server_dispatch.
  repeat (destruct Hin as [[= <- <-]|Hin]; [reflexivity|]). destruct Hin.
Qed.

(** C39: The usage texts on options, commands and exit codes.  For both
    programs: an option passes the check for unknown options exactly when the
    text mentions it; an option line shows a value exactly for the options
    that take one; an option given its documented default leaves the
    configuration as if it had not been given; the log levels that are
    accepted are those listed; the commands of the synopsis are those that
    exist, each is handed to its own function, and any other is refused with
    no effect; [--help] alone prints the text and exits with 0; and the table
    of exit codes is that of the error categories.  (Not among these is the
    synopsis line with [--version] alone: [version_alone_refused].) *)
Theorem usage_truthful :
  (forall name v, (reject_unknown_options (only name v) client_kAcceptedOptions = Ok tt <->
                   In name (option_names client_usage)) /\
                  (reject_unknown_options (only name v) server_kAcceptedOptions = Ok tt <->
                   In name (option_names server_usage))) /\
  (forall name takes, (In (name, takes) (option_lines client_usage) ->
                       takes = negb (any_of client_kFlags (String.eqb name))) /\
                      (In (name, takes) (option_lines server_usage) ->
                       takes = negb (any_of server_kFlags (String.eqb name)))) /\
  (forall name v, (In (name, v) (documented_defaults client_usage) ->
                   client_apply_options (only name v) ClientConfig_default = Ok ClientConfig_default) /\
                  (In (name, v) (documented_defaults server_usage) ->
                   server_apply_options (only name v) ServerConfig_default = Ok ServerConfig_default)) /\
  (forall (s : St W) level, (accepts_level s level <-> In level (documented_levels client_usage)) /\
                            (accepts_level s level <-> In level (documented_levels server_usage))) /\
  (documented_commands "pqtls-client" client_usage = map fst client_commands /\
   dispatches client_commands (client_dispatch run_benchmark) refused) /\
  (documented_commands "pqtls-server" server_usage = map fst server_commands /\
   dispatches server_commands (server_dispatch server_run) refused) /\
  (forall s : St W,
     client_main run_benchmark info ["--help"] s =
       (Ok 0, mkSt (st_world s) (st_errq s) (EvOut (usage_output client_usage) :: st_log s)) /\
     server_main server_run info ["--help"] s =
       (Ok 0, mkSt (st_world s) (st_errq s) (EvOut (usage_output server_usage) :: st_log s))) /\
  exit_table client_usage = code_table /\ exit_table server_usage = code_table.
Proof.
  splits.
  - intros name v. rewrite !reject_only.
    split; apply same_members_spec; vm_compute; reflexivity.
  - assert (H : forall flags usage, forallb (fun '(name, takes) =>
        Bool.eqb takes (negb (any_of flags (String.eqb name)))) (option_lines usage) = true ->
      forall name takes, In (name, takes) (option_lines usage) -> takes = negb (any_of flags (String.eqb name))).
    { intros flags usage Hf name takes Hin. rewrite forallb_forall in Hf. apply Hf in Hin. by apply Bool.eqb_prop. }
    intros name takes. split; apply H; vm_compute; reflexivity.
  - intros name v. split; revert name v.
    + apply client_defaults.
    + apply server_defaults.
  - intros s level. rewrite !logging_levels. split; apply same_members_spec; vm_compute; reflexivity.
  - vm_compute. reflexivity.
  - apply client_dispatches.
  - vm_compute. reflexivity.
  - apply server_dispatches.
  - intros s. split; reflexivity.
  - vm_compute. reflexivity.
  - vm_compute. reflexivity.
Qed.

End commands.
