(* ===== verification/Console.v ===== *)
(** What a caller of the two programs sees: stdout, stderr and the exit status.
    The claims are about [src/client/main.cpp], [src/server/main.cpp] and the
    banner of [cli_support.hpp], with the library functions they call. *)

From S2P Require Import Prelude Errors Runtime Json Framing Identifiers Message Profile ProfileYaml.
From S2P Require Import Config Transport Metrics TlsContext JsonLaws Gate Capabilities Server ServerLoop.
From S2P Require Import ServerSpec Client ClientSpec Bounds Benchmark Output Cli Main MainSpec.

(** ** The two streams *)

(** What the program itself wrote, given the events newest first. *)
Fixpoint stdout (log : list Event) : string :=
  match log with
  | [] => ""
  | EvOut text :: earlier => stdout earlier +:+ text
  | _ :: earlier => stdout earlier
  end.

Fixpoint stderr (log : list Event) : string :=
  match log with
  | [] => ""
  | EvErr text :: earlier => stderr earlier +:+ text
  | _ :: earlier => stderr earlier
  end.

(** The default logger: whether it has been moved to stderr, and its level.  It
    starts on stdout, at [info]. *)
Fixpoint log_on_stderr (log : list Event) : bool :=
  match log with
  | [] => false
  | EvLogStderr :: _ => true
  | _ :: earlier => log_on_stderr earlier
  end.

Fixpoint log_threshold (log : list Event) : LogLevel :=
  match log with
  | [] => LevelInfo
  | EvLogLevel level :: _ => level
  | _ :: earlier => log_threshold earlier
  end.

Definition level_rank (level : LogLevel) : nat :=
  match level with
  | LevelTrace => 0 | LevelDebug => 1 | LevelInfo => 2 | LevelWarn => 3 | LevelErr => 4 | LevelOff => 6
  end.

(** The messages the logger wrote to stdout, each as a line of its own. *)
Fixpoint stdout_log (log : list Event) : list string :=
  match log with
  | [] => []
  | EvLog level text :: earlier =>
      if negb (log_on_stderr earlier) && (level_rank (log_threshold earlier) <=? level_rank level)%nat
      then stdout_log earlier ++ [text] else stdout_log earlier
  | _ :: earlier => stdout_log earlier
  end.

(** Once moved, the logger does not come back. *)
Lemma log_on_stderr_app new log : log_on_stderr log = true -> log_on_stderr (new ++ log) = true.
Proof. intros H. by induction new as [|[] new IH]; simpl. Qed.

Lemma stdout_log_app new log : log_on_stderr log = true -> stdout_log (new ++ log) = stdout_log log.
Proof.
  intros H. induction new as [|e new IH]; simpl; [done|].
  destruct e; try done. by rewrite (log_on_stderr_app new log H).
Qed.

(** Not written to either. *)
Definition unprinted (e : Event) : Prop := match e with EvOut _ | EvErr _ => False | _ => True end.

(** Neither written, nor a descriptor opened. *)
Definition offline (e : Event) : Prop := match e with EvOpen _ => False | _ => unprinted e end.

Lemma offline_unprinted e : offline e -> unprinted e.
Proof. by destruct e. Qed.

Lemma unprinted_streams l1 l2 :
  Forall unprinted l1 -> stdout (l1 ++ l2) = stdout l2 /\ stderr (l1 ++ l2) = stderr l2.
Proof. induction 1 as [|[] l1 He _ [IH1 IH2]]; simpl in *; done. Qed.

(** Since [base], [out] and [err] have been written. *)
Definition printed {W} (base : list Event) (out err : string) (s : St W) : Prop :=
  exists new, st_log s = new ++ base /\ stdout new = out /\ stderr new = err.

Section streams.
Context {W : Type}.

Lemma printed_start (s : St W) : printed (st_log s) "" "" s.
Proof. by exists []. Qed.

Lemma printed_trans base out err (s s' : St W) :
  printed base "" "" s -> printed (st_log s) out err s' -> printed base out err s'.
Proof.
  intros (n1 & L1 & O1 & E1) (n2 & L2 & <- & <-). exists (n2 ++ n1). rewrite L2, L1, app_assoc.
  split; [done|]. clear L2. induction n2 as [|e n2 [IH1 IH2]]; [by simpl; rewrite O1, E1|].
  destruct e; simpl; by rewrite ?IH1, ?IH2.
Qed.

Lemma printed_unprinted base out err (s s' : St W) new :
  printed base out err s -> st_log s' = new ++ st_log s -> Forall unprinted new ->
  printed base out err s'.
Proof.
  intros (old & L & Ho & He) L' F. exists (new ++ old). rewrite L', L, app_assoc.
  split; [done|]. destruct (unprinted_streams new old F) as [-> ->]. done.
Qed.

Lemma printed_step {A} base out err (m : io W A) (Q : A -> St W -> Prop) (E : exn -> St W -> Prop) s :
  emits unprinted m -> throws real m -> printed base out err s ->
  (forall a s', m s = (Ok a, s') -> printed base out err s' -> Q a s') ->
  (forall x s', real x -> printed base out err s' -> E x s') -> wp m Q E s.
Proof.
  intros Hm Ht Hs HQ HE. destruct (Hm s) as (new & L & F). specialize (Ht s).
  unfold wp. destruct (m s) as [[a|x] s'] eqn:Em; simpl in *.
  - eapply HQ; [done|by eapply printed_unprinted].
  - eapply HE; [by eapply Ht|by eapply printed_unprinted].
Qed.

Lemma print_out_wp base out err text (Q : unit -> St W -> Prop) E s :
  printed base out err s ->
  (forall s', printed base (out +:+ text) err s' -> Q tt s') -> wp (print_out text) Q E s.
Proof.
  intros (new & L & Ho & He) HQ. unfold wp, print_out, emit. apply HQ.
  exists (EvOut text :: new). simpl. rewrite L. split; [done|]. by rewrite Ho.
Qed.

Lemma print_err_wp base out err text (Q : unit -> St W -> Prop) E s :
  printed base out err s ->
  (forall s', printed base out (err +:+ text) s' -> Q tt s') -> wp (print_err text) Q E s.
Proof.
  intros (new & L & Ho & He) HQ. unfold wp, print_err, emit. apply HQ.
  exists (EvErr text :: new). simpl. rewrite L. split; [done|]. by rewrite He.
Qed.

End streams.

(** ** The library prints nothing *)

(** Follows the structure of a computation, with the lemmas the context has. *)
Ltac muted_step :=
  first [ by auto with pqtls | by apply emits_call_ev | by apply emits_emit
        | by apply emits_adopt | apply emits_scoped | apply emits_guarded
        | apply emits_bind; [|intros ?] | case_match ].
Ltac muted := repeat muted_step.

Section muted.
Context {W : Type} {RA : RuntimeApi W} {J : JsonLib} {Y : YamlLib W} {EA : EnvApi W} {SA : SocketApi W}
  {LA : SslApi W} {LL : SslLaws W} {CA : CtxApi W} {PA : CapApi W} {MA : MetricsApi W} {KA : ClientApi W}
  {FA : FileApi W}.

Lemma offline_load_yaml path : emits offline (load_yaml path).
Proof. unfold load_yaml. muted. Qed.

Lemma offline_load_client path c w : emits offline (load_client_yaml path c w).
Proof.
  unfold load_client_yaml, load_common_yaml.
  apply emits_bind; [|intros []]; (apply emits_bind; [apply offline_load_yaml|auto with pqtls]).
Qed.

Lemma offline_load_server path c w : emits offline (load_server_yaml path c w).
Proof.
  unfold load_server_yaml, load_common_yaml.
  apply emits_bind; [|intros []]; (apply emits_bind; [apply offline_load_yaml|auto with pqtls]).
Qed.

Lemma offline_warnings ws : emits (W := W) offline (log_warnings ws).
Proof. induction ws; simpl; auto with pqtls. Qed.

Lemma offline_client_config args : emits offline (client_build_config args).
Proof.
  unfold client_build_config. apply emits_bind; [|auto with pqtls]. case_match; [|auto with pqtls].
  apply emits_bind; [apply offline_load_client|intros []]. apply emits_bind; [apply offline_warnings|auto with pqtls].
Qed.

Lemma offline_server_config args : emits offline (server_build_config args).
Proof.
  unfold server_build_config. apply emits_bind; [|auto with pqtls]. case_match; [|auto with pqtls].
  apply emits_bind; [apply offline_load_server|intros []]. apply emits_bind; [apply offline_warnings|auto with pqtls].
Qed.

Lemma offline_load_registry path : emits offline (load_registry path).
Proof. unfold load_registry, registry_from_yaml_file. muted. Qed.

Lemma offline_policy c : emits offline (enforce_insecure_mode_policy c).
Proof. unfold enforce_insecure_mode_policy, production_environment. muted. Qed.

Lemma offline_validate_client c : emits offline (validate_client c).
Proof. unfold validate_client. apply emits_bind; [auto with pqtls|intros; apply offline_policy]. Qed.

Lemma offline_validate_server c : emits offline (validate_server c).
Proof. unfold validate_server. apply emits_bind; [auto with pqtls|intros; apply offline_policy]. Qed.

Lemma offline_writer path : emits offline (MetricsWriter_new path).
Proof. unfold MetricsWriter_new. muted. Qed.

Lemma offline_opt_writer path :
  emits offline (if negb (str_empty path) then w ← MetricsWriter_new path; mret (Some w) else mret None).
Proof. case_match; [|auto with pqtls]. apply emits_bind; [apply offline_writer|auto with pqtls]. Qed.

Lemma offline_build_message c : emits offline (build_message c).
Proof. unfold build_message, make_request. muted. Qed.

Lemma offline_init : emits offline initialize_openssl.
Proof. unfold initialize_openssl. muted. Qed.

Lemma offline_create_client p c : emits offline (create_client p c).
Proof.
  unfold create_client, apply_common_policy, load_trust_store, load_certificate_material,
    install_keylog_callback, ctx_require, ctx_set, production_environment. cbv zeta.
  repeat first [ apply offline_init | apply offline_policy | muted_step ].
Qed.

Lemma offline_create_server p c b : emits offline (create_server p c b).
Proof.
  unfold create_server, apply_common_policy, load_trust_store, load_certificate_material,
    install_keylog_callback, ctx_require, ctx_set, production_environment. cbv zeta.
  repeat first [ apply offline_init | apply offline_policy | muted_step ].
Qed.

Lemma offline_probe_all (p : string -> io W bool) names :
  (forall n, emits offline (p n)) -> emits offline (probe_all p names).
Proof.
  intros Hp. induction names as [|n names IH]; simpl; [auto with pqtls|].
  apply emits_bind; [done|intros b]. apply emits_bind; [done|auto with pqtls].
Qed.

Lemma offline_detect r : emits offline (Capabilities_detect r).
Proof.
  unfold Capabilities_detect, loaded_providers, probe_tls13, openssl_supports_algorithm, probe_cipher_suite,
    probe_signature_algorithm, probe, ctx_set.
  repeat first [ apply offline_init | apply offline_probe_all; intros ? | muted_step ].
Qed.

(** A whole connection of the client. *)
Lemma unprinted_conclude config (writer : option MetricsWriter) r :
  local_emits (W := W) (L := Z) unprinted (conclude config writer r).
Proof.
  apply local_emits_bind; [apply local_emits_lift; unfold complete_metrics; muted|intros m].
  apply local_emits_bind; [|intros; by apply local_emits_pure].
  destruct writer as [[]|]; cbn [enabled]; [|by apply local_emits_pure|by apply local_emits_pure].
  apply local_emits_lift. unfold MetricsWriter_write. muted.
Qed.

Lemma unprinted_connect config context ms :
  local_emits (W := W) unprinted (connect_and_exchange config context ms).
Proof.
  unfold connect_and_exchange. cbn zeta.
  do 3 (apply local_emits_bind; [apply local_emits_lift; muted|intros ?]).
  apply local_emits_bind; [|intros fd].
  - eapply local_emits_lift, emits_mono, emits_tcp_connect. by intros [].
  - apply local_emits_scoped; [apply local_emits_lift; unfold Socket_close; muted|]. eapply local_emits_mono, emits_over_socket. by intros [].
Qed.

Lemma unprinted_run_once config context writer ms :
  local_emits (W := W) unprinted (run_once config context writer ms).
Proof.
  apply local_emits_bind; [|apply unprinted_conclude].
  apply local_emits_catch; [apply unprinted_connect|intros].
  apply local_emits_bind; [apply local_emits_lift; by auto with pqtls|intros; by apply local_emits_pure].
Qed.

End muted.

(** ** Reports *)

Lemma muted_offline {W A} (m : io W A) : emits offline m -> emits unprinted m.
Proof. apply emits_mono, offline_unprinted. Qed.

Definition warning (insecure : bool) : string := if insecure then insecure_mode_banner else "".

(** The status that goes with a connection, with a summary, with a profile. *)
Definition connect_status (r : ClientResult) : ExitCode :=
  if cr_ok r then ExitSuccess else exit_code_for (m_error_category (cr_metrics r)).

Definition benchmark_status (summary : BenchmarkSummary) : ExitCode :=
  if successful summary =? 0 then ExitHandshakeError else ExitSuccess.

Definition error_status (x : exn) : ExitCode :=
  if is_Error x then exit_code_for (exn_category x) else ExitInternalError.

(** The document a command prints, and the status it exits with. *)
Definition client_report (command : string) (doc : json) (e : ExitCode) : Prop :=
  (command = "capabilities" /\ e = ExitSuccess /\ exists caps, doc = Capabilities_to_json caps) \/
  (command = "connect" /\ exists r, doc = connection_document r /\ e = connect_status r).

Definition benchmark_report (doc : json) (e : ExitCode) : Prop :=
  exists summary, doc = BenchmarkSummary_to_json summary /\ e = benchmark_status summary.

Definition server_report (command : string) (doc : json) (e : ExitCode) : Prop :=
  (command = "capabilities" /\ e = ExitSuccess /\ exists caps, doc = Capabilities_to_json caps) \/
  (command = "validate-config" /\ exists file profile availability,
     doc = config_document file profile availability /\
     e = if usable_here availability then ExitSuccess else ExitCapabilityError).

Section reports.
Context {W : Type} {RA : RuntimeApi W} {J : JsonLib} {Y : YamlLib W} {EA : EnvApi W} {SA : SocketApi W}
  {LA : SslApi W} {LL : SslLaws W} {CA : CtxApi W} {PA : CapApi W} {MA : MetricsApi W} {KA : ClientApi W}
  {FA : FileApi W}.

(** A computation that prints one document and returns the status that goes
    with it, or throws before it has printed anything; the banner apart. *)
Definition reports (R : json -> ExitCode -> Prop) (m : io W Z) : Prop :=
  forall s, wp m
    (fun code s' => exists doc text b e, code = exit_code_int e /\ R doc e /\ json_pretty doc = Ok text /\
       printed (st_log s) (text +:+ nl) (warning b) s')
    (fun x s' => real x /\ exists b, printed (st_log s) "" (warning b) s') s.

(** The same from a later state. *)
Definition reports_from (base : list Event) (b : bool) (R : json -> ExitCode -> Prop) (m : io W Z) : Prop :=
  forall s, printed base "" (warning b) s ->
  wp m
    (fun code s' => exists doc text e, code = exit_code_int e /\ R doc e /\ json_pretty doc = Ok text /\
       printed base (text +:+ nl) (warning b) s')
    (fun x s' => real x /\ printed base "" (warning b) s') s.

Lemma reports_start R m : (forall base, reports_from base false R m) -> reports R m.
Proof.
  intros Hm s. eapply wp_mono; [| |apply (Hm (st_log s)), printed_start].
  - intros code s' (doc & text & e & H). exists doc, text, false, e. exact H.
  - intros x s' [Hx Hp]. split; [done|]. by exists false.
Qed.

Lemma reports_bind {A} base b R (m : io W A) k :
  emits unprinted m -> throws real m -> (forall a s s', m s = (Ok a, s') -> reports_from base b R (k a)) ->
  reports_from base b R (m ≫= k).
Proof.
  intros Hm Ht Hk s Hs. apply wp_bind. eapply printed_step; [exact Hm|exact Ht|exact Hs| |done].
  intros a s' Ha Hp. by eapply Hk.
Qed.

(** The last two lines of every command. *)
Lemma reports_document base b (R : json -> ExitCode -> Prop) doc e :
  R doc e -> reports_from base b R (print_document doc ;; mret (exit_code_int e)).
Proof.
  intros HR s Hs. apply wp_bind. unfold print_document. apply wp_bind, wp_lift.
  - intros text Ht. eapply print_out_wp; [exact Hs|]. intros s' Hp. apply wp_ret.
    exists doc, text, e. by splits.
  - intros x Hx. split; [|done]. by eapply raises_json_pretty.
Qed.

Lemma capabilities_reports base (R : json -> ExitCode -> Prop) args :
  has args "json" = true -> (forall caps, R (Capabilities_to_json caps) ExitSuccess) ->
  reports_from base false R (command_capabilities args).
Proof.
  intros Hj HR. unfold command_capabilities. rewrite Hj.
  apply reports_bind; [apply muted_offline, offline_load_registry|apply throws_load_registry|intros r _ _ _].
  apply reports_bind; [apply muted_offline, offline_detect|apply throws_detect|intros caps _ _ _].
  by apply reports_document.
Qed.

(** The banner of the two commands that print it. *)
Lemma reports_warned base c R (m : io W Z) s Q E :
  printed base "" "" s ->
  reports_from base (insecure_development_mode c) R m ->
  (forall code s' doc text e, code = exit_code_int e -> R doc e -> json_pretty doc = Ok text ->
     printed base (text +:+ nl) (warning (insecure_development_mode c)) s' -> Q code s') ->
  (forall x s', real x -> printed base "" (warning (insecure_development_mode c)) s' -> E x s') ->
  wp (warn_if_insecure c ;; m) Q E s.
Proof.
  intros Hs Hm HQ HE. apply wp_bind. unfold warn_if_insecure, warning in *.
  destruct (insecure_development_mode c); [eapply print_err_wp; [exact Hs|intros s' Hs']|].
  - eapply wp_mono; [| |by apply Hm]; naive_solver.
  - apply wp_ret. eapply wp_mono; [| |by apply Hm]; naive_solver.
Qed.

Lemma printed_dispose base out err (s : St W) o h :
  printed base out err s -> printed base out err (dispose o h s).2.
Proof.
  intros Hs. eapply (printed_unprinted _ _ _ _ _ _ Hs); [apply dispose_log|].
  case_match; by repeat constructor.
Qed.

(** A client that runs once and then reports. *)
Lemma reports_client base b R config context writer ms (k : ClientResult -> io W Z) :
  client_limits config -> (forall r, reports_from base b R (k r)) ->
  reports_from base b R (with_client context (r ← run_once config context writer ms; lift_io (k r))).
Proof.
  intros Hl Hk s Hs. apply wp_with_client, wp_bind. unfold destroyed. cbn [fst snd].
  destruct (unprinted_run_once config context writer ms s 0) as (new & L & F).
  pose proof (run_once_outcome config context writer ms s 0 Hl) as Ho. unfold wp in Ho |- * at 1.
  destruct (run_once config context writer ms (s, 0)) as [[r|x] [s1 c1]]; cbn [fst snd] in *.
  - apply wp_lift_io. eapply wp_mono; [| |apply Hk; by eapply printed_unprinted].
    + intros code s2 (doc & text & e & H1 & H2 & H3 & H4). exists doc, text, e.
      splits; auto using printed_dispose.
    + intros x s2 [Hx Hp]. split; auto using printed_dispose.
  - split; [apply Ho|]. by apply printed_dispose, printed_dispose; eapply printed_unprinted.
Qed.

Lemma client_format args config s s' :
  as_uint32_typed -> has args "json" = true -> client_build_config args s = (Ok config, s') ->
  output_format (c_common config) = Config.Json /\ client_typed config.
Proof.
  intros Hy Hj H. apply client_build_config_ok in H as (base & _ & Ho & Ht); [|done].
  split; [|done]. destruct Ho. by rewrite co_format, Hj.
Qed.

Lemma offline_new_client config registry : emits offline (PqTlsClient_new config registry).
Proof.
  apply emits_bind; [auto with pqtls|intros p]. apply emits_bind; [apply offline_create_client|intros].
  unfold ignore_sigpipe. muted.
Qed.

Lemma offline_new_server config registry : emits offline (PqTlsServer_new config registry).
Proof.
  apply emits_bind; [auto with pqtls|intros p]. apply emits_bind; [apply offline_create_server|intros].
  unfold ignore_sigpipe. muted.
Qed.

Lemma offline_flush w : emits offline (MetricsWriter_flush w).
Proof. unfold MetricsWriter_flush. muted. Qed.

Lemma connect_reports args :
  as_uint32_typed -> has args "json" = true -> reports (client_report "connect") (command_connect args).
Proof.
  intros Hy Hj s. unfold command_connect. pose proof (printed_start s) as Hs.
  apply wp_bind. eapply printed_step;
    [apply muted_offline, offline_client_config|apply throws_client_config|exact Hs| |intros; split; [done|by exists false]].
  intros config s1 Hc Hs1. apply client_format in Hc as [Hf Ht]; [|done..].
  apply wp_bind. eapply printed_step;
    [apply muted_offline, offline_validate_client|apply throws_validate_client|exact Hs1| |intros; split; [done|by exists false]].
  intros [] s2 Hv Hs2. apply validated_client_limits in Hv; [|done].
  eapply (reports_warned _ _ (client_report "connect")); [exact Hs2| |by eauto 10|by eauto].
  apply reports_bind; [apply muted_offline, offline_load_registry|apply throws_load_registry|intros registry _ _ _].
  apply reports_bind; [apply muted_offline, offline_build_message|apply throws_build_message|intros m _ _ _].
  apply reports_bind; [apply muted_offline, offline_opt_writer|apply throws_opt_writer|intros writer _ _ _].
  apply reports_bind; [apply muted_offline, offline_new_client|apply throws_new_client|intros context _ _ _].
  apply reports_client; [done|intros r].
  unfold print_connection_result. rewrite Hf. apply reports_document. right. eauto.
Qed.

Lemma validate_config_reports args :
  has args "json" = true -> reports (server_report "validate-config") (command_validate_config args).
Proof.
  intros Hj. apply reports_start. intros base. unfold command_validate_config.
  destruct (value args "config") as [file|]; [|intros s Hs; by apply wp_throw]. rewrite Hj.
  apply reports_bind; [apply muted_offline, offline_server_config|apply throws_server_config|intros config _ _ _].
  apply reports_bind; [apply muted_offline, offline_validate_server|apply throws_validate_server|intros _ _ _ _].
  apply reports_bind; [apply muted_offline, offline_load_registry|apply throws_load_registry|intros registry _ _ _].
  apply reports_bind; [by auto with pqtls|apply throws_raises, raises_registry_get|intros p _ _ _].
  apply reports_bind; [apply muted_offline, offline_detect|apply throws_detect|intros caps _ _ _]. cbv zeta.
  apply reports_document. right. split; [done|]. eauto.
Qed.

(** The arguments stand for the multithreaded parts; the commands that use them
    report likewise if those print nothing and come back. *)
Context (run_benchmark : ClientConfig -> ProfileRegistry -> MetricsWriter -> io W BenchmarkSummary)
  (server_run : ServerConfig -> TlsContext -> option MetricsWriter -> io W unit)
  (info : BuildInfo).

Lemma benchmark_reports args :
  (forall c r w, throws real (run_benchmark c r w) /\ emits unprinted (run_benchmark c r w)) ->
  as_uint32_typed -> has args "json" = true -> reports benchmark_report (command_benchmark run_benchmark args).
Proof.
  intros Hbench Hy Hj. apply reports_start. intros base. unfold command_benchmark.
  apply reports_bind; [apply muted_offline, offline_client_config|apply throws_client_config|].
  intros config s s' Hc. apply client_format in Hc as [Hf _]; [|done..]. cbv zeta.
  set (config' := if _ <? _ then _ else _).
  assert (Hf' : output_format (c_common config') = Config.Json) by (unfold config'; by case_match).
  clearbody config'. clear s s'.
  apply reports_bind; [apply muted_offline, offline_validate_client|apply throws_validate_client|intros _ _ _ _].
  apply reports_bind; [by auto with pqtls|apply throws_raises; by apply raises_throw_if|intros _ _ _ _].
  apply reports_bind; [apply muted_offline, offline_load_registry|apply throws_load_registry|intros registry _ _ _].
  apply reports_bind; [apply muted_offline, offline_writer|apply throws_writer|intros writer _ _ _].
  apply reports_bind; [by auto with pqtls|apply throws_log|intros _ _ _ _].
  apply reports_bind; [apply Hbench|apply Hbench|intros summary _ _ _].
  apply reports_bind; [apply muted_offline, offline_flush|apply throws_flush|intros _ _ _ _]. rewrite Hf'.
  apply reports_document. by exists summary.
Qed.

(** A server that ran has printed nothing but the banner. *)
Lemma serve_quiet args s :
  (forall c t w, throws real (server_run c t w) /\ emits unprinted (server_run c t w)) ->
  wp (command_serve server_run args)
    (fun code s' => code = exit_code_int ExitSuccess /\ exists b, printed (st_log s) "" (warning b) s')
    (fun x s' => real x /\ exists b, printed (st_log s) "" (warning b) s') s.
Proof.
  intros Hrun. unfold command_serve. pose proof (printed_start s) as Hs.
  assert (Hstep : forall A (m : io W A) (Q : A -> St W -> Prop) b s1,
    emits unprinted m -> throws real m -> printed (st_log s) "" (warning b) s1 ->
    (forall a s2, printed (st_log s) "" (warning b) s2 -> Q a s2) ->
    wp m Q (fun x s' => real x /\ exists b, printed (st_log s) "" (warning b) s') s1)
    by (intros A m Q b s1 Hm Ht H1 HQ; eapply printed_step; eauto).
  apply wp_bind, (Hstep _ _ _ false); [apply muted_offline, offline_server_config|apply throws_server_config|done|intros config s1 H1].
  apply wp_bind, (Hstep _ _ _ false); [apply muted_offline, offline_validate_server|apply throws_validate_server|done|intros _ s2 H2].
  apply wp_bind. assert (Hw : wp (warn_if_insecure (s_common config))
    (fun _ s' => exists b, printed (st_log s) "" (warning b) s') (fun _ _ => False) s2).
  { unfold warn_if_insecure. case_match; [|apply wp_ret; by exists false].
    eapply print_err_wp; [exact H2|]. intros s' Hs'. by exists true. }
  eapply wp_mono; [| |exact Hw]; [|done]. clear Hw. intros _ s3 [b H3].
  apply wp_bind, (Hstep _ _ _ b); [apply muted_offline, offline_load_registry|apply throws_load_registry|done|intros r s4 H4].
  apply wp_bind, (Hstep _ _ _ b); [apply muted_offline, offline_detect|apply throws_detect|done|intros caps s5 H5].
  apply wp_bind, (Hstep _ _ _ b); [muted|repeat case_match; first [apply throws_ret|by apply throws_throw]|done|intros _ s6 H6].
  apply wp_bind, (Hstep _ _ _ b); [apply muted_offline, offline_opt_writer|apply throws_opt_writer|done|intros w s7 H7].
  apply wp_bind, (Hstep _ _ _ b); [apply muted_offline, offline_new_server|apply throws_new_server|done|intros context s8 H8].
  apply wp_scoped, wp_bind, (printed_step _ _ _ _ _ _ _ (proj2 (Hrun _ _ _)) (proj1 (Hrun _ _ _)) H8).
  - intros _ s9 _ H9. apply wp_ret. eauto using printed_dispose.
  - intros x s9 Hx H9. eauto using printed_dispose.
Qed.

(** ** The programs *)

(** A command is run: neither the usage nor the version was asked for. *)
Definition runs (args : Arguments) : Prop :=
  has args "help" = false /\ has args "version" = false /\ command args <> "" /\ command args <> "help".

(** What a run with [--json] leaves: one document on stdout, or nothing there
    and one error line on stderr; the banner may precede on stderr. *)
Definition spoken (R : json -> ExitCode -> Prop) (base : list Event) (e : ExitCode) (s' : St W) : Prop :=
  (exists doc text b, R doc e /\ json_pretty_text doc = inr text /\
     (json_wf doc = true -> json_parse text = Parsed (json_normalize doc)) /\
     printed base (text +:+ nl) (warning b) s') \/
  (exists x b, real x /\ e = error_status x /\ printed base "" (warning b +:+ error_line x) s').

Lemma top_level_spoken {JL : JsonLaws J} (body : io W Z) R s :
  wp body
    (fun code s' => exists doc text b e, code = exit_code_int e /\ R doc e /\ json_pretty doc = Ok text /\
       printed (st_log s) (text +:+ nl) (warning b) s')
    (fun x s' => real x /\ exists b, printed (st_log s) "" (warning b) s') s ->
  match top_level body s with
  | (Ok code, s') => exists e, code = exit_code_int e /\ spoken R (st_log s) e s'
  | (Throw _, _) => False
  end.
Proof.
  unfold wp, top_level, try_catch. destruct (body s) as [[code|x] s1].
  - intros (doc & text & b & e & -> & HR & Ht & Hp). exists e. split; [done|]. left.
    unfold json_pretty in Ht. destruct (json_pretty_text doc) as [what|text'] eqn:E; [done|].
    injection Ht as ->. exists doc, text, b. splits; [done|done| |done]. intros Hw. by apply pretty_parse.
  - intros [Hx [b Hp]]. rewrite (proj1 Hx). unfold mbind, M_bind, print_err, emit, mret, M_ret.
    exists (error_status x). split; [done|]. right. exists x, b. splits; [done|done|].
    destruct Hp as (new & L & Ho & He). exists (EvErr (error_line x) :: new). simpl. by rewrite L, Ho, He.
Qed.

Lemma unprinted_logging level json : emits (W := W) unprinted (configure_logging level json).
Proof. unfold configure_logging. muted. Qed.

Lemma program_wp usage flags accepted (dispatch : Arguments -> io W Z) argv args Q E s :
  parse flags argv = Ok args -> runs args ->
  (forall x s', real x -> printed (st_log s) "" "" s' -> E x s') ->
  (forall s', printed (st_log s) "" "" s' -> wp (dispatch args) Q E s') ->
  wp (program info usage flags accepted dispatch argv) Q E s.
Proof.
  intros Hp (Hh & Hv & Hc & Hc') HE Hd. unfold program. apply wp_bind. unfold wp at 1, liftM. rewrite Hp, Hh, Hv.
  apply str_empty_false in Hc as ->. apply String.eqb_neq in Hc' as ->. simpl.
  pose proof (printed_start s) as Hs.
  apply wp_bind, wp_lift; [intros [] _|intros x Hx; by eapply HE; [eapply raises_reject|]].
  apply wp_bind. eapply printed_step; [apply unprinted_logging|apply throws_logging|exact Hs|by auto..].
Qed.

(** A command that reports, run by a program. *)
Lemma reports_dispatched usage flags accepted (dispatch : Arguments -> io W Z) argv args R s :
  parse flags argv = Ok args -> runs args -> reports R (dispatch args) ->
  wp (program info usage flags accepted dispatch argv)
    (fun code s' => exists doc text b e, code = exit_code_int e /\ R doc e /\ json_pretty doc = Ok text /\
       printed (st_log s) (text +:+ nl) (warning b) s')
    (fun x s' => real x /\ exists b, printed (st_log s) "" (warning b) s') s.
Proof.
  intros Hp Hr Hd. eapply program_wp; [done|done| |].
  - intros x s' Hx Hs. split; [done|]. by exists false.
  - intros s' Hs. eapply wp_mono; [| |apply Hd].
    + intros code s2 (doc & text & b & e & H1 & H2 & H3 & H4). exists doc, text, b, e.
      splits; try done. by eapply printed_trans.
    + intros x s2 [Hx [b H]]. split; [done|]. exists b. by eapply printed_trans.
Qed.

Lemma reports_throw (R : json -> ExitCode -> Prop) x : real x -> reports R (throwM x).
Proof. intros Hx s. apply wp_throw. split; [done|]. exists false. apply printed_start. Qed.

Lemma client_dispatch_reports args :
  as_uint32_typed -> has args "json" = true -> command args <> "benchmark" ->
  reports (client_report (command args)) (client_dispatch run_benchmark args).
Proof.
  intros Hy Hj Hc. unfold client_dispatch.
  destruct (String.eqb_spec (command args) "capabilities") as [->|_].
  { apply reports_start. intros base. apply capabilities_reports; [done|]. intros caps. left. eauto. }
  destruct (String.eqb_spec (command args) "connect") as [->|_]; [by apply connect_reports|].
  destruct (String.eqb_spec (command args) "benchmark"); [done|by apply reports_throw].
Qed.

Lemma server_dispatch_reports args :
  has args "json" = true -> command args <> "serve" ->
  reports (server_report (command args)) (server_dispatch server_run args).
Proof.
  intros Hj Hc. unfold server_dispatch.
  destruct (String.eqb_spec (command args) "capabilities") as [->|_].
  { apply reports_start. intros base. apply capabilities_reports; [done|]. intros caps. left. eauto. }
  destruct (String.eqb_spec (command args) "validate-config") as [->|_]; [by apply validate_config_reports|].
  destruct (String.eqb_spec (command args) "serve"); [done|by apply reports_throw].
Qed.

(** ** The logger *)

(** Whatever is logged by a command that was given [--json], none of it is on
    stdout. *)
Lemma program_log_diverted usage flags accepted (dispatch : Arguments -> io W Z) argv args s :
  parse flags argv = Ok args -> runs args -> has args "json" = true ->
  emits (fun _ => True) (dispatch args) ->
  stdout_log (st_log (top_level (program info usage flags accepted dispatch argv) s).2) = stdout_log (st_log s).
Proof.
  intros Hp (Hh & Hv & Hc & Hc') Hj Hd. unfold top_level, try_catch, program, mbind, M_bind, liftM.
  rewrite Hp, Hh, Hv. apply str_empty_false in Hc as ->. apply String.eqb_neq in Hc' as ->. simpl.
  destruct (reject_unknown_options args accepted) as [[]|x]; [|by destruct (is_exception x)].
  rewrite Hj. unfold configure_logging, mbind, M_bind, liftM, emit. simpl.
  destruct (parse_log_level _) as [level|x]; [|by destruct (is_exception x)]. simpl.
  set (s1 := mkSt _ _ _). destruct (Hd s1) as (new & L & _).
  assert (H : stdout_log (new ++ st_log s1) = stdout_log (st_log s)) by (by rewrite stdout_log_app).
  destruct (dispatch args s1) as [[code|x] s2]; simpl in L; [by simpl; rewrite L|].
  destruct (is_exception x); simpl; by rewrite L.
Qed.

Lemma grows_printed (m : io W Z) :
  (forall s, wp m (fun _ s' => exists out err, printed (st_log s) out err s')
                  (fun _ s' => exists out err, printed (st_log s) out err s') s) ->
  emits (fun _ => True) m.
Proof.
  intros Hm s. specialize (Hm s). unfold wp in Hm.
  destruct (m s) as [[a|x] s']; destruct Hm as (out & err & new & L & _); exists new; (split; [done|by apply Forall_true]).
Qed.

(** A program whose command reports. *)
Lemma program_spoken {JL : JsonLaws J} usage flags accepted (dispatch : Arguments -> io W Z) argv args R s :
  runs args -> has args "json" = true -> parse flags argv = Ok args -> reports R (dispatch args) ->
  exists e s', top_level (program info usage flags accepted dispatch argv) s = (Ok (exit_code_int e), s') /\
    stdout_log (st_log s') = stdout_log (st_log s) /\ spoken R (st_log s) e s'.
Proof.
  intros Hr Hj Hp Hd.
  pose proof (top_level_spoken _ R s (reports_dispatched usage flags accepted dispatch argv args R s Hp Hr Hd)) as H.
  assert (Hg : emits (fun _ => True) (dispatch args)).
  { apply grows_printed. intros s1. eapply wp_mono; [| |apply Hd]; naive_solver. }
  pose proof (program_log_diverted usage flags accepted dispatch argv args s Hp Hr Hj Hg) as Hl.
  destruct (top_level _ s) as [[code|x] s']; [|done]. destruct H as (e & -> & H). by exists e, s'.
Qed.


End reports.

(** ** The banner *)

(** Every descriptor is opened after the banner was printed (newest event
    first). *)
Fixpoint announced (log : list Event) : Prop :=
  match log with
  | [] => True
  | e :: earlier =>
      match e with EvOpen _ => In (EvErr insecure_mode_banner) earlier | _ => True end /\ announced earlier
  end.

Lemma announced_offline l1 l2 : Forall offline l1 -> announced l2 -> announced (l1 ++ l2).
Proof. induction 1 as [|[] l1 He _ IH]; simpl in *; by auto. Qed.

Lemma announced_later l1 l2 :
  In (EvErr insecure_mode_banner) l2 -> announced l2 -> announced (l1 ++ l2).
Proof.
  intros Hin H2. induction l1 as [|e l1 IH]; simpl; [done|]. split; [|done].
  destruct e; try done. apply in_or_app. by right.
Qed.

Section banner.
Context {W : Type} {RA : RuntimeApi W} {J : JsonLib} {Y : YamlLib W} {EA : EnvApi W} {SA : SocketApi W}
  {LA : SslApi W} {LL : SslLaws W} {CA : CtxApi W} {PA : CapApi W} {MA : MetricsApi W} {KA : ClientApi W}
  {FA : FileApi W}.

Definition grows {A} (m : io W A) : Prop := emits (fun _ => True) m.

Lemma grows_any {A} P (m : io W A) : emits P m -> grows m.
Proof. by apply emits_mono. Qed.

Lemma grows_print r c : grows (print_connection_result r c).
Proof.
  unfold print_connection_result, print_document, print_out. unfold grows. case_match; [|muted].
  apply emits_bind; [by apply emits_emit|intros _].
  induction (cr_responses r) as [|m ms IH]; simpl; [auto with pqtls|].
  apply emits_bind; [unfold Message_serialize; by auto with pqtls|intros text].
  apply emits_bind; [by apply emits_emit|done].
Qed.

(** Step over [m], of which only the events are known. *)
Lemma bind_log {A B} P (m : io W A) (k : A -> io W B) s (C : St W -> Prop) :
  emits P m ->
  (forall s' new, st_log s' = new ++ st_log s -> Forall P new -> C s') ->
  (forall a s' new, st_log s' = new ++ st_log s -> Forall P new -> C (k a s').2) ->
  C ((m ≫= k) s).2.
Proof.
  intros Hm HC Hk. destruct (Hm s) as (new & L & F). unfold mbind, M_bind.
  destruct (m s) as [[a|x] s']; simpl in L; eauto.
Qed.

Lemma connect_announced args config s s1 :
  client_build_config args s = (Ok config, s1) -> insecure_development_mode (c_common config) = true ->
  exists new, st_log (command_connect args s).2 = new ++ st_log s /\ announced new.
Proof.
  intros Hc Hi. destruct (offline_client_config args s) as (n1 & L1 & F1). rewrite Hc in L1. simpl in L1.
  unfold command_connect. rewrite (bind_eq _ _ _ _ _ Hc).
  apply (bind_log offline _ _ _ (fun s' => exists new, st_log s' = new ++ st_log s /\ announced new));
    [apply offline_validate_client|..].
  { intros s2 n2 L2 F2. exists (n2 ++ n1). rewrite L2, L1, app_assoc. split; [done|].
    rewrite <- (app_nil_r (n2 ++ n1)). apply announced_offline; [by apply Forall_app|exact I]. }
  intros _ s2 n2 L2 F2. unfold warn_if_insecure. rewrite Hi.
  unfold print_insecure_mode_banner, print_err, emit, mbind at 1, M_bind at 1. cbn beta iota.
  set (s3 := mkSt _ _ _).
  assert (L3 : st_log s3 = (EvErr insecure_mode_banner :: n2 ++ n1) ++ st_log s)
    by (unfold s3; simpl; by rewrite L2, L1, app_assoc).
  assert (H3 : announced (EvErr insecure_mode_banner :: n2 ++ n1)).
  { split; [exact I|]. rewrite <- (app_nil_r (n2 ++ n1)).
    apply announced_offline; [by apply Forall_app|exact I]. }
  match goal with |- exists _, st_log (?m s3).2 = _ /\ _ => assert (Hm : grows m) end.
  { apply emits_bind; [eapply grows_any, offline_load_registry|intros registry].
    apply emits_bind; [eapply grows_any, offline_build_message|intros m].
    apply emits_bind; [eapply grows_any, offline_opt_writer|intros writer].
    apply emits_bind; [eapply grows_any, offline_new_client|intros context].
    apply emits_with_client; [by intros []|].
    apply local_emits_bind; [eapply local_emits_mono, unprinted_run_once; done|intros r].
    apply local_emits_lift, emits_bind; [apply grows_print|auto with pqtls]. }
  destruct (Hm s3) as (n4 & L4 & _). exists (n4 ++ (EvErr insecure_mode_banner :: n2 ++ n1)).
  rewrite L4, L3, app_assoc. split; [done|]. by apply announced_later; [left|].
Qed.

(** The server is started after the banner. *)
Definition warned_since (base : list Event) (s : St W) : Prop :=
  exists new, st_log s = new ++ base /\ In (EvErr insecure_mode_banner) new.

Lemma warned_grows {A} base (m : io W A) s a s' :
  grows m -> m s = (Ok a, s') -> warned_since base s -> warned_since base s'.
Proof.
  intros Hm E (n1 & L1 & Hin). destruct (Hm s) as (n2 & L2 & _). rewrite E in L2. simpl in L2.
  exists (n2 ++ n1). rewrite L2, L1, app_assoc. split; [done|]. apply in_or_app. by right.
Qed.

Lemma serve_announced (run run' : ServerConfig -> TlsContext -> option MetricsWriter -> io W unit) args s :
  (forall c context writer s1,
     (insecure_development_mode (s_common c) = true -> warned_since (st_log s) s1) ->
     run c context writer s1 = run' c context writer s1) ->
  command_serve run args s = command_serve run' args s.
Proof.
  intros Hrun. unfold command_serve. apply bind_ext. intros c s1 E1.
  apply bind_ext. intros [] s2 E2. apply bind_ext. intros [] s3 E3.
  assert (H3 : insecure_development_mode (s_common c) = true -> warned_since (st_log s) s3).
  { intros Hi. unfold warn_if_insecure in E3. rewrite Hi in E3. injection E3 as <-.
    destruct (offline_server_config args s) as (n1 & L1 & _). rewrite E1 in L1.
    destruct (offline_validate_server c s1) as (n2 & L2 & _). rewrite E2 in L2. simpl in *.
    exists (EvErr insecure_mode_banner :: n2 ++ n1). simpl. rewrite L2, L1, app_assoc. split; [done|by left]. }
  apply bind_ext. intros r s4 E4. apply bind_ext. intros caps s5 E5. apply bind_ext. intros [] s6 E6.
  apply bind_ext. intros w s7 E7. apply bind_ext. intros context s8 E8.
  unfold scoped, mbind, M_bind. rewrite Hrun; [done|]. intros Hi. specialize (H3 Hi).
  eapply (warned_grows _ _ _ _ _ (grows_any _ _ (offline_new_server c r)) E8).
  eapply (warned_grows _ _ _ _ _ (grows_any _ _ (offline_opt_writer _)) E7).
  eapply warned_grows; [|exact E6|]; [unfold grows; muted|].
  eapply (warned_grows _ _ _ _ _ (grows_any _ _ (offline_detect r)) E5).
  by eapply (warned_grows _ _ _ _ _ (grows_any _ _ (offline_load_registry _)) E4).
Qed.

(** Nothing on stderr. *)
Definition unwarned (e : Event) : Prop := match e with EvErr _ => False | _ => True end.

Lemma unwarned_any {A} (m : io W A) : emits unprinted m -> emits unwarned m.
Proof. apply emits_mono. by intros []. Qed.

Lemma unwarned_stderr log : Forall unwarned log -> stderr log = "".
Proof. induction 1 as [|[] log He _ IH]; simpl in *; done. Qed.

(** [benchmark] writes nothing to stderr itself, with verification disabled or
    not, although the usage text promises a warning (its clients hand one to
    the logger). *)
Lemma benchmark_unwarned run_benchmark args :
  (forall c r w, emits unprinted (run_benchmark c r w)) ->
  forall s, exists new, st_log (command_benchmark run_benchmark args s).2 = new ++ st_log s /\ stderr new = "".
Proof.
  intros Hb s. assert (H : emits unwarned (command_benchmark run_benchmark args));
    [|destruct (H s) as (new & L & F); exists new; split; [done|by apply unwarned_stderr]].
  unfold command_benchmark.
  apply emits_bind; [apply unwarned_any, muted_offline, offline_client_config|intros config]. cbv zeta.
  apply emits_bind; [apply unwarned_any, muted_offline, offline_validate_client|intros _].
  apply emits_bind; [auto with pqtls|intros _].
  apply emits_bind; [apply unwarned_any, muted_offline, offline_load_registry|intros registry].
  apply emits_bind; [apply unwarned_any, muted_offline, offline_writer|intros writer].
  apply emits_bind; [by auto with pqtls|intros _].
  apply emits_bind; [apply unwarned_any, Hb|intros summary].
  apply emits_bind; [apply unwarned_any, muted_offline, offline_flush|intros _].
  unfold print_document, print_out. muted.
Qed.

(** C17: Where the insecure mode is announced.  When the configuration of
    [connect] disables verification, the banner is on stderr before any
    descriptor is opened, whatever happens; when that of [serve] does, the
    server is run only after the banner (what it would do without makes no
    difference to the command). *)
Theorem insecure_mode_announced args s :
  (forall config s1, client_build_config args s = (Ok config, s1) ->
     insecure_development_mode (c_common config) = true ->
     exists new, st_log (command_connect args s).2 = new ++ st_log s /\ announced new) /\
  (forall run run' : ServerConfig -> TlsContext -> option MetricsWriter -> io W unit,
     (forall c context writer s1,
        (insecure_development_mode (s_common c) = true -> warned_since (st_log s) s1) ->
        run c context writer s1 = run' c context writer s1) ->
     command_serve run args s = command_serve run' args s).
Proof.
  split.
  - intros config s1. apply connect_announced.
  - intros run run'. apply serve_announced.
Qed.

End banner.

(** ** Instances *)

Definition json_argv : list string := ["capabilities"; "--json"].
Definition json_arguments : Arguments := mkArguments "capabilities" [("json", "true")] [].


Definition insecure_arguments : Arguments :=
  mkArguments "connect" [("insecure-development-mode", "true")] [].

Definition insecure_connect : result Z * St (list byte) :=
  command_connect (RA := toy_clock) (J := toy_protocol) (Y := client_yaml) (EA := toy_env None)
    (SA := toy_sockets) (LA := toy_ssl) (CA := toy_ctx "X25519MLKEM768") (MA := toy_metrics)
    (KA := toy_client) (FA := no_files) insecure_arguments (mkSt (frame_of "ping") [] []).

Lemma insecure_mode_announced_witness :
  exists new, st_log insecure_connect.2 = new ++ [] /\ announced new.
Proof.
  destruct (client_build_config (Y := client_yaml) insecure_arguments (mkSt (frame_of "ping") [] []))
    as [r s1] eqn:E.
  assert (Hr : match r with
               | Ok c => insecure_development_mode (c_common c) = true
               | Throw _ => False
               end) by (change r with (fst (r, s1)); rewrite <- E; vm_compute; reflexivity).
  destruct r as [c|x]; [|destruct Hr].
  exact (proj1 (insecure_mode_announced (RA := toy_clock) (J := toy_protocol) (Y := client_yaml)
    (EA := toy_env None) (SA := toy_sockets) (LA := toy_ssl) (CA := toy_ctx "X25519MLKEM768")
    (PA := lab_openssl) (MA := toy_metrics) (KA := toy_client) (FA := no_files)
    insecure_arguments (mkSt (frame_of "ping") [] [])) c s1 E Hr).
Defined.

(** Where the document and the log meet: [output_format: json] in the file asks
    for a document as [--json] does, but leaves the logger on stdout. *)
Definition json_file {W : Type} : YamlLib W :=
  toy_yaml (fun _ => ProfileYaml.Loaded (YMap [(YScalar "output_format", YScalar "json")])).

Definition empty_benchmark {W : Type} (config : ClientConfig) (_ : ProfileRegistry) (_ : MetricsWriter)
    : io W BenchmarkSummary :=
  mret (bs_summary (Bench_new config)).

Example json_file_mixes_log :
  let log := st_log (client_main (RA := toy_clock) (J := toy_protocol) (Y := json_file) (EA := toy_env None)
    (SA := toy_sockets) (LA := toy_ssl) (CA := toy_ctx "X25519MLKEM768") (PA := lab_openssl) (MA := toy_metrics)
    (KA := toy_client) (FA := no_files) empty_benchmark lab_build
    ["benchmark"; "--config"; "client.yaml"; "--metrics"; "m.jsonl"] (mkSt (@nil byte) [] [])).2 in
  stdout log = "document" +:+ nl /\
  stdout_log log = ["benchmarking profile 'classical-x25519': 1 connections at concurrency 1"].
Proof. vm_compute. split; reflexivity. Qed.
