(* ===== verification/Startup.v ===== *)
(** What the two programs hand to the parts that run: the commands of
    [src/client/main.cpp] and [src/server/main.cpp] start a connection, the
    benchmark or the server only with a configuration whose fields are within
    their types and that passed validation, and with profiles that satisfy
    the profile invariant.  These are the hypotheses of the theorems on the
    connections and on the pool. *)

From S2P Require Import Prelude Errors Runtime Json Framing Identifiers Message Profile ProfileYaml.
From S2P Require Import Config Transport Metrics TlsContext Gate Capabilities Server ServerLoop.
From S2P Require Import ServerSpec Client ClientSpec Benchmark Cli Main MainSpec Console.

(** ** Started with *)

Section started.
Context {W : Type} {Y : YamlLib W} {EA : EnvApi W}.

(** The configuration that [args] ask for, after [adjust], has passed
    validation: its fields and combinations, and the production policy, when
    [PQTLS_ENV] was read. *)
Definition client_started (args : Arguments) (s : St W) (adjust : ClientConfig -> ClientConfig)
    (c : ClientConfig) : Prop :=
  client_typed c /\ client_ok c /\
  exists c0 s1, client_build_config args s = (Ok c0, s1) /\ c = adjust c0 /\
    development_options (c_common c) && in_production s1 = false.

Definition server_started (args : Arguments) (s : St W) (c : ServerConfig) : Prop :=
  server_typed c /\ server_ok c /\
  exists s1, server_build_config args s = (Ok c, s1) /\
    development_options (s_common c) && in_production s1 = false.

End started.

(** What [benchmark] makes of the number of connections. *)
Definition at_least_one (c : ClientConfig) : ClientConfig := if connections c <? 1 then with_connections c 1 else c.

(** The profile is a valid one, and the one that was asked for. *)
Definition profile_of (context : TlsContext) (profile : string) : Prop :=
  profile_inv (ctx_profile context) /\ id (ctx_profile context) = profile.

(** No descriptor has been opened between two states. *)
Definition unopened (e : Event) : Prop := match e with EvOpen _ => False | _ => True end.

Definition still {W} (s s' : St W) : Prop := exists new, st_log s' = new ++ st_log s /\ Forall unopened new.

Lemma still_trans {W} (s1 s2 s3 : St W) : still s1 s2 -> still s2 s3 -> still s1 s3.
Proof.
  intros (n1 & L1 & F1) (n2 & L2 & F2). exists (n2 ++ n1). rewrite L2, L1, app_assoc.
  split; [done|by apply Forall_app].
Qed.

Section startup.
Context {W : Type} {RA : RuntimeApi W} {J : JsonLib} {Y : YamlLib W} {EA : EnvApi W} {SA : SocketApi W}
  {LA : SslApi W} {CA : CtxApi W} {PA : CapApi W} {MA : MetricsApi W} {KA : ClientApi W}
  {FA : FileApi W}.

Lemma validated_client c s u s' :
  client_typed c -> validate_client c s = (Ok u, s') ->
  client_ok c /\ development_options (c_common c) && in_production s = false.
Proof.
  intros Hc Hv. pose proof (validate_seq_outcome _ (c_common c) _ s (validate_client_checks c Hc)) as H.
  unfold validate_client in Hv. rewrite Hv in H. exact H.
Qed.

Lemma validated_server c s u s' :
  server_typed c -> validate_server c s = (Ok u, s') ->
  server_ok c /\ development_options (s_common c) && in_production s = false.
Proof.
  intros Hc Hv. pose proof (validate_seq_outcome _ (s_common c) _ s (validate_server_checks c Hc)) as H.
  unfold validate_server in Hv. rewrite Hv in H. exact H.
Qed.

Lemma load_registry_inv path s r s' : load_registry path s = (Ok r, s') -> registry_inv r.
Proof.
  unfold load_registry. destruct (str_empty path).
  - destruct builtin_inv as [-> Hb]. by intros [= <- _].
  - intros H. by apply profiles_file_outcome in H as [H _].
Qed.

Lemma registry_get_inv r k p : registry_inv r -> registry_get r k = Ok p -> profile_inv p /\ id p = k.
Proof.
  intros [Hp _] Hg. unfold registry_get, registry_find, find_if in Hg.
  destruct (List.find _ r) as [p'|] eqn:E; [|done]. injection Hg as ->.
  apply List.find_some in E as [Hin Hk]. apply String.eqb_eq in Hk.
  split; [by eapply List.Forall_forall in Hp|done].
Qed.

Lemma with_connections_typed c : client_typed c -> client_typed (with_connections c 1).
Proof. intros []. by constructor. Qed.

Lemma serve_ext (run run' : ServerConfig -> TlsContext -> option MetricsWriter -> io W unit) args s :
  as_uint32_typed ->
  (forall c context writer s1, server_started args s c -> profile_of context (profile_id (s_common c)) ->
     In EvIgnoreSigpipe (st_log s1) -> run c context writer s1 = run' c context writer s1) ->
  command_serve run args s = command_serve run' args s.
Proof.
  intros Hy Hrun. unfold command_serve.
  apply bind_ext. intros c s1 Hc. apply server_build_config_ok in Hc as Hb; [|done]. destruct Hb as (_ & _ & _ & Ht).
  apply bind_ext. intros u s2 Hv. apply validated_server in Hv as [Hok Hpol]; [|done].
  assert (Hs : server_started args s c) by (split; [done|]; split; [done|]; by exists s1).
  apply bind_ext. intros [] s2' _.
  apply bind_ext. intros r s3 Hr. apply load_registry_inv in Hr.
  apply bind_ext. intros caps s4 _. apply bind_ext. intros [] s5 _. apply bind_ext. intros w s6 _.
  apply bind_ext. intros context s7 Hx. unfold PqTlsServer_new in Hx.
  apply liftM_bind_inv in Hx as (p & Hp & Hx). apply registry_get_inv in Hp as [Hp Hid]; [|done].
  apply bind_inv in Hx as (t & s8 & Hx & Hret). apply bind_inv in Hret as (u1 & s9 & H9 & Hret).
  apply bind_inv in Hret as (u2 & s10 & H10 & Hret). injection Hret as -> <-.
  assert (Hsig : In EvIgnoreSigpipe (st_log s10)).
  { injection H9 as _ <-. unfold warn_if_experimental in H10. destruct (experimental _); injection H10 as _ <-.
    - right. by left.
    - by left. }
  apply create_server_profile in Hx as Hctx. subst p.
  unfold scoped, mbind, M_bind. rewrite Hrun; [done|done|by split|done].
Qed.

Lemma benchmark_ext (run run' : ClientConfig -> ProfileRegistry -> MetricsWriter -> io W BenchmarkSummary) args s :
  as_uint32_typed ->
  (forall c r writer s1, client_started args s at_least_one c -> registry_inv r -> writer = true ->
     run c r writer s1 = run' c r writer s1) ->
  command_benchmark run args s = command_benchmark run' args s.
Proof.
  intros Hy Hrun. unfold command_benchmark.
  apply bind_ext. intros c s1 Hc. apply client_build_config_ok in Hc as Hb; [|done]. destruct Hb as (_ & _ & _ & Ht).
  fold (at_least_one c). set (c1 := at_least_one c). cbv zeta.
  assert (Ht1 : client_typed c1) by (unfold c1, at_least_one; case_match; auto using with_connections_typed).
  apply bind_ext. intros u s2 Hv. apply validated_client in Hv as [Hok Hpol]; [|done].
  assert (Hs : client_started args s at_least_one c1) by (split; [done|]; split; [done|]; by exists c, s1).
  clearbody c1.
  apply bind_ext. intros [] s3 Hf. apply (f_equal fst) in Hf. simpl in Hf. apply throw_if_ok in Hf.
  apply bind_ext. intros r s4 Hr. apply load_registry_inv in Hr.
  apply bind_ext. intros w s5 Hw. apply bind_ext. intros [] s6 _. unfold mbind at 1 3, M_bind at 1 3.
  rewrite Hrun; [done|done|done|]. unfold MetricsWriter_new in Hw. rewrite Hf in Hw.
  apply bind_inv in Hw as (? & ? & _ & Hw). apply bind_inv in Hw as ([] & ? & _ & Hw); simpl in Hw; [|done].
  by injection Hw as <- _.
Qed.

(** Step over [m], which opens no descriptor: it throws, or it is followed. *)
Lemma bind_still {A B} (m : io W A) (k : A -> io W B) s (C : result B * St W -> Prop) :
  emits unopened m ->
  (forall x s', still s s' -> C (Throw x, s')) ->
  (forall a s', m s = (Ok a, s') -> still s s' -> C (k a s')) -> C ((m ≫= k) s).
Proof.
  intros Hm Ht Hk. destruct (Hm s) as (new & L & F). unfold mbind, M_bind.
  destruct (m s) as [[a|x] s'] eqn:E; simpl in L; [apply Hk|apply Ht]; try done; by exists new.
Qed.

Lemma unopened_offline {A} (m : io W A) : emits offline m -> emits unopened m.
Proof. apply emits_mono. by intros []. Qed.

(** What [connect] does once it has a client. *)
Definition connecting (c : ClientConfig) (context : TlsContext) (writer : option MetricsWriter) (ms : list Message)
    : io W Z :=
  with_client context (
    result ← run_once c context writer ms;
    lift_io (print_connection_result result c ;;
             mret (exit_code_int (if cr_ok result then ExitSuccess
                                  else exit_code_for (m_error_category (cr_metrics result)))))).

(** Thrown before any descriptor was opened, or run with what was validated. *)
Definition connect_started (args : Arguments) (s : St W) (r : result Z * St W) : Prop :=
  (exists x s', r = (Throw x, s') /\ still s s') \/
  (exists c context writer m s1,
     client_started args s (fun c => c) c /\ profile_of context (profile_id (c_common c)) /\
     still s s1 /\ In EvIgnoreSigpipe (st_log s1) /\
     r = connecting c context writer (repeat m (Z.to_nat (messages_per_connection c))) s1).

Lemma started_client_profile c registry s context s' :
  registry_inv registry -> PqTlsClient_new c registry s = (Ok context, s') ->
  profile_of context (profile_id (c_common c)) /\ In EvIgnoreSigpipe (st_log s').
Proof.
  intros Hr Hx. unfold PqTlsClient_new in Hx.
  apply liftM_bind_inv in Hx as (p & Hp & Hx). apply registry_get_inv in Hp as [Hp Hid]; [|done].
  apply bind_inv in Hx as (t & s8 & Hx & Hret). apply bind_inv in Hret as (u1 & s9 & H9 & Hret).
  apply bind_inv in Hret as (u2 & s10 & H10 & Hret). injection Hret as -> <-.
  apply create_client_profile in Hx as Hctx. subst p. split; [by split|].
  injection H9 as _ <-. unfold warn_if_experimental in H10. destruct (experimental _); injection H10 as _ <-.
  - right. by left.
  - by left.
Qed.

Lemma connect_ext args s : as_uint32_typed -> connect_started args s (command_connect args s).
Proof.
  intros Hy. unfold command_connect.
  assert (Hstep : forall A B (m : io W A) (k : A -> io W B) (C : result B * St W -> Prop) s1,
    emits unopened m -> still s s1 -> (forall x s', still s s' -> C (Throw x, s')) ->
    (forall a s', m s1 = (Ok a, s') -> still s s' -> C (k a s')) -> C ((m ≫= k) s1)).
  { intros A B m k C s1 Hm H1 Ht Hk. apply bind_still; [done|..]; intros; eauto using still_trans. }
  assert (Ht : forall x s', still s s' -> connect_started args s (Throw x, s')) by (intros; left; eauto).
  apply Hstep; [apply unopened_offline, offline_client_config|by exists []|done|intros c s1 Hc S1].
  apply client_build_config_ok in Hc as Hb; [|done]. destruct Hb as (_ & _ & _ & Hty).
  apply Hstep; [apply unopened_offline, offline_validate_client|done|done|intros u s2 Hv S2].
  apply validated_client in Hv as [Hok Hpol]; [|done].
  apply Hstep; [unfold warn_if_insecure; case_match; [by apply emits_emit|auto with pqtls]|done|done|intros u' s3 _ S3].
  apply Hstep; [apply unopened_offline, offline_load_registry|done|done|intros registry s4 Hr S4].
  apply load_registry_inv in Hr.
  apply Hstep; [apply unopened_offline, offline_build_message|done|done|intros m s5 _ S5].
  apply Hstep; [apply unopened_offline, offline_opt_writer|done|done|intros w s6 _ S6].
  apply Hstep; [apply unopened_offline, offline_new_client|done|done|intros context s7 Hx S7].
  apply started_client_profile in Hx as [Hp Hsig]; [|done].
  right. exists c, context, w, m, s7. splits; [|done|done|done|done].
  split; [done|]. split; [done|]. by exists c, s1.
Qed.

(** ** Claim *)

(** C21: What the running parts are started with.  For a YAML library whose
    [as<uint32_t>] gives 32-bit values: whatever the arguments and files, the
    [serve] command calls [PqTlsServer::run], and the [benchmark] command
    [run_benchmark] (with at least one connection), on nothing but the
    configuration that the arguments ask for, after it has passed validation:
    every field within its type, every rule obeyed, and no development-only
    option if [PQTLS_ENV] said production; with profiles that satisfy the
    profile invariant (the server's being the one that was asked for) and, for
    the benchmark, an open metrics file; the server moreover only after SIGPIPE
    was ignored.  What they would do otherwise makes no difference to the
    command.  Likewise [connect] throws without having opened a descriptor, or
    goes on to [run_once] with such a configuration, profile and signal
    disposition, having opened none until then.  These configurations have the
    limits the theorems on connections ask for. *)
Theorem started_well_typed args s :
  as_uint32_typed ->
  (forall run run' : ServerConfig -> TlsContext -> option MetricsWriter -> io W unit,
     (forall c context writer s1, server_started args s c -> profile_of context (profile_id (s_common c)) ->
        In EvIgnoreSigpipe (st_log s1) -> run c context writer s1 = run' c context writer s1) ->
     command_serve run args s = command_serve run' args s) /\
  (forall run run' : ClientConfig -> ProfileRegistry -> MetricsWriter -> io W BenchmarkSummary,
     (forall c r writer s1, client_started args s at_least_one c -> registry_inv r -> writer = true ->
        run c r writer s1 = run' c r writer s1) ->
     command_benchmark run args s = command_benchmark run' args s) /\
  connect_started args s (command_connect args s) /\
  (forall c, server_started args s c -> server_limits c /\ 1 <= max_connections c <= u32_max) /\
  (forall adjust c, client_started args s adjust c -> client_limits c /\ 1 <= concurrency c <= connections c).
Proof.
  intros Hy. splits.
  - intros run run' Hrun. by apply serve_ext.
  - intros run run' Hrun. by apply benchmark_ext.
  - by apply connect_ext.
  - intros c ([_ _ Hmc _ _ Hm] & ((_ & Hf & _) & _ & _ & _ & H1 & _) & _). split; [by split|].
    split; [done|apply Hmc].
  - intros adjust c (_ & ((_ & Hf & _) & _ & _ & Hcc & _) & _). by split.
Qed.

End startup.

(** The arguments and the file of the precedence example are accepted; a
    server that would misbehave on an empty pool cannot be told from one that
    returns. *)
Lemma started_well_typed_witness :
  connect_started (RA := toy_clock) (J := toy_protocol) (Y := client_yaml) (EA := toy_env None) (SA := toy_sockets)
    (LA := toy_ssl) (CA := toy_ctx "X25519MLKEM768") (MA := toy_metrics) (KA := toy_client)
    lab_arguments (mkSt (frame_of "ping") [] [])
    (command_connect (RA := toy_clock) (J := toy_protocol) (Y := client_yaml) (EA := toy_env None)
      (SA := toy_sockets) (LA := toy_ssl) (CA := toy_ctx "X25519MLKEM768") (MA := toy_metrics) (KA := toy_client)
      (FA := no_files) lab_arguments (mkSt (frame_of "ping") [] [])) /\
  command_serve (RA := toy_clock) (Y := client_yaml) (EA := toy_env None) (CA := toy_ctx "X25519MLKEM768")
    (PA := lab_openssl) (MA := toy_metrics)
    (fun c _ _ => if max_connections c =? 0 then throwM OutOfFuel else mret tt)
    lab_arguments (mkSt (frame_of "ping") [] []) =
  command_serve (RA := toy_clock) (Y := client_yaml) (EA := toy_env None) (CA := toy_ctx "X25519MLKEM768")
    (PA := lab_openssl) (MA := toy_metrics) no_server lab_arguments (mkSt (frame_of "ping") [] []).
Proof.
  destruct (started_well_typed (RA := toy_clock) (J := toy_protocol) (Y := client_yaml) (EA := toy_env None)
    (SA := toy_sockets) (LA := toy_ssl) (CA := toy_ctx "X25519MLKEM768") (PA := lab_openssl) (MA := toy_metrics)
    (KA := toy_client) (FA := no_files) lab_arguments (mkSt (frame_of "ping") [] []) client_yaml_typed)
    as (Hserve & _ & Hconnect & Hlimits & _).
  split; [exact Hconnect|].
  apply Hserve. intros c context writer s1 Hs _ _. destruct (Hlimits c Hs) as [_ Hm].
  destruct (max_connections c =? 0) eqn:E0; [|reflexivity]. apply Z.eqb_eq in E0. lia.
Defined.
