(* ===== verification/Objects.v ===== *)
(** The lifetimes of OpenSSL objects.  [include/pqtls/tls_context.hpp] wraps
    every handle in a [unique_ptr] "so an early return or a thrown exception
    cannot leak"; here this is a theorem.  The log of a run is audited: an object
    is held from its creation to its release, and the release of an object that
    is not held (a second one, or one of a foreign object) fails the audit. *)

From stdpp Require Import gmultiset.
From S2P Require Import Prelude Errors Runtime Json Framing Identifiers Message Profile.
From S2P Require Import ProfileYaml Config Transport Sockets Metrics TlsContext Capabilities Gate.
From S2P Require Import Server ServerLoop ServerSpec Client ClientSpec Benchmark Output Cli Main MainSpec Console.

(** ** The audit *)

Definition object_code (o : Object) : nat :=
  match o with ObjCtx => 0 | ObjSsl => 1 | ObjX509 => 2 | ObjBio => 3 | ObjSession => 4 | ObjPkeyCtx => 5 end.

Definition object_of (n : nat) : option Object :=
  [ObjCtx; ObjSsl; ObjX509; ObjBio; ObjSession; ObjPkeyCtx] !! n.

#[export] Instance Object_countable : Countable Object.
Proof. apply (inj_countable object_code object_of). by intros []. Defined.

Definition holding : Type := gmultiset (Object * Z).

Definition account (e : Event) (h : holding) : option holding :=
  match e with
  | EvNew o x => Some ({[+ (o, x) +]} ⊎ h)
  | EvFree o x => if decide ((o, x) ∈ h) then Some (h ∖ {[+ (o, x) +]}) else None
  | _ => Some h
  end.

(** From what is held before the oldest event to what is held after the newest. *)
Fixpoint audit (log : list Event) (h : holding) : option holding :=
  match log with
  | [] => Some h
  | e :: earlier => match audit earlier h with Some h' => account e h' | None => None end
  end.

(** What a [unique_ptr] with this pointer holds. *)
Definition held (o : Object) (x : Z) : holding := if x =? 0 then ∅ else {[+ (o, x) +]}.

Lemma audit_app l1 l2 h h1 h2 : audit l2 h = Some h1 -> audit l1 h1 = Some h2 -> audit (l1 ++ l2) h = Some h2.
Proof.
  intros H. revert h2. induction l1 as [|e l1 IH]; simpl; intros h2.
  - intros [= <-]. done.
  - destruct (audit l1 h1) as [h3|]; [|done]. intros He. by rewrite (IH _ eq_refl).
Qed.

(** What is not touched may be there. *)
Lemma audit_frame log f h h' : audit log h = Some h' -> audit log (f ⊎ h) = Some (f ⊎ h').
Proof.
  revert h'. induction log as [|e log IH]; simpl; intros h'; [congruence|].
  destruct (audit log h) as [h1|]; [|done]. rewrite (IH _ eq_refl).
  destruct e; simpl; try by intros [= <-].
  - intros [= <-]. f_equal. multiset_solver.
  - destruct (decide (_ ∈ h1)); [|done]. intros [= <-]. rewrite decide_True by multiset_solver.
    f_equal. multiset_solver.
Qed.

Lemma audit_plain log h : Forall (fun e => ~ on_object e) log -> audit log h = Some h.
Proof. induction 1 as [|e log He _ IH]; simpl; [done|]. rewrite IH. by destruct e; simpl in *; try tauto. Qed.

(** ** Computations *)

Class Logged (S : Type) := log_of : S -> list Event.
#[export] Instance St_logged {W} : Logged (St W) := st_log.
#[export] Instance local_logged {W L} : Logged (St W * L) := fun st => st_log st.1.

Section trades.
Context {S : Type} {LO : Logged S}.

(** Since [s], the run to [s'] turned the holding [h] into [h']. *)
Definition traded (s s' : S) (h h' : holding) : Prop :=
  exists new, log_of s' = new ++ log_of s /\ audit new h = Some h'.

(** From [p] to [q] when it returns, to [x] when it throws. *)
Definition trades {A} (p : S -> holding) (q : A -> S -> holding) (x : S -> holding) (m : M S A) : Prop :=
  forall s, match m s with
            | (Ok a, s') => traded s s' (p s) (q a s')
            | (Throw _, s') => traded s s' (p s) (x s')
            end.

(** A destructor, whose result does not matter. *)
Definition settles (p q : S -> holding) (d : M S unit) : Prop :=
  forall s, traded s (d s).2 (p s) (q (d s).2).

Lemma traded_refl s h : traded s s h h.
Proof. by exists []. Qed.

Lemma traded_trans s1 s2 s3 h1 h2 h3 : traded s1 s2 h1 h2 -> traded s2 s3 h2 h3 -> traded s1 s3 h1 h3.
Proof.
  intros (n1 & L1 & A1) (n2 & L2 & A2). exists (n2 ++ n1).
  split; [by rewrite L2, L1, app_assoc|by eapply audit_app].
Qed.

Lemma traded_frame f s s' h h' : traded s s' h h' -> traded s s' (f ⊎ h) (f ⊎ h').
Proof. intros (n & L & A). exists n. split; [done|by apply audit_frame]. Qed.

Lemma trades_ret {A} (a : A) q x : trades (q a) q x (mret a).
Proof. intros s. apply traded_refl. Qed.

Lemma trades_throw {A} e q x : trades (A := A) x q x (throwM e).
Proof. intros s. apply traded_refl. Qed.

Lemma trades_lift {A} (r : result A) p : trades p (fun _ => p) p (liftM r).
Proof. intros s. destruct r; apply traded_refl. Qed.

Lemma trades_bind {A B} (m : M S A) (k : A -> M S B) p q r x :
  trades p q x m -> (forall a, trades (q a) r x (k a)) -> trades p r x (m ≫= k).
Proof.
  intros Hm Hk s. specialize (Hm s). unfold mbind, M_bind. destruct (m s) as [[a|e] s1]; [|done].
  specialize (Hk a s1). destruct (k a s1) as [[b|e] s2]; by eapply traded_trans.
Qed.

Lemma trades_catch {A} (m : M S A) c h p q x :
  trades p q x m -> (forall e, trades x q x (h e)) -> trades p q x (try_catch m c h).
Proof.
  intros Hm Hh s. specialize (Hm s). unfold try_catch. destruct (m s) as [[a|e] s1]; [done|].
  destruct (c e); [|done]. specialize (Hh e s1). destruct (h e s1) as [[b|e'] s2]; by eapply traded_trans.
Qed.

Lemma trades_scoped {A} (d : M S unit) (m : M S A) p q q' x x' :
  trades p q x m -> (forall a, settles (q a) (q' a) d) -> settles x x' d -> trades p q' x' (scoped d m).
Proof.
  intros Hm Hd Hx s. specialize (Hm s). unfold scoped.
  destruct (m s) as [[a|e] s1]; (eapply traded_trans; [exact Hm|]); [apply Hd|apply Hx].
Qed.

Lemma trades_guarded {A} (d : M S unit) (m : M S A) p q x x' :
  trades p q x m -> settles x x' d -> trades p q x' (guarded d m).
Proof.
  intros Hm Hx s. specialize (Hm s). unfold guarded. destruct (m s) as [[a|e] s1]; [done|].
  eapply traded_trans; [exact Hm|apply Hx].
Qed.

Lemma trades_frame {A} f (m : M S A) p q x :
  trades p q x m -> trades (fun s => f ⊎ p s) (fun a s => f ⊎ q a s) (fun s => f ⊎ x s) m.
Proof. intros Hm s. specialize (Hm s). destruct (m s) as [[a|e] s1]; by apply traded_frame. Qed.

End trades.

(** Leaves the holding as it is. *)
Definition tidy {S} `{Logged S} {A} (hold : S -> holding) (m : M S A) : Prop :=
  trades hold (fun _ => hold) hold m.

(** Hands its caller an object of its own. *)
Definition gives {S} `{Logged S} {A} (o : Object) (key : A -> Z) (hold : S -> holding) (m : M S A) : Prop :=
  trades hold (fun a s => held o (key a) ⊎ hold s) hold m.

Section owners.
Context {S : Type} {LO : Logged S} (hold : S -> holding).

Lemma tidy_bind {A B} (m : M S A) (k : A -> M S B) :
  tidy hold m -> (forall a, tidy hold (k a)) -> tidy hold (m ≫= k).
Proof. apply trades_bind. Qed.

Lemma tidy_catch {A} (m : M S A) c h :
  tidy hold m -> (forall e, tidy hold (h e)) -> tidy hold (try_catch m c h).
Proof. apply trades_catch. Qed.

Lemma gives_bind {A B} o key (m : M S A) (k : A -> M S B) :
  tidy hold m -> (forall a, gives o key hold (k a)) -> gives o key hold (m ≫= k).
Proof. apply trades_bind. Qed.

(** The owner's scope. *)
Lemma trades_owner {A} o h (d : M S unit) (m : M S A) :
  settles (fun s => held o h ⊎ hold s) hold d -> tidy hold m ->
  trades (fun s => held o h ⊎ hold s) (fun _ => hold) hold (scoped d m).
Proof. intros Hd Hm. by eapply trades_scoped; [apply trades_frame, Hm|..]. Qed.

Lemma tidy_owner {A B} o key (d : Z -> M S unit) (m : M S A) (k : A -> M S B) :
  (forall h, settles (fun s => held o h ⊎ hold s) hold (d h)) ->
  gives o key hold m -> (forall a, tidy hold (k a)) -> tidy hold (a ← m; scoped (d (key a)) (k a)).
Proof. intros Hd Hm Hk. eapply trades_bind; [exact Hm|]. intros a. by apply trades_owner. Qed.

Lemma settles_tidy d : tidy hold d -> settles hold hold d.
Proof. intros Hd s. specialize (Hd s). by destruct (d s) as [[u|e] s']. Qed.

Lemma tidy_scoped {A} d (m : M S A) : tidy hold d -> tidy hold m -> tidy hold (scoped d m).
Proof. intros Hd%settles_tidy Hm. by eapply trades_scoped. Qed.

(** An owner that hands the object on. *)
Lemma gives_guarded {A} o h (key : A -> Z) (d : M S unit) (m : M S A) :
  settles (fun s => held o h ⊎ hold s) hold d -> tidy hold m ->
  (forall s a s', m s = (Ok a, s') -> key a = h) ->
  trades (fun s => held o h ⊎ hold s) (fun a s => held o (key a) ⊎ hold s) hold (guarded d m).
Proof.
  intros Hd Hm Hk s. pose proof (trades_guarded d m _ _ _ _ (trades_frame (held o h) m _ _ _ Hm) Hd s) as H.
  unfold guarded in *. specialize (Hk s). destruct (m s) as [[a|e] s1]; [|exact H].
  by rewrite (Hk _ _ eq_refl).
Qed.

Lemma gives_owner {A} o (key : A -> Z) (d : Z -> M S unit) (m : M S Z) (k : Z -> M S A) :
  (forall h, settles (fun s => held o h ⊎ hold s) hold (d h)) ->
  gives o (fun h => h) hold m -> (forall h, tidy hold (k h)) ->
  (forall h s a s', k h s = (Ok a, s') -> key a = h) -> gives o key hold (h ← m; guarded (d h) (k h)).
Proof. intros Hd Hm Hk Hr. eapply trades_bind; [exact Hm|]. intros h. apply gives_guarded; eauto. Qed.

End owners.

(** In the two monads. *)
Section monads.
Context {W : Type}.

(** Nothing is held before or after. *)
Definition none (_ : St W) : holding := ∅.

Lemma tidy_emits {A} (m : io W A) : emits (fun e => ~ on_object e) m -> tidy none m.
Proof.
  intros Hm s. destruct (Hm s) as (n & L & F).
  assert (H : traded s (m s).2 ∅ ∅) by (exists n; split; [exact L|by apply audit_plain]).
  by destruct (m s) as [[a|e] s'].
Qed.

Lemma tidy_silent {A} (m : io W A) : silent m -> tidy none m.
Proof. intros Hm. by apply tidy_emits, emits_silent. Qed.

Lemma trades_adopt o h x : trades none (fun _ _ => held o h) x (adopt (W := W) o h).
Proof.
  intros s. unfold adopt, held. destruct (h =? 0); [apply traded_refl|].
  exists [EvNew o h]. split; [done|]. simpl. f_equal. unfold none. multiset_solver.
Qed.

Lemma settles_dispose o h (p : holding) : settles (fun _ => held o h ⊎ p) (fun _ => p) (dispose (W := W) o h).
Proof.
  intros s. unfold dispose, held. destruct (h =? 0); simpl.
  - rewrite (left_id_L ∅ (⊎)). apply traded_refl.
  - exists [EvFree o h]. split; [done|]. simpl. rewrite decide_True by multiset_solver. f_equal. multiset_solver.
Qed.

(** A scope around an object that was just created, and what follows it. *)
Lemma trades_own {A} o h (m : io W A) :
  tidy none m -> trades (fun _ => held o h) (fun _ => none) none (scoped (dispose o h) m).
Proof.
  intros Hm s. pose proof (trades_owner none o h _ m (settles_dispose o h ∅) Hm s) as H. unfold none in *.
  destruct (scoped (dispose o h) m s) as [[a|e] s']; by rewrite (right_id_L ∅ (⊎)) in H.
Qed.

Lemma tidy_own {A} o h (m : io W A) : tidy none m -> tidy none (adopt o h ;; scoped (dispose o h) m).
Proof. intros Hm. eapply trades_bind; [apply trades_adopt|intros u]. by apply trades_own. Qed.

Lemma tidy_own_bind {A B} o h (m : io W A) (k : A -> io W B) :
  tidy none m -> (forall a, tidy none (k a)) -> tidy none (adopt o h ;; (scoped (dispose o h) m ≫= k)).
Proof.
  intros Hm Hk. eapply trades_bind; [apply trades_adopt|intros u].
  eapply trades_bind; [by apply trades_own|exact Hk].
Qed.

(** A function that returns what it created. *)
Lemma gives_create {A} o h (key : A -> Z) (m : io W A) :
  tidy none m -> (forall s a s', m s = (Ok a, s') -> key a = h) ->
  gives o key none (adopt o h ;; guarded (dispose o h) m).
Proof.
  intros Hm Hk. eapply trades_bind; [apply trades_adopt|intros u s].
  pose proof (gives_guarded none o h key _ m (settles_dispose o h ∅) Hm Hk s) as H. unfold none in *.
  destruct (guarded (dispose o h) m s) as [[a|e] s']; by rewrite (right_id_L ∅ (⊎) (held o h)) in H.
Qed.

Context {L : Type} (g : L -> holding).

(** What the handler's own state holds. *)
Definition own (st : St W * L) : holding := g st.2.

Lemma traded_lift s s' (c : L) f h h' :
  traded s s' h h' -> traded (S := St W * L) (s, c) (s', c) (h ⊎ f) (h' ⊎ f).
Proof.
  intros (n & Hl & A). exists n. split; [exact Hl|]. rewrite !(comm_L (⊎) _ f). by apply audit_frame.
Qed.

Lemma tidy_lift {A} (m : io W A) : tidy none m -> tidy own (lift_io m).
Proof.
  intros Hm [s c]. specialize (Hm s). unfold lift_io.
  destruct (m s) as [[a|e] s']; apply (traded_lift _ _ c (g c)) in Hm;
    unfold none in Hm; by rewrite !(left_id_L ∅ (⊎)) in Hm.
Qed.

Lemma gives_lift {A} o (key : A -> Z) (m : io W A) : gives o key none m -> gives o key own (lift_io m).
Proof.
  intros Hm [s c]. specialize (Hm s). unfold lift_io, none in *.
  destruct (m s) as [[a|e] s']; apply (traded_lift _ _ c (g c)) in Hm;
    by rewrite ?(left_id_L ∅ (⊎)), ?(right_id_L ∅ (⊎)) in Hm.
Qed.

Lemma settles_dispose_lift o h : settles (fun st => held o h ⊎ own st) own (lift_io (dispose o h)).
Proof.
  intros [s c]. pose proof (settles_dispose o h (g c) s) as (n & Hl & A). rewrite lift_io_state.
  exists n. split; [exact Hl|exact A].
Qed.

Lemma tidy_local {A} (m : local W L A) :
  local_emits (fun e => ~ on_object e) m -> (forall s c, g (m (s, c)).2.2 = g c) -> tidy own m.
Proof.
  intros Hm Hg [s c]. destruct (Hm s c) as (n & Hl & F). specialize (Hg s c).
  assert (H : traded (S := St W * L) (s, c) (m (s, c)).2 (g c) (g c))
    by (exists n; split; [exact Hl|by apply audit_plain]).
  rewrite <- Hg in H at 2. by destruct (m (s, c)) as [[a|e] s'].
Qed.

Lemma tidy_modify f : (forall c, g (f c) = g c) -> tidy own (modify f).
Proof. intros Hf [s c]. unfold modify. exists []. split; [done|]. simpl. unfold own. simpl. by rewrite Hf. Qed.

End monads.

#[export] Hint Resolve tidy_silent tidy_lift tidy_bind : pqtls.

(** Follows the structure of a computation, with the lemmas the context has. *)
Ltac tidy_step :=
  match goal with
  | |- tidy ?h (mret ?a) => apply (trades_ret a (fun _ => h))
  | |- tidy _ (throwM _) => apply trades_throw
  | |- tidy _ (liftM _) => apply trades_lift
  | |- tidy _ (call _) => apply tidy_silent, silent_call
  | |- tidy _ (call_ev _ _) => by apply tidy_emits, emits_call_ev; auto
  | |- tidy _ (emit _) => apply tidy_emits, emits_emit; by auto
  | |- tidy _ (log_at _ _) => apply tidy_emits, emits_emit; by auto
  | |- tidy _ drain_openssl_errors => apply tidy_silent, silent_drain
  | |- tidy _ (throw_openssl _ _) => apply tidy_silent, silent_throw_openssl
  | |- tidy _ (adopt _ _ ;; scoped (dispose _ _) _) => apply tidy_own
  | |- tidy _ (adopt _ _ ;; (scoped (dispose _ _) _ ≫= _)) => apply tidy_own_bind; [|intros ?]
  | |- tidy _ (lift_io _) => apply tidy_lift
  | |- tidy _ (modify _) => by apply tidy_modify
  | |- tidy _ (_ ≫= _) => apply tidy_bind; [|intros ?]
  | |- tidy _ (try_catch _ _ _) => apply tidy_catch; [|intros ?]
  | |- tidy _ (match _ with _ => _ end) => case_match
  | |- tidy _ _ => solve [auto with pqtls]
  end.
Ltac tidying := repeat tidy_step.

(** ** Connections *)

Section connections.
Context {W : Type} {RA : RuntimeApi W} {J : JsonLib} {EA : EnvApi W} {SA : SocketApi W}
  {LA : SslApi W} {CA : CtxApi W} {MA : MetricsApi W} {VA : ServerApi W} {KA : ClientApi W}.

Lemma tidy_weaken {A} (P : Event -> Prop) (m : io W A) :
  (forall e, P e -> ~ on_object e) -> emits P m -> tidy none m.
Proof. intros HP Hm. apply tidy_emits. by eapply emits_mono. Qed.

Lemma transfer_plain e : transfer e -> ~ on_object e.
Proof. by destruct e; intros H []. Qed.

Lemma logging_plain e : logging e -> ~ on_object e.
Proof. by destruct e; intros H []. Qed.

Lemma plumbing_plain e : plumbing e -> ~ on_object e.
Proof. by destruct e; intros H []. Qed.

Lemma tidy_set_timeouts fd r t : tidy none (set_timeouts fd r t).
Proof. unfold set_timeouts, last_socket_error. tidying. Qed.

Lemma tidy_subject n : tidy none (subject_name_to_string n).
Proof. unfold subject_name_to_string. tidying. Qed.

Lemma tidy_inspect ssl : tidy none (inspect ssl).
Proof. unfold inspect. cbv zeta. repeat first [apply tidy_subject | tidy_step]. Qed.

Lemma tidy_enforce_peer ssl c req : tidy none (enforce_peer_verification ssl c req).
Proof. unfold enforce_peer_verification. tidying. Qed.

Lemma tidy_shutdown ssl : tidy none (ssl_graceful_shutdown ssl).
Proof. unfold ssl_graceful_shutdown. tidying. Qed.

Lemma gives_new_ssl t : gives ObjSsl (fun h => h) none (new_ssl t).
Proof.
  unfold new_ssl. apply gives_bind; [tidying|intros ssl s]. unfold adopt, held, mbind, M_bind, none.
  destruct (ssl =? 0) eqn:E; simpl.
  - pose proof (silent_throw_openssl (A := Z) CatInternal "SSL_new failed" s) as Hs.
    destruct (throw_openssl _ _ s) as [[a|x] s'] eqn:Et; [by apply throw_openssl_never in Et|].
    exists []. split; [exact Hs|done].
  - rewrite E. exists [EvNew ObjSsl ssl]. by split.
Qed.

(** The server's handler holds nothing in its metrics. *)
Definition nothing (_ : ConnectionMetrics) : holding := ∅.

Lemma gives_server_handshake config context fd peer :
  gives ObjSsl fst (own nothing) (server_handshake config context fd peer).
Proof.
  unfold server_handshake. cbv zeta.
  apply gives_bind; [apply tidy_lift, tidy_set_timeouts|intros _]. apply gives_bind; [tidying|intros _].
  apply (gives_owner (own nothing) ObjSsl fst (fun h => lift_io (dispose ObjSsl h)));
    [intros; apply settles_dispose_lift|apply gives_lift, gives_new_ssl| |].
  - intros ssl. unfold Stopwatch_start, elapsed_ms. repeat first [apply tidy_inspect | tidy_step].
  - intros ssl s [ssl' o] s' H. repeat (apply bind_inv in H as (? & ? & _ & H)). by injection H as <- _ _.
Qed.

Lemma tidy_serve config context fd peer : tidy (own nothing) (serve config context fd peer).
Proof.
  unfold serve. cbv zeta.
  apply (trades_bind _ _ _ (fun r st => held ObjSsl r.1 ⊎ own nothing st)); [apply gives_server_handshake|].
  intros [ssl o]. apply trades_owner; [apply settles_dispose_lift|].
  repeat first [ apply tidy_enforce_peer | apply tidy_shutdown | tidy_step ].
  apply tidy_local; [|done]. eapply local_emits_mono; [apply transfer_plain|apply emits_app_loop].
Qed.

Lemma tidy_write_record writer : tidy (own nothing) (write_record (W := W) writer).
Proof.
  apply tidy_local; [|done]. intros s c. unfold write_record. destruct writer as [[]|]; try by exists [].
  apply local_emits_lift, emits_metrics. by intros ? ? [].
Qed.

Lemma tidy_connection_body config context writer p :
  tidy (own nothing) (connection_body config context writer p).
Proof.
  unfold connection_body, Stopwatch_start, elapsed_ms, ResourceUsage_sample, record_failure.
  repeat first [ apply tidy_serve | apply tidy_write_record | tidy_step ].
Qed.

Lemma tidy_close fd : tidy none (Socket_close fd).
Proof. unfold Socket_close. tidying. Qed.

Lemma tidy_handle_connection config context writer p : tidy none (handle_connection config context writer p).
Proof.
  unfold handle_connection, with_socket. intros s. unfold scoped.
  pose proof (tidy_connection_body config context writer p (s, ConnectionMetrics_default)) as H.
  destruct (connection_body config context writer p (s, ConnectionMetrics_default)) as [[a|e] [s' m]];
    (eapply (traded_trans _ s'); [exact H|]);
    (pose proof (tidy_close (pc_fd p) s') as Hc; by destruct (Socket_close (pc_fd p) s') as [[u|e'] s'']).
Qed.

(** The client holds its cached session. *)
Definition session : Z -> holding := held ObjSession.

Lemma trades_reset x new :
  trades (fun st => held ObjSession new ⊎ own session st) (fun _ => own session) x (reset_session (W := W) new).
Proof.
  intros [s c]. unfold reset_session, get_session, modify, mbind, M_bind. cbn.
  pose proof (settles_dispose ObjSession c (held ObjSession new) s) as H. unfold lift_io.
  rewrite (comm_L (⊎)). destruct H as (n & L & A). unfold own, session. cbn.
  destruct (dispose ObjSession c s) as [[u|e] s'] eqn:E; [by exists n|].
  by destruct (throws_dispose (fun _ => False) _ _ _ _ _ E).
Qed.

Lemma tidy_cache_session config ssl : tidy (own session) (cache_session config ssl).
Proof.
  unfold cache_session. tidy_step; [|tidying]. tidy_step; [tidying|]. case_match; [|tidying].
  eapply trades_bind; [|intros u; apply trades_reset].
  eapply (gives_lift session ObjSession (fun _ => a)). intros s. unfold none.
  pose proof (trades_adopt ObjSession a (fun _ => ∅) s) as Ha.
  destruct (adopt ObjSession a s) as [[u|e] s']; [|done]. by rewrite (right_id_L ∅ (⊎)).
Qed.

Lemma tidy_clear_session : tidy (own session) (clear_cached_session (W := W)).
Proof.
  intros st. pose proof (trades_reset (own session) 0 st) as H. unfold clear_cached_session.
  destruct (reset_session 0 st) as [[u|e] st']; unfold held in H; simpl in H;
    by rewrite (left_id_L ∅ (⊎)) in H.
Qed.

Lemma tidy_offer config ssl : tidy (own session) (offer_session config ssl).
Proof.
  apply tidy_local; [apply emits_offer, logging_plain|].
  intros s c. by destruct (offer_session_ends config ssl s c) as (s' & new & -> & _).
Qed.

Lemma gives_prepare config context fd : gives ObjSsl (fun h => h) (own session) (prepare_ssl config context fd).
Proof.
  unfold prepare_ssl. cbv zeta. apply gives_bind; [apply tidy_lift, tidy_set_timeouts|intros _].
  apply (gives_owner (own session) ObjSsl (fun h => h) (fun h => lift_io (dispose ObjSsl h)));
    [intros; apply settles_dispose_lift|apply gives_lift, gives_new_ssl| |].
  - intros ssl. repeat first [apply tidy_offer | tidy_step].
  - intros ssl s ssl' s' H. repeat (apply bind_inv in H as (? & ? & _ & H)). by injection H as <- _.
Qed.

Lemma tidy_over_socket config context ms m timer fd :
  tidy (own session) (over_socket config context ms m timer fd).
Proof.
  unfold over_socket. cbv zeta. apply tidy_bind; [tidying|intros peer].
  apply (tidy_owner (own session) ObjSsl (fun h => h) (fun h => lift_io (dispose ObjSsl h)));
    [intros; apply settles_dispose_lift|apply gives_prepare|intros ssl].
  unfold client_handshake, Stopwatch_start, elapsed_ms, ResourceUsage_sample.
  repeat first [ apply tidy_inspect | apply tidy_enforce_peer | apply tidy_cache_session | apply tidy_shutdown
    | eapply tidy_weaken, emits_exchange; apply transfer_plain | tidy_step ].
Qed.

Lemma tidy_run_once config context writer ms : tidy (own session) (run_once config context writer ms).
Proof.
  unfold run_once, connect_and_exchange, conclude, log_failure, complete_metrics, MetricsWriter_write, Stopwatch_start. cbv zeta.
  repeat first [ eapply tidy_weaken, emits_tcp_connect; apply plumbing_plain | apply tidy_scoped | apply tidy_close
    | apply tidy_over_socket | tidy_step ].
Qed.

End connections.

(** ** Programs *)

Section programs.
Context {W : Type} {RA : RuntimeApi W} {J : JsonLib} {Y : YamlLib W} {EA : EnvApi W} {SA : SocketApi W}
  {LA : SslApi W} {CA : CtxApi W} {PA : CapApi W} {MA : MetricsApi W} {KA : ClientApi W} {FA : FileApi W}.

Lemma tidy_init : tidy none initialize_openssl.
Proof. apply tidy_silent, silent_initialize. Qed.

Lemma tidy_policy c : tidy none (enforce_insecure_mode_policy c).
Proof. apply tidy_silent, silent_insecure_policy. Qed.

Lemma gives_create_client p c : gives ObjCtx ctx_handle none (create_client p c).
Proof.
  unfold create_client. apply gives_bind; [apply tidy_init|intros _]. apply gives_bind; [apply tidy_policy|intros _].
  apply gives_bind; [tidying|intros ctx]. apply gives_create.
  - unfold apply_common_policy, load_trust_store, load_certificate_material, install_keylog_callback,
      ctx_require, ctx_set, production_environment. cbv zeta. tidying.
  - intros s t s' H. repeat (apply bind_inv in H as (? & ? & _ & H)). by injection H as <- _.
Qed.

Lemma gives_create_server p c b : gives ObjCtx ctx_handle none (create_server p c b).
Proof.
  unfold create_server. apply gives_bind; [apply tidy_init|intros _]. apply gives_bind; [apply tidy_policy|intros _].
  apply gives_bind; [tidying|intros ctx]. apply gives_create.
  - unfold apply_common_policy, load_trust_store, load_certificate_material, install_keylog_callback,
      ctx_require, ctx_set, production_environment. cbv zeta. tidying.
  - intros s t s' H. repeat (apply bind_inv in H as (? & ? & _ & H)). by injection H as <- _.
Qed.

(** The end of both constructors. *)
Lemma trades_constructed context x :
  trades (fun s => held ObjCtx (ctx_handle context) ⊎ none s) (fun c s => held ObjCtx (ctx_handle c) ⊎ none s) x
    (ignore_sigpipe (W := W) ;; warn_if_experimental (ctx_profile context) ;; mret context).
Proof.
  intros s. unfold ignore_sigpipe, warn_if_experimental, mbind, M_bind. destruct (experimental _).
  - by eexists [EvLog _ _; EvIgnoreSigpipe].
  - by exists [EvIgnoreSigpipe].
Qed.

Lemma gives_new_client config registry : gives ObjCtx ctx_handle none (PqTlsClient_new config registry).
Proof.
  apply gives_bind; [tidying|intros p]. eapply trades_bind; [apply gives_create_client|intros context].
  apply trades_constructed.
Qed.

Lemma gives_new_server config registry : gives ObjCtx ctx_handle none (PqTlsServer_new config registry).
Proof.
  apply gives_bind; [tidying|intros p]. eapply trades_bind; [apply gives_create_server|intros context].
  apply trades_constructed.
Qed.

(** The one object that is freed by hand. *)
Lemma tidy_supports_algorithm a : tidy none (openssl_supports_algorithm a).
Proof.
  unfold openssl_supports_algorithm. apply tidy_bind; [apply tidy_init|intros _]. tidy_step; [tidying|].
  destruct (a0 =? 0) eqn:E.
  - apply tidy_bind; [unfold adopt; rewrite E; tidying|intros _; tidying].
  - eapply trades_bind; [apply trades_adopt|intros u].
    assert (Hp : forall rc, tidy none (if rc =? 1 then mret true else drain_openssl_errors ;; mret false))
      by (intros rc; tidying).
    eapply (trades_bind _ _ _ (fun _ => none)); [|exact Hp]. clear Hp.
    eapply (trades_bind _ _ _ (fun _ _ => held ObjPkeyCtx a0)).
    + intros s. unfold call_ev, mbind, M_bind, call, emit. destruct (EVP_PKEY_keygen_init _ _ _) as [rc [w q]].
      by exists [EvKeygenInit a rc].
    + intros rc. eapply (trades_bind _ _ _ (fun _ => none)); [|intros; apply (trades_ret _ (fun _ => none))].
      intros s. pose proof (settles_dispose ObjPkeyCtx a0 ∅ s) as H. rewrite (right_id_L ∅ (⊎)) in H.
      destruct (dispose ObjPkeyCtx a0 s) as [[v|x] s'] eqn:Ed; [exact H|].
      by destruct (throws_dispose (fun _ => False) _ _ _ _ _ Ed).
Qed.

Lemma tidy_probe (m : io W Z) : tidy none m -> tidy none (probe m).
Proof. intros Hm. unfold probe. tidy_step; [done|tidying]. Qed.

Lemma tidy_probe_all (p : string -> io W bool) names :
  (forall n, tidy none (p n)) -> tidy none (probe_all p names).
Proof.
  intros Hp. induction names as [|n names IH]; simpl; [tidying|].
  apply tidy_bind; [done|intros]. apply tidy_bind; [done|intros; tidying].
Qed.

Lemma tidy_detect r : tidy none (Capabilities_detect r).
Proof.
  unfold Capabilities_detect, loaded_providers, probe_tls13, probe_cipher_suite, probe_signature_algorithm, ctx_set.
  repeat first [ apply tidy_init | apply tidy_supports_algorithm | apply tidy_probe | apply tidy_probe_all; intros ?
    | tidy_step ].
Qed.

Lemma tidy_warnings ws : tidy (S := St W) none (log_warnings ws).
Proof. induction ws; simpl; [tidying|]. apply tidy_bind; [tidying|done]. Qed.

Lemma tidy_client_config args : tidy none (client_build_config args).
Proof.
  unfold client_build_config, load_client_yaml, load_common_yaml, load_yaml.
  repeat first [apply tidy_warnings | tidy_step].
Qed.

Lemma tidy_server_config args : tidy none (server_build_config args).
Proof.
  unfold server_build_config, load_server_yaml, load_common_yaml, load_yaml.
  repeat first [apply tidy_warnings | tidy_step].
Qed.

Lemma tidy_load_registry path : tidy none (load_registry path).
Proof. unfold load_registry, registry_from_yaml_file. tidying. Qed.

Lemma tidy_validate_client c : tidy none (validate_client c).
Proof. unfold validate_client. apply tidy_bind; [tidying|intros; apply tidy_policy]. Qed.

Lemma tidy_validate_server c : tidy none (validate_server c).
Proof. unfold validate_server. apply tidy_bind; [tidying|intros; apply tidy_policy]. Qed.

Lemma tidy_build_message c : tidy none (build_message c).
Proof. unfold build_message, make_request. cbv zeta. tidying. Qed.

Lemma tidy_writer path : tidy none (MetricsWriter_new path).
Proof. unfold MetricsWriter_new. tidying. Qed.

Lemma tidy_flush w : tidy none (MetricsWriter_flush w).
Proof. unfold MetricsWriter_flush. tidying. Qed.

Lemma tidy_document doc : tidy (S := St W) none (print_document doc).
Proof. unfold print_document, print_out. tidying. Qed.

Lemma tidy_warn c : tidy (S := St W) none (warn_if_insecure c).
Proof. unfold warn_if_insecure, print_insecure_mode_banner, print_err. tidying. Qed.

Lemma tidy_print r c : tidy (S := St W) none (print_connection_result r c).
Proof.
  unfold print_connection_result. case_match; [|apply tidy_document]. unfold print_out.
  tidy_step; [tidying|]. induction (cr_responses r) as [|m ms IH]; simpl; [tidying|].
  tidy_step; [tidying|]. apply tidy_bind; [unfold print_out; tidying|done].
Qed.

(** A client's life: it starts without a session. *)
Lemma tidy_with_client {A} context (body : client (W := W) A) :
  tidy (own session) body ->
  trades (fun _ => held ObjCtx (ctx_handle context)) (fun _ => none) none (with_client context body).
Proof.
  intros Hb. apply trades_own. intros s. specialize (Hb (s, 0)).
  destruct (body (s, 0)) as [[a|e] [s' c]];
    (eapply (traded_trans _ s'); [exact Hb|]); unfold own, session; simpl;
    pose proof (settles_dispose ObjSession c ∅ s') as H; by rewrite (right_id_L ∅ (⊎)) in H.
Qed.

(** A context in its owner's scope. *)
Lemma tidy_context {A} (m : io W TlsContext) (k : TlsContext -> io W A) :
  gives ObjCtx ctx_handle none m ->
  (forall context, trades (fun _ => held ObjCtx (ctx_handle context)) (fun _ => none) none (k context)) ->
  tidy none (m ≫= k).
Proof.
  intros Hm Hk. eapply trades_bind; [exact Hm|]. intros context s. specialize (Hk context s).
  unfold none in *. by rewrite (right_id_L ∅ (⊎)).
Qed.

Lemma tidy_command_connect args : tidy none (command_connect args).
Proof.
  unfold command_connect.
  repeat first [ apply tidy_client_config | apply tidy_validate_client | apply tidy_warn | apply tidy_load_registry
    | apply tidy_build_message | apply tidy_writer
    | apply tidy_context; [apply gives_new_client|intros ?; apply tidy_with_client]
    | apply tidy_run_once | apply tidy_print | tidy_step ].
Qed.

Lemma tidy_capabilities args : tidy none (command_capabilities args).
Proof.
  unfold command_capabilities, print_out.
  repeat first [apply tidy_load_registry | apply tidy_detect | apply tidy_document | tidy_step].
Qed.

Lemma tidy_validate_config args : tidy none (command_validate_config args).
Proof.
  unfold command_validate_config, print_out.
  repeat first [ apply tidy_server_config | apply tidy_validate_server | apply tidy_load_registry
    | apply tidy_detect | apply tidy_document | tidy_step ].
Qed.

Context (run_benchmark : ClientConfig -> ProfileRegistry -> MetricsWriter -> io W BenchmarkSummary)
  (server_run : ServerConfig -> TlsContext -> option MetricsWriter -> io W unit)
  (info : BuildInfo).

Lemma tidy_benchmark args :
  (forall c r w, tidy none (run_benchmark c r w)) -> tidy none (command_benchmark run_benchmark args).
Proof.
  intros Hbench. unfold command_benchmark, print_out. cbv zeta.
  repeat first [ apply tidy_client_config | apply tidy_validate_client | apply tidy_load_registry | apply tidy_writer
    | apply Hbench | apply tidy_flush | apply tidy_document | tidy_step ].
Qed.

Lemma tidy_command_serve args :
  (forall c t w, tidy none (server_run c t w)) -> tidy none (command_serve server_run args).
Proof.
  intros Hrun. unfold command_serve.
  repeat first [ apply tidy_server_config | apply tidy_validate_server | apply tidy_warn | apply tidy_load_registry
    | apply tidy_detect | apply tidy_writer
    | apply tidy_context; [apply gives_new_server|intros ?; apply trades_own] | apply Hrun | tidy_step ].
Qed.

Lemma tidy_top_level body : tidy none body -> tidy none (top_level (W := W) body).
Proof. intros Hb. unfold top_level, print_err. apply tidy_catch; [done|intros; tidying]. Qed.

Lemma tidy_parsed {A B} (r : result A) (k : A -> io W B) :
  (forall a, r = Ok a -> tidy none (k a)) -> tidy none (liftM r ≫= k).
Proof.
  intros Hk s. unfold mbind, M_bind, liftM. destruct r as [a|x]; [by apply Hk|by exists []].
Qed.

Lemma tidy_program usage flags accepted dispatch argv :
  (forall args, parse flags argv = Ok args -> tidy none (dispatch args)) ->
  tidy (S := St W) none (program info usage flags accepted dispatch argv).
Proof.
  intros Hd. unfold program. apply tidy_parsed. intros args Hp. specialize (Hd args Hp).
  unfold print_out, configure_logging. repeat first [apply Hd | tidy_step].
Qed.

(** The commands that start no thread. *)
Lemma tidy_client_main argv :
  spares client_kFlags "benchmark" argv -> tidy none (client_main run_benchmark info argv).
Proof.
  intros Hs. apply tidy_top_level, tidy_program. intros args Hp. specialize (Hs args Hp). unfold client_dispatch.
  destruct (String.eqb_spec (command args) "benchmark"); [done|].
  repeat first [apply tidy_capabilities | apply tidy_command_connect | tidy_step].
Qed.

Lemma tidy_server_main argv :
  spares server_kFlags "serve" argv -> tidy none (server_main server_run info argv).
Proof.
  intros Hs. apply tidy_top_level, tidy_program. intros args Hp. specialize (Hs args Hp). unfold server_dispatch.
  destruct (String.eqb_spec (command args) "serve"); [done|].
  repeat first [apply tidy_capabilities | apply tidy_validate_config | tidy_step].
Qed.

(** The other two, for whatever their threads do. *)
Lemma tidy_threaded_mains argv :
  (forall c r w, tidy none (run_benchmark c r w)) -> (forall c t w, tidy none (server_run c t w)) ->
  tidy none (client_main run_benchmark info argv) /\ tidy none (server_main server_run info argv).
Proof.
  intros Hb Hr. split; apply tidy_top_level, tidy_program; intros args _; unfold client_dispatch, server_dispatch;
    repeat first [ apply tidy_capabilities | apply tidy_command_connect | by apply tidy_benchmark
      | apply tidy_validate_config | by apply tidy_command_serve | tidy_step ].
Qed.

End programs.

(** ** Claim *)

(** However it ends, everything it created has been freed, once, and nothing
    else has. *)
Definition released {W A} (m : io W A) : Prop :=
  forall s, exists new, st_log (m s).2 = new ++ st_log s /\ audit new ∅ = Some ∅.

Lemma released_tidy {W A} (m : io W A) : released m <-> tidy none m.
Proof.
  split; intros Hm s; specialize (Hm s); destruct (m s) as [[a|e] s']; exact Hm.
Qed.

Section claim.
Context {W : Type} {RA : RuntimeApi W} {J : JsonLib} {Y : YamlLib W} {EA : EnvApi W} {SA : SocketApi W}
  {LA : SslApi W} {CA : CtxApi W} {PA : CapApi W} {MA : MetricsApi W} {VA : ServerApi W} {KA : ClientApi W}
  {FA : FileApi W}.

Lemma connection_released config context writer p s :
  0 <= pc_fd p ->
  exists new, st_log (handle_connection config context writer p s).2 = EvClose (pc_fd p) :: new ++ st_log s /\
    audit new ∅ = Some ∅.
Proof.
  intros Hfd. unfold handle_connection, with_socket, scoped.
  pose proof (tidy_connection_body config context writer p (s, ConnectionMetrics_default)) as H.
  destruct (connection_body config context writer p (s, ConnectionMetrics_default)) as [[a|e] [s' m]];
    destruct H as (new & L & A); destruct (Socket_close_outcome (pc_fd p) s') as (w & q & ->); exists new;
    simpl; replace (pc_fd p >=? 0) with true by lia; (split; [by f_equal|exact A]).
Qed.

(** C13: No OpenSSL object leaks and none is freed twice, on any path.  Whatever
    the peer, the network and OpenSSL do, and wherever an exception is thrown:
    a connection of the server has freed every object it created (exactly once,
    and nothing else) before its descriptor is closed; a connection of the
    client likewise, apart from the cached session, of which the client holds
    exactly the current one before and after; and over a whole run of the
    client program for another command than [benchmark], or of the server
    program for another than [serve], nothing is left, not even the session.
    (Of what those two start threads for, only the single connections are
    covered, by the first two parts.) *)
Theorem objects_freed run_benchmark server_run info :
  (forall argv, spares client_kFlags "benchmark" argv -> released (client_main run_benchmark info argv)) /\
  (forall argv, spares server_kFlags "serve" argv -> released (server_main server_run info argv)) /\
  (forall config context writer p s, 0 <= pc_fd p ->
     exists new, st_log (handle_connection config context writer p s).2 =
                   EvClose (pc_fd p) :: new ++ st_log s /\ audit new ∅ = Some ∅) /\
  (forall config context writer ms s c,
     exists new, st_log (run_once config context writer ms (s, c)).2.1 = new ++ st_log s /\
       audit new (held ObjSession c) = Some (held ObjSession (run_once config context writer ms (s, c)).2.2)).
Proof.
  splits.
  - intros argv Hs. by apply released_tidy, tidy_client_main.
  - intros argv Hs. by apply released_tidy, tidy_server_main.
  - apply connection_released.
  - intros config context writer ms s c. pose proof (tidy_run_once config context writer ms (s, c)) as H.
    destruct (run_once config context writer ms (s, c)) as [[r|e] [s' c']]; exact H.
Qed.

End claim.

(** The audit tells a leak and a double release from an orderly run. *)
Example audit_leak : audit [EvNew ObjSsl 9] ∅ <> Some ∅.
Proof. by vm_compute. Qed.

Example audit_double : audit [EvFree ObjSsl 9; EvFree ObjSsl 9; EvNew ObjSsl 9] ∅ = None.
Proof. reflexivity. Qed.

Lemma objects_freed_witness :
  (exists new, st_log toy_connection.2 = EvClose 4 :: new /\ audit new ∅ = Some ∅ /\
     In (EvNew ObjSsl 9) new /\ In (EvNew ObjX509 5) new) /\
  released (client_main (RA := toy_clock) (J := toy_protocol) (Y := client_yaml) (EA := toy_env None)
    (SA := toy_sockets) (LA := toy_ssl) (CA := toy_ctx "X25519MLKEM768") (PA := lab_openssl) (MA := toy_metrics)
    (KA := toy_client) (FA := no_files) no_benchmark lab_build lab_argv).
Proof.
  destruct (objects_freed (RA := toy_clock) (J := toy_protocol) (Y := client_yaml) (EA := toy_env None)
    (SA := toy_sockets) (LA := toy_ssl) (CA := toy_ctx "X25519MLKEM768") (PA := lab_openssl) (MA := toy_metrics)
    (VA := toy_server) (KA := toy_client) (FA := no_files) no_benchmark no_server lab_build) as (Hc & _ & H & _).
  split; [|apply Hc, spares_parsed; vm_compute; reflexivity].
  destruct (H small_server (mkTlsContext 7 lab_profile) (Some true) (mkPending 4 "127.0.0.1:50000")
    (mkSt (frame_of "ping") [] []) ltac:(simpl; lia)) as (new & L & A).
  assert (L' : st_log toy_connection.2 = EvClose 4 :: new).
  { unfold toy_connection. rewrite <- (app_nil_r new). exact L. }
  exists new. split; [exact L'|]. split; [exact A|].
  assert (Hin : In (EvNew ObjSsl 9) (st_log toy_connection.2) /\ In (EvNew ObjX509 5) (st_log toy_connection.2))
    by (vm_compute; tauto).
  rewrite L' in Hin. destruct Hin as [[[=]|H1] [[=]|H2]]. split; [exact H1|exact H2].
Defined.
