(* ===== verification/Load.v ===== *)
(** A benchmark as a whole: the threads of [Benchmark], each of which runs the
    client of [Client] that it owns.

    A thread keeps its client (context, warm-up request, cached session), its own
    OpenSSL error queue and its own log.  Every call starts in a world of which
    nothing is assumed: that world decides every answer the client gets from the
    system, the effects of the other threads among them.  The thread that called
    [run_benchmark] creates the others one by one while they run, and joins
    them; it may fail to create one. *)

From stdpp Require Import relations gmultiset.
From S2P Require Import Prelude Errors Runtime Json Framing Identifiers Message Profile.
From S2P Require Import ProfileYaml Config Transport Sockets Metrics TlsContext Gate Server ServerLoop.
From S2P Require Import ServerSpec Client ClientSpec Benchmark MainSpec Objects.

(** ** State *)

(** What a worker function has constructed. *)
Record Owned := mkOwned {
  ow_context : TlsContext;
  ow_request : Message;
  ow_session : Z
}.

Record Thread := mkThread {
  th_client : option Owned;
  th_errq : list Z;
  th_log : list Event
}.

(** A connection whose [run_once] has ended, with the messages it was given. *)
Record run := mkRun {
  run_warmup : bool;
  run_context : TlsContext;
  run_outcome : result (list Message * ClientResult);
  run_log : list Event
}.

Record Load := mkLoad {
  ld_bench : Bench;
  ld_threads : list Thread;
  ld_runs : list run
}.

Definition Load_new (config : ClientConfig) : Load :=
  mkLoad (Bench_new config) [] [].

Section load.
Context {W : Type} {RA : RuntimeApi W} {J : JsonLib} {EA : EnvApi W} {SA : SocketApi W}
  {LA : SslApi W} {LL : SslLaws W} {CA : CtxApi W} {MA : MetricsApi W} {KA : ClientApi W}.
Context (config : ClientConfig) (registry : ProfileRegistry) (writer : option MetricsWriter).

(** ** The calls of the worker function *)

(** The constructor, whose exceptions are caught, and the warm-up request, whose
    exceptions leave the function and take the client with them. *)
Definition set_up : io W (string + Owned) :=
  made ← try_catch (context ← PqTlsClient_new config registry; mret (inr context)) is_exception
           (fun x => mret (inl (exn_what x)));
  match made with
  | inl what => mret (inl what)
  | inr context =>
      request ← guarded (dispose ObjCtx (ctx_handle context)) (make_request Ping JNull);
      mret (inr (mkOwned context request 0))
  end.

Definition warm_up (o : Owned) : client (list Message * ClientResult) :=
  r ← run_once_message config (ow_context o) writer (ow_request o);
  mret ([ow_request o], r).

Definition measure (o : Owned) : client (list Message * ClientResult) :=
  messages ← lift_io (ping_messages (Z.to_nat (messages_per_connection config)));
  r ← run_once config (ow_context o) writer messages;
  mret (messages, r).

(** ** Steps *)

(** The catch-all around the worker function. *)
Definition worker_ended {A} (r : result A) : list Event :=
  match r with
  | Ok _ => []
  | Throw x => [EvLog LevelErr
      (if is_exception x then "benchmark worker terminated unexpectedly: " +:+ exn_what x
       else "benchmark worker terminated with an unknown exception")]
  end.

(** The thread after a call on its client; an exception unwinds the function and
    destroys the client. *)
Definition after_call {A} (th : Thread) (o : Owned) (r : result A) (st : St W * Z) : Thread :=
  match r with
  | Ok _ => mkThread (Some (mkOwned (ow_context o) (ow_request o) st.2)) (st_errq st.1)
              (st_log st.1 ++ th_log th)
  | Throw _ => let s := destroyed (ow_context o) st in
               mkThread None (st_errq s) (worker_ended r ++ st_log s ++ th_log th)
  end.

(** The thread after [set_up]. *)
Definition after_set_up (th : Thread) (r : result (string + Owned)) (s : St W) : Thread :=
  mkThread (match r with Ok (inr o) => Some o | _ => None end) (st_errq s)
    (worker_ended r ++ st_log s ++ th_log th).

Definition set_up_action (i : nat) (r : result (string + Owned)) : action :=
  match r with
  | Ok (inr _) => SetUp i
  | Ok (inl what) => SetUpFailed i what
  | Throw _ => SetUpDied i
  end.

Definition warm_action {A} (i : nat) (r : result A) : action :=
  match r with Ok _ => WarmRan i | Throw _ => WarmDied i end.

Definition measure_action {A} (i : nat) (r : result (A * ClientResult)) : action :=
  match r with Ok (_, res) => Ran i res | Throw _ => Died i end.

Inductive load_step : Load -> Load -> Prop :=
  (* an access of a counter, or a critical section *)
  | LoadAtomic b b' ts rs :
      bstep Atomic b b' -> load_step (mkLoad b ts rs) (mkLoad b' ts rs)
  | LoadSetUp b b' ts rs i th w r s :
      ts !! i = Some th ->
      set_up (mkSt w (th_errq th) []) = (r, s) -> bstep (set_up_action i r) b b' ->
      load_step (mkLoad b ts rs) (mkLoad b' (<[i := after_set_up th r s]> ts) rs)
  (* a discarded connection *)
  | LoadWarm b b' ts rs i th o w r st :
      ts !! i = Some th -> th_client th = Some o ->
      warm_up o (mkSt w (th_errq th) [], ow_session o) = (r, st) -> bstep (warm_action i r) b b' ->
      load_step (mkLoad b ts rs)
        (mkLoad b' (<[i := after_call th o r st]> ts) (mkRun true (ow_context o) r (st_log st.1) :: rs))
  (* the end of the warm-up *)
  | LoadClear b b' ts rs i th o w r st :
      ts !! i = Some th -> th_client th = Some o ->
      clear_cached_session (mkSt w (th_errq th) [], ow_session o) = (r, st) -> bstep (WarmEnded i) b b' ->
      load_step (mkLoad b ts rs) (mkLoad b' (<[i := after_call th o r st]> ts) rs)
  (* a measured connection *)
  | LoadMeasure b b' ts rs i th o w r st :
      ts !! i = Some th -> th_client th = Some o ->
      measure o (mkSt w (th_errq th) [], ow_session o) = (r, st) -> bstep (measure_action i r) b b' ->
      load_step (mkLoad b ts rs)
        (mkLoad b' (<[i := after_call th o r st]> ts) (mkRun false (ow_context o) r (st_log st.1) :: rs))
  (* the function returns and destroys the client *)
  | LoadEnd b b' ts rs i th o (w : W) :
      ts !! i = Some th -> th_client th = Some o -> bstep (Ended i) b b' ->
      let s := destroyed (ow_context o) (mkSt w (th_errq th) [], ow_session o) in
      load_step (mkLoad b ts rs)
        (mkLoad b' (<[i := mkThread None (st_errq s) (st_log s ++ th_log th)]> ts) rs).

(** Where [run_benchmark] itself is. *)
Inductive stage :=
  | Spawning     (* in the loop of emplace_back *)
  | Joining      (* in the loop of join *)
  | Returned
  | Threw        (* creating a thread threw, and no thread was there to be destroyed *)
  | Terminated.  (* creating a thread threw, and unwinding destroyed a joinable thread: std::terminate *)

(** A new thread, about to call the worker function. *)
Definition fresh : Thread := mkThread None [] [].

Inductive drive : stage * Load -> stage * Load -> Prop :=
  | DriveSpawn b b' ts rs :
      Z.of_nat (length ts) < thread_count config -> bstep Spawned b b' ->
      drive (Spawning, mkLoad b ts rs) (Spawning, mkLoad b' (ts ++ [fresh]) rs)
  | DriveRefused b rs :
      0 < thread_count config -> drive (Spawning, mkLoad b [] rs) (Threw, mkLoad b [] rs)
  | DriveTerminated b th ts rs :
      Z.of_nat (length (th :: ts)) < thread_count config ->
      drive (Spawning, mkLoad b (th :: ts) rs) (Terminated, mkLoad b (th :: ts) rs)
  | DriveSpawned b ts rs :
      Z.of_nat (length ts) = thread_count config -> drive (Spawning, mkLoad b ts rs) (Joining, mkLoad b ts rs)
  | DriveJoined b ts rs :
      Forall over (bs_threads b) -> drive (Joining, mkLoad b ts rs) (Returned, mkLoad b ts rs)
  (* another thread, meanwhile *)
  | DriveThread st s s' :
      st = Spawning \/ st = Joining -> load_step s s' -> drive (st, s) (st, s').

Definition drive_reachable (st : stage) (s : Load) : Prop := rtc drive (Spawning, Load_new config) (st, s).

(** What holds at the start and is kept by a new thread and by the threads holds
    wherever [run_benchmark] is. *)
Lemma drive_invariant (P : Load -> Prop) st s :
  P (Load_new config) ->
  (forall b b' ts rs, bstep Spawned b b' -> P (mkLoad b ts rs) -> P (mkLoad b' (ts ++ [fresh]) rs)) ->
  (forall s s', load_step s s' -> P s -> P s') -> drive_reachable st s -> P s.
Proof.
  intros H0 Hspawn Hstep Hr.
  apply rtc_ind_r with (P := fun x => P x.2) (z := (st, s)) in Hr; [done|done|].
  intros x y _ Hd. destruct Hd; simpl; eauto.
Qed.

Lemma load_step_bench s s' : load_step s s' -> bench_step (ld_bench s) (ld_bench s').
Proof. intros []; by eexists. Qed.

Lemma load_reachable_bench st s : drive_reachable st s -> breachable config (ld_bench s).
Proof.
  apply (drive_invariant (fun s => breachable config (ld_bench s))); [constructor|..]; simpl.
  - intros b b' ts rs Hb H1. eapply rtc_r; [exact H1|by eexists].
  - intros s1 s2 Hs H1. eapply rtc_r; [exact H1|by apply load_step_bench].
Qed.

(** ** What a run is *)

(** The lines a run gave to the metrics stream. *)
Definition line_of (e : Event) : option string := match e with EvMetrics line _ => Some line | _ => None end.

Definition run_lines (r : run) : list string := omap line_of (run_log r).

(** A context of this benchmark: its profile is the configured one. *)
Definition configured (context : TlsContext) : Prop :=
  registry_get registry (profile_id (c_common config)) = Ok (ctx_profile context).

(** The number of requests of a connection. *)
Definition run_length (warmup : bool) : nat :=
  if warmup then 1%nat else Z.to_nat (messages_per_connection config).

(** An exception that kills a thread: the random generator failed, or there is
    a record that cannot be serialised. *)
Definition killing (context : TlsContext) (x : exn) : Prop :=
  real x /\ (generator_works W -> ~ forall ms, client_serialisable config context ms).

(** The run is the configured client's, leaves no descriptor open and moves data
    only when authorised.  When it returned, it had been given the right number of
    pings, and succeeded or gave up as [run_once] does; if it was measured, it gave
    its own record to the metrics stream if a file is open.  When it threw, it
    gave none. *)
Definition run_sound (r : run) : Prop :=
  configured (run_context r) /\ live (run_log r) = [] /\
  gated (client_authorised config (run_context r)) (run_log r) /\
  match run_outcome r with
  | Ok (ms, res) =>
      length ms = run_length (run_warmup r) /\ Forall (fun m => type m = Ping) ms /\
      concluded (run_context r) ms res /\ client_identity config (cr_metrics res) /\
      (run_warmup r = false ->
       if recording writer
       then exists line, to_jsonl_line (cr_metrics res) = Ok line /\ run_lines r = [line]
       else run_lines r = [])
  | Throw x => killing (run_context r) x /\ run_lines r = []
  end.

Lemma lines_no_record new : Forall no_record new -> omap line_of new = [].
Proof. induction 1 as [|[] new H _ IH]; simpl in *; done. Qed.

Lemma silent_request ty pl : silent (make_request (W := W) ty pl).
Proof. unfold make_request. auto using silent_uuid, silent_now with pqtls. Qed.

Lemma throws_request ty pl : throws (fun x => real x /\ ~ generator_works W) (make_request (W := W) ty pl).
Proof.
  unfold make_request. apply throws_bind; [apply throws_uuid_works|intros].
  apply throws_bind; [apply throws_now|intros; apply throws_ret].
Qed.

Lemma silent_pings n : silent (ping_messages (W := W) n).
Proof. induction n; simpl; auto using silent_request with pqtls. Qed.

Lemma throws_pings n : throws (fun x => real x /\ ~ generator_works W) (ping_messages (W := W) n).
Proof.
  induction n; simpl; [apply throws_ret|]. apply throws_bind; [apply throws_request|intros].
  apply throws_bind; [done|intros; apply throws_ret].
Qed.

Lemma request_type ty pl (s : St W) m s' : make_request ty pl s = (Ok m, s') -> type m = ty.
Proof. unfold make_request. intros H. repeat (apply bind_inv in H as (? & ? & _ & H)). by injection H as <- _. Qed.

Lemma pings_made n (s : St W) ms s' :
  ping_messages n s = (Ok ms, s') -> length ms = n /\ Forall (fun m => type m = Ping) ms.
Proof.
  revert s ms s'. induction n as [|n IH]; simpl; intros s ms s' H; [by injection H as <- _|].
  apply bind_inv in H as (m & s1 & Hm & H). apply bind_inv in H as (rest & s2 & Hr & H). injection H as <- _.
  apply IH in Hr as [H1 H2]. apply request_type in Hm. simpl. auto.
Qed.

(** One call of [run_once] from an empty log. *)
Lemma run_once_sound warmup context ms w q c r st :
  client_limits config -> configured context ->
  length ms = run_length warmup -> Forall (fun m => type m = Ping) ms ->
  run_once config context writer ms (mkSt w q [], c) = (r, st) ->
  run_sound (mkRun warmup context (match r with Ok res => Ok (ms, res) | Throw x => Throw x end) (st_log st.1)).
Proof.
  intros Hlim Hc Hn Hp Hr.
  pose proof (run_once_outcome config context writer ms (mkSt w q []) c Hlim) as Ho.
  destruct (run_once_gated config context writer ms (mkSt w q []) c) as (new & L & G & _).
  unfold wp in Ho. rewrite Hr in *. simpl in *. rewrite (right_id_L [] (++)) in L. subst new.
  unfold run_sound, run_lines. simpl. destruct r as [res|x].
  - destruct Ho as (H1 & H2 & H3 & new & Hf & H4). splits; try done. intros _. destruct (recording writer).
    + destruct H4 as (line & good & Hd & ->). exists line. simpl. split; [done|].
      by rewrite (right_id_L [] (++)), lines_no_record.
    + by rewrite H4, (right_id_L [] (++)), lines_no_record.
  - destruct Ho as [[H1 Hg] [H2 (new & L & Hf)]]. splits; try done.
    + split; [done|]. intros Hw Hser. by apply (Hg Hw).
    + by rewrite L, (right_id_L [] (++)), lines_no_record.
Qed.

Lemma warm_up_sound o w q r st :
  client_limits config -> configured (ow_context o) -> type (ow_request o) = Ping ->
  warm_up o (mkSt w q [], ow_session o) = (r, st) ->
  run_sound (mkRun true (ow_context o) r (st_log st.1)).
Proof.
  intros Hlim Hc Ht. unfold warm_up, run_once_message, mbind, M_bind.
  destruct (run_once _ _ _ _ _) as [res st'] eqn:E. intros H.
  pose proof (run_once_sound true (ow_context o) [ow_request o] w q _ res st' Hlim Hc eq_refl
    (Forall_cons_2 _ _ _ Ht (Forall_nil_2 _)) E) as Hs.
  destruct res as [res|x]; injection H as <- <-; exact Hs.
Qed.

Lemma measure_sound o w q r st :
  client_limits config -> configured (ow_context o) ->
  measure o (mkSt w q [], ow_session o) = (r, st) ->
  run_sound (mkRun false (ow_context o) r (st_log st.1)).
Proof.
  intros Hlim Hc. unfold measure, mbind, M_bind, lift_io.
  pose proof (silent_pings (Z.to_nat (messages_per_connection config)) (mkSt w q [])) as Hl.
  destruct (ping_messages _ _) as [[ms|x] s1] eqn:Ep; simpl in Hl; intros H.
  - destruct (pings_made _ _ _ _ Ep) as [H1 H2]. destruct s1 as [w1 q1 l1]. simpl in Hl. subst l1.
    destruct (run_once _ _ _ _ _) as [res st'] eqn:E.
    pose proof (run_once_sound false (ow_context o) ms w1 q1 _ res st' Hlim Hc H1 H2 E) as Hs.
    destruct res as [res|x]; injection H as <- <-; exact Hs.
  - injection H as <- <-. apply throws_pings in Ep as [Hx Hg]. unfold run_sound, run_lines. simpl. by rewrite Hl.
Qed.

(** ** What a thread holds *)

Definition holds (th : Thread) : holding :=
  match th_client th with
  | Some o => held ObjCtx (ctx_handle (ow_context o)) ⊎ held ObjSession (ow_session o)
  | None => ∅
  end.

(** Its client is one of this benchmark, and is all the thread has not freed. *)
Definition thread_sound (th : Thread) : Prop :=
  audit (th_log th) ∅ = Some (holds th) /\
  match th_client th with
  | Some o => configured (ow_context o) /\ type (ow_request o) = Ping
  | None => True
  end.

Lemma destroyed_audit context (s : St W) session h l :
  audit (st_log s ++ l) h = Some (held ObjCtx (ctx_handle context) ⊎ held ObjSession session) ->
  audit (st_log (destroyed context (s, session)) ++ l) h = Some ∅.
Proof.
  intros Ha. unfold destroyed. simpl.
  destruct (settles_dispose ObjSession session (held ObjCtx (ctx_handle context)) s) as (n1 & L1 & A1).
  destruct (settles_dispose ObjCtx (ctx_handle context) ∅ (dispose ObjSession session s).2) as (n2 & L2 & A2).
  unfold log_of, St_logged in *. rewrite L2, L1, <- !(assoc_L (++)). rewrite (comm_L (⊎)) in Ha.
  rewrite (right_id_L ∅ (⊎)) in A2. eapply audit_app; [|exact A2]. by eapply audit_app.
Qed.

Lemma after_call_sound {A} th o (m : client (W := W) A) w r st :
  tidy (own session) m -> thread_sound th -> th_client th = Some o ->
  m (mkSt w (th_errq th) [], ow_session o) = (r, st) -> thread_sound (after_call th o r st).
Proof.
  intros Ht [Ha Hc] Ho Hm. unfold thread_sound, holds in *. rewrite Ho in *.
  specialize (Ht (mkSt w (th_errq th) [], ow_session o)). rewrite Hm in Ht. destruct st as [s c].
  assert (Hl : audit (st_log s ++ th_log th) ∅ =
    Some (held ObjCtx (ctx_handle (ow_context o)) ⊎ held ObjSession c)).
  { destruct r as [a|x]; destruct Ht as (new & L & A'); unfold log_of, local_logged in L; simpl in L;
      rewrite (right_id_L [] (++)) in L; subst new; (eapply audit_app; [exact Ha|]); by apply audit_frame. }
  destruct r as [a|x]; simpl; [by split|]. split; [by rewrite (destroyed_audit _ _ _ _ _ Hl)|done].
Qed.

(** What [set_up] hands to the thread. *)
Definition handed (r : string + Owned) : holding :=
  match r with
  | inl _ => ∅
  | inr o => held ObjCtx (ctx_handle (ow_context o)) ⊎ held ObjSession (ow_session o)
  end.

Lemma trades_set_up : trades none (fun r _ => handed r) none set_up.
Proof.
  unfold set_up. eapply (trades_bind _ _ _ (fun made _ =>
    match made with inl _ => ∅ | inr context => held ObjCtx (ctx_handle context) end)).
  - apply trades_catch; [|intros x s; apply traded_refl].
    eapply trades_bind; [apply gives_new_client|intros context s]. unfold none. simpl.
    rewrite (right_id_L ∅ (⊎)). apply traded_refl.
  - intros [what|context]; [intros s; apply traded_refl|].
    eapply (trades_bind _ _ _ (fun _ _ => held ObjCtx (ctx_handle context))).
    + eapply trades_guarded.
      * intros s. pose proof (tidy_silent _ (silent_request Ping JNull) s) as H.
        destruct (make_request Ping JNull s) as [[m|x] s']; apply (traded_frame (held ObjCtx (ctx_handle context))) in H;
          unfold none in H; rewrite (right_id_L ∅ (⊎)) in H; exact H.
      * intros s. pose proof (settles_dispose ObjCtx (ctx_handle context) ∅ s) as H.
        rewrite (right_id_L ∅ (⊎)) in H. exact H.
    + intros request s. simpl. unfold held at 3. simpl. rewrite (right_id_L ∅ (⊎)). apply traded_refl.
Qed.

Lemma new_client_profile (s : St W) context s' :
  PqTlsClient_new config registry s = (Ok context, s') -> configured context.
Proof.
  unfold PqTlsClient_new, configured, liftM. intros H. apply bind_inv in H as (p & s1 & Hp & H). injection Hp as -> _.
  apply bind_inv in H as (t & s2 & Ht & H). apply bind_inv in H as (u & s3 & _ & H).
  apply bind_inv in H as (v & s4 & _ & H). injection H as <- _. by rewrite (create_client_profile _ _ _ _ _ Ht).
Qed.

Lemma set_up_configured s o s' :
  set_up s = (Ok (inr o), s') -> configured (ow_context o) /\ type (ow_request o) = Ping.
Proof.
  unfold set_up. intros H. apply bind_inv in H as (made & s1 & Hm & H).
  destruct made as [what|context]; [by injection H|].
  apply bind_inv in H as (request & s2 & Hq & H). injection H as <- _. simpl. split.
  - unfold try_catch in Hm. destruct ((context ← PqTlsClient_new config registry; mret (inr context)) s)
      as [[made|x] s3] eqn:E; [|by destruct (is_exception x)].
    injection Hm as -> _. apply bind_inv in E as (c & s4 & E & H). injection H as <- _.
    by apply new_client_profile in E.
  - unfold guarded in Hq. destruct (make_request Ping JNull s1) as [[m|x] s3] eqn:E; [|done].
    injection Hq as <- _. by apply request_type in E.
Qed.

Lemma after_set_up_sound th w r s :
  thread_sound th -> th_client th = None -> set_up (mkSt w (th_errq th) []) = (r, s) ->
  thread_sound (after_set_up th r s).
Proof.
  intros [Ha _] Hn Hs. unfold thread_sound, holds in *. rewrite Hn in Ha.
  pose proof (trades_set_up (mkSt w (th_errq th) [])) as Ht. rewrite Hs in Ht.
  assert (Hl : forall h, traded (mkSt w (th_errq th) []) s ∅ h -> audit (st_log s ++ th_log th) ∅ = Some h).
  { intros h (new & L & A). unfold log_of, St_logged in L. simpl in L. rewrite (right_id_L [] (++)) in L. subst new.
    by eapply audit_app. }
  destruct r as [[what|o]|x]; simpl; apply Hl in Ht; [by split| |by rewrite Ht]. split; [exact Ht|].
  by eapply set_up_configured.
Qed.

(** ** The threads *)

Definition owns (p : phase) : bool :=
  match p with
  | Setup | Abandoning _ _ | Done | Dead => false
  | _ => true
  end.

Definition has_client (th : Thread) : bool := match th_client th with Some _ => true | None => false end.

(** How an action changes what its thread owns. *)
Definition shifts (a : action) (before after : bool) : Prop :=
  match a with
  | Atomic => after = before
  | SetUp _ => before = false /\ after = true
  | SetUpFailed _ _ | SetUpDied _ => before = false /\ after = false
  | WarmRan _ | WarmEnded _ | Ran _ _ => before = true /\ after = true
  | WarmDied _ | Died _ | Ended _ => before = true /\ after = false
  | Spawned => False
  end.

Definition mover (a : action) : option nat :=
  match a with
  | Atomic | Spawned => None
  | SetUp i | SetUpFailed i _ | SetUpDied i | WarmRan i | WarmDied i | WarmEnded i | Ran i _ | Died i | Ended i =>
      Some i
  end.

Lemma bstep_moves a b b' :
  bstep a b b' -> a <> Spawned ->
  exists i p p', bs_threads b !! i = Some p /\ bs_threads b' = <[i := p']> (bs_threads b) /\
    shifts a (owns p) (owns p') /\ (forall j, mover a = Some j -> j = i).
Proof.
  destruct 1; intros Ha; try done; do 3 eexists; (split; [eassumption|]); (split; [reflexivity|]);
    (split; [by repeat split|intros j [=]; done]).
Qed.

Definition matched (b : Bench) (ts : list Thread) : Prop :=
  Forall2 (fun p th => owns p = has_client th) (bs_threads b) ts.

Lemma matched_atomic b b' ts : bstep Atomic b b' -> matched b ts -> matched b' ts.
Proof.
  unfold matched. intros Hb Hm. destruct (bstep_moves _ _ _ Hb ltac:(done)) as (i & p & p' & Hi & -> & Hs & _).
  destruct (Forall2_lookup_l _ _ _ _ _ Hm Hi) as (th & Ht & Hp).
  rewrite <- (list_insert_id ts i th Ht). apply Forall2_insert; [done|]. simpl in Hs. congruence.
Qed.

Lemma matched_call a i b b' ts th th' :
  bstep a b b' -> mover a = Some i -> ts !! i = Some th -> matched b ts ->
  shifts a (has_client th) (has_client th') -> matched b' (<[i := th']> ts).
Proof.
  unfold matched. intros Hb Ha Ht HF Hs'.
  destruct (bstep_moves _ _ _ Hb ltac:(by intros ->)) as (j & p & p' & Hj & -> & Hs & Hm). rewrite (Hm _ Ha) in *.
  destruct (Forall2_lookup_l _ _ _ _ _ HF Hj) as (th0 & Ht0 & Hp). simplify_eq.
  apply Forall2_insert; [done|]. rewrite Hp in Hs. destruct a; simpl in *; naive_solver congruence.
Qed.

Lemma matched_client a i b b' ts th :
  bstep a b b' -> mover a = Some i -> ts !! i = Some th -> matched b ts ->
  exists after, shifts a (has_client th) after.
Proof.
  intros Hb Ha Ht HF.
  destruct (bstep_moves _ _ _ Hb ltac:(by intros ->)) as (j & p & p' & Hj & _ & Hs & Hm). rewrite (Hm _ Ha) in *.
  destruct (Forall2_lookup_l _ _ _ _ _ HF Hj) as (th0 & Ht0 & Hp). simplify_eq. rewrite Hp in Hs. eauto.
Qed.

Lemma tidy_warm_up o : tidy (own session) (warm_up o).
Proof. unfold warm_up, run_once_message. tidy_step; [apply tidy_run_once|tidying]. Qed.

Lemma tidy_measure o : tidy (own session) (measure o).
Proof.
  unfold measure. tidy_step; [apply tidy_lift, tidy_silent, silent_pings|].
  tidy_step; [apply tidy_run_once|tidying].
Qed.

(** ** The invariant *)

Lemma thread_owned th o :
  thread_sound th -> th_client th = Some o -> configured (ow_context o) /\ type (ow_request o) = Ping.
Proof. intros [_ H] Ho. by rewrite Ho in H. Qed.

Record load_sound (s : Load) : Prop := {
  ls_matched : matched (ld_bench s) (ld_threads s);
  ls_threads : Forall thread_sound (ld_threads s);
  ls_runs : Forall run_sound (ld_runs s)
}.

Lemma load_sound_new : load_sound (Load_new config).
Proof.
  by split; constructor.
Qed.

Lemma fresh_sound : thread_sound fresh.
Proof. by split. Qed.

Lemma load_sound_spawn b b' ts rs :
  bstep Spawned b b' -> load_sound (mkLoad b ts rs) -> load_sound (mkLoad b' (ts ++ [fresh]) rs).
Proof.
  intros Hb [Hm Ht Hr]. split; simpl in *; [|apply Forall_app; auto using fresh_sound|done].
  inversion Hb; subst. apply Forall2_app; [exact Hm|]. by constructor.
Qed.

Lemma clear_ends st : exists st', clear_cached_session (W := W) st = (Ok tt, st').
Proof.
  destruct st as [s c]. unfold clear_cached_session, reset_session, get_session, modify, mbind, M_bind, lift_io. cbn.
  destruct (dispose ObjSession c s) as [[[]|x] s'] eqn:E; [eauto|].
  by destruct (throws_dispose (fun _ => False) _ _ _ _ _ E).
Qed.

Lemma load_sound_step s s' : client_limits config -> load_step s s' -> load_sound s -> load_sound s'.
Proof.
  intros Hlim Hs [Hm Ht Hr].
  assert (Hone : forall i th, ld_threads s !! i = Some th -> thread_sound th) by (by apply Forall_lookup).
  destruct Hs as [b b' ts rs Hb|b b' ts rs i th w r s Hi Hu Hb|b b' ts rs i th o w r st Hi Ho Hu Hb
    |b b' ts rs i th o w r st Hi Ho Hu Hb|b b' ts rs i th o w r st Hi Ho Hu Hb|b b' ts rs i th o w Hi Ho Hb s];
    simpl in *; [|pose proof (Hone _ _ Hi) as Hth ..].
  - split; simpl; [by eapply matched_atomic|done..].
  - assert (Hn : th_client th = None).
    { destruct (matched_client _ i _ _ ts th Hb) as [after H]; [by destruct r as [[]|]|done..|].
      unfold has_client in H. destruct (th_client th); [|done]. by destruct r as [[]|], H. }
    split; simpl; [|by apply Forall_insert; [|by eapply after_set_up_sound]|done].
    eapply matched_call; [exact Hb|by destruct r as [[]|]|done..|].
    unfold has_client. rewrite Hn. by destruct r as [[]|].
  - destruct (thread_owned th o Hth Ho) as [H1 H2]. split; simpl.
    + eapply matched_call; [exact Hb|by destruct r|done..|]. unfold has_client. rewrite Ho. by destruct r.
    + apply Forall_insert; [done|]. eapply after_call_sound; [apply tidy_warm_up|done..].
    + constructor; [by eapply warm_up_sound|done].
  - destruct (clear_ends (mkSt w (th_errq th) [], ow_session o)) as [st' E]. rewrite E in Hu. injection Hu as <- <-.
    split; [|apply Forall_insert; [done|]; eapply after_call_sound; [apply tidy_clear_session|done..]|done].
    eapply matched_call; [exact Hb|done..|]. unfold has_client. by rewrite Ho.
  - destruct (thread_owned th o Hth Ho) as [H1 H2]. split; simpl.
    + eapply matched_call; [exact Hb|by destruct r as [[]|]|done..|]. unfold has_client. rewrite Ho.
      by destruct r as [[]|].
    + apply Forall_insert; [done|]. eapply after_call_sound; [apply tidy_measure|done..].
    + constructor; [by eapply measure_sound|done].
  - split; simpl; [eapply matched_call; [exact Hb|done..|]; unfold has_client; by rewrite Ho| |done].
    apply Forall_insert; [done|]. split; [|done]. apply destroyed_audit. simpl.
    destruct Hth as [Ha _]. unfold holds in Ha. by rewrite Ho in Ha.
Qed.

Lemma load_reachable_sound st s : client_limits config -> drive_reachable st s -> load_sound s.
Proof.
  intros Hlim. apply drive_invariant; [apply load_sound_new|apply load_sound_spawn|].
  intros s1 s2. by apply load_sound_step.
Qed.

(** How many threads there are. *)
Definition staged (st : stage) (s : Load) : Prop :=
  let n := Z.of_nat (length (bs_threads (ld_bench s))) in
  match st with
  | Spawning => n <= Z.max 0 (thread_count config)
  | Joining => n = thread_count config
  | Returned => n = thread_count config /\ Forall over (bs_threads (ld_bench s))
  | Threw => n = 0
  | Terminated => 0 < n < thread_count config
  end.

Lemma load_step_threads s s' :
  load_step s s' -> length (bs_threads (ld_bench s')) = length (bs_threads (ld_bench s)).
Proof.
  assert (H : forall a b b', bstep a b b' -> a <> Spawned -> length (bs_threads b') = length (bs_threads b)).
  { intros a b b' Hb Ha. destruct (bstep_moves _ _ _ Hb Ha) as (i & p & p' & _ & -> & _). apply length_insert. }
  intros Hs. destruct Hs; simpl; (eapply H; [eassumption|]); try done; by destruct r as [[]|].
Qed.

Lemma drive_staged st s : client_limits config -> drive_reachable st s -> staged st s.
Proof.
  intros Hlim Hr. assert (Hs : staged st s /\ load_sound s); [|apply Hs].
  apply rtc_ind_r with (P := fun x => staged x.1 x.2 /\ load_sound x.2) (z := (st, s)) in Hr; [done| |].
  { split; [unfold staged; simpl; lia|apply load_sound_new]. }
  intros x y Hx Hd [IH [Hm Ht Hrs]]. split.
  - assert (Hlen : length (bs_threads (ld_bench x.2)) = length (ld_threads x.2))
      by (unfold matched in Hm; by eapply Forall2_length).
    destruct Hd as [b b' ts rs Hn Hb|b rs Hn|b th ts rs Hn|b ts rs Hn|b ts rs Ho|st' s1 s2 Hst Hl];
      unfold staged in *; simpl in *; try lia.
    + inversion Hb; subst. simpl in *. rewrite length_app. simpl. lia.
    + split; [lia|done].
    + apply load_step_threads in Hl. rewrite Hl. by destruct Hst as [-> | ->].
  - destruct y as [st2 s2]. eapply (load_reachable_sound st2); [done|]. eapply rtc_r; [exact Hx|exact Hd].
Qed.

(** ** The books *)

(** A critical section on the summary. *)
Inductive entry :=
  | Counted (r : ClientResult)
  | Abandoned (n : Z) (what : string).

Definition post (sum : BenchmarkSummary) (e : entry) : BenchmarkSummary :=
  match e with
  | Counted r => record_result sum r
  | Abandoned n what => record_abandoned sum n what
  end.

Definition counted (e : entry) : option ClientResult :=
  match e with Counted r => Some r | Abandoned _ _ => None end.

(** A result on its way to the summary. *)
Definition reporting (p : phase) : option ClientResult := match p with Reporting r => Some r | _ => None end.

(** The result of a measured connection, and its loss. *)
Definition reported (r : run) : option ClientResult :=
  if run_warmup r then None else match run_outcome r with Ok (_, res) => Some res | Throw _ => None end.

Definition thrown (r : run) : bool := match run_outcome r with Ok _ => false | Throw _ => true end.

Definition lost (r : run) : bool := negb (run_warmup r) && thrown r.

Definition warming (p : phase) : option unit := match p with WarmRunning => Some tt | _ => None end.

(** What an action brings to the books. *)
Definition brings (a : action) : option ClientResult := match a with Ran _ r => Some r | _ => None end.
Definition loses (a : action) : nat := match a with Died _ => 1 | _ => 0 end.
Definition warmed (a : action) : nat := match a with WarmRan _ | WarmDied _ => 1 | _ => 0 end.

Lemma bstep_books a b b' :
  bstep a b b' -> exists entries,
    bs_summary b' = foldl post (bs_summary b) entries /\
    omap counted entries ++ omap reporting (bs_threads b') ≡ₚ
      option_list (brings a) ++ omap reporting (bs_threads b) /\
    bs_lost b' = (loses a + bs_lost b)%nat.
Proof.
  destruct 1 as [| |rem wu sum ts lost i n what| | | | | | | | | | | | | |rem wu sum ts lost i r|rem wu sum ts lost];
    try match goal with Hi : ?ts !! ?i = Some _ |- context [<[?i := ?p']> ?ts] =>
      pose proof (omap_insert_perm reporting ts i _ p' Hi) as E end; simpl in *.
  all: try (exists []; by rewrite E).
  - exists [Abandoned n what]. by rewrite E.
  - exists [Counted r]. by rewrite E.
  - exists []. rewrite omap_app. simpl. by rewrite (right_id_L [] (++)).
Qed.

Lemma bstep_warm a b b' :
  is_u32 (bs_warmup b) -> bstep a b b' ->
  is_u32 (bs_warmup b') /\
  bs_warmup b' + Z.of_nat (length (omap warming (bs_threads b'))) + Z.of_nat (warmed a) =
    bs_warmup b + Z.of_nat (length (omap warming (bs_threads b))).
Proof.
  intros Hu Hs. destruct Hs;
    try match goal with Hi : ?ts !! ?i = Some _ |- context [<[?i := ?p']> ?ts] =>
      pose proof (Permutation_length (omap_insert_perm warming ts i _ p' Hi)) as E end;
    try rewrite !length_app in E; simpl in *.
  all: try (split; [done|lia]).
  - unfold is_u32, u32_max in *. rewrite u32_id by lia. split; lia.
  - split; [done|]. rewrite omap_app, length_app. simpl. lia.
Qed.

Definition books (s : Load) : Prop :=
  (exists entries,
     bs_summary (ld_bench s) = foldl post (bs_summary (Bench_new config)) entries /\
     omap counted entries ++ omap reporting (bs_threads (ld_bench s)) ≡ₚ omap reported (ld_runs s)) /\
  bs_lost (ld_bench s) = length (List.filter lost (ld_runs s)) /\
  is_u32 (bs_warmup (ld_bench s)) /\
  bs_warmup (ld_bench s) + Z.of_nat (length (omap warming (bs_threads (ld_bench s)))) +
    Z.of_nat (length (List.filter run_warmup (ld_runs s))) = warmup_connections config.

Lemma books_new : is_u32 (warmup_connections config) -> books (Load_new config).
Proof.
  intros Hw. unfold books. simpl. splits; [by exists []|done|done|lia].
Qed.

(** A step that adds the runs the action stands for. *)
Lemma books_add a b b' ts ts' rs new :
  bstep a b b' -> books (mkLoad b ts rs) ->
  omap reported new = option_list (brings a) -> length (List.filter lost new) = loses a ->
  length (List.filter run_warmup new) = warmed a -> books (mkLoad b' ts' (new ++ rs)).
Proof.
  intros Hb ((es & He & Hp) & Hl & Hu & Hw) H1 H2 H3. unfold books in *. simpl in *.
  destruct (bstep_books _ _ _ Hb) as (es' & He' & Hp' & Hl'). destruct (bstep_warm _ _ _ Hu Hb) as [Hu' Hw'].
  rewrite !List.filter_app, !length_app, H2, H3. splits; [|lia|done|lia].
  exists (es ++ es'). split; [by rewrite foldl_app, <- He|].
  rewrite !omap_app, H1, <- Hp, <- (assoc_L (++)), Hp'. solve_Permutation.
Qed.

Lemma books_step s s' : load_step s s' -> books s -> books s'.
Proof.
  intros Hs H. destruct Hs as [b b' ts rs Hb|b b' ts rs i th w r s Hi Hu Hb|b b' ts rs i th o w r st Hi Ho Hu Hb
    |b b' ts rs i th o w r st Hi Ho Hu Hb|b b' ts rs i th o w r st Hi Ho Hu Hb|b b' ts rs i th o w Hi Ho Hb s].
  - by eapply (books_add _ _ _ _ _ _ [] Hb).
  - by eapply (books_add _ _ _ _ _ _ [] Hb); [..|destruct r as [[]|]|destruct r as [[]|]|destruct r as [[]|]].
  - by eapply (books_add _ _ _ _ _ _ [_] Hb); [..|destruct r|destruct r|destruct r].
  - by eapply (books_add _ _ _ _ _ _ [] Hb).
  - by eapply (books_add _ _ _ _ _ _ [_] Hb); [..|destruct r as [[]|]|destruct r as [[]|]|destruct r as [[]|]].
  - by eapply (books_add _ _ _ _ _ _ [] Hb).
Qed.

Lemma load_reachable_books st s : is_u32 (warmup_connections config) -> drive_reachable st s -> books s.
Proof.
  intros Hw. apply drive_invariant; [by apply books_new| |apply books_step].
  intros b b' ts rs Hb H. by eapply (books_add _ _ _ _ _ _ [] Hb).
Qed.

(** The samples in a summary are those of the successes entered. *)
Definition handshake_times (rs : list ClientResult) : list double :=
  map (fun r => m_handshake_ms (cr_metrics r)) (List.filter cr_ok rs).

Definition connection_times (rs : list ClientResult) : list double :=
  map (fun r => m_connection_ms (cr_metrics r)) (List.filter cr_ok rs).

Lemma foldl_samples entries sum :
  sum_handshake_ms (foldl post sum entries) = sum_handshake_ms sum ++ handshake_times (omap counted entries) /\
  sum_connection_ms (foldl post sum entries) = sum_connection_ms sum ++ connection_times (omap counted entries).
Proof.
  unfold handshake_times, connection_times. revert sum.
  induction entries as [|[r|n what] es IH]; intros sum; simpl; [by rewrite !(right_id_L [] (++))|..].
  - destruct (IH (record_result sum r)) as [-> ->]. destruct sum; simpl.
    destruct (cr_ok r); simpl; by rewrite <- ?(assoc_L (++)).
  - destruct (IH (record_abandoned sum n what)) as [-> ->]. by destruct sum.
Qed.

Lemma filter_perm {A} (f : A -> bool) l1 l2 : l1 ≡ₚ l2 -> List.filter f l1 ≡ₚ List.filter f l2.
Proof.
  induction 1; simpl; [done|by destruct (f x); [constructor|]|
    by destruct (f x), (f y); try constructor|by etrans].
Qed.

Lemma omap_over (ts : list phase) : Forall over ts -> omap reporting ts = [].
Proof. by induction 1 as [|p ts [-> | ->] _ IH]. Qed.

(** The lines of the measured connections. *)
Definition measured_lines (s : Load) : list string :=
  concat (map run_lines (List.filter (fun r => negb (run_warmup r)) (ld_runs s))).

Lemma runs_recorded rs :
  Forall run_sound rs ->
  Forall2 (fun line res => to_jsonl_line (cr_metrics res) = Ok line)
    (concat (map run_lines (List.filter (fun r => negb (run_warmup r)) rs)))
    (if recording writer then omap reported rs else []).
Proof.
  induction 1 as [|r rs (_ & _ & _ & Hr) _ IH]; simpl; [by case_match|].
  unfold reported. destruct (run_warmup r); simpl; [exact IH|].
  destruct (run_outcome r) as [[ms res]|x]; simpl.
  - destruct Hr as (_ & _ & _ & _ & Hl). specialize (Hl eq_refl).
    destruct (recording writer); [destruct Hl as (line & Hd & ->); by constructor|by rewrite Hl].
  - destruct Hr as [_ ->]. exact IH.
Qed.

(** ** When nothing kills a thread *)

(** The random generator works, and every record of this benchmark can be
    serialised. *)
Definition untroubled : Prop :=
  generator_works W /\ forall context ms, configured context -> client_serialisable config context ms.

Definition alive (s : Load) : Prop := Forall (fun p => p <> Dead) (bs_threads (ld_bench s)).

Definition kills (a : action) : bool :=
  match a with SetUpDied _ | WarmDied _ | Died _ => true | _ => false end.

Lemma bstep_alive a b b' :
  bstep a b b' -> kills a = false -> Forall (fun p => p <> Dead) (bs_threads b) ->
  Forall (fun p => p <> Dead) (bs_threads b').
Proof.
  destruct 1; intros Ha Hd; simpl in *; try done;
    try (by apply Forall_insert); apply Forall_app; split; [done|by repeat constructor].
Qed.

Lemma throws_set_up : throws (fun _ => ~ generator_works W) set_up.
Proof.
  unfold set_up. apply throws_bind.
  - intros s1 x s2 E. unfold try_catch in E. exfalso.
    assert (Ht : throws real (context ← PqTlsClient_new config registry; mret (inr (A := string) context)))
      by (apply throws_bind; [apply throws_new_client|intros; apply throws_ret]).
    destruct ((context ← PqTlsClient_new config registry; mret (inr context)) s1) as [[a|y] s3] eqn:Ey; [done|].
    by rewrite (proj1 (Ht _ _ _ Ey)) in E.
  - intros [what|context]; [apply throws_ret|]. apply throws_bind; [|intros; apply throws_ret].
    intros s1 x s2 E. unfold guarded in E. destruct (make_request Ping JNull s1) as [[a|y] s3] eqn:Em; [done|].
    by apply throws_request in Em as [].
Qed.

Lemma killing_troubled context x : untroubled -> configured context -> ~ killing context x.
Proof. intros [Hg Hser] Hc [_ Hk]. apply Hk; auto. Qed.

Lemma alive_step s s' :
  untroubled -> client_limits config -> load_step s s' -> load_sound s -> alive s -> alive s'.
Proof.
  intros Hu Hlim Hs Hsound Ha. pose proof (load_sound_step _ _ Hlim Hs Hsound) as [_ _ Hr].
  unfold alive in *. destruct Hs; simpl in *; (eapply bstep_alive; [eassumption| |done]); try done.
  - destruct r as [[]|x]; [done..|]. exfalso. by eapply (throws_set_up _ _ _ H0), Hu.
  - destruct r as [a|x]; [done|]. exfalso. apply Forall_cons_1 in Hr as [(Hc & _ & _ & Hk & _) _]. simpl in *.
    by eapply killing_troubled.
  - destruct r as [[]|x]; [done|]. exfalso. apply Forall_cons_1 in Hr as [(Hc & _ & _ & Hk & _) _]. simpl in *.
    by eapply killing_troubled.
Qed.

Lemma drive_alive st s : untroubled -> client_limits config -> drive_reachable st s -> alive s.
Proof.
  intros Hu Hlim Hr. assert (H : load_sound s /\ alive s); [|apply H]. revert Hr.
  apply (drive_invariant (fun s => load_sound s /\ alive s)); [split; [apply load_sound_new|constructor]|..].
  - intros b b' ts rs Hb [H1 H2]. split; [by eapply load_sound_spawn|]. by eapply bstep_alive.
  - intros s1 s2 Hs [H1 H2]. split; [by eapply load_sound_step|]. by eapply alive_step.
Qed.

(** When every thread has ended: nothing is held, and the summary has the time of
    every measured connection that succeeded, once. *)
Definition settled_up (s : Load) : Prop :=
  let sum := bs_summary (ld_bench s) in
  let results := omap reported (ld_runs s) in
  Forall (fun th => audit (th_log th) ∅ = Some ∅) (ld_threads s) /\
  successful sum = Z.of_nat (length (List.filter cr_ok results)) /\
  sum_handshake_ms sum ≡ₚ handshake_times results /\ sum_connection_ms sum ≡ₚ connection_times results.

Lemma over_settled st s :
  is_u32 (connections config) -> is_u32 (warmup_connections config) -> client_limits config ->
  drive_reachable st s -> Forall over (bs_threads (ld_bench s)) -> settled_up s.
Proof.
  intros Hc Hw Hlim Hr Ho. destruct (load_reachable_sound st s Hlim Hr) as [Hm Ht _].
  destruct (load_reachable_books st s Hw Hr) as [(es & He & Hp) _].
  destruct (breachable_balanced config _ Hc (load_reachable_bench st s Hr)) as (_ & _ & _ & _ & Hn & _).
  rewrite (omap_over _ Ho), (right_id_L [] (++)) in Hp. unfold settled_up.
  destruct (foldl_samples es (bs_summary (Bench_new config))) as [H1 H2]. rewrite <- He in H1, H2. simpl in H1, H2.
  splits.
  - apply Forall_lookup. intros i th Hi. rewrite Forall_lookup in Ht. destruct (Ht _ _ Hi) as [Ha _].
    destruct (Forall2_lookup_r _ _ _ _ _ Hm Hi) as (p & Hpi & Hown). rewrite Forall_lookup in Ho.
    unfold holds, has_client in *. destruct (Ho _ _ Hpi) as [-> | ->]; by destruct (th_client th).
  - rewrite <- Hn, H1. unfold handshake_times. by rewrite length_map, (filter_perm cr_ok _ _ Hp).
  - rewrite H1. unfold handshake_times. by rewrite (filter_perm cr_ok _ _ Hp).
  - rewrite H2. unfold connection_times. by rewrite (filter_perm cr_ok _ _ Hp).
Qed.

(** ** The claim *)


End load.

(** ** An example *)

(** One thread, one warm-up connection and one measured connection, against a
    server that answers one request. *)
Definition load_client : ClientConfig :=
  mkClientConfig (s_common small_server) "localhost" 8443 "" "" "" 1 1 1 true 1 "".

Definition load_example : stage * Load -> stage * Load -> Prop :=
  drive (RA := toy_clock) (J := toy_protocol) (EA := toy_env None) (SA := toy_sockets) (LA := toy_ssl)
    (CA := toy_ctx "X25519MLKEM768") (MA := toy_metrics) (KA := toy_client)
    load_client builtin_definitions (Some true).

(** Extends a run by a step of the shared variables, or by a call on the client
    that meets the given world. *)
Ltac evaluated := vm_compute; reflexivity.
Tactic Notation "shares" uconstr(t) :=
  eapply rtc_l; [apply DriveThread; [by auto|];
    apply LoadAtomic; apply t with (i := 0%nat); first [reflexivity|by vm_compute]|simpl].
Tactic Notation "calls" uconstr(t) "with" constr(world) "as" uconstr(b) :=
  eapply rtc_l; [apply DriveThread; [by auto|];
    eapply t with (i := 0%nat) (w := world); [evaluated..|]; eapply b; first [evaluated|done]|simpl].

Lemma load_example_runs :
  exists s, rtc load_example (Spawning, Load_new load_client) (Returned, s) /\
    successful (bs_summary (ld_bench s)) = 1 /\ length (omap reported (ld_runs s)) = 1%nat.
Proof.
  eexists. split.
  - unfold load_example, Load_new, Bench_new. simpl.
    eapply rtc_l; [apply DriveSpawn; [done|apply BSpawn]|simpl].
    calls LoadSetUp with ([] : list byte) as BReady.
    eapply rtc_l; [apply DriveSpawned; reflexivity|].
    shares BWarmLoad. shares BWarmCas.
    calls LoadWarm with (frame_of "ping") as BWarmRan. shares BWarmLoad.
    calls LoadClear with ([] : list byte) as BWarmEnd. shares BLoad. shares BCas.
    calls LoadMeasure with (frame_of "ping") as BRan. shares BReport. shares BLoad.
    eapply rtc_l; [apply DriveThread; [by auto|]; eapply LoadEnd with (i := 0%nat) (w := []); [reflexivity..|];
      eapply BEnd; first [reflexivity|by vm_compute]|].
    eapply rtc_l; [apply DriveJoined; repeat constructor|]. apply rtc_refl.
  - by vm_compute.
Qed.

